(* ===== verification/_CoqProject ===== *)
-Q . S2P
Prelude.v
Span.v
IoBuffer.v
FlipBuffer.v
Messages.v
ReliableStream.v
PacketDeliveryManager.v
ConnectionManager.v
Handshake.v
UnreliableStream.v
Ticker.v
Metrics.v
IpAddress.v
OrderedMap.v
Network.v
Neptun.v
WellFormed.v
Datagrams.v
Format.v
Pcap.v
Example.v
Scenarios.v
NeptunTest.v
Channel.v
Progress.v
System.v
Ends.v
Lossy.v
Rounds.v
Startup.v
Contract.v
HalfOpen.v
