(* ===== verification/Prelude.v ===== *)
(** * Neptun: a message transport over UDP

    A development beside the C++ sources in src/. Neptun sends reliable and unreliable
    messages between endpoints over UDP. An endpoint has a peer per remote address;
    a peer is a stack of four parts, each of which writes a segment of an outgoing
    packet and reads one of an incoming packet, in this order:

    - the packet delivery manager numbers packets, acknowledges the peer's and turns
      acknowledgements and timeouts into a delivery status (ACK or DROP) per packet;
    - the connection manager exchanges the bandwidth limits (the handshake);
    - the reliable stream sends messages again until a packet with them is
      acknowledged, and hands over those it expects;
    - the unreliable stream sends what fits and forgets the rest.

    [Neptun::tick] drops packets that timed out, reads a packet, and writes one to
    every peer whose ticker allows it. A packet on the wire is a header (id, first
    acknowledged id, mask of 32), an optional handshake segment, an optional reliable
    segment and an optional unreliable segment.

    ** Files

    - [Prelude]: faults and the [result] monad, machine integers, lists, tactics.
    - [Span]: [std::span] and [advance] (common/types.h); the class [Platform].
    - [IoBuffer], [FlipBuffer]: network/io_buffer.h, common/flip_buffer.h.
    - [Messages]: neptun/messages/, neptun/common.h, neptun/error.h,
      network/message.h; one Module per message class.
    - [ReliableStream], [PacketDeliveryManager], [ConnectionManager],
      [UnreliableStream]: the headers of these names in neptun/.
    - [Ticker], [Metrics]: common/ticker.h, common/metrics.h and the metric keys in
      neptun/neptun_metrics.h and network/network_metrics.h.
    - [IpAddress], [OrderedMap]: network/ip_address.h, and [std::map] over it.
    - [Network]: network/network.h (the class [Network] and [OsNetwork]),
      network/fake_network.h ([FakeNetwork]), network/udp_socket.h ([UdpSocket]).
    - [Neptun]: neptun/neptun.h, the endpoint. [WellFormed]: the states it can be in.
    - [Handshake]: two connection managers and the network between them, as a step
      relation on whole packets, whose acknowledgements and message arrive together.
      [HalfOpen]: packets for an endpoint that is not connected yet, and runs of
      handshakes that lose a packet.
    - [Channel]: two connected endpoints over a network that loses, duplicates,
      delays and reorders packets. [Progress]: what a network that lets packets
      through delivers.
    - [Datagrams]: what UDP promises of contents, a class that [FakeNetwork]
      implements. [System]: any number of endpoints that call [connect], the two sends
      and [tick] over such a network, and their simulation by [Channel]. [Ends]: one
      endpoint on [FakeNetwork], whose calls return and are runs of [Channel]. [Lossy]:
      two of them, with [drop_packets] called at any time. [Rounds]: what they deliver
      by ticking in turn. [Startup]: the same from the constructors and [connect] on.
      [Contract]: the abstract service, two pipes, that the endpoints refine.
    - [Scenarios], [NeptunTest]: the tests of neptun/neptun_test.cc, run on the model,
      with the clock common/fake_clock.h.
    - [Format]: neptun/format.h. [Pcap]: neptun/pcap/. [Example]: neptun/example.cc and
      neptun/example_udp.cc.

    ** How the code is read

    A class is a Record with the names of its members, a method a definition that
    takes the object and gives the new one. Every method is a function to [result]: it
    returns, or stops with a fault, which is a failed [assert], an exception or
    behaviour that the standard leaves undefined and that the code can reach: an
    index, sub-span or iterator out of range, [pop] of an empty queue, signed
    overflow, a remainder by zero, a shift by the width, an uninitialised value. A
    container that views another's memory is the list of the elements it sees, and a
    method that writes through a span gives the new contents, which [on_advance] puts
    back into the span around it. Integers are [Z]; a value of an unsigned type of
    [w] bits is reduced with [wrap w] where the code can leave its range. Times are
    counts of nanoseconds in 64 signed bits. Callbacks are the list of the payloads
    they get; an application's writer ([WriteToBufferFn]) is a function with the
    law [WriterOk]. Lines that a tool prints before it fails are not kept.

    Two things the program does in ordinary runs are undefined by the standard: the
    [pop] of an empty queue in [ConnectionManager::on_packet_status_delivery], and
    reads just behind a span inside a larger vector (a LetsConnect is one byte longer
    than its size says). The class [Platform] of Span.v says what they do: [standard]
    makes them faults, [tolerant] goes on as the repository's tests need. The
    theorems hold for every platform unless they name one. The over-reads of the
    pcap tool, whose parts read one span from its start, are always faults.

    Code that is not in the repository is a parameter: the system calls ([Syscalls]
    with the laws [SyscallsOk]), the byte-order functions ([ByteOrder], [ByteOrderOk]),
    [ctime]. What one component promises another is a class: [Network] with [NetworkOk]
    (what [UdpSocket] and [Neptun] need of a network; discharged by [FakeNetwork] and,
    from the laws of the system calls, by [OsNetwork]), [MetricKey] with [MetricKeyOk],
    [MapOrder] with [MapOrderOk].

    ** What is shown

    - End to end: reliable messages are delivered exactly once and in order, and
      unreliable ones at most once and in order, whatever the network does, as long as
      no call fails ([Channel], and [System] for the public calls of any number of
      endpoints, which refine the channel); on a network that loses packets but keeps
      their order no call fails; once such a network lets packets through, everything
      is delivered in a bounded number of turns ([Progress]).
    - The same for the public calls over [FakeNetwork], where no call can fail: two
      endpoints that send and tick as they like while packets are dropped at times
      ([Lossy]), and, once packets get through, tick in turn, have everything delivered
      within one round more than there are messages to acknowledge, if each fits into a
      packet ([Rounds]). Both hold from the constructors on, for limits of at least 100
      bytes to send and 256 to read and on a platform that is as [tolerant] as the
      handshake needs: [connect] and two ticks of each endpoint connect them
      ([Startup]). Rate limits may be agreed on: an endpoint then ticks an interval
      after its last tick to be sure to write.
    - The refinement of an abstract service ([Contract]): what the applications at two
      connected endpoints see is, event by event, a run of a queue of reliable messages
      and a list of unreliable ones that may be forgotten, in each direction; for any
      network, and from the constructors on over [FakeNetwork].
    - The handshake ([Handshake]): two ends agree on the limits, and are fully connected
      and idle after one request and one response; when both connect at the same time
      and a request is lost, one end never learns the limits of the other.
    - Any state an endpoint gets to is well formed ([WellFormed]).
    - Each part: its invariant and that every operation keeps it; that reading returns
      on any bytes; that what one side writes the other reads. In particular every
      packet gets exactly one status, in order; a header's acknowledgements mean what
      was received; [send] keeps the outstanding payloads when the buffer is moved; a
      packet keeps to the size limits of both sides; at most rate + 1 packets go out
      in a second; accepted ids increase.
    - The foundations: bit fields and big-endian integers, addresses, maps, the
      fake network's queues, the operating system's network against its contract,
      the printed form of packets and capture files.
    - Faults the code runs into, each on a concrete or general input: statuses that
      an old packet loses ([Neptun.lost_statuses_crash]), the overlapping LetsConnect,
      the empty [pop], a rejection that is never sent, 256 unreliable messages, space that
      dropped messages keep, the wrap-around of ids, short datagrams, messages that no packet can hold, messages
      acknowledged by an unconnected endpoint that throws them away ([HalfOpen]), the interval of
      0 in the example program ([Example.example_divides_by_zero]).

    ** Bounds and fuel

    Loops over a container recurse on it, loops with a counter on the count. Three
    loops have fuel: [Format.format_loop] (the length of the payload, of which every
    segment takes two bytes; [Format.format_loop_fuel]), [Pcap.record_loop] (two more
    than the unread bytes, as each turn takes 16 or meets the end;
    [Pcap.record_loop_ends] compares it with its runs without fuel) and the address parser, whose digits and dots bound it.
    Buffers are taken to be shorter than 2^62 bytes. Theorems about packet ids
    suppose that they have not reached 2^32, sequence numbers may wrap around;
    [PacketDeliveryManager.id_wraparound_breaks_acks] says what happens then. A packet
    of at most 1793 bytes holds fewer than 256 reliable messages, which the one-byte
    counter needs; [Neptun::write] uses at most 1400.

    ** Not modelled

    Tests and test helpers (the tests of neptun/neptun_test.cc that do not just fail are
    run in [Scenarios] and [NeptunTest]), build files, how a stream formats a [double],
    sleeping, and the progress messages of neptun/example.cc. network/main.cc does not
    compile: it needs a header and classes that the repository does not have. *)
From Stdlib Require Import ZArith Lia.
From stdpp Require Import prelude strings.
Open Scope Z_scope.

(** ** Faults and the result monad *)

(** Behaviour the C++ standard leaves undefined, as far as the code can reach it. *)
Inductive ub : Set :=
  | OutOfBounds      (** a [std::span]/[std::vector] index, sub-span or iterator out of range *)
  | EmptyQueue       (** [front] or [pop] on an empty [std::queue] *)
  | SignedOverflow   (** overflow of a signed 64-bit count of nanoseconds *)
  | DivByZero        (** [%] by zero *)
  | BadShift         (** a shift by the width of the type or more *)
  | Indeterminate.   (** the value of a variable that has not been initialised *)

(** How a run of the code can stop without returning. *)
Inductive fault : Set :=
  | Undefined (u : ub)
  | AssertFailed
  | Thrown (what : string).

Inductive result (A : Type) : Type :=
  | Ok (a : A)
  | Fault (f : fault).
Arguments Ok {A} a.
Arguments Fault {A} f.

#[export] Instance ub_eq_dec : EqDecision ub.
Proof. solve_decision. Defined.
#[export] Instance fault_eq_dec : EqDecision fault.
Proof. solve_decision. Defined.
#[export] Instance result_eq_dec {A} `{!EqDecision A} : EqDecision (result A).
Proof. solve_decision. Defined.

#[export] Instance result_ret : MRet result := λ _ a, Ok a.
#[export] Instance result_bind : MBind result := λ _ _ f m,
  match m with Ok a => f a | Fault e => Fault e end.

(** [require b f] continues when [b] holds and stops with the fault [f] otherwise. *)
Definition require (b : bool) (f : fault) : result unit :=
  if b then Ok tt else Fault f.

(** The C [assert] macro. *)
Definition assert_that (b : bool) : result unit := require b AssertFailed.

Definition is_ok {A} (r : result A) : bool :=
  match r with Ok _ => true | Fault _ => false end.

Lemma bind_Ok {A B} (m : result A) (f : A → result B) (b : B) :
  m ≫= f = Ok b ↔ ∃ a, m = Ok a ∧ f a = Ok b.
Proof.
  destruct m as [a|e]; simpl; split; [eauto | by intros (? & [= ->] & ?) | done |].
  by intros (? & ? & ?).
Qed.

Lemma bind_Fault {A B} (m : result A) (f : A → result B) (e : fault) :
  m ≫= f = Fault e ↔ m = Fault e ∨ ∃ a, m = Ok a ∧ f a = Fault e.
Proof.
  destruct m as [a|e']; simpl; split; [eauto | | by intros [= ->]; left |].
  - by intros [?|(? & [= ->] & ?)].
  - by intros [[= ->]|(? & ? & ?)].
Qed.

Lemma bind_assoc {A B C} (m : result A) (f : A → result B) (g : B → result C) :
  (m ≫= f) ≫= g = m ≫= (λ a, f a ≫= g).
Proof. by destruct m. Qed.

Lemma require_Ok b f u : require b f = Ok u ↔ b = true.
Proof. destruct b, u; naive_solver. Qed.

Lemma require_true (b : bool) f : b = true → require b f = Ok tt.
Proof. by intros ->. Qed.

Lemma assert_that_Ok b u : assert_that b = Ok u ↔ b = true.
Proof. apply require_Ok. Qed.

Lemma assert_that_true (b : bool) : b = true → assert_that b = Ok tt.
Proof. apply require_true. Qed.

(** Decomposes every hypothesis [m ≫= f = Ok b] and every passed check. *)
Ltac inv_result :=
  repeat match goal with
  | H : _ ≫= _ = Ok _ |- _ =>
      let a := fresh "a" in let H1 := fresh H in let H2 := fresh H in
      destruct (proj1 (bind_Ok _ _ _) H) as (a & H1 & H2); clear H; rename H2 into H
  | H : require _ _ = Ok _ |- _ => apply require_Ok in H
  | H : assert_that _ = Ok _ |- _ => apply assert_that_Ok in H
  | H : Ok _ = Ok _ |- _ => injection H as H; subst
  | H : Fault _ = Ok _ |- _ => discriminate H
  | H : Ok _ = Fault _ |- _ => discriminate H
  | H : mret _ = Ok _ |- _ => unfold mret, result_ret in H
  | p : _ * _ |- _ => destruct p
  | u : unit |- _ => destruct u
  end.

(** Runs the goal forward through a bind whose first part is known to succeed. *)
Ltac step_with H := rewrite H; cbn [mbind result_bind].

(** Case analysis on every integer comparison of the goal. *)
Ltac zcases :=
  repeat match goal with
  | |- context [?a <? ?b] => destruct (Z.ltb_spec a b)
  | |- context [?a <=? ?b] => destruct (Z.leb_spec a b)
  | |- context [?a =? ?b] => destruct (Z.eqb_spec a b)
  end; simpl; try (done || lia).

(** ** Machine integers *)

(** An unsigned value of [w] bits: C++ arithmetic on it is modulo [2 ^ w]. *)
Definition wrap (w z : Z) : Z := z mod 2 ^ w.

Abbreviation u8 := (wrap 8).
Abbreviation u16 := (wrap 16).
Abbreviation u32 := (wrap 32).
Abbreviation usize := (wrap 64).

Definition in_u (w z : Z) : Prop := 0 ≤ z < 2 ^ w.

#[export] Instance in_u_dec w z : Decision (in_u w z).
Proof. unfold in_u. apply _. Defined.

Lemma wrap_range w z : 0 ≤ w → in_u w (wrap w z).
Proof. intros. apply Z.mod_pos_bound. lia. Qed.

Lemma wrap_small w z : in_u w z → wrap w z = z.
Proof. intros. by apply Z.mod_small. Qed.

Lemma wrap_wrap w z : wrap w (wrap w z) = wrap w z.
Proof. apply Zmod_mod. Qed.

Lemma wrap_add_l w a b : wrap w (wrap w a + b) = wrap w (a + b).
Proof. apply Zplus_mod_idemp_l. Qed.

Lemma wrap_lor w a b : 0 ≤ w → wrap w (Z.lor a b) = Z.lor (wrap w a) (wrap w b).
Proof. intros. unfold wrap. rewrite <-!Z.land_ones by done. apply Z.land_lor_distr_l. Qed.

Lemma wrap_cong w a b d :
  0 ≤ w → wrap w (a + d) = wrap w (b + d) → wrap w a = wrap w b.
Proof.
  intros Hw H. unfold wrap in *.
  replace a with ((a + d) + (- d)) by lia. replace b with ((b + d) + (- d)) by lia.
  by rewrite <-(Zplus_mod_idemp_l (a + d)), H, Zplus_mod_idemp_l.
Qed.

Lemma wrap_inj_window w a b :
  0 ≤ w → wrap w a = wrap w b → - 2 ^ w < a - b < 2 ^ w → a = b.
Proof.
  intros Hw H Hd. unfold wrap in *.
  assert (0 < 2 ^ w) by (apply Z.pow_pos_nonneg; lia).
  pose proof (Z.div_mod a (2 ^ w)) as Ha. pose proof (Z.div_mod b (2 ^ w)) as Hb.
  set (m := 2 ^ w) in *. assert (a / m = b / m) by nia. nia.
Qed.

(** Overflow check of a signed 64-bit result, as [std::chrono] counts are. *)
Definition i64 (z : Z) : result Z :=
  if (- 2 ^ 63 <=? z) && (z <? 2 ^ 63) then Ok z else Fault (Undefined SignedOverflow).

Definition in_i64 (z : Z) : Prop := - 2 ^ 63 ≤ z < 2 ^ 63.

Lemma i64_Ok z : in_i64 z → i64 z = Ok z.
Proof.
  intros [H1 H2]. unfold i64.
  by rewrite (proj2 (Z.leb_le _ _) H1), (proj2 (Z.ltb_lt _ _) H2).
Qed.

Lemma i64_inv z y : i64 z = Ok y → y = z ∧ in_i64 z.
Proof.
  unfold i64, in_i64. intros H.
  destruct (Z.leb_spec (- 2 ^ 63) z), (Z.ltb_spec z (2 ^ 63)); simpl in H; try done.
  injection H as ->. done.
Qed.

(** ** Loops *)

(** [for (i = lo; i < lo + n; i++) s = body(i, s)]. *)
Fixpoint for_range {S} (lo : Z) (n : nat) (body : Z → S → result S) (s : S) : result S :=
  match n with
  | O => Ok s
  | Datatypes.S n' => s' ← body lo s; for_range (lo + 1) n' body s'
  end.

(** Invariant rule: a loop whose body always succeeds succeeds. *)
Lemma for_range_inv {S} (P : Z → S → Prop) (body : Z → S → result S) lo n s :
  P lo s →
  (∀ i t, lo ≤ i < lo + Z.of_nat n → P i t → ∃ t', body i t = Ok t' ∧ P (i + 1) t') →
  ∃ s', for_range lo n body s = Ok s' ∧ P (lo + Z.of_nat n) s'.
Proof.
  revert lo s. induction n as [|n IH]; intros lo s HP Hbody; cbn [for_range].
  { exists s. by rewrite Z.add_0_r. }
  destruct (Hbody lo s) as (t & -> & Ht); [lia | done |].
  cbn [mbind result_bind].
  destruct (IH (lo + 1) t Ht) as (s' & Hs' & HP').
  { intros i u Hi. apply Hbody. lia. }
  exists s'. split; [done|].
  by replace (lo + Z.of_nat (Datatypes.S n)) with (lo + 1 + Z.of_nat n) by lia.
Qed.

(** ** Lists *)

(** Sizes are [usize] values in the code, so lengths are taken in [Z]. *)
Abbreviation len l := (Z.of_nat (length l)).
Abbreviation ztake i l := (take (Z.to_nat i) l).
Abbreviation zdrop i l := (drop (Z.to_nat i) l).

Abbreviation bytes := (list Z).

(** Every element is an [u8]. *)
Definition is_bytes (l : bytes) : Prop := Forall (in_u 8) l.

Create Rewrite HintDb lists.
#[export] Hint Rewrite @length_app @length_take @length_drop @length_cons @length_nil
  @length_insert @length_map @length_fmap @length_replicate @length_reverse @length_seq : lists.

(** Solves goals on list lengths and indices. *)
Ltac list_lia := autorewrite with lists in *; simpl in *; lia.

Lemma drop_S_lookup {A} (l : list A) (n : nat) x :
  l !! n = Some x → drop n l = x :: drop (S n) l.
Proof. apply drop_S. Qed.

Lemma insert_take_drop_app {A} (l : list A) (n : nat) (x : A) :
  (n < length l)%nat → <[n := x]> l = take n l ++ x :: drop (S n) l.
Proof. intros. by apply insert_take_drop. Qed.

(** [splice i new l] is [l] with the elements from index [i] on overwritten by [new]. *)
Definition splice {A} (i : nat) (new l : list A) : list A :=
  take i l ++ new ++ drop (i + length new) l.

Lemma splice_nil {A} i (l : list A) : splice i [] l = l.
Proof. unfold splice. simpl. rewrite Nat.add_0_r. apply take_drop. Qed.

Lemma splice_cons {A} i (x : A) new l :
  (i < length l)%nat → splice i (x :: new) l = splice (S i) new (<[i := x]> l).
Proof.
  intros Hi. unfold splice. rewrite (insert_take_drop_app l) by done.
  rewrite take_app_ge, drop_app_ge by list_lia.
  rewrite length_take, Nat.min_l by lia.
  replace (S i - i)%nat with 1%nat by lia.
  replace (S i + length new - i)%nat with (S (length new)) by lia. simpl.
  rewrite take_0, drop_drop, <-app_assoc. simpl. do 3 f_equal. f_equal; lia.
Qed.

Lemma length_splice {A} i (new l : list A) :
  (i + length new ≤ length l)%nat → length (splice i new l) = length l.
Proof. intros. unfold splice. list_lia. Qed.

Lemma splice_app {A} i (n1 n2 l : list A) :
  (i + length n1 + length n2 ≤ length l)%nat →
  splice (i + length n1) n2 (splice i n1 l) = splice i (n1 ++ n2) l.
Proof.
  intros Hi. unfold splice. rewrite (app_assoc (take i l)).
  rewrite take_app_ge, drop_app_ge by list_lia.
  rewrite length_app, length_take, Nat.min_l by lia.
  rewrite Nat.sub_diag. simpl. rewrite app_nil_r, drop_drop, length_app.
  rewrite <-!app_assoc. do 4 f_equal. lia.
Qed.

Lemma splice_0 {A} (new l : list A) : splice 0 new l = new ++ drop (length new) l.
Proof. done. Qed.

Lemma take_reassoc {A} (i : nat) (a b : list A) :
  i = length a → take i (a ++ b) = a.
Proof. intros ->. apply take_app_length. Qed.

Lemma drop_reassoc {A} (i : nat) (a b : list A) :
  i = length a → drop i (a ++ b) = b.
Proof. intros ->. apply drop_app_length. Qed.

Lemma take_drop_taken {A} n (l : list A) : take n l ++ drop (length (take n l)) l = l.
Proof.
  rewrite length_take. destruct (Nat.le_ge_cases n (length l)).
  - by rewrite Nat.min_l, take_drop.
  - by rewrite Nat.min_r, take_ge, drop_all, app_nil_r.
Qed.

(** ** Bits *)

(** [or] of a shifted value with a value that fits below it is a sum. *)
Lemma lor_shiftl_add a b k :
  0 ≤ k → in_u k b → Z.lor (Z.shiftl a k) b = a * 2 ^ k + b.
Proof.
  intros Hk Hb. unfold in_u in Hb.
  assert (Z.land (Z.shiftl a k) b = 0) as H0.
  { apply Z.bits_inj'. intros n Hn. rewrite Z.land_spec, Z.shiftl_spec, Z.bits_0 by lia.
    destruct (decide (n < k)); [by rewrite Z.testbit_neg_r by lia|].
    rewrite andb_comm, <-(Z.mod_small b (2 ^ k)) by lia. by rewrite Z.mod_pow2_bits_high by lia. }
  rewrite <-Z.lxor_lor, <-Z.add_nocarry_lxor by done. by rewrite Z.shiftl_mul_pow2 by lia.
Qed.
