(* ===== verification/Span.v ===== *)
(** * Spans: the part of [std::span] and [std::vector] the program uses

    A [byte_span] is modelled by the elements it views. Reading an element or
    taking a sub-span outside its bounds is undefined behaviour in C++ and a
    fault here. Writing through a span yields the new contents of the viewed
    elements, and [on_advance] puts the new contents of a sub-span back into the
    span it was cut from, so that writes through a view reach the vector below.
    Also [advance] of common/types.h. *)
From Stdlib Require Import ZArith Lia.
From stdpp Require Import prelude strings.
From S2P Require Import Prelude.
Open Scope Z_scope.

Definition out_of_bounds {A} : result A := Fault (Undefined OutOfBounds).

Section Span.
Context {A : Type}.
Implicit Types (s : list A) (i n count off : Z).

(** [s[i]] *)
Definition span_get s i : result A :=
  if 0 <=? i then
    match s !! Z.to_nat i with Some x => Ok x | None => out_of_bounds end
  else out_of_bounds.

(** [s[i] = x] *)
Definition span_set s i (x : A) : result (list A) :=
  if (0 <=? i) && (i <? len s) then Ok (<[Z.to_nat i := x]> s) else out_of_bounds.

(** [s.first(n)] *)
Definition span_first s n : result (list A) :=
  if (0 <=? n) && (n <=? len s) then Ok (ztake n s) else out_of_bounds.

(** [s.last(n)] *)
Definition span_last s n : result (list A) :=
  if (0 <=? n) && (n <=? len s) then Ok (zdrop (len s - n) s) else out_of_bounds.

(** [s.subspan(off, n)] *)
Definition span_sub s off n : result (list A) :=
  if (0 <=? off) && (0 <=? n) && (off + n <=? len s)
  then Ok (ztake n (zdrop off s)) else out_of_bounds.

(** [std::span(s.begin() + b, s.begin() + e)] *)
Definition span_range s b e : result (list A) :=
  if (0 <=? b) && (b <=? e) && (e <=? len s)
  then Ok (ztake (e - b) (zdrop b s)) else out_of_bounds.

(** common/types.h [advance]: the size of the rest is an unsigned difference. *)
Definition advance s count : result (list A) :=
  span_last s (usize (len s - count)).

(** Runs [f], which writes through its argument, on [advance(s, count)]. *)
Definition on_advance {B} s count (f : list A → result (list A * B)) : result (list A * B) :=
  rest ← advance s count;
  '(rest', b) ← f rest;
  Ok (ztake count s ++ rest', b).

Lemma span_get_Ok s i x : 0 ≤ i → s !! Z.to_nat i = Some x → span_get s i = Ok x.
Proof. intros Hi Hx. unfold span_get. by rewrite (proj2 (Z.leb_le 0 i) Hi), Hx. Qed.

Lemma span_get_app_r (s1 s2 : list A) i :
  len s1 ≤ i → span_get (s1 ++ s2) i = span_get s2 (i - len s1).
Proof.
  intros Hi. unfold span_get. rewrite !(proj2 (Z.leb_le _ _)) by lia.
  rewrite lookup_app_r by lia. by replace (Z.to_nat i - length s1)%nat with (Z.to_nat (i - len s1)) by lia.
Qed.

Lemma span_get_app_l (s1 s2 : list A) i :
  i < len s1 → span_get (s1 ++ s2) i = span_get s1 i.
Proof.
  intros Hi. unfold span_get. destruct (Z.leb_spec 0 i); [|done].
  by rewrite lookup_app_l by lia.
Qed.

Lemma span_get_total s i : 0 ≤ i < len s → ∃ x, span_get s i = Ok x ∧ s !! Z.to_nat i = Some x.
Proof.
  intros Hi. destruct (lookup_lt_is_Some_2 s (Z.to_nat i)) as [x Hx]; [lia|].
  exists x. split; [apply span_get_Ok; [lia|done] | done].
Qed.

Lemma span_get_oob s i : len s ≤ i → span_get s i = out_of_bounds.
Proof.
  intros Hi. unfold span_get. destruct (Z.leb_spec 0 i); [|done].
  by rewrite lookup_ge_None_2 by lia.
Qed.

Lemma span_set_Ok s i x : 0 ≤ i < len s → span_set s i x = Ok (<[Z.to_nat i := x]> s).
Proof.
  intros [H1 H2]. unfold span_set.
  by rewrite (proj2 (Z.leb_le _ _) H1), (proj2 (Z.ltb_lt _ _) H2).
Qed.

Lemma span_set_oob s i x : len s ≤ i → span_set s i x = out_of_bounds.
Proof. intros. unfold span_set. zcases. Qed.

Lemma span_first_Ok s n : 0 ≤ n ≤ len s → span_first s n = Ok (ztake n s).
Proof.
  intros [H1 H2]. unfold span_first.
  by rewrite (proj2 (Z.leb_le _ _) H1), (proj2 (Z.leb_le _ _) H2).
Qed.

Lemma span_last_Ok s n : 0 ≤ n ≤ len s → span_last s n = Ok (zdrop (len s - n) s).
Proof.
  intros [H1 H2]. unfold span_last.
  by rewrite (proj2 (Z.leb_le _ _) H1), (proj2 (Z.leb_le _ _) H2).
Qed.

Lemma span_sub_Ok s off n :
  0 ≤ off → 0 ≤ n → off + n ≤ len s → span_sub s off n = Ok (ztake n (zdrop off s)).
Proof. intros. unfold span_sub. by rewrite !(proj2 (Z.leb_le _ _)) by lia. Qed.

Lemma span_range_Ok s b e :
  0 ≤ b → b ≤ e → e ≤ len s → span_range s b e = Ok (ztake (e - b) (zdrop b s)).
Proof. intros. unfold span_range. by rewrite !(proj2 (Z.leb_le _ _)) by lia. Qed.

Lemma span_range_inv s b e r :
  span_range s b e = Ok r → 0 ≤ b ∧ b ≤ e ∧ e ≤ len s ∧ r = ztake (e - b) (zdrop b s).
Proof.
  unfold span_range. intros H.
  destruct (Z.leb_spec 0 b), (Z.leb_spec b e), (Z.leb_spec e (len s)); simpl in H; try done.
  by injection H as <-.
Qed.

(** [advance] drops [count] elements when the span has that many ... *)
Lemma advance_Ok s count :
  0 ≤ count ≤ len s → len s < 2 ^ 64 → advance s count = Ok (zdrop count s).
Proof.
  intros Hc Hs. unfold advance. rewrite wrap_small by (unfold in_u; lia).
  rewrite span_last_Ok by lia. by replace (len s - (len s - count)) with count by lia.
Qed.

(** ... and is out of bounds otherwise: the difference wraps around. *)
Lemma advance_oob s count :
  len s < count → count < 2 ^ 63 → advance s count = out_of_bounds.
Proof.
  intros Hc Hb. unfold advance, span_last.
  assert (usize (len s - count) = len s - count + 2 ^ 64) as ->.
  { unfold wrap. symmetry. apply (Zmod_unique _ _ (-1)); lia. }
  destruct (Z.leb_spec 0 (len s - count + 2 ^ 64)); [|done].
  destruct (Z.leb_spec (len s - count + 2 ^ 64) (len s)); [lia|done].
Qed.

Lemma on_advance_Ok {B} (pre rest rest' : list A) count (f : list A → result (list A * B)) b :
  count = len pre → len (pre ++ rest) < 2 ^ 64 → f rest = Ok (rest', b) →
  on_advance (pre ++ rest) count f = Ok (pre ++ rest', b).
Proof.
  intros -> Hlen Hf. unfold on_advance.
  rewrite advance_Ok by list_lia. cbn [mbind result_bind].
  rewrite drop_reassoc by lia. rewrite Hf. cbn [mbind result_bind].
  by rewrite take_reassoc by lia.
Qed.
End Span.


(** ** Undefined behaviour the program does reach

    Two places of the program do what the standard leaves undefined in ordinary
    runs: a [pop] of an empty queue, and reads behind the end of a span that lies
    inside a larger vector. A platform says what they do. Under [standard] both
    are faults, which is all that the language promises. [tolerant] is the
    platform on which the program goes on: the queue stays empty, and an index
    behind the span reaches the bytes of the vector that follow it. That is an
    idealisation: no implementation promises the first. Every
    definition that depends on it takes the platform as a parameter. *)
Class Platform := {
  pop_on_empty : result (list Z);
  overread : bool;
}.

Definition standard : Platform :=
  {| pop_on_empty := Fault (Undefined EmptyQueue); overread := false |}.

Definition tolerant : Platform :=
  {| pop_on_empty := Ok []; overread := true |}.

(** [std::queue<u32>::pop] *)
Definition queue_pop `{Platform} (q : list Z) : result (list Z) :=
  match q with [] => pop_on_empty | _ :: q' => Ok q' end.

(** What an index behind the span can reach, [rest] being the bytes that follow
    the span in the vector. *)
Definition beyond `{Platform} (rest : bytes) : bytes := if overread then rest else [].
