(* ===== verification/IoBuffer.v ===== *)
(** * IoBuffer: big-endian reads and writes (network/io_buffer.h)

    The buffer is the list of bytes its span views; a write returns the new
    contents with the number of bytes written, as the C++ methods return the
    count and change the span in place. The template argument [T] is given by
    its size in bytes. The specification is by [be_encode] and [be_decode]. *)
From Stdlib Require Import ZArith Lia.
From stdpp Require Import prelude strings.
From S2P Require Import Prelude Span.
Open Scope Z_scope.

(** ** The code *)

Definition buffer_size (buf : bytes) : Z := len buf.

(** [write_unsigned<T>], [size = sizeof(T)]. *)
Definition write_unsigned (size : nat) (value : Z) (buf : bytes) (idx : Z) : result (bytes * Z) :=
  buf' ← for_range 0 size (λ i b,
    let shift := 8 * (Z.of_nat size - 1 - i) in
    span_set b (idx + i) (Z.land (Z.shiftr value shift) 0xFF)) buf;
  Ok (buf', Z.of_nat size).

Definition write_u8 (value : Z) := write_unsigned 1 (u8 value).
Definition write_u16 (value : Z) := write_unsigned 2 (u16 value).
Definition write_u32 (value : Z) := write_unsigned 4 (u32 value).
Definition write_u64 (value : Z) := write_unsigned 8 (usize value).

Definition write_string (value : bytes) (buf : bytes) (idx : Z) : result (bytes * Z) :=
  '(buf, _) ← write_u16 (len value) buf idx;
  buf ← for_range 0 (length value) (λ i b,
    c ← span_get value i;
    '(b, _) ← write_u8 c b (idx + 2 + i);
    Ok b) buf;
  Ok (buf, 2 + len value).

Definition write_byte_array (data : bytes) (buf : bytes) (idx : Z) : result (bytes * Z) :=
  '(buf, _) ← for_range 0 (length data) (λ i '(b, idx),
    byte ← span_get data i;
    b ← span_set b idx byte;
    Ok (b, idx + 1)) (buf, idx);
  Ok (buf, len data).

(** [read_unsigned<T>]: the accumulator has type [T]. *)
Definition read_unsigned (size : nat) (buf : bytes) (idx : Z) : result Z :=
  for_range 0 size (λ i value,
    byte ← span_get buf (idx + i);
    let shift := 8 * (Z.of_nat size - 1 - i) in
    Ok (wrap (8 * Z.of_nat size) (Z.lor value (Z.shiftl byte shift)))) 0.

Definition read_u8 := read_unsigned 1.
Definition read_u16 := read_unsigned 2.
Definition read_u32 := read_unsigned 4.

(** The return type in the source is [std::uint32_t]. *)
Definition read_u64 (buf : bytes) (idx : Z) : result Z :=
  v ← read_unsigned 8 buf idx; Ok (u32 v).

Definition read_string (buf : bytes) (idx : Z) : result bytes :=
  length ← read_u16 buf idx;
  span_sub buf (idx + 2) length.

Definition read_byte_array (buf : bytes) (idx length : Z) : result bytes :=
  let max_length := Z.min (usize (len buf - idx)) length in
  span_sub buf idx max_length.

(** [read_bits<T, lower_bound, upper_bound>] for a [T] of [w] bits: all the
    locals of the loop have type [T]. *)
Definition read_bits (w : Z) (lower_bound upper_bound : Z) (buf : bytes) : result Z :=
  for_range lower_bound (Z.to_nat (upper_bound - lower_bound)) (λ global_bit_index result,
    let byte_index := wrap w (global_bit_index / 8) in
    let bit_index_in_byte := wrap w (7 - global_bit_index mod 8) in
    byte_value ← read_u8 buf byte_index;
    let bit_index_in_result := wrap w (upper_bound - global_bit_index - 1) in
    let bit_set_in_byte := Z.land (Z.shiftr byte_value bit_index_in_byte) 1 in
    let bit_value_in_result := wrap w (Z.shiftl 1 bit_index_in_result) in
    Ok (wrap w (result + bit_set_in_byte * bit_value_in_result))) 0.

(** ** Specification *)

(** The [n] low bytes of [v], most significant first. *)
Fixpoint be_encode (n : nat) (v : Z) : bytes :=
  match n with
  | O => []
  | S n' => Z.land (Z.shiftr v (8 * Z.of_nat n')) 0xFF :: be_encode n' v
  end.

Fixpoint be_decode (l : bytes) : Z :=
  match l with
  | [] => 0
  | b :: l' => Z.lor (Z.shiftl b (8 * len l')) (be_decode l')
  end.

Lemma length_be_encode n v : length (be_encode n v) = n.
Proof. induction n; simpl; congruence. Qed.
#[export] Hint Rewrite length_be_encode : lists.

Lemma land_byte_range v : in_u 8 (Z.land v 0xFF).
Proof. change 0xFF with (Z.ones 8). rewrite Z.land_ones by lia. apply Z.mod_pos_bound. lia. Qed.

Lemma be_encode_bytes n v : is_bytes (be_encode n v).
Proof. induction n; simpl; constructor; [apply land_byte_range | done]. Qed.

(** [be_decode] inverts [be_encode] up to the width. *)
Lemma be_decode_encode n v : be_decode (be_encode n v) = wrap (8 * Z.of_nat n) v.
Proof.
  induction n as [|n IH]; cbn [be_encode be_decode].
  { unfold wrap. by rewrite Z.mod_1_r. }
  rewrite IH, length_be_encode. unfold wrap. rewrite <-!Z.land_ones by lia.
  change 0xFF with (Z.ones 8). apply Z.bits_inj'. intros k Hk.
  rewrite Z.lor_spec, Z.shiftl_spec, !Z.land_spec, !Z.testbit_ones by lia.
  destruct (Z.ltb_spec k (8 * Z.of_nat n)) as [Hlt|Hge].
  - rewrite (Z.testbit_neg_r (Z.shiftr _ _)) by lia. simpl andb. simpl orb. f_equal. zcases.
  - rewrite Z.shiftr_spec, Z.sub_add by lia.
    rewrite !andb_false_r, orb_false_r. f_equal. zcases.
Qed.

Lemma be_decode_encode_small n v :
  in_u (8 * Z.of_nat n) v → be_decode (be_encode n v) = v.
Proof. intros. rewrite be_decode_encode. by apply wrap_small. Qed.

Lemma be_encode_wrap n w v : w = 8 * Z.of_nat n → be_encode n (wrap w v) = be_encode n v.
Proof.
  intros ->.
  assert (∀ m, (m ≤ n)%nat → be_encode m (wrap (8 * Z.of_nat n) v) = be_encode m v) as H; [|by apply H].
  induction m as [|m IH]; intros Hm; simpl; [done|]. rewrite IH by lia. f_equal.
  change 0xFF with (Z.ones 8). apply Z.bits_inj'. intros k Hk.
  rewrite !Z.land_spec, !Z.shiftr_spec, !Z.testbit_ones_nonneg by lia.
  destruct (Z.ltb_spec k 8); [|by rewrite !andb_false_r].
  unfold wrap. by rewrite Z.mod_pow2_bits_low by lia.
Qed.

(** ** Writes *)

Lemma write_loop size v idx n : ∀ i buf,
  i + Z.of_nat n = Z.of_nat size → 0 ≤ idx + i → idx + i + Z.of_nat n ≤ len buf →
  for_range i n (λ i b,
    let shift := 8 * (Z.of_nat size - 1 - i) in
    span_set b (idx + i) (Z.land (Z.shiftr v shift) 0xFF)) buf
  = Ok (splice (Z.to_nat (idx + i)) (be_encode n v) buf).
Proof.
  induction n as [|n IH]; intros i buf Hn Hi Hb; cbn [for_range be_encode].
  { by rewrite splice_nil. }
  rewrite span_set_Ok by lia. cbn [mbind result_bind].
  rewrite IH by list_lia. rewrite (splice_cons (Z.to_nat (idx + i))) by lia.
  replace (Z.of_nat size - 1 - i) with (Z.of_nat n) by lia.
  by replace (Z.to_nat (idx + (i + 1))) with (S (Z.to_nat (idx + i))) by lia.
Qed.

Lemma write_unsigned_Ok size v buf idx :
  0 ≤ idx → idx + Z.of_nat size ≤ len buf →
  write_unsigned size v buf idx = Ok (splice (Z.to_nat idx) (be_encode size v) buf, Z.of_nat size).
Proof.
  intros H1 H2. unfold write_unsigned. rewrite write_loop by lia.
  by rewrite Z.add_0_r.
Qed.

Lemma write_unsigned_oob size v buf idx :
  (0 < size)%nat → 0 ≤ idx → len buf < idx + Z.of_nat size →
  write_unsigned size v buf idx = out_of_bounds.
Proof.
  intros Hs Hi Hb. unfold write_unsigned.
  assert (∀ n i b, (0 < n)%nat → 0 ≤ i → idx + i + Z.of_nat n = idx + Z.of_nat size →
    len b = len buf →
    for_range i n (λ i b,
      let shift := 8 * (Z.of_nat size - 1 - i) in
      span_set b (idx + i) (Z.land (Z.shiftr v shift) 0xFF)) b = out_of_bounds) as H.
  { induction n as [|n IH]; intros i b Hn Hi' He Hl; [lia|]. cbn [for_range].
    destruct (decide (idx + i < len b)); [|by rewrite span_set_oob by lia].
    rewrite span_set_Ok by lia. cbn [mbind result_bind].
    destruct n; [lia|]. apply IH; list_lia. }
  by rewrite H by lia.
Qed.

(** The form used by the message writers: the target starts where [pre] ends. *)
Lemma write_unsigned_app size v pre rest idx :
  idx = len pre → (size ≤ length rest)%nat →
  write_unsigned size v (pre ++ rest) idx
  = Ok (pre ++ be_encode size v ++ drop size rest, Z.of_nat size).
Proof.
  intros -> Hs. rewrite write_unsigned_Ok by list_lia. unfold splice.
  rewrite Nat2Z.id, take_app_length, drop_app_ge, length_be_encode by list_lia.
  by replace (length pre + size - length pre)%nat with size by lia.
Qed.

Lemma write_unsigned_0 size v buf :
  (size ≤ length buf)%nat →
  write_unsigned size v buf 0 = Ok (be_encode size v ++ drop size buf, Z.of_nat size).
Proof. intros. by apply (write_unsigned_app size v [] buf). Qed.

Lemma write_byte_array_app data pre rest idx :
  idx = len pre → (length data ≤ length rest)%nat →
  write_byte_array data (pre ++ rest) idx
  = Ok (pre ++ data ++ drop (length data) rest, len data).
Proof.
  intros -> Hd. unfold write_byte_array.
  destruct (for_range_inv (λ i '(b, idx),
      b = pre ++ ztake i data ++ zdrop i rest ∧ idx = len pre + i)
    (λ i '(b, idx), byte ← span_get data i; b ← span_set b idx byte; Ok (b, idx + 1))
    0 (length data) (pre ++ rest, len pre)) as ([b j] & -> & -> & ->).
  - simpl. rewrite drop_0. split; [done|lia].
  - intros i [b j] Hi [-> ->].
    destruct (span_get_total data i) as (x & -> & Hx); [lia|]. cbn [mbind result_bind].
    rewrite span_set_Ok by list_lia. cbn [mbind result_bind]. eexists (_, _); split; [done|]. split; [|lia].
    rewrite insert_app_r_alt by lia. f_equal.
    rewrite insert_app_r_alt by list_lia.
    rewrite length_take, Nat.min_l by lia.
    replace (Z.to_nat (len pre + i) - length pre - Z.to_nat i)%nat with 0%nat by lia.
    destruct (lookup_lt_is_Some_2 rest (Z.to_nat i)) as [y Hy]; [lia|].
    rewrite (drop_S_lookup _ _ _ Hy). simpl.
    replace (Z.to_nat (i + 1)) with (S (Z.to_nat i)) by lia.
    by rewrite (take_S_r _ _ _ Hx), <-app_assoc.
  - cbn [mbind result_bind]. rewrite Z.add_0_l, Nat2Z.id. by rewrite firstn_all.
Qed.

(** ** Reads *)

Lemma read_unsigned_Ok size buf idx :
  0 ≤ idx → idx + Z.of_nat size ≤ len buf →
  read_unsigned size buf idx
  = Ok (wrap (8 * Z.of_nat size) (be_decode (take size (zdrop idx buf)))).
Proof.
  intros Hi Hb. unfold read_unsigned.
  set (body := λ i value : Z, _).
  pose proof (λ i v, eq_refl : body i v = _) as Hbody; unfold body in Hbody at 2; cbv beta in Hbody.
  assert (∀ n i acc, i + Z.of_nat n = Z.of_nat size → 0 ≤ i →
    for_range i n body (wrap (8 * Z.of_nat size) acc)
    = Ok (wrap (8 * Z.of_nat size) (Z.lor acc (be_decode (take n (zdrop (idx + i) buf)))))) as H.
  { induction n as [|n IH]; intros i acc Hn Hi'.
    { cbn [for_range]. rewrite take_0. simpl. by rewrite Z.lor_0_r. }
    cbn [for_range]. rewrite Hbody.
    destruct (span_get_total buf (idx + i)) as (x & -> & Hx); [lia|]. cbn [mbind result_bind].
    rewrite (drop_S_lookup _ _ _ Hx). cbn [take be_decode].
    rewrite wrap_lor, wrap_wrap, <-wrap_lor by lia. rewrite IH by lia.
    rewrite <-Z.lor_assoc. do 5 f_equal.
    - list_lia.
    - by replace (Z.to_nat (idx + (i + 1))) with (S (Z.to_nat (idx + i))) by lia. }
  change 0 with (wrap (8 * Z.of_nat size) 0) at 2.
  rewrite H by lia. by rewrite Z.add_0_r.
Qed.

Lemma read_unsigned_oob size buf idx :
  (0 < size)%nat → 0 ≤ idx → len buf < idx + Z.of_nat size →
  read_unsigned size buf idx = out_of_bounds.
Proof.
  intros Hs Hi Hb. unfold read_unsigned. set (body := λ i value : Z, _).
  pose proof (λ i v, eq_refl : body i v = _) as Hbody; unfold body in Hbody at 2; cbv beta in Hbody.
  assert (∀ n i v, (0 < n)%nat → 0 ≤ i → i + Z.of_nat n = Z.of_nat size →
    for_range i n body v = out_of_bounds) as H; [|by apply H; lia].
  induction n as [|n IH]; intros i v Hn Hi' He; [lia|]. cbn [for_range]. rewrite Hbody.
  destruct (decide (idx + i < len buf)); [|by rewrite span_get_oob by lia].
  destruct (span_get_total buf (idx + i)) as (x & -> & _); [lia|]. cbn [mbind result_bind].
  destruct n; [lia|]. apply IH; lia.
Qed.

(** A read can only fail by leaving the buffer, and its value has the width of [T]. *)
Lemma read_unsigned_inv size buf idx v :
  0 ≤ idx → (0 < size)%nat → read_unsigned size buf idx = Ok v →
  idx + Z.of_nat size ≤ len buf ∧ in_u (8 * Z.of_nat size) v.
Proof.
  intros Hi Hs H. destruct (decide (idx + Z.of_nat size ≤ len buf)).
  - rewrite read_unsigned_Ok in H by lia. injection H as <-. split; [done|]. apply wrap_range; lia.
  - rewrite read_unsigned_oob in H by lia. done.
Qed.

(** Reading at the end of [pre] what was encoded there. *)
Lemma read_unsigned_app size v pre rest idx :
  idx = len pre →
  read_unsigned size (pre ++ be_encode size v ++ rest) idx = Ok (wrap (8 * Z.of_nat size) v).
Proof.
  intros ->. rewrite read_unsigned_Ok by list_lia. rewrite Nat2Z.id, drop_app_length.
  rewrite take_app_le, take_ge by (rewrite length_be_encode; lia).
  by rewrite be_decode_encode, wrap_wrap.
Qed.

Lemma read_unsigned_0 size v rest :
  read_unsigned size (be_encode size v ++ rest) 0 = Ok (wrap (8 * Z.of_nat size) v).
Proof. by apply (read_unsigned_app size v [] rest). Qed.

(** A read inside [a] does not see what follows [a]. *)
Lemma read_unsigned_prefix size a b idx :
  0 ≤ idx → idx + Z.of_nat size ≤ len a → read_unsigned size (a ++ b) idx = read_unsigned size a idx.
Proof.
  intros Hi Hl. rewrite !read_unsigned_Ok by list_lia. do 3 f_equal.
  rewrite drop_app_le, take_app_le by list_lia. done.
Qed.

Lemma read_byte_array_Ok buf idx n :
  0 ≤ idx ≤ len buf → 0 ≤ n → len buf < 2 ^ 64 →
  read_byte_array buf idx n = Ok (ztake n (zdrop idx buf)).
Proof.
  intros Hi Hn Hb. unfold read_byte_array. rewrite wrap_small by (unfold in_u; lia).
  rewrite span_sub_Ok by lia. f_equal.
  destruct (Z.min_spec (len buf - idx) n) as [[Hm ->]|[Hm ->]]; [|done].
  rewrite !take_ge by list_lia. done.
Qed.

Lemma read_byte_array_app pre data rest idx n :
  idx = len pre → n = len data → len (pre ++ data ++ rest) < 2 ^ 64 →
  read_byte_array (pre ++ data ++ rest) idx n = Ok data.
Proof.
  intros -> -> Hl. rewrite read_byte_array_Ok by list_lia.
  by rewrite !Nat2Z.id, drop_app_length, take_app_length.
Qed.

(** ** Strings *)

Lemma write_string_app value pre rest idx :
  idx = len pre → is_bytes value → 2 + len value ≤ len rest →
  write_string value (pre ++ rest) idx
  = Ok (pre ++ be_encode 2 (len value) ++ value ++ zdrop (2 + len value) rest, 2 + len value).
Proof.
  intros Hidx Hv Hb. unfold write_string, write_u16.
  rewrite write_unsigned_app by lia. cbn [mbind result_bind].
  rewrite be_encode_wrap, app_assoc by done. set (pre' := pre ++ be_encode 2 (len value)).
  assert (len pre' = idx + 2) as Hpre by (unfold pre'; list_lia).
  match goal with |- for_range _ _ ?body _ ≫= _ = _ =>
    destruct (for_range_inv (λ i b, b = pre' ++ ztake i value ++ zdrop i (drop 2 rest))
      body 0 (length value) (pre' ++ drop 2 rest)) as (b' & -> & ->)
  end.
  - by rewrite take_0, drop_0.
  - intros i b Hi ->.
    destruct (span_get_total value i) as (x & -> & Hx); [lia|]. cbn [mbind result_bind].
    unfold write_u8. rewrite (app_assoc pre'), write_unsigned_app by list_lia.
    cbn [mbind result_bind]. eexists; split; [done|].
    rewrite be_encode_wrap, <-app_assoc by done. rewrite drop_drop.
    assert (be_encode 1 x = [x]) as ->.
    { cbn. rewrite Z.shiftr_0_r. change 255 with (Z.ones 8). rewrite Z.land_ones by lia.
      f_equal. apply wrap_small. by eapply Forall_lookup_1 in Hv. }
    replace (Z.to_nat (i + 1)) with (S (Z.to_nat i)) by lia.
    rewrite (take_S_r _ _ _ Hx), <-!app_assoc. do 3 f_equal. f_equal. lia.
  - cbn [mbind result_bind]. unfold pre'. rewrite <-!app_assoc.
    do 2 f_equal. rewrite drop_drop, Z.add_0_l, Nat2Z.id, firstn_all.
    do 4 f_equal. lia.
Qed.

Lemma read_string_app value pre rest idx :
  idx = len pre → len value < 2 ^ 16 →
  read_string (pre ++ be_encode 2 (len value) ++ value ++ rest) idx = Ok value.
Proof.
  intros -> Hv. unfold read_string, read_u16.
  rewrite read_unsigned_app by done. cbn [mbind result_bind].
  rewrite wrap_small by (unfold in_u; simpl; lia).
  rewrite span_sub_Ok by list_lia. rewrite (app_assoc pre).
  rewrite drop_reassoc by list_lia.
  by rewrite take_reassoc by lia.
Qed.

(** ** Bit fields *)

Lemma be_decode_range l : is_bytes l → in_u (8 * len l) (be_decode l).
Proof.
  induction 1 as [|b l Hb _ IH]; cbn [be_decode length]; [unfold in_u; simpl; lia|].
  unfold in_u in *. set (m := be_decode l) in *.
  rewrite Z.shiftl_mul_pow2 by lia.
  assert (Z.lor (b * 2 ^ (8 * len l)) m = b * 2 ^ (8 * len l) + m) as ->.
  { rewrite <-Z.lxor_lor, <-Z.add_nocarry_lxor; [done| |].
    all: rewrite <-Z.shiftl_mul_pow2 by lia; apply Z.bits_inj'; intros k Hk;
      rewrite Z.land_spec, Z.shiftl_spec, Z.bits_0 by lia.
    all: destruct (decide (k < 8 * len l));
      [by rewrite Z.testbit_neg_r by lia
      | rewrite andb_comm, <-(Z.mod_small m (2 ^ (8 * len l))) by lia;
        by rewrite Z.mod_pow2_bits_high by lia]. }
  replace (8 * Z.of_nat (S (length l))) with (8 + 8 * len l) by lia.
  rewrite Z.pow_add_r by lia. nia.
Qed.

Lemma testbit_be_decode l i b :
  is_bytes l → 0 ≤ i → l !! Z.to_nat (i / 8) = Some b →
  Z.testbit (be_decode l) (8 * len l - 1 - i) = Z.testbit b (7 - i mod 8).
Proof.
  intros Hl. revert i. induction Hl as [|x l Hx Hl IH]; intros i Hi Hb; [done|].
  cbn [be_decode]. replace (len (x :: l)) with (1 + len l) by list_lia.
  pose proof (Z.div_mod i 8). pose proof (Z.mod_pos_bound i 8).
  rewrite Z.lor_spec, Z.shiftl_spec by (apply lookup_lt_Some in Hb; list_lia).
  destruct (decide (i < 8)).
  - assert (i / 8 = 0) as E by (apply Z.div_small; lia). rewrite E in *.
    injection Hb as ->. rewrite (Z.mod_small i 8) by lia.
    rewrite <-(Z.mod_small (be_decode l) (2 ^ (8 * len l))) by (by apply be_decode_range).
    rewrite Z.mod_pow2_bits_high, orb_false_r by lia. f_equal. lia.
  - rewrite Z.testbit_neg_r by lia. rewrite orb_false_l.
    replace (8 * (1 + len l) - 1 - i) with (8 * len l - 1 - (i - 8)) by lia.
    assert ((i - 8) / 8 = i / 8 - 1 ∧ (i - 8) mod 8 = i mod 8) as [Hd Hm].
    { replace (i - 8) with (i + (-1) * 8) by lia.
      rewrite Z.div_add, Z.mod_add by lia. lia. }
    rewrite <-Hm. apply IH; [lia|]. rewrite Hd.
    replace (Z.to_nat (i / 8)) with (S (Z.to_nat (i / 8 - 1))) in Hb by lia. done.
Qed.

Lemma mod_pow2_succ x n :
  0 ≤ n → x mod 2 ^ (n + 1) = 2 * ((x / 2) mod 2 ^ n) + x mod 2.
Proof.
  intros. rewrite Z.pow_add_r, Z.mul_comm, Z.rem_mul_r by (try apply Z.pow_nonzero; lia).
  change (2 ^ 1) with 2. lia.
Qed.

(** One more bit of the prefix [lo .. g) of an integer of [L] bits. *)
Lemma bits_prefix_step B L lo g hi :
  0 ≤ lo ≤ g → g < hi → hi ≤ L →
  (B / 2 ^ (L - g)) mod 2 ^ (g - lo) * 2 ^ (hi - g)
    + (B / 2 ^ (L - (g + 1))) mod 2 * 2 ^ (hi - g - 1)
  = (B / 2 ^ (L - (g + 1))) mod 2 ^ (g + 1 - lo) * 2 ^ (hi - (g + 1)).
Proof.
  intros H1 H2 H3.
  replace (g + 1 - lo) with (g - lo + 1) by lia. rewrite (mod_pow2_succ _ (g - lo)) by lia.
  rewrite Z.div_div by (try apply Z.pow_nonzero; lia).
  replace (2 ^ (L - (g + 1)) * 2) with (2 ^ (L - g)).
  2:{ replace (L - g) with (L - (g + 1) + 1) by lia. by rewrite Z.pow_add_r by lia. }
  replace (2 ^ (hi - g)) with (2 * 2 ^ (hi - (g + 1))).
  2:{ replace (hi - g) with (1 + (hi - (g + 1))) by lia. by rewrite Z.pow_add_r by lia. }
  replace (hi - g - 1) with (hi - (g + 1)) by lia. ring.
Qed.

Lemma bits_prefix_range w x lo g hi :
  0 ≤ lo ≤ g → g ≤ hi → hi - lo ≤ w → in_u w (x mod 2 ^ (g - lo) * 2 ^ (hi - g)).
Proof.
  intros H1 H2 H3. unfold in_u.
  assert (0 ≤ x mod 2 ^ (g - lo) < 2 ^ (g - lo)) by (apply Z.mod_pos_bound, Z.pow_pos_nonneg; lia).
  assert (0 < 2 ^ (hi - g)) by (apply Z.pow_pos_nonneg; lia).
  assert (2 ^ (g - lo) * 2 ^ (hi - g) = 2 ^ (hi - lo)) by (rewrite <-Z.pow_add_r by lia; f_equal; lia).
  assert (2 ^ (hi - lo) ≤ 2 ^ w) by (apply Z.pow_le_mono_r; lia). nia.
Qed.

(** The bit of the buffer the loop body reads. *)
Lemma read_bit buf g :
  is_bytes buf → 0 ≤ g < 8 * len buf →
  ∃ b, read_u8 buf (g / 8) = Ok b ∧
    Z.land (Z.shiftr b (7 - g mod 8)) 1 = (be_decode buf / 2 ^ (8 * len buf - (g + 1))) mod 2.
Proof.
  intros Hbytes Hg. pose proof (Z.div_mod g 8). pose proof (Z.mod_pos_bound g 8).
  destruct (lookup_lt_is_Some_2 buf (Z.to_nat (g / 8))) as [b Hb]; [lia|]. exists b.
  assert (in_u 8 b) by (by eapply Forall_lookup_1 in Hbytes).
  split.
  - unfold read_u8. rewrite read_unsigned_Ok by lia.
    rewrite (drop_S_lookup _ _ _ Hb). cbn [take be_decode length].
    rewrite take_0. cbn [be_decode]. rewrite Z.shiftl_0_r, Z.lor_0_r.
    by rewrite (wrap_small _ b).
  - change 1 with (Z.ones 1) at 1. rewrite Z.land_ones by lia. change (2 ^ 1) with 2.
    rewrite <-Z.bit0_mod, Z.shiftr_spec, Z.add_0_l by lia.
    rewrite <-(testbit_be_decode buf g b) by (done || lia).
    rewrite Z.testbit_spec' by lia. do 3 f_equal. lia.
Qed.

(** [read_bits<T, lo, hi>] extracts the bits [lo .. hi) of the buffer seen as one
    big-endian integer. *)
Lemma read_bits_Ok w lo hi buf :
  is_bytes buf → 8 ≤ w → 0 ≤ lo ≤ hi → hi - lo ≤ w → hi < 2 ^ w → hi ≤ 8 * len buf →
  read_bits w lo hi buf = Ok (wrap (hi - lo) (Z.shiftr (be_decode buf) (8 * len buf - hi))).
Proof.
  intros Hbytes Hw Hlo Hhi Hhiw Hlen. unfold read_bits. set (L := 8 * len buf).
  match goal with |- for_range _ _ ?body _ = _ =>
    destruct (for_range_inv
      (λ g r, lo ≤ g ∧ r = ((be_decode buf / 2 ^ (L - g)) mod 2 ^ (g - lo)) * 2 ^ (hi - g))
      body lo (Z.to_nat (hi - lo)) 0) as (r & -> & _ & Hr)
  end.
  - split; [lia|]. rewrite Z.sub_diag. change (2 ^ 0) with 1. by rewrite Z.mod_1_r.
  - intros g r Hg [_ ->].
    pose proof (Z.div_mod g 8). pose proof (Z.mod_pos_bound g 8).
    assert (2 ^ 8 ≤ 2 ^ w) by (apply Z.pow_le_mono_r; lia). change (2 ^ 8) with 256 in *.
    cbv zeta. rewrite (wrap_small w (g / 8)) by (unfold in_u; lia).
    destruct (read_bit buf g) as (b & -> & Hbit); [done|lia|]. cbn [mbind result_bind].
    rewrite (wrap_small w (7 - _)), (wrap_small w (hi - _ - _)), Hbit by (unfold in_u; lia).
    assert (2 ^ (hi - g - 1) < 2 ^ w) by (apply Z.pow_lt_mono_r; lia).
    assert (0 < 2 ^ (hi - g - 1)) by (apply Z.pow_pos_nonneg; lia).
    rewrite Z.shiftl_1_l, (wrap_small w (2 ^ _)) by (unfold in_u; lia).
    eexists; split; [done|]. split; [lia|]. fold L.
    rewrite bits_prefix_step by lia. apply wrap_small, bits_prefix_range; lia.
  - rewrite Hr. rewrite Z2Nat.id by lia. replace (lo + (hi - lo)) with hi by lia.
    rewrite Z.sub_diag, Z.mul_1_r. unfold wrap. by rewrite Z.shiftr_div_pow2 by lia.
Qed.

(** A write that returns had room, and keeps the size. *)
Lemma write_unsigned_inv size v buffer idx buffer' n :
  (0 < size)%nat → 0 ≤ idx → write_unsigned size v buffer idx = Ok (buffer', n) →
  idx + Z.of_nat size ≤ len buffer ∧ len buffer' = len buffer.
Proof.
  intros Hs Hi Hw. destruct (decide (idx + Z.of_nat size ≤ len buffer)) as [Hl|Hl].
  - rewrite write_unsigned_Ok in Hw by done. injection Hw as <- <-. split; [done|].
    rewrite length_splice; [done|]. rewrite length_be_encode. lia.
  - by rewrite write_unsigned_oob in Hw by lia.
Qed.

(** ** Rules for the message writers and readers

    A writer fills a buffer from the left: [pre] is what it has written. *)
Section Rules.
Context (pre rest : bytes) (idx : Z) (Hidx : idx = len pre).

Lemma write_u8_app v :
  1 ≤ len rest → write_u8 v (pre ++ rest) idx = Ok ((pre ++ be_encode 1 v) ++ drop 1 rest, 1).
Proof using Hidx.
  intros. unfold write_u8. rewrite write_unsigned_app by lia.
  by rewrite be_encode_wrap, app_assoc by done.
Qed.

Lemma write_u16_app v :
  2 ≤ len rest → write_u16 v (pre ++ rest) idx = Ok ((pre ++ be_encode 2 v) ++ drop 2 rest, 2).
Proof using Hidx.
  intros. unfold write_u16. rewrite write_unsigned_app by lia.
  by rewrite be_encode_wrap, app_assoc by done.
Qed.

Lemma write_u32_app v :
  4 ≤ len rest → write_u32 v (pre ++ rest) idx = Ok ((pre ++ be_encode 4 v) ++ drop 4 rest, 4).
Proof using Hidx.
  intros. unfold write_u32. rewrite write_unsigned_app by lia.
  by rewrite be_encode_wrap, app_assoc by done.
Qed.

Lemma write_u64_app v :
  8 ≤ len rest → write_u64 v (pre ++ rest) idx = Ok ((pre ++ be_encode 8 v) ++ drop 8 rest, 8).
Proof using Hidx.
  intros. unfold write_u64. rewrite write_unsigned_app by lia.
  by rewrite be_encode_wrap, app_assoc by done.
Qed.

Lemma read_u8_app v : read_u8 (pre ++ be_encode 1 v ++ rest) idx = Ok (u8 v).
Proof using Hidx. by apply (read_unsigned_app 1). Qed.

Lemma read_u16_app v : read_u16 (pre ++ be_encode 2 v ++ rest) idx = Ok (u16 v).
Proof using Hidx. by apply (read_unsigned_app 2). Qed.

Lemma read_u32_app v : read_u32 (pre ++ be_encode 4 v ++ rest) idx = Ok (u32 v).
Proof using Hidx. by apply (read_unsigned_app 4). Qed.
End Rules.

(** Runs one write of a message writer on a goal [... (pre ++ rest) idx ...]. *)
Ltac write_step :=
  first
    [ rewrite write_u8_app by list_lia
    | rewrite write_u16_app by list_lia
    | rewrite write_u32_app by list_lia
    | rewrite write_u64_app by list_lia
    | rewrite write_byte_array_app by list_lia; rewrite (app_assoc _ _ (drop _ _)) ];
  cbn [mbind result_bind].

(** ** Properties *)

(** C33: reading a bit field bit by bit is the same as shifting and masking: the loop of
    [read_bits<T, lo, hi>] gives the [hi - lo] bits that end at bit [hi] of the buffer seen
    as one big-endian integer, whatever the type [T] of [w] bits they fit into. *)
Theorem read_bits_reference w lo hi buf :
  is_bytes buf → 8 ≤ w → 0 ≤ lo ≤ hi → hi - lo ≤ w → hi < 2 ^ w → hi ≤ 8 * len buf →
  read_bits w lo hi buf = Ok (Z.land (Z.shiftr (be_decode buf) (8 * len buf - hi)) (Z.ones (hi - lo))).
Proof. intros. rewrite read_bits_Ok by done. by rewrite Z.land_ones by lia. Qed.

Lemma read_bits_reference_witness :
  read_bits 16 3 16 [0x5A; 0xC3] = Ok (Z.land (Z.shiftr 0x5AC3 0) (Z.ones 13)).
Proof. apply (read_bits_reference 16 3 16 [0x5A; 0xC3]); (lia || by repeat constructor). Defined.
