(* ===== verification/FlipBuffer.v ===== *)
(** * FlipBuffer (common/flip_buffer.h)

    A vector with a window [m_begin, m_end) of live bytes: producers append
    behind it through [remaining], consumers release bytes at its start, [flip]
    moves the window to the start of the vector. Only [FlipBuffer<u8>] is used.
    [m_buffer.capacity()] is the size the constructor allocates. *)
From Stdlib Require Import ZArith Lia.
From stdpp Require Import prelude strings.
From S2P Require Import Prelude Span.
Open Scope Z_scope.

Record FlipBuffer := mkFlipBuffer {
  m_begin : Z;
  m_end : Z;
  m_buffer : bytes;
}.

#[export] Instance FlipBuffer_eq_dec : EqDecision FlipBuffer.
Proof. solve_decision. Defined.

(** The constructor: [m_buffer(capacity)] is zero-filled. *)
Definition create (capacity : Z) : FlipBuffer :=
  {| m_begin := 0; m_end := 0; m_buffer := replicate (Z.to_nat capacity) 0 |}.

Definition remaining (fb : FlipBuffer) : result bytes :=
  span_range (m_buffer fb) (m_end fb) (len (m_buffer fb)).

Definition data (fb : FlipBuffer) : result bytes :=
  span_range (m_buffer fb) (m_begin fb) (m_end fb).

Definition flip (fb : FlipBuffer) : result FlipBuffer :=
  let new_end := usize (m_end fb - m_begin fb) in
  buf ← for_range 0 (Z.to_nat new_end) (λ i b,
    x ← span_get b (m_begin fb + i);
    span_set b i x) (m_buffer fb);
  Ok {| m_begin := 0; m_end := new_end; m_buffer := buf |}.

Definition consume (fb : FlipBuffer) (count : Z) : FlipBuffer :=
  {| m_begin := m_begin fb + count; m_end := m_end fb; m_buffer := m_buffer fb |}.

Definition advance (fb : FlipBuffer) (count : Z) : result FlipBuffer :=
  assert_that (m_end fb + count <=? len (m_buffer fb));;
  Ok {| m_begin := m_begin fb; m_end := m_end fb + count; m_buffer := m_buffer fb |}.

(** What a caller that was handed [remaining()] leaves in the vector when it
    overwrote the span with [written]. *)
Definition put_remaining (fb : FlipBuffer) (written : bytes) : FlipBuffer :=
  {| m_begin := m_begin fb; m_end := m_end fb;
     m_buffer := ztake (m_end fb) (m_buffer fb) ++ written |}.

(** ** Invariant and specification *)

Record wf (fb : FlipBuffer) : Prop := {
  wf_begin : 0 ≤ m_begin fb;
  wf_window : m_begin fb ≤ m_end fb;
  wf_end : m_end fb ≤ len (m_buffer fb);
  wf_size : len (m_buffer fb) < 2 ^ 63;
}.

(** The bytes of the vector between two indices. *)
Definition slice (fb : FlipBuffer) (b e : Z) : bytes :=
  ztake (e - b) (zdrop b (m_buffer fb)).

Lemma length_slice fb b e :
  0 ≤ b ≤ e → e ≤ len (m_buffer fb) → len (slice fb b e) = e - b.
Proof. intros. unfold slice. list_lia. Qed.

Lemma flip_wf_create capacity : 0 ≤ capacity < 2 ^ 63 → wf (create capacity).
Proof. intros. split; simpl; list_lia. Qed.

Lemma remaining_Ok fb : wf fb → remaining fb = Ok (zdrop (m_end fb) (m_buffer fb)).
Proof.
  intros []. unfold remaining. rewrite span_range_Ok by lia. by rewrite take_ge by list_lia.
Qed.

Lemma data_Ok fb : wf fb → data fb = Ok (slice fb (m_begin fb) (m_end fb)).
Proof. intros []. unfold data. by rewrite span_range_Ok by lia. Qed.

Lemma consume_wf fb count :
  wf fb → 0 ≤ count ≤ m_end fb - m_begin fb → wf (consume fb count).
Proof. intros [] ?. split; simpl; lia. Qed.

Lemma flip_advance_Ok fb count :
  wf fb → 0 ≤ count ≤ len (m_buffer fb) - m_end fb →
  advance fb count = Ok (mkFlipBuffer (m_begin fb) (m_end fb + count) (m_buffer fb))
  ∧ wf (mkFlipBuffer (m_begin fb) (m_end fb + count) (m_buffer fb)).
Proof.
  intros [] ?. unfold advance. rewrite assert_that_true by (apply Z.leb_le; lia).
  split; [done|]. split; simpl; lia.
Qed.

Lemma put_remaining_wf fb written :
  wf fb → len written = len (m_buffer fb) - m_end fb → wf (put_remaining fb written).
Proof. intros [] ?. split; simpl; list_lia. Qed.

(** Bytes of the window survive a write behind it. *)
Lemma put_remaining_slice fb written b e :
  wf fb → 0 ≤ b ≤ e → e ≤ m_end fb → slice (put_remaining fb written) b e = slice fb b e.
Proof.
  intros [] ? ?. unfold slice, put_remaining. simpl.
  rewrite drop_app_le, take_app_le by list_lia.
  rewrite skipn_firstn_comm, take_take. f_equal. lia.
Qed.

(** [flip] moves the window to the start of the vector and changes nothing else. *)
Lemma flip_Ok fb :
  wf fb →
  let n := m_end fb - m_begin fb in
  flip fb = Ok {| m_begin := 0; m_end := n;
                  m_buffer := slice fb (m_begin fb) (m_end fb) ++ zdrop n (m_buffer fb) |}.
Proof.
  intros [] n. unfold flip. rewrite wrap_small by (unfold in_u; lia). fold n.
  match goal with |- for_range _ _ ?body _ ≫= _ = _ =>
    destruct (for_range_inv (λ i b, b = ztake i (zdrop (m_begin fb) (m_buffer fb)) ++ zdrop i (m_buffer fb))
      body 0 (Z.to_nat n) (m_buffer fb)) as (b' & -> & ->)
  end.
  - by rewrite take_0, drop_0.
  - intros i b Hi ->. set (l := zdrop (m_begin fb) (m_buffer fb)).
    assert (len l = len (m_buffer fb) - m_begin fb) by (unfold l; list_lia).
    destruct (lookup_lt_is_Some_2 l (Z.to_nat i)) as [x Hx]; [lia|].
    destruct (lookup_lt_is_Some_2 (m_buffer fb) (Z.to_nat i)) as [y Hy]; [lia|].
    assert (span_get (ztake i l ++ zdrop i (m_buffer fb)) (m_begin fb + i) = Ok x) as ->.
    { apply span_get_Ok; [lia|]. rewrite lookup_app_r by list_lia.
      rewrite lookup_drop. rewrite <-Hx. unfold l. rewrite lookup_drop.
      f_equal. list_lia. }
    cbn [mbind result_bind]. rewrite span_set_Ok by list_lia. eexists; split; [done|].
    rewrite (drop_S_lookup _ _ _ Hy), insert_app_r_alt by list_lia.
    rewrite length_take, Nat.min_l, Nat.sub_diag by lia. simpl.
    replace (Z.to_nat (i + 1)) with (S (Z.to_nat i)) by lia.
    by rewrite (take_S_r _ _ _ Hx), <-app_assoc.
  - cbn [mbind result_bind]. rewrite Z2Nat.id, Z.add_0_l by lia. done.
Qed.

Lemma flip_wf fb fb' : wf fb → flip fb = Ok fb' → wf fb'.
Proof.
  intros Hwf. rewrite (flip_Ok _ Hwf). intros [= <-]. destruct Hwf.
  split; simpl; unfold slice; list_lia.
Qed.

(** Every sub-range of the window keeps its bytes, shifted by the old start. *)
Lemma flip_slice fb fb' b e :
  wf fb → flip fb = Ok fb' → m_begin fb ≤ b ≤ e → e ≤ m_end fb →
  slice fb' (b - m_begin fb) (e - m_begin fb) = slice fb b e.
Proof.
  intros Hwf. rewrite (flip_Ok _ Hwf). intros [= <-] ? ?. destruct Hwf.
  unfold slice. simpl. rewrite drop_app_le, take_app_le by list_lia.
  rewrite skipn_firstn_comm, take_take, drop_drop. f_equal; [lia|]. f_equal. lia.
Qed.

Lemma flip_length fb fb' :
  wf fb → flip fb = Ok fb' → len (m_buffer fb') = len (m_buffer fb).
Proof.
  intros Hwf. rewrite (flip_Ok _ Hwf). intros [= <-]. destruct Hwf.
  simpl. unfold slice. list_lia.
Qed.

(** ** Writers

    [send] of both streams hands [remaining()] to a callback that writes a message
    into it and returns the span of the message. The model of such a callback
    takes the contents of the span and returns the contents it leaves and the
    returned span, given by its place in the argument ([byte_span{}] has length 0). *)
Record written := mkWritten {
  w_buffer : bytes;
  w_offset : Z;
  w_size : Z;
}.

Definition WriteToBufferFn := bytes → written.

(** What the streams rely on: writing through a span keeps its size, and the
    returned span starts at the start of the span handed out and lies in it. *)
Class WriterOk (f : WriteToBufferFn) : Prop := {
  writer_length b : len (w_buffer (f b)) = len b;
  writer_offset b : w_offset (f b) = 0;
  writer_size b : 0 ≤ w_size (f b) ≤ len b;
}.

(** The message a writer leaves. *)
Definition payload_of (w : written) : bytes := ztake (w_size w) (w_buffer w).

(** The writer of neptun/example.cc: a message that does not fit is not written. *)
Definition write_message (msg : bytes) : WriteToBufferFn := λ buffer,
  if len buffer <? len msg then mkWritten buffer 0 0
  else mkWritten (msg ++ drop (length msg) buffer) 0 (len msg).

#[export] Instance write_message_ok msg : WriterOk (write_message msg).
Proof.
  split; intros b; unfold write_message; destruct (Z.ltb_spec (len b) (len msg)); simpl; list_lia.
Qed.

Lemma write_message_payload msg b :
  len msg ≤ len b → payload_of (write_message msg b) = msg.
Proof.
  intros. unfold write_message, payload_of. destruct (Z.ltb_spec (len b) (len msg)); [lia|].
  simpl. by rewrite Nat2Z.id, take_app_length.
Qed.
