(* ===== verification/Messages.v ===== *)
(** * The wire format (neptun/messages/, neptun/common.h, neptun/error.h, network/message.h)

    One Module per message class. [write] returns the new contents of the buffer
    and the span it returns; a getter takes the contents of the span the message
    object was constructed on. [encode] is the specification of the layout. *)
From Stdlib Require Import ZArith Lia.
From stdpp Require Import prelude strings.
From S2P Require Import Prelude Span IoBuffer.
Open Scope Z_scope.

Create HintDb wire.

(** common/errors.h *)
Inductive EncodingError : Set := MALFORMED_BUFFER.

(** neptun/error.h *)
Inductive NeptunError : Set := MALFORMED_PACKET | PEER_NOT_RESPONDING | LETS_CONNECT_REJECTED.

(** neptun/common.h *)
Inductive PacketDeliveryStatus : Set := ACK | DROP.

#[export] Instance NeptunError_eq_dec : EqDecision NeptunError.
Proof. solve_decision. Defined.
#[export] Instance PacketDeliveryStatus_eq_dec : EqDecision PacketDeliveryStatus.
Proof. solve_decision. Defined.

(** neptun/messages/segment.h [ManagerType] *)
Definition CONNECTION_MANAGER := 0.
Definition MOVE_MANAGER := 1.
Definition LATEST_STATE_MANAGER := 2.
Definition RELIABLE_STREAM := 3.
Definition UNRELIABLE_STREAM := 4.

(** [tl::expected<T, E>] *)
Inductive expected (A E : Type) : Type := Value (a : A) | Unexpected (e : E).
Arguments Value {A E} a.
Arguments Unexpected {A E} e.

#[export] Instance expected_eq_dec {A E} `{!EqDecision A, !EqDecision E} : EqDecision (expected A E).
Proof. solve_decision. Defined.

Module PacketHeader.
Definition kIdOffset := 0.
Definition kAckSequenceNumberOffset := kIdOffset + 4.
Definition kAckBitmaskOffset := kAckSequenceNumberOffset + 4.
Definition kSerializedSize := 4 + 4 + 4.
#[global] Hint Unfold kIdOffset kAckSequenceNumberOffset kAckBitmaskOffset kSerializedSize : wire.

Definition write (buffer : bytes) (id ack_sequence_number ack_bitmask : Z) : result (bytes * bytes) :=
  '(buffer, n1) ← write_u32 id buffer kIdOffset;
  '(buffer, n2) ← write_u32 ack_sequence_number buffer kAckSequenceNumberOffset;
  '(buffer, n3) ← write_u32 ack_bitmask buffer kAckBitmaskOffset;
  view ← span_first buffer (n1 + n2 + n3);
  Ok (buffer, view).

Definition id (buffer : bytes) : result Z := read_u32 buffer kIdOffset.
Definition ack_sequence_number (buffer : bytes) : result Z := read_u32 buffer kAckSequenceNumberOffset.
Definition ack_bitmask (buffer : bytes) : result Z := read_u32 buffer kAckBitmaskOffset.

Definition encode (id ack_sequence_number ack_bitmask : Z) : bytes :=
  be_encode 4 id ++ be_encode 4 ack_sequence_number ++ be_encode 4 ack_bitmask.

Lemma packet_header_length_encode i s m : length (encode i s m) = 12%nat.
Proof. done. Qed.

Lemma packet_header_write_Ok buffer i s m :
  kSerializedSize ≤ len buffer →
  write buffer i s m = Ok (encode i s m ++ drop 12 buffer, encode i s m).
Proof.
  unfold write, encode. autounfold with wire. intros.
  replace buffer with ([] ++ buffer) at 1 by done.
  do 3 write_step.
  rewrite span_first_Ok by list_lia. cbn [mbind result_bind].
  rewrite take_reassoc by list_lia. rewrite !drop_drop. by rewrite <-!app_assoc.
Qed.

Lemma packet_header_write_size buffer i a m buffer' view :
  write buffer i a m = Ok (buffer', view) → 12 ≤ len buffer.
Proof.
  unfold write, write_u32. autounfold with wire. intros H.
  apply Prelude.bind_Ok in H as ([b1 n1] & H1 & H). apply Prelude.bind_Ok in H as ([b2 n2] & H2 & H).
  apply Prelude.bind_Ok in H as ([b3 n3] & H3 & _).
  apply write_unsigned_inv in H1, H2, H3; [lia..|lia|lia].
Qed.

Lemma id_encode i s m rest : id (encode i s m ++ rest) = Ok (u32 i).
Proof. unfold id, encode. rewrite <-!app_assoc. by apply (read_u32_app []). Qed.

Lemma ack_sequence_number_encode i s m rest :
  ack_sequence_number (encode i s m ++ rest) = Ok (u32 s).
Proof.
  unfold ack_sequence_number, encode. rewrite <-!app_assoc. by apply read_u32_app.
Qed.

Lemma ack_bitmask_encode i s m rest : ack_bitmask (encode i s m ++ rest) = Ok (u32 m).
Proof.
  unfold ack_bitmask, encode. rewrite <-!app_assoc, (app_assoc (be_encode 4 i)).
  by apply read_u32_app.
Qed.
End PacketHeader.

Module MessageHeader.
Definition kMessageTypeOffset := 0.
Definition kSerializedSize := 1.
#[global] Hint Unfold kMessageTypeOffset kSerializedSize : wire.

Definition write (buffer : bytes) (message_type : Z) : result (bytes * bytes) :=
  '(buffer, count) ← write_u8 message_type buffer kMessageTypeOffset;
  view ← span_first buffer count;
  Ok (buffer, view).

Definition message_type (buffer : bytes) : result Z := read_u8 buffer kMessageTypeOffset.

Definition encode (message_type : Z) : bytes := be_encode 1 message_type.

Lemma message_header_write_Ok buffer t :
  kSerializedSize ≤ len buffer → write buffer t = Ok (encode t ++ drop 1 buffer, encode t).
Proof.
  unfold write, encode. autounfold with wire. intros.
  replace buffer with ([] ++ buffer) at 1 by done.
  write_step. rewrite app_nil_l.
  rewrite span_first_Ok by list_lia. cbn [mbind result_bind].
  by rewrite take_reassoc by list_lia.
Qed.

Lemma message_type_encode t rest : message_type (encode t ++ rest) = Ok (u8 t).
Proof. by apply (read_u8_app []). Qed.
End MessageHeader.

Module Segment.
Definition kManagerTypeOffset := 0.
Definition kMessageCountOffset := kManagerTypeOffset + 1.
Definition kSerializedSize := 1 + 1.
#[global] Hint Unfold kManagerTypeOffset kMessageCountOffset kSerializedSize : wire.

Definition write (buffer : bytes) (manager_type message_count : Z) : result (bytes * bytes) :=
  '(buffer, n1) ← write_u8 manager_type buffer kManagerTypeOffset;
  '(buffer, n2) ← write_u8 message_count buffer kMessageCountOffset;
  view ← span_first buffer (n1 + n2);
  Ok (buffer, view).

Definition manager_type (buffer : bytes) : result Z := read_u8 buffer kManagerTypeOffset.
Definition message_count (buffer : bytes) : result Z := read_u8 buffer kMessageCountOffset.

Definition encode (manager_type message_count : Z) : bytes :=
  be_encode 1 manager_type ++ be_encode 1 message_count.

Lemma segment_length_encode t c : length (encode t c) = 2%nat.
Proof. done. Qed.

Lemma segment_write_Ok buffer t c :
  kSerializedSize ≤ len buffer → write buffer t c = Ok (encode t c ++ drop 2 buffer, encode t c).
Proof.
  unfold write, encode. autounfold with wire. intros.
  replace buffer with ([] ++ buffer) at 1 by done.
  do 2 write_step. rewrite app_nil_l.
  rewrite span_first_Ok by list_lia. cbn [mbind result_bind].
  by rewrite take_reassoc, drop_drop by list_lia.
Qed.

Lemma manager_type_encode t c rest : manager_type (encode t c ++ rest) = Ok (u8 t).
Proof. unfold manager_type, encode. rewrite <-app_assoc. by apply (read_u8_app []). Qed.

Lemma message_count_encode t c rest : message_count (encode t c ++ rest) = Ok (u8 c).
Proof. unfold message_count, encode. rewrite <-app_assoc. by apply read_u8_app. Qed.

(** A segment header can be read from any buffer of its size. *)
Lemma segment_read_total buffer :
  kSerializedSize ≤ len buffer →
  ∃ t c, manager_type buffer = Ok t ∧ message_count buffer = Ok c ∧ in_u 8 t ∧ in_u 8 c.
Proof.
  unfold manager_type, message_count, read_u8. autounfold with wire. intros.
  rewrite !read_unsigned_Ok by lia.
  do 2 eexists. split_and!; [done|done| |]; apply wrap_range; lia.
Qed.
End Segment.

Module LetsConnect.
Definition kId := 0.
Definition kSerializedSize := 1 + 1 + 2 + 2.
Definition kMaxSendPacketRate := 0.
Definition kMaxReadPacketRate := kMaxSendPacketRate + 1.
Definition kMaxSendPacketSize := kMaxReadPacketRate + 2.
Definition kMaxReadPacketSize := kMaxSendPacketSize + 2.
#[global] Hint Unfold kId kSerializedSize kMaxSendPacketRate kMaxReadPacketRate
  kMaxSendPacketSize kMaxReadPacketSize : wire.

Definition write (buffer : bytes) (max_send_packet_rate max_read_packet_rate
    max_send_packet_size max_read_packet_size : Z) : result (bytes * bytes) :=
  '(buffer, n1) ← write_u8 max_send_packet_rate buffer kMaxSendPacketRate;
  '(buffer, n2) ← write_u8 max_read_packet_rate buffer kMaxReadPacketRate;
  '(buffer, n3) ← write_u16 max_send_packet_size buffer kMaxSendPacketSize;
  '(buffer, n4) ← write_u16 max_read_packet_size buffer kMaxReadPacketSize;
  view ← span_first buffer (n1 + n2 + n3 + n4);
  Ok (buffer, view).

Definition max_send_packet_rate (buffer : bytes) : result Z := read_u8 buffer kMaxSendPacketRate.
Definition max_read_packet_rate (buffer : bytes) : result Z := read_u8 buffer kMaxReadPacketRate.
Definition max_send_packet_size (buffer : bytes) : result Z := read_u16 buffer kMaxSendPacketSize.
Definition max_read_packet_size (buffer : bytes) : result Z := read_u16 buffer kMaxReadPacketSize.

(** The layout leaves the byte at offset 2 untouched ([gap]) and is seven bytes
    long: the size fields start at offsets 3 and 5. *)
Definition encode (gap : Z) (send_rate read_rate send_size read_size : Z) : bytes :=
  be_encode 1 send_rate ++ be_encode 1 read_rate ++ [gap]
  ++ be_encode 2 send_size ++ be_encode 2 read_size.

Lemma lets_connect_length_encode g sr rr ss rs : length (encode g sr rr ss rs) = 7%nat.
Proof. done. Qed.

(** [write] fills seven bytes of the buffer and returns a span of six. *)
Lemma lets_connect_write_Ok b0 b1 gap rest sr rr ss rs :
  4 ≤ len rest →
  write (b0 :: b1 :: gap :: rest) sr rr ss rs
  = Ok (encode gap sr rr ss rs ++ drop 4 rest, take 6 (encode gap sr rr ss rs)).
Proof.
  unfold write, encode. autounfold with wire. intros.
  replace (b0 :: b1 :: gap :: rest) with ([] ++ b0 :: b1 :: gap :: rest) by done.
  do 2 write_step. rewrite app_nil_l. cbn [drop].
  replace ((be_encode 1 sr ++ be_encode 1 rr) ++ gap :: rest)
    with ((be_encode 1 sr ++ be_encode 1 rr ++ [gap]) ++ rest) by done.
  do 2 write_step. rewrite span_first_Ok by list_lia. cbn [mbind result_bind].
  rewrite drop_drop, <-!app_assoc. done.
Qed.

(** Each getter recovers its field when all seven bytes are there ... *)
Lemma getters_encode g sr rr ss rs rest :
  let b := encode g sr rr ss rs ++ rest in
  max_send_packet_rate b = Ok (u8 sr) ∧ max_read_packet_rate b = Ok (u8 rr) ∧
  max_send_packet_size b = Ok (u16 ss) ∧ max_read_packet_size b = Ok (u16 rs).
Proof.
  cbv zeta. unfold max_send_packet_rate, max_read_packet_rate, max_send_packet_size,
    max_read_packet_size, encode. autounfold with wire. rewrite <-!app_assoc.
  split_and!.
  - by apply (read_u8_app []).
  - by apply read_u8_app.
  - rewrite (app_assoc (be_encode 1 sr)), (app_assoc _ [g]), <-(app_assoc (be_encode 1 sr)).
    by apply read_u16_app.
  - rewrite (app_assoc (be_encode 1 sr)), (app_assoc _ [g]), (app_assoc _ (be_encode 2 ss)).
    by apply read_u16_app.
Qed.

(** ... and the last one leaves the span when it has the six bytes [write] returns. *)
Lemma max_read_packet_size_oob b : len b = kSerializedSize → max_read_packet_size b = out_of_bounds.
Proof. intros H. apply read_unsigned_oob; rewrite ?H; autounfold with wire; lia. Qed.

(** With exactly one byte behind them, that byte is the low byte of the size. *)
Lemma getters_overread g sr rr ss rs x rest :
  in_u 8 x →
  let b := take 6 (encode g sr rr ss rs) ++ x :: rest in
  max_send_packet_rate b = Ok (u8 sr) ∧ max_read_packet_rate b = Ok (u8 rr) ∧
  max_send_packet_size b = Ok (u16 ss) ∧
  max_read_packet_size b = Ok (256 * (u16 rs / 256) + x).
Proof.
  intros Hx b.
  set (rs' := 256 * (u16 rs / 256) + x).
  assert (0 ≤ u16 rs < 2 ^ 16) as Hr by (apply wrap_range; lia).
  assert (b = encode g sr rr ss rs' ++ rest) as ->.
  { unfold b, encode. rewrite !(take_app_ge _ _ 6) by list_lia.
    assert (be_encode 2 rs' = [Z.land (Z.shiftr rs 8) 255; x]) as ->; [|done].
    unfold in_u in Hx. change (2 ^ 8) with 256 in Hx. change (2 ^ 16) with 65536 in Hr.
    cbn [be_encode]. change 0xFF with (Z.ones 8). rewrite !Z.land_ones by lia.
    change (8 * Z.of_nat 1) with 8. change (8 * Z.of_nat 0) with 0.
    rewrite !Z.shiftr_div_pow2 by lia. change (2 ^ 0) with 1. change (2 ^ 8) with 256.
    rewrite Z.div_1_r. unfold rs', wrap. change (2 ^ 16) with (256 * 256).
    rewrite (Z.rem_mul_r rs 256 256) by lia.
    f_equal; [|f_equal].
    - replace (256 * ((rs mod 256 + 256 * (rs `div` 256 mod 256)) `div` 256) + x)
        with (x + (rs `div` 256 mod 256) * 256).
      + rewrite Z.div_add, (Z.div_small x), Z.add_0_l, Z.mod_mod by lia. done.
      + pose proof (Z.mod_pos_bound rs 256).
        rewrite (Z.mul_comm 256 (rs `div` 256 mod 256)), Z.div_add, (Z.div_small (rs mod 256)) by lia. lia.
    - rewrite Z.add_comm, Z.mul_comm, Z.mod_add by lia. by apply Z.mod_small. }
  destruct (getters_encode g sr rr ss rs' rest) as (-> & -> & -> & ->).
  split_and!; [done..|]. f_equal. apply wrap_small. unfold in_u, rs' in *.
  pose proof (Z.div_mod (u16 rs) 256). change (2 ^ 16) with 65536 in *. change (2 ^ 8) with 256 in *.
  pose proof (Z.mod_pos_bound (u16 rs) 256). lia.
Qed.
End LetsConnect.

Module RejectLetsConnect.
Definition kId := 1.
Definition kSerializedSize := 0.
#[global] Hint Unfold kId kSerializedSize : wire.

Definition write (buffer : bytes) : result (bytes * bytes) :=
  view ← span_first buffer 0;
  Ok (buffer, view).
End RejectLetsConnect.

(** [validate_size] of both message classes, from the size of their fixed part
    and their length field. *)
Definition checked_size (minimum_size buffer_size : Z) (length : result Z)
    : result (expected Z EncodingError) :=
  if buffer_size <? minimum_size then Ok (Unexpected MALFORMED_BUFFER)
  else
    length ← length;
    let total_size := minimum_size + length in
    if (buffer_size <? total_size) || (total_size =? minimum_size)
    then Ok (Unexpected MALFORMED_BUFFER)
    else Ok (Value total_size).

Module ReliableMessage.
Definition kSequenceNumberOffset := 0.
Definition kLengthOffset := kSequenceNumberOffset + 4.
Definition kPayloadOffset := kLengthOffset + 2.
#[global] Hint Unfold kSequenceNumberOffset kLengthOffset kPayloadOffset : wire.

(** The static [serialized_size(payload_size)]. *)
Definition serialized_size (payload_size : Z) : Z := 4 + 2 + payload_size.

Definition write (buffer : bytes) (sequence_number length : Z) (payload : bytes)
    : result (bytes * bytes) :=
  '(buffer, n1) ← write_u32 sequence_number buffer kSequenceNumberOffset;
  '(buffer, n2) ← write_u16 length buffer kLengthOffset;
  '(buffer, n3) ← write_byte_array payload buffer kPayloadOffset;
  view ← span_first buffer (n1 + n2 + n3);
  Ok (buffer, view).

Definition sequence_number (buffer : bytes) : result Z := read_u32 buffer kSequenceNumberOffset.
Definition length (buffer : bytes) : result Z := read_u16 buffer kLengthOffset.
Definition payload (buffer : bytes) : result bytes :=
  n ← length buffer; read_byte_array buffer kPayloadOffset n.

(** The member [serialized_size()]. *)
Definition get_serialized_size (buffer : bytes) : result Z :=
  n ← read_u16 buffer kLengthOffset; Ok (4 + 2 + n).

Definition validate_size (buffer : bytes) : result (expected Z EncodingError) :=
  checked_size (4 + 2) (len buffer) (length buffer).

Definition encode (sequence_number : Z) (payload : bytes) : bytes :=
  be_encode 4 sequence_number ++ be_encode 2 (len payload) ++ payload.

Lemma reliable_message_length_encode s p : len (encode s p) = serialized_size (len p).
Proof. unfold encode, serialized_size. list_lia. Qed.

Lemma reliable_message_write_Ok buffer s p :
  serialized_size (len p) ≤ len buffer →
  write buffer s (len p) p = Ok (encode s p ++ zdrop (serialized_size (len p)) buffer, encode s p).
Proof.
  unfold serialized_size, write, encode. autounfold with wire. intros.
  replace buffer with ([] ++ buffer) at 1 by done.
  do 3 write_step. rewrite app_nil_l, !drop_drop.
  rewrite span_first_Ok by list_lia. cbn [mbind result_bind].
  rewrite take_reassoc by list_lia. rewrite <-!app_assoc. do 6 f_equal. lia.
Qed.

Lemma sequence_number_encode s p rest : sequence_number (encode s p ++ rest) = Ok (u32 s).
Proof. unfold sequence_number, encode. rewrite <-!app_assoc. by apply (read_u32_app []). Qed.

Lemma reliable_message_length_field_encode s p rest : length (encode s p ++ rest) = Ok (u16 (len p)).
Proof. unfold length, encode. rewrite <-!app_assoc. by apply read_u16_app. Qed.

Lemma reliable_message_payload_encode s p rest :
  len p < 2 ^ 16 → len (encode s p ++ rest) < 2 ^ 64 → payload (encode s p ++ rest) = Ok p.
Proof.
  intros Hp Hl. unfold payload. rewrite reliable_message_length_field_encode. cbn [mbind result_bind].
  rewrite wrap_small by (unfold in_u; lia). unfold encode in *. rewrite <-!app_assoc in *.
  rewrite (app_assoc (be_encode 4 s)) in *. apply read_byte_array_app; [done..|].
  done.
Qed.

Lemma reliable_message_validate_size_encode s p rest :
  0 < len p < 2 ^ 16 →
  validate_size (encode s p ++ rest) = Ok (Value (serialized_size (len p))).
Proof.
  intros Hp. unfold validate_size. rewrite reliable_message_length_field_encode.
  rewrite wrap_small by (unfold in_u; lia).
  pose proof (reliable_message_length_encode s p) as Hl. unfold serialized_size in *. unfold checked_size.
  rewrite length_app, Nat2Z.inj_add, Hl.
  destruct (Z.ltb_spec (4 + 2 + len p + len rest) (4 + 2)); [lia|]. cbn [mbind result_bind].
  zcases.
Qed.

(** Whatever the bytes are, validation returns, and a validated message lies in
    the buffer with a non-empty payload that can be read. *)
Lemma reliable_message_validate_size_total buffer :
  len buffer < 2 ^ 64 →
  validate_size buffer = Ok (Unexpected MALFORMED_BUFFER) ∨
  ∃ total s p, validate_size buffer = Ok (Value total) ∧ sequence_number buffer = Ok s ∧
    payload buffer = Ok p ∧ total = serialized_size (len p) ∧ total ≤ len buffer ∧ 0 < len p < 2 ^ 16 ∧ in_u 32 s.
Proof.
  intros Hb. unfold validate_size, checked_size, payload, sequence_number, serialized_size.
  destruct (Z.ltb_spec (len buffer) (4 + 2)) as [|Hmin]; [by left|].
  unfold length, read_u16, read_u32. autounfold with wire.
  rewrite !read_unsigned_Ok by lia. cbn [mbind result_bind].
  pose proof (wrap_range (8 * Z.of_nat 2) (be_decode (take 2 (zdrop (0 + 4) buffer))) ltac:(lia)) as Hn.
  set (n := wrap _ _) in *.
  destruct (Z.ltb_spec (len buffer) (4 + 2 + n)); [by left|].
  destruct (Z.eqb_spec (4 + 2 + n) (4 + 2)); [by left|]. right.
  unfold in_u in Hn. change (8 * Z.of_nat 2) with 16 in Hn.
  rewrite read_byte_array_Ok by lia.
  do 3 eexists. split_and!; [done|done|done|list_lia|list_lia|list_lia|list_lia|].
  apply wrap_range. lia.
Qed.
End ReliableMessage.

Module UnreliableMessage.
Definition kLengthOffset := 0.
Definition kPayloadOffset := kLengthOffset + 2.
#[global] Hint Unfold kLengthOffset kPayloadOffset : wire.

(** The static [serialized_size(payload_size)]. *)
Definition serialized_size (payload_size : Z) : Z := 2 + payload_size.

Definition write (buffer : bytes) (length : Z) (payload : bytes) : result (bytes * bytes) :=
  '(buffer, n1) ← write_u16 length buffer kLengthOffset;
  '(buffer, n2) ← write_byte_array payload buffer kPayloadOffset;
  view ← span_first buffer (n1 + n2);
  Ok (buffer, view).

Definition length (buffer : bytes) : result Z := read_u16 buffer kLengthOffset.
Definition payload (buffer : bytes) : result bytes :=
  n ← length buffer; read_byte_array buffer kPayloadOffset n.

(** The member [serialized_size()]. *)
Definition get_serialized_size (buffer : bytes) : result Z :=
  n ← read_u16 buffer kLengthOffset; Ok (2 + n).

Definition validate_size (buffer : bytes) : result (expected Z EncodingError) :=
  checked_size 2 (len buffer) (length buffer).

Definition encode (payload : bytes) : bytes := be_encode 2 (len payload) ++ payload.

Lemma unreliable_message_length_encode p : len (encode p) = serialized_size (len p).
Proof. unfold encode, serialized_size. list_lia. Qed.

Lemma unreliable_message_write_Ok buffer p :
  serialized_size (len p) ≤ len buffer →
  write buffer (len p) p = Ok (encode p ++ zdrop (serialized_size (len p)) buffer, encode p).
Proof.
  unfold serialized_size, write, encode. autounfold with wire. intros.
  replace buffer with ([] ++ buffer) at 1 by done.
  do 2 write_step. rewrite app_nil_l, !drop_drop.
  rewrite span_first_Ok by list_lia. cbn [mbind result_bind].
  rewrite take_reassoc by list_lia. rewrite <-!app_assoc. do 5 f_equal. lia.
Qed.

Lemma unreliable_message_length_field_encode p rest : length (encode p ++ rest) = Ok (u16 (len p)).
Proof. unfold length, encode. rewrite <-!app_assoc. by apply (read_u16_app []). Qed.

Lemma unreliable_message_payload_encode p rest :
  len p < 2 ^ 16 → len (encode p ++ rest) < 2 ^ 64 → payload (encode p ++ rest) = Ok p.
Proof.
  intros Hp Hl. unfold payload. rewrite unreliable_message_length_field_encode. cbn [mbind result_bind].
  rewrite wrap_small by (unfold in_u; lia). unfold encode in *. rewrite <-!app_assoc in *.
  by apply read_byte_array_app.
Qed.

Lemma unreliable_message_validate_size_encode p rest :
  0 < len p < 2 ^ 16 →
  validate_size (encode p ++ rest) = Ok (Value (serialized_size (len p))).
Proof.
  intros Hp. unfold validate_size. rewrite unreliable_message_length_field_encode.
  rewrite wrap_small by (unfold in_u; lia).
  pose proof (unreliable_message_length_encode p) as Hl. unfold serialized_size in *. unfold checked_size.
  rewrite length_app, Nat2Z.inj_add, Hl.
  destruct (Z.ltb_spec (2 + len p + len rest) 2); [lia|]. cbn [mbind result_bind].
  zcases.
Qed.

Lemma unreliable_message_validate_size_total buffer :
  len buffer < 2 ^ 64 →
  validate_size buffer = Ok (Unexpected MALFORMED_BUFFER) ∨
  ∃ total p, validate_size buffer = Ok (Value total) ∧ payload buffer = Ok p ∧
    total = serialized_size (len p) ∧ total ≤ len buffer ∧ 0 < len p < 2 ^ 16.
Proof.
  intros Hb. unfold validate_size, checked_size, payload, serialized_size.
  destruct (Z.ltb_spec (len buffer) 2) as [|Hmin]; [by left|].
  unfold length, read_u16. autounfold with wire.
  rewrite !read_unsigned_Ok by lia. cbn [mbind result_bind].
  pose proof (wrap_range (8 * Z.of_nat 2) (be_decode (take 2 (zdrop 0 buffer))) ltac:(lia)) as Hn.
  set (n := wrap _ _) in *.
  destruct (Z.ltb_spec (len buffer) (2 + n)); [by left|].
  destruct (Z.eqb_spec (2 + n) 2); [by left|]. right.
  unfold in_u in Hn. change (8 * Z.of_nat 2) with 16 in Hn.
  rewrite read_byte_array_Ok by lia.
  do 2 eexists. split_and!; [done|done|list_lia..].
Qed.
End UnreliableMessage.

(** network/message.h *)
Module Ping.
Definition kTimestampOffset := 0.
Definition kNoteOffset := kTimestampOffset + 8.

Definition write (buffer : bytes) (timestamp : Z) (note : bytes) : result (bytes * bytes) :=
  '(buffer, n1) ← write_u64 timestamp buffer kTimestampOffset;
  '(buffer, n2) ← write_string note buffer kNoteOffset;
  view ← span_first buffer (n1 + n2);
  Ok (buffer, view).

Definition timestamp (buffer : bytes) : result Z := read_u64 buffer kTimestampOffset.
Definition note (buffer : bytes) : result bytes := read_string buffer kNoteOffset.

Definition encode (timestamp : Z) (note : bytes) : bytes :=
  be_encode 8 timestamp ++ be_encode 2 (len note) ++ note.

Lemma ping_write_Ok buffer t n :
  is_bytes n → 10 + len n ≤ len buffer →
  write buffer t n = Ok (encode t n ++ zdrop (10 + len n) buffer, encode t n).
Proof.
  intros Hn Hb. unfold write, encode. unfold kNoteOffset, kTimestampOffset.
  replace buffer with ([] ++ buffer) at 1 by done. write_step.
  rewrite write_string_app by (done || list_lia). cbn [mbind result_bind].
  rewrite app_nil_l, (app_assoc _ n), app_assoc, span_first_Ok by list_lia.
  cbn [mbind result_bind]. rewrite take_reassoc, drop_drop by list_lia.
  do 4 f_equal. lia.
Qed.

Lemma note_encode t n : len n < 2 ^ 16 → note (encode t n) = Ok n.
Proof.
  intros. unfold note, encode. rewrite <-(app_nil_r n) at 2.
  by apply read_string_app.
Qed.

(** [read_u64] returns 32 bits: the timestamp comes back modulo [2 ^ 32]. *)
Lemma timestamp_encode t n : timestamp (encode t n) = Ok (u32 t).
Proof.
  unfold timestamp, encode, read_u64, kTimestampOffset.
  rewrite read_unsigned_0. cbn [mbind result_bind]. f_equal.
  unfold wrap. change (2 ^ (8 * Z.of_nat 8)) with (2 ^ 32 * 2 ^ 32).
  rewrite Z.rem_mul_r, Z.mul_comm, Z.mod_add, Z.mod_mod by lia. done.
Qed.
End Ping.
