(* ===== verification/ReliableStream.v ===== *)
(** * ReliableStream (neptun/reliable_stream.h)

    The sender side keeps the bytes of the outstanding messages in a FlipBuffer
    and two queues of index ranges into it: messages written to packets whose fate
    is unknown, and messages waiting to be written. The receiver side is the next
    expected sequence number. *)
From Stdlib Require Import ZArith Lia Sorted.
From stdpp Require Import prelude strings.
From S2P Require Import Prelude Span IoBuffer FlipBuffer Messages.
Open Scope Z_scope.

Record BufferRange := mkRange { r_begin : Z; r_end : Z }.

(** [operator-=] *)
Definition range_sub (r : BufferRange) (value : Z) : result BufferRange :=
  assert_that (value <=? r_begin r);;
  assert_that (value <=? r_end r);;
  Ok (mkRange (r_begin r - value) (r_end r - value)).

(** [size()] *)
Definition range_size (r : BufferRange) : result Z :=
  assert_that (r_begin r <=? r_end r);;
  Ok (r_end r - r_begin r).

Record PendingMessage := mkPending { range : BufferRange; sequence_number : Z }.

Record InFlightMessage := mkInFlight { packet_id : Z; message : PendingMessage }.

Record ReliableStream := mkReliableStream {
  m_buffer : FlipBuffer;
  in_flight_messages : list InFlightMessage;
  pending_messages : list PendingMessage;
  m_next_outgoing_sequence_number : Z;
  m_next_expected_sequence_number : Z;
}.

#[export] Instance BufferRange_eq_dec : EqDecision BufferRange.
Proof. solve_decision. Defined.
#[export] Instance PendingMessage_eq_dec : EqDecision PendingMessage.
Proof. solve_decision. Defined.
#[export] Instance InFlightMessage_eq_dec : EqDecision InFlightMessage.
Proof. solve_decision. Defined.
#[export] Instance ReliableStream_eq_dec : EqDecision ReliableStream.
Proof. solve_decision. Defined.

(** The constructor; its default argument is 3200. *)
Definition create (buffer_capacity : Z) : ReliableStream :=
  mkReliableStream (FlipBuffer.create buffer_capacity) [] [] 0 0.

Definition kDefaultCapacity := 3200.

(** ** on_packet_delivery_status *)

(** The loop of the [ACK] case. *)
Fixpoint ack_loop (id : Z) (in_flight : list InFlightMessage) (fb : FlipBuffer)
    : result (list InFlightMessage * FlipBuffer) :=
  match in_flight with
  | [] => Ok ([], fb)
  | m :: rest =>
      if packet_id m =? id then
        n ← range_size (range (message m));
        ack_loop id rest (FlipBuffer.consume fb n)
      else Ok (in_flight, fb)
  end.

(** The two loops of the [DROP] case: the messages go through a stack ... *)
Fixpoint to_stack (in_flight : list InFlightMessage) (stack : list PendingMessage) : list PendingMessage :=
  match in_flight with
  | [] => stack
  | m :: rest => to_stack rest (message m :: stack)
  end.

(** ... to the front of the pending queue. *)
Fixpoint unstack (stack pending : list PendingMessage) : list PendingMessage :=
  match stack with
  | [] => pending
  | m :: rest => unstack rest (m :: pending)
  end.

(** [in_flight.empty() || rel(in_flight.front().packet_id)] *)
Definition empty_or_front (in_flight : list InFlightMessage) (rel : Z → bool) : bool :=
  match in_flight with [] => true | m :: _ => rel (packet_id m) end.

Definition on_packet_delivery_status (s : ReliableStream) (id : Z) (status : PacketDeliveryStatus)
    : result ReliableStream :=
  match status with
  | ACK =>
      '(in_flight, fb) ← ack_loop id (in_flight_messages s) (m_buffer s);
      assert_that (empty_or_front in_flight (λ front, id <? front));;
      Ok (mkReliableStream fb in_flight (pending_messages s)
            (m_next_outgoing_sequence_number s) (m_next_expected_sequence_number s))
  | DROP =>
      assert_that (empty_or_front (in_flight_messages s) (λ front, id <=? front));;
      let reversed_messages := to_stack (in_flight_messages s) [] in
      Ok (mkReliableStream (m_buffer s) [] (unstack reversed_messages (pending_messages s))
            (m_next_outgoing_sequence_number s) (m_next_expected_sequence_number s))
  end.

(** ** read *)

(** The loop of [read] from its [n]-th last iteration on; [delivered] are the
    payloads the callback has been called with. *)
Fixpoint read_loop (n : nat) (buffer : bytes) (idx expected_seq : Z) (delivered : list bytes)
    : result (Z * list bytes * expected Z NeptunError) :=
  match n with
  | O => Ok (expected_seq, delivered, Value idx)
  | S n' =>
      reliable_message ← Span.advance buffer idx;
      msg_size ← ReliableMessage.validate_size reliable_message;
      match msg_size with
      | Unexpected _ => Ok (expected_seq, delivered, Unexpected MALFORMED_PACKET)
      | Value size =>
          seq ← ReliableMessage.sequence_number reliable_message;
          if seq =? expected_seq then
            payload ← ReliableMessage.payload reliable_message;
            read_loop n' buffer (idx + size) (u32 (expected_seq + 1)) (delivered ++ [payload])
          else read_loop n' buffer (idx + size) expected_seq delivered
      end
  end.

(** The new state, the payloads the callback gets, in order, and the returned value. *)
Definition read (s : ReliableStream) (buffer : bytes)
    : result (ReliableStream * list bytes * expected Z NeptunError) :=
  if len buffer <? Segment.kSerializedSize then Ok (s, [], Value 0)
  else
    manager_type ← Segment.manager_type buffer;
    if negb (manager_type =? RELIABLE_STREAM) then Ok (s, [], Value 0)
    else
      message_count ← Segment.message_count buffer;
      '(seq, delivered, r) ← read_loop (Z.to_nat message_count) buffer Segment.kSerializedSize
                               (m_next_expected_sequence_number s) [];
      Ok (mkReliableStream (m_buffer s) (in_flight_messages s) (pending_messages s)
            (m_next_outgoing_sequence_number s) seq, delivered, r).

(** ** write *)

Definition buffer_span (fb : FlipBuffer) (r : BufferRange) : result bytes :=
  span_range (FlipBuffer.m_buffer fb) (r_begin r) (r_end r).

(** The first loop: how many messages fit. *)
Fixpoint count_loop (fb : FlipBuffer) (pending : list PendingMessage) (buffer_size total_size : Z)
    (message_count : nat) : result (Z * nat) :=
  match pending with
  | [] => Ok (total_size, message_count)
  | pending_msg :: rest =>
      payload ← buffer_span fb (range pending_msg);
      let msg_size := ReliableMessage.serialized_size (len payload) in
      if buffer_size <? total_size + msg_size then Ok (total_size, message_count)
      else count_loop fb rest buffer_size (total_size + msg_size) (S message_count)
  end.

(** The second loop: [n] messages move from pending to in flight. *)
Fixpoint write_loop (n : nat) (id : Z) (fb : FlipBuffer) (pending : list PendingMessage)
    (in_flight : list InFlightMessage) (buffer : bytes) (idx : Z)
    : result (list PendingMessage * list InFlightMessage * bytes * Z) :=
  match n with
  | O => Ok (pending, in_flight, buffer, idx)
  | S n' =>
      match pending with
      | [] => Fault (Undefined EmptyQueue)
      | pending_msg :: rest =>
          payload ← buffer_span fb (range pending_msg);
          '(buffer', view) ← on_advance buffer idx (λ b,
             ReliableMessage.write b (sequence_number pending_msg) (u16 (len payload)) payload);
          assert_that (len view <=? usize (len buffer - idx));;
          write_loop n' id fb rest (in_flight ++ [mkInFlight id pending_msg]) buffer' (idx + len view)
      end
  end.

(** The new state, the new contents of [buffer] and the returned size. *)
Definition write (s : ReliableStream) (id : Z) (buffer : bytes) : result (ReliableStream * bytes * Z) :=
  '(total_size, message_count) ←
    count_loop (m_buffer s) (pending_messages s) (len buffer) Segment.kSerializedSize 0;
  if (message_count =? 0)%nat then Ok (s, buffer, 0)
  else
    '(buffer, segment) ← Segment.write buffer RELIABLE_STREAM (Z.of_nat message_count);
    '(pending, in_flight, buffer, idx) ←
      write_loop message_count id (m_buffer s) (pending_messages s) (in_flight_messages s)
        buffer (len segment);
    assert_that (idx =? total_size);;
    Ok (mkReliableStream (m_buffer s) in_flight pending
          (m_next_outgoing_sequence_number s) (m_next_expected_sequence_number s),
        buffer, total_size).

(** ** send *)

(** The loop of [maybe_flip] over the in-flight queue pops the front, rebases it
    and pushes it to the back, [n] times. *)
Fixpoint rotate_rebase (n : nat) (value : Z) (in_flight : list InFlightMessage)
    : result (list InFlightMessage) :=
  match n with
  | O => Ok in_flight
  | S n' =>
      match in_flight with
      | [] => Fault (Undefined EmptyQueue)
      | m :: rest =>
          r ← range_sub (range (message m)) value;
          rotate_rebase n' value
            (rest ++ [mkInFlight (packet_id m) (mkPending r (sequence_number (message m)))])
      end
  end.

Fixpoint rebase_pending (value : Z) (pending : list PendingMessage) : result (list PendingMessage) :=
  match pending with
  | [] => Ok []
  | m :: rest =>
      r ← range_sub (range m) value;
      rest' ← rebase_pending value rest;
      Ok (mkPending r (sequence_number m) :: rest')
  end.

Definition maybe_flip (s : ReliableStream) : result ReliableStream :=
  let begin_index := m_begin (m_buffer s) in
  if 0 <? begin_index then
    in_flight ← rotate_rebase (length (in_flight_messages s)) begin_index (in_flight_messages s);
    pending ← rebase_pending begin_index (pending_messages s);
    fb ← FlipBuffer.flip (m_buffer s);
    Ok (mkReliableStream fb in_flight pending
          (m_next_outgoing_sequence_number s) (m_next_expected_sequence_number s))
  else Ok s.

Definition send (s : ReliableStream) (write_to_buffer : WriteToBufferFn) : result ReliableStream :=
  s ← maybe_flip s;
  rest ← FlipBuffer.remaining (m_buffer s);
  let w := write_to_buffer rest in
  let fb := put_remaining (m_buffer s) (w_buffer w) in
  if w_size w =? 0 then
    Ok (mkReliableStream fb (in_flight_messages s) (pending_messages s)
          (m_next_outgoing_sequence_number s) (m_next_expected_sequence_number s))
  else
    let seq := m_next_outgoing_sequence_number s in
    let msg := mkPending (mkRange (m_end fb) (m_end fb + w_size w)) seq in
    fb ← FlipBuffer.advance fb (w_size w);
    Ok (mkReliableStream fb (in_flight_messages s) (pending_messages s ++ [msg])
          (u32 (seq + 1)) (m_next_expected_sequence_number s)).

(** ** Invariant *)

(** The outstanding messages, oldest first. *)
Definition messages (s : ReliableStream) : list PendingMessage :=
  (message <$> in_flight_messages s) ++ pending_messages s.

Definition payload_in (fb : FlipBuffer) (m : PendingMessage) : bytes :=
  FlipBuffer.slice fb (r_begin (range m)) (r_end (range m)).

(** Their payloads. *)
Definition outstanding (s : ReliableStream) : list bytes := payload_in (m_buffer s) <$> messages s.

(** The non-empty ranges of [ms] tile [b, e). *)
Fixpoint chained (b : Z) (ms : list PendingMessage) (e : Z) : Prop :=
  match ms with
  | [] => b = e
  | m :: ms' => r_begin (range m) = b ∧ b < r_end (range m) ∧ chained (r_end (range m)) ms' e
  end.

(** The messages [ms] are number [n], [n + 1], ... of the stream. *)
Fixpoint numbered (n : Z) (ms : list PendingMessage) : Prop :=
  match ms with
  | [] => True
  | m :: ms' => sequence_number m = u32 n ∧ numbered (n + 1) ms'
  end.

(** [first] is the number of messages already released: the outstanding ones are
    the messages [first], [first + 1], ... of the stream. Their bytes tile the
    window of the buffer, in order. *)
Record inv (s : ReliableStream) (first : Z) : Prop := {
  inv_wf : FlipBuffer.wf (m_buffer s);
  inv_capacity : len (FlipBuffer.m_buffer (m_buffer s)) < 2 ^ 16;
  inv_chained : chained (m_begin (m_buffer s)) (messages s) (m_end (m_buffer s));
  inv_numbered : numbered first (messages s);
  inv_next : m_next_outgoing_sequence_number s = u32 (first + len (messages s));
  inv_sorted : StronglySorted Z.le (packet_id <$> in_flight_messages s);
}.

Lemma chained_app b ms1 ms2 e :
  chained b (ms1 ++ ms2) e ↔ ∃ m, chained b ms1 m ∧ chained m ms2 e.
Proof.
  revert b. induction ms1 as [|x ms1 IH]; intros b; simpl.
  - split; [eauto | by intros (? & -> & ?)].
  - rewrite IH. naive_solver.
Qed.

Lemma chained_le b ms e : chained b ms e → b ≤ e.
Proof.
  revert b. induction ms as [|m ms IH]; simpl; intros b; [lia|].
  intros (? & ? & H%IH). lia.
Qed.

(** Every message of a tiling lies inside it. *)
Lemma chained_elem b ms e m :
  chained b ms e → m ∈ ms → b ≤ r_begin (range m) ∧ r_begin (range m) < r_end (range m) ∧ r_end (range m) ≤ e.
Proof.
  revert b. induction ms as [|x ms IH]; simpl; intros b H Hm; [by apply not_elem_of_nil in Hm|].
  destruct H as (Hb & Hlt & H). pose proof (chained_le _ _ _ H).
  apply elem_of_cons in Hm as [->|Hm]; [lia|]. specialize (IH _ H Hm). lia.
Qed.

Lemma numbered_app n ms1 ms2 :
  numbered n (ms1 ++ ms2) ↔ numbered n ms1 ∧ numbered (n + len ms1) ms2.
Proof.
  revert n. induction ms1 as [|m ms1 IH]; intros n; simpl.
  - rewrite Z.add_0_r. naive_solver.
  - rewrite IH. replace (n + Z.of_nat (S (length ms1))) with (n + 1 + len ms1) by lia. naive_solver.
Qed.

Lemma payload_in_length fb b ms e m :
  FlipBuffer.wf fb → chained b ms e → m_begin fb ≤ b → e ≤ m_end fb → m ∈ ms →
  len (payload_in fb m) = r_end (range m) - r_begin (range m).
Proof.
  intros [] Hc Hb He Hm. destruct (chained_elem _ _ _ _ Hc Hm) as (? & ? & ?).
  unfold payload_in. apply FlipBuffer.length_slice; lia.
Qed.

Lemma buffer_span_Ok fb b ms e m :
  FlipBuffer.wf fb → chained b ms e → m_begin fb ≤ b → e ≤ m_end fb → m ∈ ms →
  buffer_span fb (range m) = Ok (payload_in fb m).
Proof.
  intros [] Hc Hb He Hm. destruct (chained_elem _ _ _ _ Hc Hm) as (? & ? & ?).
  unfold buffer_span. by rewrite span_range_Ok by lia.
Qed.

Lemma rs_inv_create capacity : 0 ≤ capacity < 2 ^ 16 → inv (create capacity) 0.
Proof.
  intros. split; simpl; [apply FlipBuffer.flip_wf_create; lia | list_lia | done | done | done | constructor].
Qed.

(** ** Delivery statuses *)

Lemma to_stack_spec in_flight stack :
  to_stack in_flight stack = reverse (message <$> in_flight) ++ stack.
Proof.
  revert stack. induction in_flight as [|m q IH]; intros stack; simpl; [done|].
  by rewrite IH, reverse_cons, <-app_assoc.
Qed.

Lemma unstack_spec stack pending : unstack stack pending = reverse stack ++ pending.
Proof.
  revert pending. induction stack as [|m st IH]; intros pending; simpl; [done|].
  by rewrite IH, reverse_cons, <-app_assoc.
Qed.

(** The stack puts the in-flight messages back in their order. *)
Lemma unstack_to_stack in_flight pending :
  unstack (to_stack in_flight []) pending = (message <$> in_flight) ++ pending.
Proof. by rewrite unstack_spec, to_stack_spec, app_nil_r, reverse_involutive. Qed.

Lemma ack_loop_Ok id q tl fb :
  chained (m_begin fb) ((message <$> q) ++ tl) (m_end fb) → FlipBuffer.wf fb →
  ∃ acked rest fb', ack_loop id q fb = Ok (rest, fb') ∧ q = acked ++ rest ∧
    Forall (λ m, packet_id m = id) acked ∧
    match rest with [] => True | m :: _ => packet_id m ≠ id end ∧
    FlipBuffer.wf fb' ∧ m_end fb' = m_end fb ∧ FlipBuffer.m_buffer fb' = FlipBuffer.m_buffer fb ∧
    chained (m_begin fb') ((message <$> rest) ++ tl) (m_end fb').
Proof.
  revert fb. induction q as [|m q IH]; intros fb Hc Hwf; simpl.
  { by exists [], [], fb. }
  destruct (Z.eqb_spec (packet_id m) id) as [Heq|Hne].
  2:{ by exists [], (m :: q), fb. }
  simpl in Hc. destruct Hc as (Hb & Hlt & Hc). pose proof (chained_le _ _ _ Hc).
  unfold range_size. rewrite assert_that_true by (apply Z.leb_le; lia). cbn [mbind result_bind].
  destruct (IH (FlipBuffer.consume fb (r_end (range (message m)) - r_begin (range (message m)))))
    as (acked & rest & fb' & -> & -> & Hacked & Hrest & Hwf' & He & Hbuf & Hc').
  - simpl. by replace (m_begin fb + _) with (r_end (range (message m))) by lia.
  - apply FlipBuffer.consume_wf; [done|lia].
  - exists (m :: acked), rest, fb'. split_and!; try done. by constructor.
Qed.

Lemma sorted_app_tail (l1 l2 : list Z) : StronglySorted Z.le (l1 ++ l2) → StronglySorted Z.le l2.
Proof. induction l1; [done|]. intros H. apply IHl1. by apply StronglySorted_inv in H as []. Qed.

(** The invariant as the queues are split at the front. *)
Lemma inv_release s first acked rest fb :
  inv s first → in_flight_messages s = acked ++ rest →
  FlipBuffer.wf fb → m_end fb = m_end (m_buffer s) →
  FlipBuffer.m_buffer fb = FlipBuffer.m_buffer (m_buffer s) →
  chained (m_begin fb) ((message <$> rest) ++ pending_messages s) (m_end fb) →
  inv (mkReliableStream fb rest (pending_messages s)
         (m_next_outgoing_sequence_number s) (m_next_expected_sequence_number s))
      (first + len acked).
Proof.
  intros [Hwf Hcap _ Hnum Hnext Hsort] Hq Hwf' He Hbuf Hc.
  assert (messages s = (message <$> acked) ++ (message <$> rest) ++ pending_messages s) as Hm.
  { unfold messages. by rewrite Hq, fmap_app, app_assoc. }
  rewrite Hm in Hnum, Hnext. apply numbered_app in Hnum as [_ Hnum].
  split; simpl; [done|by rewrite Hbuf|done| | |].
  - by rewrite length_fmap in Hnum.
  - rewrite Hnext. f_equal. unfold messages; simpl. list_lia.
  - rewrite Hq, fmap_app in Hsort. by eapply sorted_app_tail.
Qed.

(** [ACK] of packet [id]: when no in-flight message belongs to an older packet, the
    call returns and releases exactly the messages of that packet, the oldest ones. *)
Lemma on_ack_Ok s first id :
  inv s first → Forall (λ m, id ≤ packet_id m) (in_flight_messages s) →
  ∃ acked s', on_packet_delivery_status s id ACK = Ok s' ∧
    in_flight_messages s = acked ++ in_flight_messages s' ∧
    Forall (λ m, packet_id m = id) acked ∧
    Forall (λ m, id < packet_id m) (in_flight_messages s') ∧
    pending_messages s' = pending_messages s ∧
    m_next_expected_sequence_number s' = m_next_expected_sequence_number s ∧
    inv s' (first + len acked) ∧
    outstanding s' = drop (length acked) (outstanding s).
Proof.
  intros Hinv Hge. pose proof Hinv as [Hwf _ Hc _ _ Hsort]. unfold messages in Hc.
  destruct (ack_loop_Ok id _ _ _ Hc Hwf)
    as (acked & rest & fb & Hloop & Hq & Hacked & Hrest & Hwf' & He & Hbuf & Hc').
  assert (Forall (λ m, id < packet_id m) rest) as Hlt.
  { rewrite Hq, Forall_app in Hge. destruct Hge as [_ Hge].
    rewrite Hq, fmap_app in Hsort. apply sorted_app_tail in Hsort.
    destruct rest as [|m rest]; [done|]. rewrite fmap_cons in Hsort.
    apply StronglySorted_inv in Hsort as [_ Hall]. inversion Hge; subst.
    constructor; [lia|]. rewrite Forall_fmap in Hall. eapply Forall_impl; [exact Hall|]. simpl. lia. }
  exists acked. eexists. unfold on_packet_delivery_status. rewrite Hloop. cbn [mbind result_bind].
  rewrite assert_that_true.
  2:{ destruct rest; [done|]. simpl. inversion Hlt; subst. by apply Z.ltb_lt. }
  cbn [mbind result_bind]. split; [done|]. simpl.
  split_and!; try done.
  - by apply inv_release.
  - unfold outstanding, messages. cbn [m_buffer in_flight_messages pending_messages].
    rewrite Hq, (fmap_app message), <-app_assoc, (fmap_app _ (message <$> acked)).
    rewrite drop_reassoc by (by rewrite !length_fmap).
    apply list_fmap_ext. intros i m _. unfold payload_in, FlipBuffer.slice. by rewrite Hbuf.
Qed.

(** When an older packet still has messages in flight the assertion fails. *)
Lemma on_ack_stale s id m q :
  in_flight_messages s = m :: q → packet_id m < id →
  on_packet_delivery_status s id ACK = Fault AssertFailed ∧
  on_packet_delivery_status s id DROP = Fault AssertFailed.
Proof.
  intros Hq Hlt. unfold on_packet_delivery_status. rewrite Hq. simpl.
  destruct (Z.eqb_spec (packet_id m) id); [lia|]. cbn [mbind result_bind].
  unfold empty_or_front.
  destruct (Z.ltb_spec id (packet_id m)), (Z.leb_spec id (packet_id m)); by (done || lia).
Qed.

(** [DROP]: everything in flight is queued again in its order, in front. *)
Lemma on_drop_Ok s first id :
  inv s first → Forall (λ m, id ≤ packet_id m) (in_flight_messages s) →
  ∃ s', on_packet_delivery_status s id DROP = Ok s' ∧
    in_flight_messages s' = [] ∧
    pending_messages s' = messages s ∧
    m_next_expected_sequence_number s' = m_next_expected_sequence_number s ∧
    inv s' first ∧ outstanding s' = outstanding s.
Proof.
  intros [] Hge. unfold on_packet_delivery_status.
  rewrite assert_that_true.
  2:{ destruct (in_flight_messages s); [done|]. inversion Hge; subst. by apply Z.leb_le. }
  cbn [mbind result_bind]. rewrite unstack_to_stack.
  eexists. split; [done|]. simpl. split_and!; try done.
  split; simpl; try done. constructor.
Qed.

(** Any status that the assertions let pass: an [ACK] releases leading messages, all
    of that packet, a [DROP] none, and what stays in flight is of later packets. *)
Lemma on_status_inv s first id st s' :
  inv s first → on_packet_delivery_status s id st = Ok s' →
  ∃ acked, inv s' (first + len acked) ∧ outstanding s' = drop (length acked) (outstanding s) ∧
    m_next_expected_sequence_number s' = m_next_expected_sequence_number s ∧
    Forall (λ m, id < packet_id m) (in_flight_messages s') ∧
    match st with
    | ACK => in_flight_messages s = acked ++ in_flight_messages s' ∧
             Forall (λ m, packet_id m = id) acked ∧ pending_messages s' = pending_messages s
    | DROP => acked = [] ∧ in_flight_messages s' = [] ∧ pending_messages s' = messages s
    end.
Proof.
  intros Hinv Hs. pose proof Hinv as [Hwf _ Hc _ _ Hsort].
  destruct (in_flight_messages s) as [|m q] eqn:Hq.
  { destruct st.
    - destruct (on_ack_Ok s first id Hinv) as (acked & s1 & H1 & H2 & H3 & H4 & H5 & H6 & H7 & H8);
        [by rewrite Hq|].
      rewrite Hs in H1. injection H1 as <-. rewrite Hq in H2. by exists acked.
    - destruct (on_drop_Ok s first id Hinv) as (s1 & H1 & H2 & H3 & H4 & H5 & H6); [by rewrite Hq|].
      rewrite Hs in H1. injection H1 as <-. exists []. rewrite Z.add_0_r, drop_0, H2. by split_and!. }
  destruct (decide (packet_id m < id)) as [Hlt|Hge].
  { destruct (on_ack_stale s id m q Hq Hlt) as [H1 H2]. destruct st; congruence. }
  assert (Forall (λ m, id ≤ packet_id m) (in_flight_messages s)) as Hall.
  { rewrite Hq in *. rewrite fmap_cons in Hsort. apply StronglySorted_inv in Hsort as [_ Hall].
    constructor; [lia|]. rewrite Forall_fmap in Hall. eapply Forall_impl; [exact Hall|]. simpl. lia. }
  destruct st.
  - destruct (on_ack_Ok s first id Hinv Hall) as (acked & s1 & H1 & H2 & H3 & H4 & H5 & H6 & H7 & H8).
    rewrite Hs in H1. injection H1 as <-. rewrite Hq in H2. by exists acked.
  - destruct (on_drop_Ok s first id Hinv Hall) as (s1 & H1 & H2 & H3 & H4 & H5 & H6).
    rewrite Hs in H1. injection H1 as <-. exists []. rewrite Z.add_0_r, drop_0, H2. by split_and!.
Qed.

(** ** send *)

Definition rebased (v : Z) (m : PendingMessage) : PendingMessage :=
  mkPending (mkRange (r_begin (range m) - v) (r_end (range m) - v)) (sequence_number m).

Definition rebased_in_flight (v : Z) (m : InFlightMessage) : InFlightMessage :=
  mkInFlight (packet_id m) (rebased v (message m)).

(** A range the assertions of [operator-=] accept. *)
Definition rebasable (v : Z) (m : PendingMessage) : Prop :=
  v ≤ r_begin (range m) ∧ v ≤ r_end (range m).

Lemma range_sub_Ok v m :
  rebasable v m → range_sub (range m) v = Ok (range (rebased v m)).
Proof.
  intros [H1 H2]. unfold range_sub. by rewrite !assert_that_true by (by apply Z.leb_le).
Qed.

(** Rotating the whole queue visits every message once and keeps the order. *)
Lemma rotate_rebase_Ok v q1 q2 :
  Forall (rebasable v) (message <$> q1) →
  rotate_rebase (length q1) v (q1 ++ q2) = Ok (q2 ++ (rebased_in_flight v <$> q1)).
Proof.
  revert q2. induction q1 as [|m q1 IH]; intros q2 H.
  { cbn. by rewrite app_nil_r. }
  rewrite fmap_cons, Forall_cons in H. destruct H as [Hm H].
  cbn [length rotate_rebase app]. rewrite (range_sub_Ok _ _ Hm). cbn [mbind result_bind].
  rewrite <-app_assoc, IH by done. by rewrite <-app_assoc.
Qed.

Lemma rebase_pending_Ok v ms :
  Forall (rebasable v) ms → rebase_pending v ms = Ok (rebased v <$> ms).
Proof.
  induction 1 as [|m ms Hm _ IH]; [done|].
  cbn [rebase_pending]. rewrite (range_sub_Ok _ _ Hm), IH. done.
Qed.

Lemma chained_rebased v b ms e :
  chained b ms e → chained (b - v) (rebased v <$> ms) (e - v).
Proof.
  revert b. induction ms as [|m ms IH]; intros b; simpl; [lia|].
  intros (-> & ? & ?%IH). split_and!; [done|lia|done].
Qed.

Lemma numbered_rebased v n ms : numbered n ms → numbered n (rebased v <$> ms).
Proof.
  revert n. induction ms as [|m ms IH]; intros n; simpl; [done|].
  intros [? ?]. split; [done|]. by apply IH.
Qed.

Lemma messages_rebased v s fb a b :
  messages (mkReliableStream fb (rebased_in_flight v <$> in_flight_messages s)
             (rebased v <$> pending_messages s) a b) = rebased v <$> messages s.
Proof.
  unfold messages. cbn [in_flight_messages pending_messages].
  by rewrite fmap_app, <-!list_fmap_compose.
Qed.

(** [maybe_flip] moves the bytes and the ranges together: no message changes. *)
Lemma maybe_flip_Ok s first :
  inv s first →
  ∃ s', maybe_flip s = Ok s' ∧ inv s' first ∧ outstanding s' = outstanding s ∧
    m_begin (m_buffer s') = 0 ∧
    m_end (m_buffer s') = m_end (m_buffer s) - m_begin (m_buffer s) ∧
    len (FlipBuffer.m_buffer (m_buffer s')) = len (FlipBuffer.m_buffer (m_buffer s)) ∧
    packet_id <$> in_flight_messages s' = packet_id <$> in_flight_messages s ∧
    length (pending_messages s') = length (pending_messages s) ∧
    m_next_outgoing_sequence_number s' = m_next_outgoing_sequence_number s ∧
    m_next_expected_sequence_number s' = m_next_expected_sequence_number s.
Proof.
  intros Hinv. pose proof Hinv as [Hwf Hcap Hc Hnum Hnext Hsort]. pose proof Hwf as [].
  unfold maybe_flip. set (v := m_begin (m_buffer s)) in *.
  destruct (Z.ltb_spec 0 v).
  2:{ exists s. split_and!; try done; lia. }
  assert (Forall (rebasable v) (messages s)) as Hreb.
  { apply Forall_forall. intros m Hm. destruct (chained_elem _ _ _ _ Hc Hm). unfold rebasable. lia. }
  unfold messages in Hreb. rewrite Forall_app in Hreb. destruct Hreb as [Hr1 Hr2].
  pose proof (rotate_rebase_Ok v _ [] Hr1) as Hrot. rewrite app_nil_r, app_nil_l in Hrot.
  rewrite Hrot, (rebase_pending_Ok _ _ Hr2). cbn [mbind result_bind].
  destruct (FlipBuffer.flip (m_buffer s)) as [fb|] eqn:Hflip.
  2:{ by rewrite (FlipBuffer.flip_Ok _ Hwf) in Hflip. }
  cbn [mbind result_bind]. pose proof (FlipBuffer.flip_Ok _ Hwf) as Hflip'.
  rewrite Hflip in Hflip'. injection Hflip' as Hfb.
  assert (m_begin fb = 0 ∧ m_end fb = m_end (m_buffer s) - v) as [Hb He] by by rewrite Hfb.
  pose proof (FlipBuffer.flip_length _ _ Hwf Hflip).
  eexists. split; [done|].
  cbn [m_buffer in_flight_messages pending_messages m_next_outgoing_sequence_number
       m_next_expected_sequence_number].
  split_and!; try done.
  - split; cbn [m_buffer in_flight_messages m_next_outgoing_sequence_number].
    + by eapply FlipBuffer.flip_wf.
    + lia.
    + rewrite messages_rebased, Hb, He. replace 0 with (v - v) by lia. by apply chained_rebased.
    + rewrite messages_rebased. by apply numbered_rebased.
    + by rewrite messages_rebased, length_fmap.
    + by rewrite <-list_fmap_compose.
  - unfold outstanding. rewrite messages_rebased, <-list_fmap_compose.
    cbn [m_buffer]. apply list_fmap_ext. intros i m Hm%list_elem_of_lookup_2.
    destruct (chained_elem _ _ _ _ Hc Hm) as (? & ? & ?).
    unfold payload_in. simpl. apply FlipBuffer.flip_slice; [done|done|lia|lia].
  - by rewrite <-list_fmap_compose.
  - by rewrite length_fmap.
Qed.

(** What a call of [send] adds to the stream. *)
Definition sent_by (w : written) : list bytes := if w_size w =? 0 then [] else [payload_of w].

Lemma payload_in_put fb written m :
  FlipBuffer.wf fb → 0 ≤ r_begin (range m) ≤ r_end (range m) → r_end (range m) ≤ m_end fb →
  payload_in (put_remaining fb written) m = payload_in fb m.
Proof. intros. by apply FlipBuffer.put_remaining_slice. Qed.

Definition with_buffer (s : ReliableStream) (fb : FlipBuffer) : ReliableStream :=
  mkReliableStream fb (in_flight_messages s) (pending_messages s)
    (m_next_outgoing_sequence_number s) (m_next_expected_sequence_number s).

(** Writing behind the window disturbs no message. *)
Lemma overwrite_Ok s first written :
  inv s first →
  len written = len (FlipBuffer.m_buffer (m_buffer s)) - m_end (m_buffer s) →
  let fb := put_remaining (m_buffer s) written in
  inv (with_buffer s fb) first ∧ outstanding (with_buffer s fb) = outstanding s ∧
  len (FlipBuffer.m_buffer fb) = len (FlipBuffer.m_buffer (m_buffer s)).
Proof.
  intros [Hwf Hcap Hc Hnum Hnext Hsort] Hlen fb. pose proof Hwf as [].
  assert (len (FlipBuffer.m_buffer fb) = len (FlipBuffer.m_buffer (m_buffer s))) as Hl
    by (unfold fb; simpl; list_lia).
  split_and!; [|apply list_fmap_ext|done].
  - split; try done; [by apply FlipBuffer.put_remaining_wf|]. cbn [with_buffer m_buffer]. by rewrite Hl.
  - intros i m Hm%list_elem_of_lookup_2. destruct (chained_elem _ _ _ _ Hc Hm) as (? & ? & ?).
    simpl. apply payload_in_put; (done || lia).
Qed.

(** Claiming the first [n] bytes behind the window as a new message. *)
Lemma append_Ok s first n :
  inv s first → 0 < n ≤ len (FlipBuffer.m_buffer (m_buffer s)) - m_end (m_buffer s) →
  let fb := m_buffer s in
  let msg := mkPending (mkRange (m_end fb) (m_end fb + n)) (m_next_outgoing_sequence_number s) in
  let s' := mkReliableStream (mkFlipBuffer (m_begin fb) (m_end fb + n) (FlipBuffer.m_buffer fb))
              (in_flight_messages s) (pending_messages s ++ [msg])
              (u32 (m_next_outgoing_sequence_number s + 1)) (m_next_expected_sequence_number s) in
  inv s' first ∧
  outstanding s' = outstanding s ++ [ztake n (zdrop (m_end fb) (FlipBuffer.m_buffer fb))].
Proof.
  intros [Hwf Hcap Hc Hnum Hnext Hsort] Hn fb msg s'. pose proof Hwf as []. subst fb.
  assert (messages s' = messages s ++ [msg]) as Hmsgs.
  { unfold messages, s'. cbn [in_flight_messages pending_messages]. by rewrite app_assoc. }
  split.
  - split; [split; simpl; lia | done | | | |done].
    + rewrite Hmsgs. apply chained_app. exists (m_end (m_buffer s)). split; [done|].
      simpl. split_and!; [done|lia|done].
    + rewrite Hmsgs. apply numbered_app. split; [done|]. by split.
    + cbn [m_next_outgoing_sequence_number s']. rewrite Hnext, Hmsgs, wrap_add_l.
      f_equal. list_lia.
  - unfold outstanding. rewrite Hmsgs, fmap_app. f_equal. simpl.
    unfold payload_in, slice. simpl. by replace (m_end (m_buffer s) + n - m_end (m_buffer s)) with n by lia.
Qed.

(** The space [send] hands to the writer. *)
Definition offered (s : ReliableStream) : result bytes :=
  s ← maybe_flip s; remaining (m_buffer s).

(** [send] hands out all the space behind the window and appends the written
    message, if any, to the outstanding ones. *)
Lemma rs_send_Ok s first f :
  inv s first → WriterOk f →
  ∃ space s', offered s = Ok space ∧ send s f = Ok s' ∧
    len space = len (FlipBuffer.m_buffer (m_buffer s)) - (m_end (m_buffer s) - m_begin (m_buffer s)) ∧
    inv s' first ∧ outstanding s' = outstanding s ++ sent_by (f space) ∧
    len (FlipBuffer.m_buffer (m_buffer s')) = len (FlipBuffer.m_buffer (m_buffer s)) ∧
    packet_id <$> in_flight_messages s' = packet_id <$> in_flight_messages s ∧
    length (pending_messages s') = (length (pending_messages s) + length (sent_by (f space)))%nat ∧
    m_next_expected_sequence_number s' = m_next_expected_sequence_number s.
Proof.
  intros Hinv Hf. destruct (maybe_flip_Ok _ _ Hinv)
    as (s1 & Hflip & Hinv1 & Hout & Hb & He & Hcap & Hids & Hpend & _ & Hexp).
  pose proof (inv_wf _ _ Hinv1) as Hwf1. pose proof Hwf1 as [].
  unfold send, offered. rewrite Hflip. cbn [mbind result_bind].
  rewrite (FlipBuffer.remaining_Ok _ Hwf1). cbn [mbind result_bind].
  set (space := zdrop (m_end (m_buffer s1)) _). exists space.
  assert (len space = len (FlipBuffer.m_buffer (m_buffer s1)) - m_end (m_buffer s1)) as Hspace
    by (unfold space; list_lia).
  destruct Hf as [Hwlen _ Hwsize].
  specialize (Hwlen space). specialize (Hwsize space). set (w := f space) in *.
  destruct (overwrite_Ok s1 first (w_buffer w) Hinv1) as (Hinv2 & Hout2 & Hlen2); [lia|].
  set (fb := put_remaining (m_buffer s1) (w_buffer w)) in *.
  unfold sent_by. destruct (Z.eqb_spec (w_size w) 0) as [Hz|Hnz].
  - exists (with_buffer s1 fb). split_and!; try (done || lia).
    + by rewrite Hout2, app_nil_r.
    + etrans; [exact Hlen2|lia].
    + simpl. lia.
  - destruct (append_Ok _ first (w_size w) Hinv2) as [Hinv3 Hout3]; [simpl in *; lia|].
    destruct (FlipBuffer.flip_advance_Ok fb (w_size w) (inv_wf _ _ Hinv2)) as [Hadv _].
    { simpl in *; lia. }
    rewrite Hadv. cbn [mbind result_bind]. eexists. split; [done|].
    split_and!; try (done || lia).
    + etrans; [exact Hout3|]. rewrite Hout2, Hout. f_equal. unfold payload_of, fb. simpl.
      by rewrite drop_reassoc by list_lia.
    + simpl in *. lia.
    + cbn [pending_messages]. rewrite length_app, Hpend. done.
Qed.

(** ** write *)

(** The wire form of messages, and of a whole segment (nothing at all when there
    is no message to send). *)
Definition encode_messages (fb : FlipBuffer) (ms : list PendingMessage) : bytes :=
  concat ((λ m, ReliableMessage.encode (sequence_number m) (payload_in fb m)) <$> ms).

Definition encode_segment (fb : FlipBuffer) (ms : list PendingMessage) : bytes :=
  match ms with
  | [] => []
  | _ => Segment.encode RELIABLE_STREAM (len ms) ++ encode_messages fb ms
  end.

Lemma rs_encode_messages_cons fb m ms :
  encode_messages fb (m :: ms)
  = ReliableMessage.encode (sequence_number m) (payload_in fb m) ++ encode_messages fb ms.
Proof. done. Qed.

Section Write.
Context (fb : FlipBuffer) (b e : Z) (ms : list PendingMessage).
Context (Hwf : FlipBuffer.wf fb) (Hcap : len (FlipBuffer.m_buffer fb) < 2 ^ 16).
Context (Hb : m_begin fb ≤ b) (He : e ≤ m_end fb) (Hc : chained b ms e).

Lemma payload_size m : m ∈ ms → 0 < len (payload_in fb m) < 2 ^ 16.
Proof using All.
  intros Hm. rewrite (payload_in_length _ _ _ _ _ Hwf Hc Hb He Hm).
  destruct (chained_elem _ _ _ _ Hc Hm) as (? & ? & ?). destruct Hwf. lia.
Qed.

(** The first loop takes messages as long as they fit. *)
Lemma rs_count_loop_Ok size l total count :
  (∀ m, m ∈ l → m ∈ ms) →
  ∃ taken rest, l = taken ++ rest ∧
    count_loop fb l size total count
    = Ok (total + len (encode_messages fb taken), (count + length taken)%nat) ∧
    (taken = [] ∨ total + len (encode_messages fb taken) ≤ size) ∧
    match rest with
    | [] => True
    | m :: _ => size < total + len (encode_messages fb taken)
                       + ReliableMessage.serialized_size (len (payload_in fb m))
    end.
Proof using All.
  revert total count. induction l as [|m l IH]; intros total count Hl; cbn [count_loop].
  { exists [], []. rewrite Z.add_0_r, Nat.add_0_r. by split_and!; [..|left|]. }
  rewrite (buffer_span_Ok _ _ _ _ _ Hwf Hc Hb He) by set_solver. cbn [mbind result_bind].
  destruct (Z.ltb_spec size (total + ReliableMessage.serialized_size (len (payload_in fb m)))).
  { exists [], (m :: l). change (len (encode_messages fb [])) with 0.
    rewrite Z.add_0_r, Nat.add_0_r. by split_and!; [..|left|]. }
  destruct (IH (total + ReliableMessage.serialized_size (len (payload_in fb m))) (S count))
    as (taken & rest & -> & -> & Hle & Hrest); [set_solver|].
  assert (len (encode_messages fb (m :: taken))
    = ReliableMessage.serialized_size (len (payload_in fb m)) + len (encode_messages fb taken)) as Hlen.
  { rewrite rs_encode_messages_cons, length_app, Nat2Z.inj_add, ReliableMessage.reliable_message_length_encode. done. }
  exists (m :: taken), rest. rewrite Hlen, !Z.add_assoc. split_and!; try done.
  - do 2 f_equal. simpl. lia.
  - right. destruct Hle as [->|?]; [|done]. change (len (encode_messages fb [])) with 0. lia.
Qed.

(** Every message takes at least seven bytes. *)
Lemma encode_messages_length taken :
  (∀ m, m ∈ taken → m ∈ ms) → 7 * len taken ≤ len (encode_messages fb taken).
Proof using All.
  induction taken as [|m taken IH]; intros Hin; [done|].
  pose proof (payload_size m ltac:(set_solver)).
  pose proof (ReliableMessage.reliable_message_length_encode (sequence_number m) (payload_in fb m)) as Hl.
  unfold ReliableMessage.serialized_size in Hl.
  rewrite rs_encode_messages_cons, length_app. specialize (IH ltac:(set_solver)). simpl. lia.
Qed.

(** The second loop serialises them one after the other. *)
Lemma rs_write_loop_Ok id rest taken : ∀ in_flight pre post,
  (∀ m, m ∈ taken → m ∈ ms) →
  len (encode_messages fb taken) ≤ len post → len (pre ++ post) < 2 ^ 64 →
  write_loop (length taken) id fb (taken ++ rest) in_flight (pre ++ post) (len pre)
  = Ok (rest, in_flight ++ (mkInFlight id <$> taken),
        pre ++ encode_messages fb taken ++ drop (length (encode_messages fb taken)) post,
        len pre + len (encode_messages fb taken)).
Proof using All.
  induction taken as [|m taken IH]; intros in_flight pre post Hin Hfit Hlen.
  { cbn. by rewrite app_nil_r, Z.add_0_r. }
  cbn [length write_loop app]. rewrite rs_encode_messages_cons in *.
  set (enc := ReliableMessage.encode (sequence_number m) (payload_in fb m)) in *.
  rewrite (buffer_span_Ok _ _ _ _ _ Hwf Hc Hb He) by set_solver. cbn [mbind result_bind].
  destruct (payload_size m) as [_ Hp]; [set_solver|].
  pose proof (ReliableMessage.reliable_message_length_encode (sequence_number m) (payload_in fb m)) as Henc. fold enc in Henc.
  rewrite (wrap_small 16) by (unfold in_u; lia).
  rewrite (on_advance_Ok pre post (enc ++ drop (length enc) post) _ _ enc).
  2,3: done.
  2:{ rewrite ReliableMessage.reliable_message_write_Ok by (rewrite <-Henc; list_lia).
      fold enc. rewrite <-Henc, Nat2Z.id. done. }
  cbn [mbind result_bind].
  rewrite assert_that_true.
  2:{ apply Z.leb_le. rewrite wrap_small by (unfold in_u; list_lia). list_lia. }
  cbn [mbind result_bind]. rewrite app_assoc.
  replace (len pre + len enc) with (len (pre ++ enc)) by list_lia.
  rewrite IH.
  - rewrite <-!app_assoc, drop_drop, !length_app. do 2 f_equal. lia.
  - set_solver.
  - list_lia.
  - list_lia.
Qed.
End Write.

(** The stream after moving [taken] from pending to in flight under packet [id]. *)
Definition after_write (s : ReliableStream) (id : Z) (taken rest : list PendingMessage) : ReliableStream :=
  mkReliableStream (m_buffer s) (in_flight_messages s ++ (mkInFlight id <$> taken)) rest
    (m_next_outgoing_sequence_number s) (m_next_expected_sequence_number s).

Lemma messages_after_write s id taken rest :
  pending_messages s = taken ++ rest → messages (after_write s id taken rest) = messages s.
Proof.
  intros Hp. unfold messages. cbn [after_write in_flight_messages pending_messages].
  rewrite Hp, fmap_app, <-app_assoc, <-list_fmap_compose. f_equal.
  by rewrite (list_fmap_id taken : (message ∘ mkInFlight id) <$> taken = taken).
Qed.

Lemma sorted_app_ge (l : list Z) id (k : list Z) :
  StronglySorted Z.le l → Forall (λ x, x ≤ id) l → Forall (λ x, x = id) k →
  StronglySorted Z.le (l ++ k).
Proof.
  induction 1 as [|x l Hs IH Hx]; intros Hl Hk; simpl.
  - induction Hk as [|y k -> Hk IH]; constructor; [done|].
    eapply Forall_impl; [exact Hk|]. simpl. lia.
  - inversion Hl; subst. constructor; [by apply IH|]. apply Forall_app. split; [done|].
    eapply Forall_impl; [exact Hk|]. simpl. lia.
Qed.

Lemma inv_after_write s first id taken rest :
  inv s first → pending_messages s = taken ++ rest →
  Forall (λ m, packet_id m ≤ id) (in_flight_messages s) →
  inv (after_write s id taken rest) first ∧ outstanding (after_write s id taken rest) = outstanding s.
Proof.
  intros [Hwf Hcap Hc Hnum Hnext Hsort] Hp Hle.
  pose proof (messages_after_write _ id _ _ Hp) as Hm.
  split; [|by unfold outstanding; rewrite Hm].
  split; [done|done|by rewrite Hm|by rewrite Hm|by rewrite Hm|].
  cbn [after_write in_flight_messages]. rewrite fmap_app. eapply sorted_app_ge; [done| |].
  - by apply Forall_fmap.
  - apply Forall_fmap, Forall_fmap, Forall_true. done.
Qed.

(** [write] serialises, under one segment header, the longest prefix of the
    pending messages that fits into the buffer, and moves it to the in-flight
    queue. A buffer of at most 1793 bytes never holds more messages than the
    one-byte counter of the segment can express. *)
Lemma rs_write_Ok s first id buffer :
  inv s first → len buffer ≤ 1793 →
  ∃ taken rest, pending_messages s = taken ++ rest ∧
    let seg := encode_segment (m_buffer s) taken in
    write s id buffer
    = Ok (after_write s id taken rest, seg ++ drop (length seg) buffer, len seg) ∧
    len seg ≤ len buffer ∧ (length taken < 256)%nat ∧
    match rest with
    | [] => True
    | m :: _ => len buffer < Segment.kSerializedSize + len (encode_messages (m_buffer s) taken)
                  + ReliableMessage.serialized_size (len (payload_in (m_buffer s) m))
    end.
Proof.
  intros [Hwf Hcap Hc Hnum Hnext Hsort] Hlen. apply chained_app in Hc as (b & Hc1 & Hc).
  apply chained_le in Hc1. pose proof (chained_le _ _ _ Hc).
  set (fb := m_buffer s) in *.
  destruct (rs_count_loop_Ok fb b (m_end fb) (pending_messages s) Hwf Hcap ltac:(lia) ltac:(lia) Hc (len buffer)
              (pending_messages s) Segment.kSerializedSize 0 ltac:(done))
    as (taken & rest & Hp & Hcount & Hfit & Hmax).
  exists taken, rest. split; [done|]. unfold write. fold fb. rewrite Hcount. cbn [mbind result_bind].
  destruct taken as [|m0 taken'] eqn:Ht.
  { simpl. split_and!; [|lia|lia|done]. unfold after_write.
    cbn. rewrite app_nil_r. simpl in Hp. rewrite <-Hp. by destruct s. }
  rewrite <-Ht in *. destruct Hfit as [->|Hfit]; [done|].
  assert (∀ m, m ∈ taken → m ∈ pending_messages s) as Hin by (rewrite Hp; set_solver).
  assert (encode_segment fb taken = Segment.encode RELIABLE_STREAM (len taken) ++ encode_messages fb taken)
    as Hseg by (by rewrite Ht).
  pose proof (encode_messages_length fb b (m_end fb) (pending_messages s) Hwf Hcap ltac:(lia) ltac:(lia) Hc taken Hin) as Hmin.
  pose proof (Segment.segment_length_encode RELIABLE_STREAM (len taken)) as Hhdr.
  unfold Segment.kSerializedSize in *.
  cbv zeta. rewrite Hseg. split_and!; [|list_lia..|done].
  replace ((0 + length taken) =? 0)%nat with false by (by rewrite Ht).
  rewrite Segment.segment_write_Ok by (unfold Segment.kSerializedSize; lia). cbn [mbind result_bind].
  rewrite Hp, Nat.add_0_l, (rs_write_loop_Ok fb b (m_end fb) (pending_messages s) Hwf Hcap ltac:(lia) ltac:(lia) Hc) by (done || list_lia).
  cbn [mbind result_bind]. rewrite assert_that_true by (apply Z.eqb_eq; list_lia).
  cbn [mbind result_bind]. do 2 f_equal; [|list_lia].
  f_equal. rewrite <-app_assoc, drop_drop. do 3 f_equal.
Qed.

(** ** read *)

(** The wire form of the payloads [ps] as the messages [a], [a + 1], ... *)
Fixpoint encode_from (a : Z) (ps : list bytes) : bytes :=
  match ps with
  | [] => []
  | p :: ps' => ReliableMessage.encode (u32 a) p ++ encode_from (a + 1) ps'
  end.

Definition segment_of (a : Z) (ps : list bytes) : bytes :=
  match ps with
  | [] => []
  | _ => Segment.encode RELIABLE_STREAM (len ps) ++ encode_from a ps
  end.

Lemma encode_messages_from fb a ms :
  numbered a ms → encode_messages fb ms = encode_from a (payload_in fb <$> ms).
Proof.
  revert a. induction ms as [|m ms IH]; intros a; [done|]. intros [Hm H].
  rewrite rs_encode_messages_cons, (IH _ H), Hm. done.
Qed.

Lemma encode_segment_of fb a ms :
  numbered a ms → encode_segment fb ms = segment_of a (payload_in fb <$> ms).
Proof.
  intros H. unfold encode_segment, segment_of. rewrite (encode_messages_from _ _ _ H).
  destruct ms; [done|]. by rewrite <-(length_fmap (payload_in fb)).
Qed.

(** The receiver side of the protocol: the messages [a], [a + 1], ... arrive when
    [next] messages have been delivered. *)
Definition accepted (next a : Z) (ps : list bytes) : list bytes :=
  if a <=? next then zdrop (next - a) ps else [].

(** The sequence numbers of the packet and the expected one are less than [2 ^ 32] apart. *)
Definition in_window (next a n : Z) : Prop := - 2 ^ 32 < a - next ∧ a + n - next ≤ 2 ^ 32.

Definition messages_ok (ps : list bytes) : Prop := Forall (λ p, 0 < len p < 2 ^ 16) ps.

Lemma rs_read_loop_Ok next a ps : ∀ pre rest delivered,
  messages_ok ps → in_window next a (len ps) → len (pre ++ encode_from a ps ++ rest) < 2 ^ 64 →
  read_loop (length ps) (pre ++ encode_from a ps ++ rest) (len pre) (u32 next) delivered
  = Ok (u32 (next + len (accepted next a ps)), delivered ++ accepted next a ps,
        Value (len pre + len (encode_from a ps))).
Proof.
  revert next a. induction ps as [|p ps IH]; intros next a pre rest delivered Hps [Hw1 Hw2] Hlen.
  { cbn. unfold accepted. rewrite drop_nil. destruct (a <=? next);
      simpl; by rewrite app_nil_r, !Z.add_0_r. }
  apply Forall_cons in Hps as [Hp Hps]. cbn [length read_loop encode_from] in *.
  pose proof (λ r, ReliableMessage.reliable_message_validate_size_encode (u32 a) p r Hp) as Hvalid.
  pose proof (ReliableMessage.sequence_number_encode (u32 a) p) as Hseq.
  pose proof (λ r, ReliableMessage.reliable_message_payload_encode (u32 a) p r (proj2 Hp)) as Hpayload.
  set (enc := ReliableMessage.encode (u32 a) p) in *.
  rewrite Span.advance_Ok by list_lia. cbn [mbind result_bind].
  rewrite Nat2Z.id, drop_app_length, <-app_assoc.
  rewrite Hvalid. cbn [mbind result_bind]. rewrite Hseq, wrap_wrap. cbn [mbind result_bind].
  assert (len enc = ReliableMessage.serialized_size (len p)) as Henc
    by apply ReliableMessage.reliable_message_length_encode.
  rewrite <-Henc, (app_assoc pre enc).
  replace (len pre + len enc) with (len (pre ++ enc)) by list_lia.
  destruct (Z.eqb_spec (u32 a) (u32 next)) as [Heq|Hne].
  - apply wrap_inj_window in Heq as ->; [|lia|lia].
    rewrite Hpayload by list_lia. cbn [mbind result_bind].
    rewrite wrap_add_l, IH; [|done|split; lia|list_lia].
    unfold accepted. rewrite !Z.leb_refl, !Z.sub_diag, !drop_0, <-app_assoc.
    f_equal. f_equal; [|f_equal; list_lia]. f_equal. f_equal. list_lia.
  - rewrite IH; [|done|split; list_lia|list_lia].
    assert (a ≠ next) by congruence.
    assert (accepted next (a + 1) ps = accepted next a (p :: ps)) as ->.
    { unfold accepted. destruct (Z.leb_spec a next), (Z.leb_spec (a + 1) next); try (done || lia).
      replace (Z.to_nat (next - a)) with (S (Z.to_nat (next - (a + 1)))) by lia. done. }
    f_equal. f_equal. f_equal. list_lia.
Qed.

Definition with_expected (s : ReliableStream) (seq : Z) : ReliableStream :=
  mkReliableStream (m_buffer s) (in_flight_messages s) (pending_messages s)
    (m_next_outgoing_sequence_number s) seq.

(** Reading a written segment delivers the messages the receiver is waiting for,
    in order, and returns the size of the segment. *)
Lemma rs_read_segment_Ok s next a ps rest :
  m_next_expected_sequence_number s = u32 next →
  ps ≠ [] → (length ps < 256)%nat → messages_ok ps → in_window next a (len ps) →
  len (segment_of a ps ++ rest) < 2 ^ 64 →
  read s (segment_of a ps ++ rest)
  = Ok (with_expected s (u32 (next + len (accepted next a ps))), accepted next a ps,
        Value (len (segment_of a ps))).
Proof.
  intros Hnext Hne Hcount Hps Hwin Hlen. unfold read.
  assert (segment_of a ps = Segment.encode RELIABLE_STREAM (len ps) ++ encode_from a ps) as Hseg
    by (by destruct ps).
  rewrite Hseg in *. rewrite <-app_assoc in *.
  pose proof (Segment.segment_length_encode RELIABLE_STREAM (len ps)) as Hhdr.
  pose proof (Segment.manager_type_encode RELIABLE_STREAM (len ps) (encode_from a ps ++ rest)) as ->.
  pose proof (Segment.message_count_encode RELIABLE_STREAM (len ps) (encode_from a ps ++ rest)) as Hc.
  rewrite wrap_small in Hc by (unfold in_u; lia). rewrite Hc.
  set (hdr := Segment.encode RELIABLE_STREAM (len ps)) in *.
  unfold Segment.kSerializedSize.
  destruct (Z.ltb_spec (len (hdr ++ encode_from a ps ++ rest)) (1 + 1)); [list_lia|].
  cbn [mbind result_bind negb]. change (u8 RELIABLE_STREAM =? RELIABLE_STREAM) with true. cbn [negb].
  rewrite Nat2Z.id, Hnext. replace (1 + 1) with (len hdr) by lia.
  rewrite rs_read_loop_Ok by done. cbn [mbind result_bind].
  by rewrite <-Nat2Z.inj_add, <-length_app.
Qed.

(** Whatever the bytes of a packet are, the loop of [read] returns, with an index
    inside the buffer or the error, and counts what it delivers. *)
Lemma rs_read_loop_total buffer n : ∀ idx seq delivered,
  len buffer < 2 ^ 64 → 0 ≤ idx ≤ len buffer → in_u 32 seq →
  ∃ new r, read_loop n buffer idx seq delivered
           = Ok (u32 (seq + len new), delivered ++ new, r) ∧
    (length new ≤ n)%nat ∧ messages_ok new ∧
    match r with Value idx' => idx ≤ idx' ≤ len buffer | Unexpected e => e = MALFORMED_PACKET end.
Proof.
  induction n as [|n IH]; intros idx seq delivered Hlen Hidx Hseq; cbn [read_loop].
  { exists [], (Value idx). rewrite app_nil_r, Z.add_0_r, wrap_small by done.
    simpl; split_and!; try (done || lia); constructor. }
  rewrite Span.advance_Ok by done. cbn [mbind result_bind].
  assert (len (zdrop idx buffer) < 2 ^ 64) as Hlen' by list_lia.
  destruct (ReliableMessage.reliable_message_validate_size_total _ Hlen')
    as [-> | (total & q & p & -> & Hq & Hp & -> & Htot & Hpos & _)]; cbn [mbind result_bind].
  { exists [], (Unexpected MALFORMED_PACKET). rewrite app_nil_r, Z.add_0_r, wrap_small by done.
    simpl; split_and!; try (done || lia); constructor. }
  rewrite Hq. cbn [mbind result_bind].
  unfold ReliableMessage.serialized_size in *. rewrite length_drop in Htot.
  destruct (q =? seq).
  - rewrite Hp. cbn [mbind result_bind].
    destruct (IH (idx + (4 + 2 + len p)) (u32 (seq + 1)) (delivered ++ [p]))
      as (new & r & -> & Hn & Hnew & Hr); [done|lia|apply wrap_range; lia|].
    exists (p :: new), r. rewrite wrap_add_l, <-app_assoc.
    replace (seq + 1 + len new) with (seq + len (p :: new)) by list_lia.
    split_and!; [done|list_lia|by constructor|]. destruct r; [lia|done].
  - destruct (IH (idx + (4 + 2 + len p)) seq delivered) as (new & r & -> & Hn & Hnew & Hr); [done|lia|done|].
    exists new, r. split_and!; [done|lia|done|]. destruct r; [lia|done].
Qed.

(** [read] is total on every buffer: no byte sequence makes it fault. *)
Lemma rs_read_total s buffer :
  len buffer < 2 ^ 64 → in_u 32 (m_next_expected_sequence_number s) →
  ∃ new r, read s buffer
           = Ok (with_expected s (u32 (m_next_expected_sequence_number s + len new)), new, r) ∧
    len new < 256 ∧ messages_ok new ∧
    match r with Value idx => 0 ≤ idx ≤ len buffer | Unexpected e => e = MALFORMED_PACKET end.
Proof.
  intros Hlen Hseq. unfold read.
  assert (s = with_expected s (u32 (m_next_expected_sequence_number s + len (@nil bytes)))) as Hs.
  { rewrite Z.add_0_r, wrap_small by done. by destruct s. }
  destruct (Z.ltb_spec (len buffer) Segment.kSerializedSize).
  { exists [], (Value 0). rewrite <-Hs. simpl; split_and!; try (done || lia); constructor. }
  destruct (Segment.segment_read_total buffer) as (t & c & -> & -> & _ & Hc); [done|]. cbn [mbind result_bind].
  destruct (t =? RELIABLE_STREAM); cbn [negb].
  2:{ exists [], (Value 0). rewrite <-Hs. simpl; split_and!; try (done || lia); constructor. }
  destruct (rs_read_loop_total buffer (Z.to_nat c) Segment.kSerializedSize
              (m_next_expected_sequence_number s) []) as (new & r & -> & Hn & Hnew & Hr);
    [done| unfold Segment.kSerializedSize in *; lia |done|].
  cbn [mbind result_bind]. exists new, r. unfold in_u in Hc. change (2 ^ 8) with 256 in Hc.
  split_and!; [done|lia|done|]. unfold Segment.kSerializedSize in *. destruct r; [lia|done].
Qed.

(** A packet without a segment of this stream leaves it alone. *)
Lemma rs_read_other s buffer :
  len buffer < Segment.kSerializedSize ∨ (∃ t, Segment.manager_type buffer = Ok t ∧ t ≠ RELIABLE_STREAM) →
  read s buffer = Ok (s, [], Value 0).
Proof.
  unfold read. destruct (Z.ltb_spec (len buffer) Segment.kSerializedSize) as [|Hl]; [done|].
  intros [?|(t & -> & Ht)]; [lia|]. cbn [mbind result_bind].
  by rewrite (proj2 (Z.eqb_neq _ _) Ht).
Qed.

(** ** Properties *)

(** C25: [send] never faults and never disturbs what is outstanding: whatever the
    rebasing of the buffer does, the outstanding payloads stay as they are and the
    newly written message, if the writer returns one, is appended to them. The
    writer is offered all the space the outstanding messages leave. *)
Theorem send_appends s first f :
  inv s first → WriterOk f →
  ∃ space s', send s f = Ok s' ∧ inv s' first ∧
    outstanding s' = outstanding s ++ sent_by (f space) ∧
    len space = len (FlipBuffer.m_buffer (m_buffer s)) - (m_end (m_buffer s) - m_begin (m_buffer s)) ∧
    packet_id <$> in_flight_messages s' = packet_id <$> in_flight_messages s.
Proof.
  intros Hinv Hf. destruct (rs_send_Ok s first f Hinv Hf) as (space & s' & _ & Hs & Hsp & Hi & Ho & _ & Hp & _).
  by exists space, s'.
Qed.

(** A stream of 16 bytes that has sent three messages; the first is acknowledged,
    the second is in flight. *)
Definition sample : result ReliableStream :=
  s ← send (create 16) (write_message [1; 2]);
  s ← send s (write_message [3]);
  '(s, _, _) ← write s 0 (replicate 10 0);
  s ← on_packet_delivery_status s 0 ACK;
  '(s, _, _) ← write s 1 (replicate 10 0);
  send s (write_message [5; 6; 7; 8]).

Definition sample_state : ReliableStream :=
  mkReliableStream (mkFlipBuffer 0 5 ([3; 5; 6; 7; 8] ++ replicate 11 0))
    [mkInFlight 1 (mkPending (mkRange 0 1) 1)] [mkPending (mkRange 1 5) 2] 3 0.

Example sample_eq : sample = Ok sample_state.
Proof. vm_compute. reflexivity. Qed.

Lemma rs_sample_inv : inv sample_state 1.
Proof. split; [split| | | | |]; vm_compute; repeat (constructor || done). Qed.

Lemma send_appends_witness :
  ∃ space s', send sample_state (write_message [9; 9]) = Ok s' ∧ inv s' 1 ∧
    outstanding s' = [[3]; [5; 6; 7; 8]] ++ sent_by (write_message [9; 9] space) ∧
    len space = 11 ∧ packet_id <$> in_flight_messages s' = [1].
Proof. apply (send_appends sample_state 1 (write_message [9; 9]) rs_sample_inv). apply _. Defined.

(** C18: what [write] serialises the peer's [read] delivers: the written segment
    holds the longest prefix [taken] of the pending messages that fits, the
    receiver delivers those of them it is waiting for, in order and each once, and
    returns the size the sender wrote, whatever bytes follow the segment. The
    sender keeps every message. *)
Theorem write_read_roundtrip s first r next id buffer trailing :
  inv s first → len buffer ≤ 1793 → Forall (λ m, packet_id m ≤ id) (in_flight_messages s) →
  m_next_expected_sequence_number r = u32 next →
  in_window next (first + len (in_flight_messages s)) (len (pending_messages s)) →
  len trailing < 2 ^ 63 →
  ∃ taken rest s' buffer' n, pending_messages s = taken ++ rest ∧
    let ps := payload_in (m_buffer s) <$> taken in
    let news := accepted next (first + len (in_flight_messages s)) ps in
    write s id buffer = Ok (s', buffer', n) ∧ len buffer' = len buffer ∧
    inv s' first ∧ outstanding s' = outstanding s ∧
    (taken ≠ [] → read r (ztake n buffer' ++ trailing)
                  = Ok (with_expected r (u32 (next + len news)), news, Value n)) ∧
    match rest with
    | [] => True
    | m :: _ => len buffer < 2 + len (encode_messages (m_buffer s) taken)
                  + ReliableMessage.serialized_size (len (payload_in (m_buffer s) m))
    end.
Proof.
  intros Hinv Hb Hle Hnext Hwin Htr.
  destruct (rs_write_Ok s first id buffer Hinv Hb) as (taken & rest & Hp & Hw & Hsize & Hcount & Hmax).
  destruct (inv_after_write s first id taken rest Hinv Hp Hle) as [Hinv' Hout].
  set (a := first + len (in_flight_messages s)) in *.
  pose proof (inv_numbered _ _ Hinv) as Hnum. unfold messages in Hnum. apply numbered_app in Hnum as [_ Hnum].
  rewrite Hp, length_fmap in Hnum. apply numbered_app in Hnum as [Hnum _]. fold a in Hnum.
  rewrite (encode_segment_of _ _ _ Hnum) in Hw, Hsize.
  exists taken, rest, (after_write s id taken rest). do 2 eexists. split; [done|]. cbv zeta.
  split; [exact Hw|]. split; [list_lia|]. split_and!; [done|done| |done].
  intros Hne. rewrite Nat2Z.id, take_app_length.
  apply rs_read_segment_Ok; try done.
  - by intros ?%fmap_nil_inv.
  - by rewrite length_fmap.
  - apply Forall_fmap, Forall_forall. intros m Hm. simpl.
    pose proof Hinv as [Hwf Hcap Hc _ _ _].
    eapply payload_size; [exact Hwf|exact Hcap| | |exact Hc|]; [lia|lia|].
    unfold messages. rewrite Hp. set_solver.
  - destruct Hwin. rewrite Hp in *. split; list_lia.
  - list_lia.
Qed.

Lemma write_read_roundtrip_witness :
  ∃ taken rest s' buffer' n, pending_messages sample_state = taken ++ rest ∧
    let ps := payload_in (m_buffer sample_state) <$> taken in
    let news := accepted 2 (1 + 1) ps in
    write sample_state 5 (replicate 40 0) = Ok (s', buffer', n) ∧ len buffer' = 40 ∧
    inv s' 1 ∧ outstanding s' = [[3]; [5; 6; 7; 8]] ∧
    (taken ≠ [] → read (with_expected (create 9) 2) (ztake n buffer' ++ [0; 0])
      = Ok (with_expected (with_expected (create 9) 2) (u32 (2 + len news)), news, Value n)) ∧
    match rest with
    | [] => True
    | m :: _ => 40 < 2 + len (encode_messages (m_buffer sample_state) taken)
                  + ReliableMessage.serialized_size (len (payload_in (m_buffer sample_state) m))
    end.
Proof.
  apply (write_read_roundtrip sample_state 1 (with_expected (create 9) 2) 2 5 (replicate 40 0) [0; 0] rs_sample_inv);
    try done; repeat (constructor || done).
Defined.

(** [read] returns on every byte sequence: it advances the expected sequence
    number by the number of messages delivered, delivers at most 255 messages, each
    of 1 to 65535 bytes, and returns an index inside the buffer or the error. *)
Theorem reliable_read_total s buffer :
  len buffer < 2 ^ 64 → in_u 32 (m_next_expected_sequence_number s) →
  ∃ new r, read s buffer
           = Ok (with_expected s (u32 (m_next_expected_sequence_number s + len new)), new, r) ∧
    len new < 256 ∧ messages_ok new ∧
    match r with Value idx => 0 ≤ idx ≤ len buffer | Unexpected e => e = MALFORMED_PACKET end.
Proof. apply rs_read_total. Qed.

Lemma reliable_read_total_witness :
  ∃ new r, read (create 16) [3; 9; 0; 0; 0; 0; 0; 1; 7; 0; 0; 0; 5; 0]
           = Ok (with_expected (create 16) (u32 (0 + len new)), new, r) ∧
    len new < 256 ∧ messages_ok new ∧
    match r with Value idx => 0 ≤ idx ≤ 14 | Unexpected e => e = MALFORMED_PACKET end.
Proof. by apply (reliable_read_total (create 16)). Defined.

(** C26: a delivery status of the oldest packet has exactly its effect: [ACK] releases
    the messages of that packet and no other, [DROP] puts every message in flight
    back in front of the pending ones in its order, so that the outstanding
    payloads stay what they are. *)
Theorem status_effects s first id :
  inv s first → Forall (λ m, id ≤ packet_id m) (in_flight_messages s) →
  (∃ acked s', on_packet_delivery_status s id ACK = Ok s' ∧
     in_flight_messages s = acked ++ in_flight_messages s' ∧
     Forall (λ m, packet_id m = id) acked ∧ Forall (λ m, id < packet_id m) (in_flight_messages s') ∧
     inv s' (first + len acked) ∧ outstanding s' = drop (length acked) (outstanding s)) ∧
  (∃ s', on_packet_delivery_status s id DROP = Ok s' ∧ in_flight_messages s' = [] ∧
     pending_messages s' = messages s ∧ inv s' first ∧ outstanding s' = outstanding s).
Proof.
  intros Hinv Hge. split.
  - destruct (on_ack_Ok s first id Hinv Hge) as (acked & s' & H1 & H2 & H3 & H4 & _ & _ & H5 & H6).
    by exists acked, s'.
  - destruct (on_drop_Ok s first id Hinv Hge) as (s' & H1 & H2 & H3 & _ & H4 & H5). by exists s'.
Qed.

Lemma status_effects_witness :
  (∃ acked s', on_packet_delivery_status sample_state 1 ACK = Ok s' ∧
     in_flight_messages sample_state = acked ++ in_flight_messages s' ∧
     Forall (λ m, packet_id m = 1) acked ∧ Forall (λ m, 1 < packet_id m) (in_flight_messages s') ∧
     inv s' (1 + len acked) ∧ outstanding s' = drop (length acked) [[3]; [5; 6; 7; 8]]) ∧
  (∃ s', on_packet_delivery_status sample_state 1 DROP = Ok s' ∧ in_flight_messages s' = [] ∧
     pending_messages s' = messages sample_state ∧ inv s' 1 ∧ outstanding s' = [[3]; [5; 6; 7; 8]]).
Proof. apply (status_effects sample_state 1 1 rs_sample_inv). by repeat constructor. Defined.

(** A status that arrives for a packet while an older packet still has messages in
    flight fails the assertion: the stream depends on getting a status for every
    packet, in order. *)
Theorem skipped_status_asserts s m q id :
  in_flight_messages s = m :: q → packet_id m < id →
  on_packet_delivery_status s id ACK = Fault AssertFailed ∧
  on_packet_delivery_status s id DROP = Fault AssertFailed.
Proof. apply on_ack_stale. Qed.

Lemma skipped_status_asserts_witness :
  on_packet_delivery_status sample_state 2 ACK = Fault AssertFailed ∧
  on_packet_delivery_status sample_state 2 DROP = Fault AssertFailed.
Proof. by eapply (skipped_status_asserts sample_state). Defined.

(** A message that does not fit into the packet blocks the stream: [write]
    returns 0 and leaves the state, so no later message is ever written to packets
    of this size. *)
Theorem oversized_message_blocks s first id buffer m rest :
  inv s first → pending_messages s = m :: rest →
  len buffer < 2 + ReliableMessage.serialized_size (len (payload_in (m_buffer s) m)) →
  write s id buffer = Ok (s, buffer, 0).
Proof.
  intros [Hwf _ Hc _ _ _] Hp Hlen. unfold messages in Hc. rewrite Hp in Hc.
  unfold write. rewrite Hp. cbn [count_loop].
  rewrite (buffer_span_Ok _ _ _ _ m Hwf Hc) by (lia || set_solver). cbn [mbind result_bind].
  by rewrite (proj2 (Z.ltb_lt _ _)) by (unfold Segment.kSerializedSize; lia).
Qed.

Lemma oversized_message_blocks_witness :
  write sample_state 7 (replicate 11 0) = Ok (sample_state, replicate 11 0, 0).
Proof. by eapply (oversized_message_blocks sample_state 1 7 (replicate 11 0) _ _ rs_sample_inv). Defined.
