(* ===== verification/PacketDeliveryManager.v ===== *)
(** * PacketDeliveryManager (neptun/packet_delivery_manager.h)

    Numbers outgoing packets, remembers which are in flight, turns the peer's
    acknowledgement field into delivery statuses, and collects the ids to
    acknowledge. Times are counts of nanoseconds in a signed 64-bit integer. *)
From Stdlib Require Import ZArith Lia Sorted.
From stdpp Require Import prelude strings.
From S2P Require Import Prelude Span IoBuffer Messages.
Open Scope Z_scope.

Record InFlightPacket := mkInFlightPacket { id : Z; time_dispatched : Z }.

(** [detail::kDefaultPacketTimeout] as milliseconds. *)
Definition kDefaultPacketTimeout := 5000.

(** [1 << k] in the type [int]: defined for [k < 32], bit 31 being the sign. *)
Definition int_shift_1 (k : Z) : result Z :=
  if k <? 32 then Ok (wrap 32 (Z.shiftl 1 k + 2 ^ 31) - 2 ^ 31)
  else Fault (Undefined BadShift).

Definition most_significant_bit (value : Z) : result (option Z) :=
  for_range 0 32 (λ bit msb,
    mask ← int_shift_1 bit;
    Ok (if 0 <? Z.land (u32 mask) value then Some bit else msb)) None.

(** [DeliveryStatuses] is the vector it wraps. *)
Abbreviation DeliveryStatuses := (list (Z * PacketDeliveryStatus)).

Definition add_ack (statuses : DeliveryStatuses) (packet_id : Z) : DeliveryStatuses :=
  statuses ++ [(packet_id, ACK)].

Definition add_drop (statuses : DeliveryStatuses) (packet_id : Z) : DeliveryStatuses :=
  statuses ++ [(packet_id, DROP)].

(** The effects of the function on what it captures are a state. *)
Fixpoint for_each {S} (fn : S → Z → PacketDeliveryStatus → result S) (statuses : DeliveryStatuses) (state : S) : result S :=
  match statuses with
  | [] => Ok state
  | (packet_id, status) :: rest => state ← fn state packet_id status; for_each fn rest state
  end.

Definition to_vector (statuses : DeliveryStatuses) : list (Z * PacketDeliveryStatus) := statuses.

Record PacketDeliveryManager := mkPacketDeliveryManager {
  m_packet_timeout : Z;
  m_next_outgoing_packet_id : Z;
  m_next_expected_packet_id : Z;
  m_pending_acks : list Z;
  m_in_flight_packets : list InFlightPacket;
}.

#[export] Instance InFlightPacket_eq_dec : EqDecision InFlightPacket.
Proof. solve_decision. Defined.
#[export] Instance PacketDeliveryManager_eq_dec : EqDecision PacketDeliveryManager.
Proof. solve_decision. Defined.

(** The constructor. *)
Definition create (next_expected_packet_id packet_timeout : Z) : PacketDeliveryManager :=
  mkPacketDeliveryManager packet_timeout 0 next_expected_packet_id [] [].

Definition with_in_flight (m : PacketDeliveryManager) (q : list InFlightPacket) : PacketDeliveryManager :=
  mkPacketDeliveryManager (m_packet_timeout m) (m_next_outgoing_packet_id m)
    (m_next_expected_packet_id m) (m_pending_acks m) q.

(** The loop of [process_acks]. *)
Fixpoint acks_loop (q : list InFlightPacket) (ack_sequence_number ack_bitmask highest_acked_packet_id : Z)
    (statuses : DeliveryStatuses) : result (list InFlightPacket * DeliveryStatuses) :=
  match q with
  | [] => Ok ([], statuses)
  | in_flight_packet :: rest =>
      if highest_acked_packet_id <? id in_flight_packet then Ok (q, statuses)
      else if id in_flight_packet <? ack_sequence_number then
        acks_loop rest ack_sequence_number ack_bitmask highest_acked_packet_id
          (add_drop statuses (id in_flight_packet))
      else
        let delta := u32 (id in_flight_packet - ack_sequence_number) in
        assert_that (delta <=? 32);;
        in_flight_packet_bitmask ← int_shift_1 delta;
        let is_in_flight_packet_acked := 0 <? Z.land (u32 in_flight_packet_bitmask) ack_bitmask in
        acks_loop rest ack_sequence_number ack_bitmask highest_acked_packet_id
          (if is_in_flight_packet_acked then add_ack statuses (id in_flight_packet)
           else add_drop statuses (id in_flight_packet))
  end.

Definition process_acks (m : PacketDeliveryManager) (ack_sequence_number ack_bitmask : Z)
    : result (PacketDeliveryManager * DeliveryStatuses) :=
  msb ← most_significant_bit ack_bitmask;
  match msb with
  | None => Ok (m, [])
  | Some msb =>
      let highest_acked_packet_id := u32 (ack_sequence_number + msb) in
      '(q, statuses) ← acks_loop (m_in_flight_packets m) ack_sequence_number ack_bitmask
                         highest_acked_packet_id [];
      Ok (with_in_flight m q, statuses)
  end.

Definition add_pending_ack (m : PacketDeliveryManager) (packet_id : Z) : PacketDeliveryManager :=
  mkPacketDeliveryManager (m_packet_timeout m) (m_next_outgoing_packet_id m)
    (m_next_expected_packet_id m) (m_pending_acks m ++ [packet_id]) (m_in_flight_packets m).

Definition with_expected (m : PacketDeliveryManager) (packet_id : Z) : PacketDeliveryManager :=
  mkPacketDeliveryManager (m_packet_timeout m) (m_next_outgoing_packet_id m)
    packet_id (m_pending_acks m) (m_in_flight_packets m).

Definition process_packet_header (m : PacketDeliveryManager) (header_id : Z)
    : result (PacketDeliveryManager * Z) :=
  if header_id =? m_next_expected_packet_id m then
    Ok (with_expected (add_pending_ack m header_id) (u32 (header_id + 1)), PacketHeader.kSerializedSize)
  else if header_id <? m_next_expected_packet_id m then Ok (m, 0)
  else
    assert_that (m_next_expected_packet_id m <? header_id);;
    Ok (with_expected (add_pending_ack m header_id) (u32 (header_id + 1)), PacketHeader.kSerializedSize).

(** [buffer] are the bytes reachable from the start of the span. The result is
    the new state, the count of header bytes, the statuses and the packet id. *)
Definition process_read (m : PacketDeliveryManager) (buffer : bytes)
    : result (PacketDeliveryManager * (Z * DeliveryStatuses * Z)) :=
  ack_sequence_number ← PacketHeader.ack_sequence_number buffer;
  ack_bitmask ← PacketHeader.ack_bitmask buffer;
  '(m, statuses) ← process_acks m ack_sequence_number ack_bitmask;
  header_id ← PacketHeader.id buffer;
  '(m, processed_byte_count) ← process_packet_header m header_id;
  Ok (m, (processed_byte_count, statuses, header_id)).

(** The loop of [drop_old_packets]. *)
Fixpoint drop_loop (q : list InFlightPacket) (packet_timeout now : Z) (statuses : DeliveryStatuses)
    : result (list InFlightPacket * DeliveryStatuses) :=
  match q with
  | [] => Ok ([], statuses)
  | in_flight :: rest =>
      timeout ← i64 (packet_timeout * 1000000);
      deadline ← i64 (time_dispatched in_flight + timeout);
      if deadline <=? now then drop_loop rest packet_timeout now (add_drop statuses (id in_flight))
      else Ok (q, statuses)
  end.

Definition drop_old_packets (m : PacketDeliveryManager) (now : Z)
    : result (PacketDeliveryManager * DeliveryStatuses) :=
  '(q, statuses) ← drop_loop (m_in_flight_packets m) (m_packet_timeout m) now [];
  Ok (with_in_flight m q, statuses).

(** The loop of [write] over the pending acks; [ack_bitmask] is an [int]. *)
Fixpoint pending_acks_loop (pending_acks : list Z) (ack_sequence_number ack_bitmask : Z)
    : result (list Z * Z) :=
  match pending_acks with
  | [] => Ok ([], ack_bitmask)
  | pending_packet_id_ack :: rest =>
      assert_that (ack_sequence_number <=? pending_packet_id_ack);;
      let bit_position := u32 (pending_packet_id_ack - ack_sequence_number) in
      if 4 * 8 <=? bit_position then Ok (pending_acks, ack_bitmask)
      else
        bit ← int_shift_1 bit_position;
        pending_acks_loop rest ack_sequence_number (Z.lor ack_bitmask bit)
  end.

(** The new state, the new contents of [buffer] and the returned size. *)
Definition write (m : PacketDeliveryManager) (buffer : bytes) (now : Z)
    : result (PacketDeliveryManager * bytes * Z) :=
  let packet_id := m_next_outgoing_packet_id m in
  let next_id := u32 (packet_id + 1) in
  let in_flight := m_in_flight_packets m ++ [mkInFlightPacket packet_id now] in
  match m_pending_acks m with
  | [] =>
      '(buffer, view) ← PacketHeader.write buffer packet_id 0 0;
      assert_that (len view =? PacketHeader.kSerializedSize);;
      Ok (mkPacketDeliveryManager (m_packet_timeout m) next_id (m_next_expected_packet_id m) [] in_flight,
          buffer, len view)
  | ack_sequence_number :: _ =>
      '(pending_acks, ack_bitmask) ← pending_acks_loop (m_pending_acks m) ack_sequence_number 0;
      '(buffer, _) ← PacketHeader.write buffer packet_id ack_sequence_number (u32 ack_bitmask);
      Ok (mkPacketDeliveryManager (m_packet_timeout m) next_id (m_next_expected_packet_id m)
            pending_acks in_flight,
          buffer, PacketHeader.kSerializedSize)
  end.

(** The situation of the repository's test AcksAndDropsSentPackets, shortened. *)
Example acks_and_drops :
  (let q := (λ i, mkInFlightPacket i 0) <$> [13; 14; 15; 16; 17; 18; 19] in
   '(m, statuses) ← process_acks (with_in_flight (create 10 5000) q) 15 11;
   Ok (m_in_flight_packets m, statuses))
  = Ok ([mkInFlightPacket 19 0],
        [(13, DROP); (14, DROP); (15, ACK); (16, ACK); (17, DROP); (18, ACK)]).
Proof. reflexivity. Qed.

(** ** Bits *)

Lemma int_shift_1_Ok k : 0 ≤ k < 32 → ∃ b, int_shift_1 k = Ok b ∧ u32 b = 2 ^ k.
Proof.
  intros Hk. unfold int_shift_1. destruct (Z.ltb_spec k 32); [|lia].
  eexists. split; [done|]. rewrite Z.shiftl_1_l.
  assert (2 ^ k < 2 ^ 32) by (apply Z.pow_lt_mono_r; lia).
  assert (0 < 2 ^ k) by (apply Z.pow_pos_nonneg; lia).
  rewrite <-(wrap_small 32 (2 ^ k)) at 2 by (unfold in_u; lia).
  apply (wrap_cong 32 _ _ (2 ^ 31)); [lia|]. by rewrite Z.sub_add, wrap_wrap.
Qed.

(** [(mask & value) > 0] tests a bit. *)
Lemma land_pow2_pos k v : 0 ≤ k → 0 ≤ v → (0 <? Z.land (2 ^ k) v) = Z.testbit v k.
Proof.
  intros Hk Hv. destruct (Z.testbit v k) eqn:Hb.
  - apply Z.ltb_lt. assert (0 ≤ Z.land (2 ^ k) v) by (apply Z.land_nonneg; lia).
    assert (Z.land (2 ^ k) v ≠ 0); [|lia]. intros H0.
    assert (Z.testbit (Z.land (2 ^ k) v) k = false) as Hf by (by rewrite H0, Z.bits_0).
    by rewrite Z.land_spec, Z.pow2_bits_true, Hb in Hf by lia.
  - apply Z.ltb_ge. enough (Z.land (2 ^ k) v = 0) by lia.
    apply Z.bits_inj'. intros n Hn. rewrite Z.land_spec, Z.pow2_bits_eqb, Z.bits_0 by lia.
    destruct (Z.eqb_spec k n) as [->|]; [by rewrite Hb|done].
Qed.

Lemma mod_pow2_step v i :
  0 ≤ i → v mod 2 ^ (i + 1) = v mod 2 ^ i + (if Z.testbit v i then 2 ^ i else 0).
Proof.
  intros Hi. rewrite Z.pow_add_r, Z.rem_mul_r by (try apply Z.pow_nonzero; lia).
  change (2 ^ 1) with 2. rewrite <-Z.testbit_spec' by lia.
  destruct (Z.testbit v i); simpl; lia.
Qed.

(** [most_significant_bit] is the integer logarithm. *)
Lemma most_significant_bit_Ok v :
  in_u 32 v → most_significant_bit v = Ok (if v =? 0 then None else Some (Z.log2 v)).
Proof.
  intros Hv. unfold in_u in Hv. unfold most_significant_bit.
  match goal with |- for_range _ _ ?body _ = _ =>
    destruct (for_range_inv (λ i r, 0 ≤ i ∧
      r = if v mod 2 ^ i =? 0 then None else Some (Z.log2 (v mod 2 ^ i))) body 0 32 None)
      as (r & -> & _ & ->)
  end.
  - simpl. by rewrite Z.mod_1_r.
  - intros i r Hi [_ ->]. destruct (int_shift_1_Ok i) as (b & -> & Hb); [lia|].
    cbn [mbind result_bind]. rewrite Hb, land_pow2_pos by lia.
    eexists. split; [done|]. split; [lia|]. rewrite mod_pow2_step by lia.
    assert (0 ≤ v mod 2 ^ i < 2 ^ i) by (apply Z.mod_pos_bound, Z.pow_pos_nonneg; lia).
    destruct (Z.testbit v i).
    + destruct (Z.eqb_spec (v mod 2 ^ i + 2 ^ i) 0); [lia|]. f_equal. symmetry.
      apply Z.log2_unique; [lia|]. rewrite Z.pow_succ_r; lia.
    + by rewrite Z.add_0_r.
  - change (0 + Z.of_nat 32) with 32. by rewrite Z.mod_small by lia.
Qed.

(** ** Acknowledgements received *)

(** What the header fields say about packet [i]. *)
Definition status_of (ack_sequence_number ack_bitmask i : Z) : PacketDeliveryStatus :=
  if (ack_sequence_number <=? i) && Z.testbit ack_bitmask (i - ack_sequence_number) then ACK else DROP.

Definition statuses_of (a mask : Z) (q : list InFlightPacket) : DeliveryStatuses :=
  (λ p, (id p, status_of a mask (id p))) <$> q.

(** No id the loop resolves is 32 or more above the sequence number, even when
    the highest acked id wraps around: the shift is always defined. *)
Lemma delta_bound a msb i :
  in_u 32 a → 0 ≤ msb < 32 → in_u 32 i → i ≤ u32 (a + msb) → a ≤ i → i - a ≤ msb.
Proof.
  unfold in_u. intros Ha Hm Hi Hle Hge. unfold wrap in Hle.
  destruct (decide (a + msb < 2 ^ 32)).
  - rewrite Z.mod_small in Hle by lia. lia.
  - assert ((a + msb) mod 2 ^ 32 = a + msb - 2 ^ 32) as E; [|lia].
    symmetry. apply (Z.mod_unique _ _ 1); lia.
Qed.

Lemma acks_loop_Ok a mask msb q : ∀ statuses,
  in_u 32 a → in_u 32 mask → 0 ≤ msb < 32 → Forall (λ p, in_u 32 (id p)) q →
  ∃ q1 q2, q = q1 ++ q2 ∧
    acks_loop q a mask (u32 (a + msb)) statuses = Ok (q2, statuses ++ statuses_of a mask q1) ∧
    Forall (λ p, id p ≤ u32 (a + msb)) q1 ∧
    match q2 with [] => True | p :: _ => u32 (a + msb) < id p end.
Proof.
  induction q as [|p q IH]; intros statuses Ha Hmask Hmsb Hq; cbn [acks_loop].
  { exists [], []. unfold statuses_of; simpl. rewrite app_nil_r. by split_and!. }
  apply Forall_cons in Hq as [Hp Hq]. set (high := u32 (a + msb)) in *.
  destruct (Z.ltb_spec high (id p)).
  { exists [], (p :: q). unfold statuses_of; simpl. rewrite app_nil_r. by split_and!. }
  assert (∀ st, st = status_of a mask (id p) →
    ∃ q1 q2, p :: q = q1 ++ q2 ∧
      acks_loop q a mask high (statuses ++ [(id p, st)]) = Ok (q2, statuses ++ statuses_of a mask q1) ∧
      Forall (λ p, id p ≤ high) q1 ∧
      match q2 with [] => True | p :: _ => high < id p end) as Hstep.
  { intros st ->. destruct (IH (statuses ++ [(id p, status_of a mask (id p))]) Ha Hmask Hmsb Hq)
      as (q1 & q2 & -> & -> & Hle & Hgt).
    exists (p :: q1), q2. rewrite <-app_assoc. split_and!; try done. by constructor. }
  unfold add_drop, add_ack, status_of in *.
  destruct (Z.ltb_spec (id p) a) as [Hlt|Hge].
  { apply Hstep. by rewrite (proj2 (Z.leb_gt _ _)) by lia. }
  pose proof (delta_bound a msb (id p) Ha Hmsb Hp ltac:(done) Hge).
  rewrite (wrap_small 32 (id p - a)) by (unfold in_u in *; lia).
  rewrite assert_that_true by (apply Z.leb_le; lia).
  destruct (int_shift_1_Ok (id p - a)) as (b & -> & Hb); [lia|]. cbn [mbind result_bind]. rewrite Hb.
  rewrite land_pow2_pos by (unfold in_u in *; lia).
  rewrite (proj2 (Z.leb_le a (id p))) in Hstep by lia. cbn [andb] in Hstep.
  destruct (Z.testbit mask (id p - a)); by apply Hstep.
Qed.

(** [process_acks] never faults, whatever the peer sends, and resolves a prefix of
    the packets in flight in their order. *)
Lemma process_acks_Ok m a mask :
  in_u 32 a → in_u 32 mask → Forall (λ p, in_u 32 (id p)) (m_in_flight_packets m) →
  ∃ q1 q2, m_in_flight_packets m = q1 ++ q2 ∧
    process_acks m a mask = Ok (with_in_flight m q2, statuses_of a mask q1) ∧
    (mask = 0 → q1 = []) ∧
    (mask ≠ 0 → Forall (λ p, id p ≤ u32 (a + Z.log2 mask)) q1 ∧
       match q2 with [] => True | p :: _ => u32 (a + Z.log2 mask) < id p end).
Proof.
  intros Ha Hmask Hq. unfold process_acks. rewrite most_significant_bit_Ok by done.
  cbn [mbind result_bind]. destruct (Z.eqb_spec mask 0) as [->|Hne].
  { exists [], (m_in_flight_packets m). split_and!; try done. by destruct m. }
  assert (0 ≤ Z.log2 mask < 32) as Hlog.
  { split; [apply Z.log2_nonneg|]. unfold in_u in Hmask. apply Z.log2_lt_pow2; lia. }
  destruct (acks_loop_Ok a mask (Z.log2 mask) _ [] Ha Hmask Hlog Hq) as (q1 & q2 & Hsplit & -> & H1 & H2).
  exists q1, q2. cbn [mbind result_bind]. by split_and!.
Qed.

(** ** Timeouts *)

Definition expired (m : PacketDeliveryManager) (now : Z) (p : InFlightPacket) : Prop :=
  time_dispatched p + m_packet_timeout m * 1000000 ≤ now.

Definition times_ok (m : PacketDeliveryManager) : Prop :=
  in_i64 (m_packet_timeout m * 1000000) ∧
  Forall (λ p, in_i64 (time_dispatched p + m_packet_timeout m * 1000000)) (m_in_flight_packets m).

Lemma drop_loop_Ok q timeout now : ∀ statuses,
  in_i64 (timeout * 1000000) → Forall (λ p, in_i64 (time_dispatched p + timeout * 1000000)) q →
  ∃ q1 q2, q = q1 ++ q2 ∧
    drop_loop q timeout now statuses = Ok (q2, statuses ++ ((λ p, (id p, DROP)) <$> q1)) ∧
    Forall (λ p, time_dispatched p + timeout * 1000000 ≤ now) q1 ∧
    match q2 with [] => True | p :: _ => now < time_dispatched p + timeout * 1000000 end.
Proof.
  induction q as [|p q IH]; intros statuses Ht Hq; cbn [drop_loop].
  { exists [], []. simpl. rewrite app_nil_r. by split_and!. }
  apply Forall_cons in Hq as [Hp Hq]. rewrite (i64_Ok _ Ht). cbn [mbind result_bind].
  rewrite (i64_Ok _ Hp). cbn [mbind result_bind].
  destruct (Z.leb_spec (time_dispatched p + timeout * 1000000) now).
  - destruct (IH (add_drop statuses (id p)) Ht Hq) as (q1 & q2 & -> & -> & H1 & H2).
    exists (p :: q1), q2. unfold add_drop. rewrite <-app_assoc. split_and!; try done. by constructor.
  - exists [], (p :: q). simpl. rewrite app_nil_r. by split_and!.
Qed.

(** [drop_old_packets] drops exactly the leading packets that have timed out. *)
Lemma drop_old_packets_Ok m now :
  times_ok m →
  ∃ q1 q2, m_in_flight_packets m = q1 ++ q2 ∧
    drop_old_packets m now = Ok (with_in_flight m q2, (λ p, (id p, DROP)) <$> q1) ∧
    Forall (expired m now) q1 ∧
    match q2 with [] => True | p :: _ => ¬ expired m now p end.
Proof.
  intros [Ht Hq]. unfold drop_old_packets.
  destruct (drop_loop_Ok _ _ now [] Ht Hq) as (q1 & q2 & Hsplit & -> & H1 & H2).
  exists q1, q2. split_and!; try done. destruct q2; [done|]. unfold expired. lia.
Qed.

(** ** Acknowledgements sent *)

(** The loop takes the leading acks that fit into the 32-bit window, and sets
    exactly their bits. *)
Lemma pending_acks_loop_Ok a acks : ∀ mask,
  StronglySorted Z.lt (a :: acks) ∨ (∃ l, acks = a :: l ∧ StronglySorted Z.lt acks) →
  Forall (in_u 32) acks → in_u 32 a →
  ∃ acked rest mask', acks = acked ++ rest ∧
    pending_acks_loop acks a mask = Ok (rest, mask') ∧
    Forall (λ p, a ≤ p < a + 32) acked ∧
    match rest with [] => True | p :: _ => a + 32 ≤ p end ∧
    ∀ k, 0 ≤ k < 32 → Z.testbit (u32 mask') k = Z.testbit (u32 mask) k || bool_decide (a + k ∈ acked).
Proof.
  induction acks as [|p acks IH]; intros mask Hs Hr Ha; cbn [pending_acks_loop].
  { exists [], [], mask. split_and!; try done. intros k _.
    rewrite bool_decide_eq_false_2 by apply not_elem_of_nil. by rewrite orb_false_r. }
  apply Forall_cons in Hr as [Hp Hr].
  assert (a ≤ p ∧ StronglySorted Z.lt (a :: acks)) as [Hle Hs'].
  { destruct Hs as [Hs|(l & [= -> ->] & Hs)]; [|done].
    apply StronglySorted_inv in Hs as [Hs Hall].
    apply StronglySorted_inv in Hs as [Hs _]. apply Forall_cons in Hall as [? Hall].
    split; [lia|]. by constructor. }
  rewrite assert_that_true by (by apply Z.leb_le). cbn [mbind result_bind].
  rewrite (wrap_small 32 (p - a)) by (unfold in_u in *; lia).
  destruct (Z.leb_spec (4 * 8) (p - a)).
  { exists [], (p :: acks), mask. split_and!; try (done || lia). intros k _.
    rewrite bool_decide_eq_false_2 by apply not_elem_of_nil. by rewrite orb_false_r. }
  destruct (int_shift_1_Ok (p - a)) as (b & -> & Hb); [lia|]. cbn [mbind result_bind].
  destruct (IH (Z.lor mask b)) as (acked & rest & mask' & -> & -> & Hacked & Hrest & Hbits);
    [by left|done|done|].
  exists (p :: acked), rest, mask'. split_and!; try done.
  { constructor; [lia|done]. }
  intros k Hk. rewrite Hbits, wrap_lor, Hb, Z.lor_spec, Z.pow2_bits_eqb by lia.
  rewrite <-orb_assoc. f_equal.
  destruct (Z.eqb_spec (p - a) k) as [<-|Hne]; simpl.
  - symmetry. apply bool_decide_eq_true_2. replace (a + (p - a)) with p by lia. set_solver.
  - apply bool_decide_ext. rewrite elem_of_cons. split; [by right|]. intros [?|?]; [lia|done].
Qed.

(** ** Invariant *)

(** [sent] packets have been written, the first [resolved] of them have got their
    status, and the others are in flight, in order. *)
Record sent_inv (m : PacketDeliveryManager) (resolved sent : Z) : Prop := {
  si_resolved : 0 ≤ resolved ≤ sent;
  si_ids : id <$> m_in_flight_packets m = seqZ resolved (sent - resolved);
  si_next : m_next_outgoing_packet_id m = u32 sent;
}.

(** In addition the pending acks are increasing and older than the next expected id. *)
Record inv (m : PacketDeliveryManager) (resolved sent : Z) : Prop := {
  inv_sent : sent_inv m resolved sent;
  inv_expected : in_u 32 (m_next_expected_packet_id m);
  inv_sorted : StronglySorted Z.lt (m_pending_acks m);
  inv_acks : Forall (λ p, 0 ≤ p < m_next_expected_packet_id m) (m_pending_acks m);
}.

Lemma pdm_inv_create e timeout : in_u 32 e → inv (create e timeout) 0 0.
Proof. intros. split; [by split|..]; simpl; try done; constructor. Qed.

Lemma seqZ_app_inv a n (l1 l2 : list Z) :
  0 ≤ n → l1 ++ l2 = seqZ a n → l1 = seqZ a (len l1) ∧ l2 = seqZ (a + len l1) (n - len l1).
Proof.
  intros Hn H. assert (len l1 + len l2 = n) as Hl.
  { apply (f_equal length) in H. rewrite length_app, length_seqZ in H. lia. }
  replace n with (len l1 + len l2) in H by lia. rewrite seqZ_app in H by lia.
  apply app_inj_1 in H as [-> ->]; [|by rewrite length_seqZ, Nat2Z.id].
  rewrite !length_seqZ, !Nat2Z.id. split; [done|]. f_equal. lia.
Qed.

(** Popping packets from the front of the in-flight queue. *)
Lemma sent_inv_pop m m' resolved sent q1 q2 :
  sent_inv m resolved sent → m_in_flight_packets m = q1 ++ q2 →
  m_in_flight_packets m' = q2 → m_next_outgoing_packet_id m' = m_next_outgoing_packet_id m →
  sent_inv m' (resolved + len q1) sent ∧ id <$> q1 = seqZ resolved (len q1).
Proof.
  intros [Hr Hids Hnext] Hq Hq' Hn.
  pose proof (f_equal length Hids) as Hlen. rewrite length_fmap, length_seqZ, Hq, length_app in Hlen.
  rewrite Hq, fmap_app in Hids.
  apply seqZ_app_inv in Hids as [H1 H2]; [|lia]. rewrite length_fmap in H1, H2.
  split; [|done]. split; [lia|rewrite Hq', H2; f_equal; lia|congruence].
Qed.

Lemma inv_pop m resolved sent q1 q2 :
  inv m resolved sent → m_in_flight_packets m = q1 ++ q2 →
  inv (with_in_flight m q2) (resolved + len q1) sent ∧ id <$> q1 = seqZ resolved (len q1).
Proof.
  intros [Hsent Hexp Hsort Hacks] Hq.
  destruct (sent_inv_pop m (with_in_flight m q2) _ _ _ _ Hsent Hq) as [? ?]; [done..|].
  split; [by split|done].
Qed.

Lemma sent_inv_push m m' resolved sent now :
  sent_inv m resolved sent → sent < 2 ^ 32 →
  m_in_flight_packets m' = m_in_flight_packets m ++ [mkInFlightPacket (m_next_outgoing_packet_id m) now] →
  m_next_outgoing_packet_id m' = u32 (m_next_outgoing_packet_id m + 1) →
  sent_inv m' resolved (sent + 1).
Proof.
  intros [Hr Hids Hnext] Hs Hq Hn. split; [lia| |].
  - rewrite Hq, fmap_app, Hids, Hnext, wrap_small by (unfold in_u; lia). simpl.
    replace (sent + 1 - resolved) with ((sent - resolved) + 1) by lia.
    rewrite seqZ_app by lia. by replace (resolved + (sent - resolved)) with sent by lia.
  - by rewrite Hn, Hnext, wrap_add_l.
Qed.

Lemma sent_inv_range m resolved sent :
  sent_inv m resolved sent → sent ≤ 2 ^ 32 → Forall (λ p, in_u 32 (id p)) (m_in_flight_packets m).
Proof.
  intros [Hr Hids _] Hs.
  assert (Forall (in_u 32) (id <$> m_in_flight_packets m)) as H; [|by rewrite Forall_fmap in H].
  rewrite Hids. apply Forall_forall. intros x Hx%elem_of_seqZ. unfold in_u. lia.
Qed.

(** ** Operations *)

(** The header written by [write] acknowledges exactly the acks it removes from
    the queue: a peer that reads the fields back classifies a packet as [ACK] when
    its id is one of them, and as [DROP] otherwise. *)
Lemma pdm_write_Ok m resolved sent buffer now :
  inv m resolved sent → sent < 2 ^ 32 → PacketHeader.kSerializedSize ≤ len buffer →
  ∃ acked rest a mask m', m_pending_acks m = acked ++ rest ∧
    write m buffer now
    = Ok (m', PacketHeader.encode sent a mask ++ drop 12 buffer, PacketHeader.kSerializedSize) ∧
    inv m' resolved (sent + 1) ∧
    m_pending_acks m' = rest ∧
    m_next_expected_packet_id m' = m_next_expected_packet_id m ∧
    m_packet_timeout m' = m_packet_timeout m ∧
    m_in_flight_packets m' = m_in_flight_packets m ++ [mkInFlightPacket sent now] ∧
    in_u 32 a ∧ in_u 32 mask ∧ (acked = [] → m_pending_acks m = []) ∧
    (∀ i, status_of a mask i = ACK ↔ i ∈ acked).
Proof.
  intros Hinv Hs Hb. pose proof Hinv as [Hsent Hexp Hsort Hacks].
  pose proof (si_next _ _ _ Hsent) as Hnext. rewrite wrap_small in Hnext
    by (pose proof (si_resolved _ _ _ Hsent); unfold in_u; lia).
  assert (∀ rest, StronglySorted Z.lt rest → Forall (λ p, 0 ≤ p < m_next_expected_packet_id m) rest →
    inv (mkPacketDeliveryManager (m_packet_timeout m) (u32 (sent + 1)) (m_next_expected_packet_id m)
           rest (m_in_flight_packets m ++ [mkInFlightPacket sent now])) resolved (sent + 1)) as Hinv'.
  { intros rest H1 H2. split; simpl; try done.
    eapply sent_inv_push; try done; simpl; by rewrite Hnext. }
  unfold write. rewrite Hnext. destruct (m_pending_acks m) as [|a acks] eqn:Hp.
  { exists [], [], 0, 0. eexists. split; [done|].
    rewrite PacketHeader.packet_header_write_Ok by done. cbn [mbind result_bind].
    rewrite assert_that_true by done. cbn [mbind result_bind]. split; [done|].
    split; [by apply Hinv'; constructor|].
    split_and!; try (done || (unfold in_u; lia)). intros i. unfold status_of.
    rewrite Z.bits_0, andb_false_r. split; [done|by intros ?%not_elem_of_nil]. }
  assert (Forall (in_u 32) (a :: acks)) as Hr32.
  { eapply Forall_impl; [exact Hacks|]. unfold in_u in *. simpl. lia. }
  destruct (pending_acks_loop_Ok a (a :: acks) 0) as (acked & rest & mask & Hsplit & -> & Hin & Hrest & Hbits);
    [right; by exists acks|done|by apply Forall_cons in Hr32 as []|].
  exists acked, rest, a, (u32 mask). eexists. split; [done|]. cbn [mbind result_bind].
  rewrite PacketHeader.packet_header_write_Ok by done. cbn [mbind result_bind]. split; [done|].
  rewrite Hsplit in Hsort, Hacks. apply Forall_app in Hacks as [_ Hacks].
  split; [apply Hinv'; [|done]|].
  { clear -Hsort. induction acked; [done|]. apply IHacked. by apply StronglySorted_inv in Hsort as []. }
  split_and!; try done.
  - by apply Forall_cons in Hr32 as [].
  - apply wrap_range; lia.
  - intros ->. simpl in Hsplit. rewrite <-Hsplit in Hrest. lia.
  - intros i. unfold status_of. destruct (Z.leb_spec a i) as [Hle|Hgt]; simpl.
    2:{ split; [done|]. intros Hi. rewrite Forall_forall in Hin. specialize (Hin _ Hi). lia. }
    destruct (decide (i - a < 32)).
    + rewrite Hbits by lia. rewrite wrap_small, Z.bits_0, orb_false_l by (unfold in_u; lia).
      replace (a + (i - a)) with i by lia. case_bool_decide; naive_solver.
    + unfold wrap. rewrite Z.mod_pow2_bits_high by lia. split; [done|].
      intros Hi. rewrite Forall_forall in Hin. specialize (Hin _ Hi). lia.
Qed.

(** Accepted packets have increasing ids, and every accepted one will be acknowledged. *)
Lemma process_packet_header_Ok m resolved sent hid :
  inv m resolved sent → 0 ≤ hid < 2 ^ 32 - 1 →
  ∃ m', process_packet_header m hid
    = Ok (m', if m_next_expected_packet_id m <=? hid then PacketHeader.kSerializedSize else 0) ∧
    inv m' resolved sent ∧ m_in_flight_packets m' = m_in_flight_packets m ∧
    m_packet_timeout m' = m_packet_timeout m ∧
    m_next_expected_packet_id m' = Z.max (m_next_expected_packet_id m) (hid + 1) ∧
    m_pending_acks m' = m_pending_acks m ++ (if m_next_expected_packet_id m <=? hid then [hid] else []).
Proof.
  intros [Hsent Hexp Hsort Hacks] Hhid. unfold in_u in Hexp. pose proof Hsent as [].
  assert (m_next_expected_packet_id m ≤ hid →
    inv (with_expected (add_pending_ack m hid) (u32 (hid + 1))) resolved sent) as Hacc.
  { intros Hle. rewrite wrap_small by (unfold in_u; lia). split; simpl; try done.
    - unfold in_u. lia.
    - clear -Hsort Hacks Hle. induction Hsort as [|p l Hs IH Hp]; simpl; [repeat constructor|].
      apply Forall_cons in Hacks as [? Hacks]. constructor; [by apply IH|].
      apply Forall_app. split; [done|]. repeat constructor. lia.
    - apply Forall_app. split; [eapply Forall_impl; [exact Hacks|]; simpl; lia|].
      repeat constructor; lia. }
  unfold process_packet_header.
  destruct (Z.eqb_spec hid (m_next_expected_packet_id m)) as [Heq|Hne].
  { rewrite (proj2 (Z.leb_le _ _)) by lia. eexists. split; [done|].
    split; [apply Hacc; lia|]. split_and!; try done. simpl. rewrite wrap_small by (unfold in_u; lia). lia. }
  destruct (Z.ltb_spec hid (m_next_expected_packet_id m)).
  { rewrite (proj2 (Z.leb_gt _ _)) by lia. exists m. rewrite app_nil_r. split_and!; try done. lia. }
  rewrite assert_that_true by (apply Z.ltb_lt; lia). cbn [mbind result_bind].
  rewrite (proj2 (Z.leb_le _ _)) by lia. eexists. split; [done|].
  split; [apply Hacc; lia|]. split_and!; try done. simpl. rewrite wrap_small by (unfold in_u; lia). lia.
Qed.

(** Reading the fields of a header of whatever bytes. *)
Lemma header_fields buffer :
  PacketHeader.kSerializedSize ≤ len buffer →
  ∃ i a mask, PacketHeader.id buffer = Ok i ∧ PacketHeader.ack_sequence_number buffer = Ok a ∧
    PacketHeader.ack_bitmask buffer = Ok mask ∧ in_u 32 i ∧ in_u 32 a ∧ in_u 32 mask.
Proof.
  unfold PacketHeader.id, PacketHeader.ack_sequence_number, PacketHeader.ack_bitmask, read_u32.
  autounfold with wire. intros. rewrite !read_unsigned_Ok by lia.
  do 3 eexists. split_and!; [done..| | |]; apply wrap_range; lia.
Qed.

Lemma fst_statuses_of a mask q : (statuses_of a mask q).*1 = id <$> q.
Proof. unfold statuses_of. by rewrite <-list_fmap_compose. Qed.

(** Reading a packet, whatever its bytes: the acks resolve a prefix of the packets
    in flight, and the packet is accepted when its id has not been passed yet. *)
Lemma process_read_Ok m resolved sent buffer :
  inv m resolved sent → sent ≤ 2 ^ 32 → PacketHeader.kSerializedSize ≤ len buffer →
  PacketHeader.id buffer ≠ Ok (2 ^ 32 - 1) →
  ∃ hid a mask q1 q2 m', PacketHeader.id buffer = Ok hid ∧
    PacketHeader.ack_sequence_number buffer = Ok a ∧ PacketHeader.ack_bitmask buffer = Ok mask ∧
    m_in_flight_packets m = q1 ++ q2 ∧
    process_read m buffer
    = Ok (m', (if m_next_expected_packet_id m <=? hid then PacketHeader.kSerializedSize else 0,
               statuses_of a mask q1, hid)) ∧
    inv m' (resolved + len q1) sent ∧ m_in_flight_packets m' = q2 ∧
    id <$> q1 = seqZ resolved (len q1) ∧
    m_packet_timeout m' = m_packet_timeout m ∧
    m_next_expected_packet_id m' = Z.max (m_next_expected_packet_id m) (hid + 1) ∧
    m_pending_acks m' = m_pending_acks m ++ (if m_next_expected_packet_id m <=? hid then [hid] else []).
Proof.
  intros Hinv Hs Hb Hid. destruct (header_fields _ Hb) as (hid & a & mask & Hi & Ha & Hm & Hir & Har & Hmr).
  destruct (process_acks_Ok m a mask Har Hmr (sent_inv_range _ _ _ (inv_sent _ _ _ Hinv) Hs))
    as (q1 & q2 & Hq & Hacks & _).
  destruct (inv_pop _ _ _ _ _ Hinv Hq) as [Hinv1 Hids].
  destruct (process_packet_header_Ok _ _ _ hid Hinv1) as (m' & Hhdr & Hinv' & Hfl & Hto & Hexp & Hpend).
  { unfold in_u in Hir. destruct (decide (hid = 2 ^ 32 - 1)); [congruence|lia]. }
  exists hid, a, mask, q1, q2, m'. split_and!; try done.
  unfold process_read. rewrite Ha, Hm. cbn [mbind result_bind]. rewrite Hacks. cbn [mbind result_bind].
  rewrite Hi. cbn [mbind result_bind]. rewrite Hhdr. done.
Qed.

(** A span shorter than a header is read out of bounds. *)
Lemma process_read_short m buffer :
  len buffer < PacketHeader.kSerializedSize → process_read m buffer = out_of_bounds.
Proof.
  intros Hb. unfold process_read.
  assert (PacketHeader.ack_bitmask buffer = out_of_bounds) as Hm.
  { unfold PacketHeader.ack_bitmask, read_u32. apply read_unsigned_oob; autounfold with wire in *; lia. }
  rewrite Hm. unfold PacketHeader.ack_sequence_number, read_u32.
  destruct (read_unsigned 4 buffer PacketHeader.kAckSequenceNumberOffset) as [?|f] eqn:Ha; [done|].
  cbn [mbind result_bind]. destruct (decide (8 ≤ len buffer)).
  - rewrite read_unsigned_Ok in Ha by (autounfold with wire; lia). done.
  - rewrite read_unsigned_oob in Ha by (autounfold with wire; lia). by injection Ha as <-.
Qed.

(** ** Runs *)

(** The calls the owner of a manager can make. *)
Inductive call :=
  | Write (buffer : bytes) (now : Z)
  | ProcessRead (buffer : bytes)
  | DropOld (now : Z).

Definition run_call (m : PacketDeliveryManager) (c : call)
    : result (PacketDeliveryManager * DeliveryStatuses) :=
  match c with
  | Write buffer now => '(m, _, _) ← write m buffer now; Ok (m, [])
  | ProcessRead buffer => '(m, (_, statuses, _)) ← process_read m buffer; Ok (m, statuses)
  | DropOld now => drop_old_packets m now
  end.

(** All statuses a sequence of calls produces, in order. *)
Fixpoint run (m : PacketDeliveryManager) (cs : list call) : result (PacketDeliveryManager * DeliveryStatuses) :=
  match cs with
  | [] => Ok (m, [])
  | c :: cs =>
      '(m, statuses) ← run_call m c;
      '(m, rest) ← run m cs;
      Ok (m, statuses ++ rest)
  end.

Definition is_write (c : call) : bool := match c with Write _ _ => true | _ => false end.

Definition writes (cs : list call) : Z := len (filter (λ c, is_write c = true) cs).


Lemma acks_total m resolved sent a mask :
  sent_inv m resolved sent → sent ≤ 2 ^ 32 → in_u 32 a → in_u 32 mask →
  ∃ q1 q2, m_in_flight_packets m = q1 ++ q2 ∧
    process_acks m a mask = Ok (with_in_flight m q2, statuses_of a mask q1).
Proof.
  intros Hinv Hs Ha Hm.
  destruct (process_acks_Ok m a mask Ha Hm (sent_inv_range _ _ _ Hinv Hs)) as (q1 & q2 & Hq & H & _).
  by exists q1, q2.
Qed.

Lemma drop_loop_inv q timeout now : ∀ statuses q2 statuses',
  drop_loop q timeout now statuses = Ok (q2, statuses') →
  ∃ q1, q = q1 ++ q2 ∧ statuses' = statuses ++ ((λ p, (id p, DROP)) <$> q1).
Proof.
  induction q as [|p q IH]; intros statuses q2 statuses' H; cbn [drop_loop] in H.
  { injection H as <- <-. exists []. simpl. by rewrite app_nil_r. }
  inv_result. destruct (Z.leb_spec a0 now); inv_result.
  - apply IH in H as (q1 & -> & ->). exists (p :: q1). unfold add_drop. by rewrite <-app_assoc.
  - exists []. simpl. by rewrite app_nil_r.
Qed.

Lemma process_packet_header_frame m hid m' n :
  process_packet_header m hid = Ok (m', n) →
  m_in_flight_packets m' = m_in_flight_packets m ∧
  m_next_outgoing_packet_id m' = m_next_outgoing_packet_id m.
Proof.
  unfold process_packet_header. intros H.
  destruct (hid =? _); [by inv_result|]. destruct (hid <? _); by inv_result.
Qed.

Lemma pdm_write_frame m buffer now m' buffer' n :
  write m buffer now = Ok (m', buffer', n) →
  m_in_flight_packets m' = m_in_flight_packets m ++ [mkInFlightPacket (m_next_outgoing_packet_id m) now] ∧
  m_next_outgoing_packet_id m' = u32 (m_next_outgoing_packet_id m + 1) ∧
  m_packet_timeout m' = m_packet_timeout m.
Proof.
  unfold write. intros H. destruct (m_pending_acks m); inv_result; done.
Qed.

(** Every call that returns resolves packets from the front, in order. *)
Lemma run_call_sent m resolved sent c m' statuses :
  sent_inv m resolved sent → sent + writes [c] ≤ 2 ^ 32 → run_call m c = Ok (m', statuses) →
  ∃ k, 0 ≤ k ∧ statuses.*1 = seqZ resolved k ∧ sent_inv m' (resolved + k) (sent + writes [c]).
Proof.
  intros Hinv Hs H. unfold writes in *. destruct c; simpl in *.
  - inv_result. apply pdm_write_frame in H0 as (Hq & Hn & _). exists 0. split_and!; [done..|].
    rewrite Z.add_0_r. eapply sent_inv_push; done || lia.
  - rewrite Z.add_0_r in *. inv_result. unfold process_read in H0. inv_result.
    apply read_unsigned_inv in H1 as [_ Ha]; [|autounfold with wire; lia|lia].
    apply read_unsigned_inv in H2 as [_ Hm]; [|autounfold with wire; lia|lia].
    destruct (acks_total m resolved sent a a0 Hinv Hs Ha Hm) as (q1 & q2 & Hq & Hacks).
    rewrite Hacks in H3. injection H3 as <- <-.
    apply process_packet_header_frame in H5 as [Hfl Hn].
    destruct (sent_inv_pop _ _ _ _ _ _ Hinv Hq Hfl Hn) as [Hinv' Hids].
    exists (len q1). rewrite fst_statuses_of. split_and!; [lia|done|done].
  - rewrite Z.add_0_r in *. unfold drop_old_packets in H. inv_result.
    apply drop_loop_inv in H0 as (q1 & Hq & ->).
    destruct (sent_inv_pop m (with_in_flight m l) _ _ _ _ Hinv Hq) as [Hinv' Hids]; [done..|].
    exists (len q1). rewrite app_nil_l, <-list_fmap_compose. split_and!; [lia|done|done].
Qed.

(** The packets a sequence of reads accepts, in order. *)
Fixpoint read_all (m : PacketDeliveryManager) (packets : list bytes) : result (PacketDeliveryManager * list Z) :=
  match packets with
  | [] => Ok (m, [])
  | p :: packets =>
      '(m, (n, _, i)) ← process_read m p;
      '(m, ids) ← read_all m packets;
      Ok (m, if n =? 0 then ids else i :: ids)
  end.

Lemma run_sent cs : ∀ m resolved sent m' log,
  sent_inv m resolved sent → sent + writes cs ≤ 2 ^ 32 → run m cs = Ok (m', log) →
  ∃ k, 0 ≤ k ∧ log.*1 = seqZ resolved k ∧ sent_inv m' (resolved + k) (sent + writes cs).
Proof.
  induction cs as [|c cs IH]; intros m resolved sent m' log Hinv Hs H; cbn [run] in H.
  { inv_result. exists 0. change (writes []) with 0. by rewrite !Z.add_0_r. }
  assert (writes (c :: cs) = writes [c] + writes cs) as Hw.
  { unfold writes. change (c :: cs) with ([c] ++ cs). rewrite filter_app. list_lia. }
  assert (0 ≤ writes cs) as Hpos by (unfold writes; lia).
  assert (sent + writes [c] ≤ 2 ^ 32) as Hs1 by lia.
  inv_result. destruct (run_call_sent _ _ _ _ _ _ Hinv Hs1 H0) as (k1 & Hk1 & Hl1 & Hinv1).
  destruct (IH _ _ _ _ _ Hinv1 ltac:(lia) H1) as (k2 & Hk2 & Hl2 & Hinv2).
  exists (k1 + k2). rewrite fmap_app, Hl1, Hl2, seqZ_app by lia.
  split_and!; [lia|done|]. by rewrite Hw, !Z.add_assoc.
Qed.

(** A packet behind the highest acknowledged one is behind every resolved one. *)
Lemma in_flight_sorted m resolved sent q1 q2 h :
  sent_inv m resolved sent → m_in_flight_packets m = q1 ++ q2 →
  match q2 with [] => True | p :: _ => h < id p end → Forall (λ p, h < id p) q2.
Proof.
  intros Hinv Hq Hh. destruct q2 as [|p q2]; [done|].
  destruct Hinv as [Hr Hids _]. rewrite Hq, fmap_app in Hids.
  apply seqZ_app_inv in Hids as [_ Hids]; [|lia]. rewrite length_fmap in Hids.
  set (n := sent - resolved - len q1) in *. set (b := resolved + len q1) in *.
  assert (Forall (λ i, id p ≤ i) (id <$> p :: q2)) as H.
  { assert (id p = b) as ->.
    { rewrite fmap_cons in Hids. apply (f_equal head) in Hids. simpl in Hids.
      destruct (decide (0 < n)); [|by rewrite seqZ_nil in Hids by lia].
      rewrite seqZ_cons in Hids by lia. simpl in Hids. congruence. }
    rewrite Hids. apply Forall_forall. intros x Hx%elem_of_seqZ. lia. }
  rewrite Forall_fmap in H. eapply Forall_impl; [exact H|]. simpl. lia.
Qed.

(** The mask of a header that acknowledges [acked] does not wrap around. *)
Lemma highest_acked a mask acked :
  in_u 32 a → in_u 32 mask → mask ≠ 0 → Forall (in_u 32) acked →
  (∀ i, status_of a mask i = ACK ↔ i ∈ acked) →
  u32 (a + Z.log2 mask) = a + Z.log2 mask ∧ a + Z.log2 mask ∈ acked ∧
  ∀ i, i ∈ acked → i ≤ a + Z.log2 mask.
Proof.
  intros Ha Hm Hne Hin Hst. unfold in_u in Hm. pose proof (Z.log2_nonneg mask).
  assert (a + Z.log2 mask ∈ acked) as Hhigh.
  { apply Hst. unfold status_of. rewrite (proj2 (Z.leb_le _ _)) by lia.
    replace (a + Z.log2 mask - a) with (Z.log2 mask) by lia. by rewrite Z.bit_log2 by lia. }
  split_and!; [apply wrap_small; by eapply Forall_forall in Hhigh|done|].
  intros i Hi. apply Hst in Hi. unfold status_of in Hi.
  destruct (Z.leb_spec a i); [|done]. simpl in Hi.
  destruct (Z.testbit mask (i - a)) eqn:Hb; [|done].
  enough (i - a ≤ Z.log2 mask) by lia.
  destruct (decide (Z.log2 mask < i - a)); [|lia]. by rewrite Z.bits_above_log2 in Hb by lia.
Qed.

(** A filter that holds for the first part of a list and for none of the rest. *)
Lemma filter_cut (P : Z → Prop) `{∀ x, Decision (P x)} l1 l2 :
  Forall P l1 → Forall (λ x, ¬ P x) l2 → filter P (l1 ++ l2) = l1.
Proof.
  intros H1 H2. rewrite filter_app.
  assert (filter P l2 = []) as ->.
  { induction H2; [done|]. by rewrite filter_cons_False. }
  rewrite app_nil_r. induction H1; [done|]. rewrite filter_cons_True by done. by f_equal.
Qed.

Lemma status_zero_mask a i : status_of a 0 i = DROP.
Proof. unfold status_of. by rewrite Z.bits_0, andb_false_r. Qed.

(** The acknowledged packets and those below them are the ones the mask reaches. *)
Lemma resolved_cut a mask acked (q1 q2 : list InFlightPacket) :
  in_u 32 a → in_u 32 mask → Forall (in_u 32) acked → (∀ i, status_of a mask i = ACK ↔ i ∈ acked) →
  (mask = 0 → q1 = []) →
  (mask ≠ 0 → Forall (λ p, id p ≤ a + Z.log2 mask) q1 ∧ Forall (λ p, a + Z.log2 mask < id p) q2) →
  filter (λ i, Exists (λ j, i ≤ j) acked) ((id <$> q1) ++ (id <$> q2)) = id <$> q1.
Proof.
  intros Ha Hmask Hacked Hst Hz Hnz. destruct (decide (mask = 0)) as [->|Hne].
  - rewrite Hz by done. apply filter_cut; [constructor|]. rewrite Forall_forall. intros i _.
    rewrite Exists_exists. intros (j & Hj & _). apply Hst in Hj. by rewrite status_zero_mask in Hj.
  - destruct (Hnz Hne) as [H1 H2]. destruct (highest_acked a mask acked Ha Hmask Hne Hacked Hst) as (_ & Hin & Hle).
    apply filter_cut; rewrite Forall_fmap.
    + eapply Forall_impl; [exact H1|]. intros x Hx. cbn. rewrite Exists_exists. by exists (a + Z.log2 mask).
    + eapply Forall_impl; [exact H2|]. intros x Hx. cbn. cbn in Hx. rewrite Exists_exists.
      intros (j & Hj & ?). specialize (Hle j Hj). lia.
Qed.

Lemma status_decide a mask (acked : list Z) i :
  (∀ i, status_of a mask i = ACK ↔ i ∈ acked) → status_of a mask i = if decide (i ∈ acked) then ACK else DROP.
Proof.
  intros Hst. specialize (Hst i). case_decide; [by apply Hst|].
  destruct (status_of a mask i); [|done]. by destruct Hst as [Hst _]; specialize (Hst eq_refl).
Qed.

(** ** Properties *)

(** C17: every packet gets exactly one delivery status, in sending order: after any
    calls, the ids reported so far followed by the ids still in flight are all
    the ids written, 0, 1, 2, ..., without gap or repetition. *)
Theorem statuses_exactly_once next_expected timeout cs m log :
  writes cs ≤ 2 ^ 32 → run (create next_expected timeout) cs = Ok (m, log) →
  log.*1 ++ (id <$> m_in_flight_packets m) = seqZ 0 (writes cs).
Proof.
  intros Hw Hrun.
  assert (sent_inv (create next_expected timeout) 0 0) as H0 by by split.
  destruct (run_sent cs _ 0 0 m log H0 ltac:(lia) Hrun) as (k & Hk & Hl & [Hr Hids _]).
  rewrite Hl, Hids, <-seqZ_app by lia. f_equal. lia.
Qed.

Lemma statuses_exactly_once_witness :
  let cs := [Write (replicate 12 0) 0; Write (replicate 12 0) 0; Write (replicate 12 0) 5;
             ProcessRead (PacketHeader.encode 0 0 2); DropOld 5000000000] in
  ∃ m log, run (create 0 5000) cs = Ok (m, log) ∧
    log.*1 ++ (id <$> m_in_flight_packets m) = seqZ 0 3 ∧
    log = [(0, DROP); (1, ACK)] ∧ (id <$> m_in_flight_packets m) = [2].
Proof.
  set (cs := [_; _; _; _; _]).
  destruct (run (create 0 5000) cs) as [[m log]|] eqn:Hrun; [|by vm_compute in Hrun].
  exists m, log. split; [done|]. split.
  - apply (statuses_exactly_once 0 5000 cs m log); [vm_compute; done|done].
  - vm_compute in Hrun. injection Hrun as <- <-. done.
Defined.

(** C19: acknowledgements round-trip. The header one side writes acknowledges the
    leading pending acks [acked] and removes exactly them. The other side, reading the
    packet, resolves precisely the packets it has in flight up to the highest
    acknowledged one, in order: [ACK] for the acknowledged ones and [DROP] for the others.
    Those above the highest get no status and stay in flight. *)
Theorem ack_roundtrip m resolved sent p p_resolved p_sent buffer now :
  inv m resolved sent → sent < 2 ^ 32 - 1 → inv p p_resolved p_sent → p_sent ≤ 2 ^ 32 →
  PacketHeader.kSerializedSize ≤ len buffer →
  ∃ acked rest m' buffer' p' n,
    let in_flight := id <$> m_in_flight_packets p in
    let resolved_ids := filter (λ i, Exists (λ j, i ≤ j) acked) in_flight in
    m_pending_acks m = acked ++ rest ∧ (acked = [] → m_pending_acks m = []) ∧
    write m buffer now = Ok (m', buffer', PacketHeader.kSerializedSize) ∧ m_pending_acks m' = rest ∧
    process_read p buffer'
    = Ok (p', (n, (λ i, (i, if decide (i ∈ acked) then ACK else DROP)) <$> resolved_ids, sent)) ∧
    in_flight = resolved_ids ++ (id <$> m_in_flight_packets p').
Proof.
  intros Hm Hs Hp Hps Hb. pose proof (si_resolved _ _ _ (inv_sent _ _ _ Hm)) as Hres.
  destruct (pdm_write_Ok m resolved sent buffer now Hm ltac:(lia) Hb)
    as (acked & rest & a & mask & m' & Hpend & Hw & _ & Hrest & _ & _ & _ & Ha & Hmask & Hne & Hst).
  destruct (process_acks_Ok p a mask Ha Hmask (sent_inv_range _ _ _ (inv_sent _ _ _ Hp) Hps))
    as (q1 & q2 & Hq & Hacks & Hz & Hnz).
  destruct (inv_pop _ _ _ _ _ Hp Hq) as [Hp1 _].
  destruct (process_packet_header_Ok _ _ _ sent Hp1 ltac:(lia)) as (p' & Hhdr & _ & Hq2' & _).
  assert (Forall (in_u 32) acked) as Hacked.
  { pose proof (inv_acks _ _ _ Hm) as H. rewrite Hpend, Forall_app in H. destruct H as [H _].
    pose proof (inv_expected _ _ _ Hm). eapply Forall_impl; [exact H|]. unfold in_u in *. simpl. lia. }
  assert (filter (λ i, Exists (λ j, i ≤ j) acked) (id <$> m_in_flight_packets p) = id <$> q1) as Hids.
  { rewrite Hq, fmap_app. apply resolved_cut with a mask; try done.
    intros Hmne. destruct (Hnz Hmne) as [Hle Hgt].
    destruct (highest_acked a mask acked Ha Hmask Hmne Hacked Hst) as [Hwrap _]. rewrite Hwrap in Hle, Hgt.
    split; [done|]. by apply (in_flight_sorted _ _ _ _ _ _ (inv_sent _ _ _ Hp) Hq). }
  exists acked, rest, m', (PacketHeader.encode sent a mask ++ drop 12 buffer), p'. eexists. cbv zeta. rewrite Hids.
  split_and!; [done|done|done|done| |by rewrite Hq2', Hq, fmap_app].
  unfold process_read. rewrite PacketHeader.ack_sequence_number_encode,
    PacketHeader.ack_bitmask_encode, PacketHeader.id_encode, !wrap_small by (done || (unfold in_u; lia)).
  cbn [mbind result_bind]. rewrite Hacks. cbn [mbind result_bind]. rewrite Hhdr. cbn [mbind result_bind].
  do 4 f_equal. unfold statuses_of. rewrite <-list_fmap_compose. apply list_fmap_ext. intros _ x _. cbn.
  f_equal. by apply status_decide.
Qed.

(** Two managers after three packets from the second to the first, one of them lost. *)
Definition receiver : PacketDeliveryManager :=
  mkPacketDeliveryManager 5000 7 3 [0; 2] [].
Definition sender : PacketDeliveryManager :=
  mkPacketDeliveryManager 5000 3 0 [] ((λ i, mkInFlightPacket i 0) <$> [0; 1; 2]).

Lemma ack_roundtrip_witness :
  ∃ acked rest m' buffer' p' n,
    let in_flight := id <$> m_in_flight_packets sender in
    let resolved_ids := filter (λ i, Exists (λ j, i ≤ j) acked) in_flight in
    m_pending_acks receiver = acked ++ rest ∧ (acked = [] → m_pending_acks receiver = []) ∧
    write receiver (replicate 12 0) 9 = Ok (m', buffer', 12) ∧ m_pending_acks m' = rest ∧
    process_read sender buffer'
    = Ok (p', (n, (λ i, (i, if decide (i ∈ acked) then ACK else DROP)) <$> resolved_ids, 7)) ∧
    in_flight = resolved_ids ++ (id <$> m_in_flight_packets p').
Proof.
  apply (ack_roundtrip receiver 7 7 sender 0 3 (replicate 12 0) 9); try (done || lia).
  - split; [by split|done|repeat constructor|repeat constructor; simpl; lia].
  - split; [by split|done|constructor|constructor].
Defined.

(** Reading a packet never faults, whatever its bytes after the length check:
    it resolves a prefix of the packets in flight as the header's mask says, and
    accepts the packet, queueing its acknowledgement, exactly when no packet with
    this or a higher id has been accepted. *)
Theorem process_read_total m resolved sent buffer :
  inv m resolved sent → sent ≤ 2 ^ 32 → PacketHeader.kSerializedSize ≤ len buffer →
  PacketHeader.id buffer ≠ Ok (2 ^ 32 - 1) →
  ∃ hid a mask q1 q2 m', PacketHeader.id buffer = Ok hid ∧
    PacketHeader.ack_sequence_number buffer = Ok a ∧ PacketHeader.ack_bitmask buffer = Ok mask ∧
    m_in_flight_packets m = q1 ++ q2 ∧ m_in_flight_packets m' = q2 ∧
    process_read m buffer
    = Ok (m', (if m_next_expected_packet_id m <=? hid then PacketHeader.kSerializedSize else 0,
               statuses_of a mask q1, hid)) ∧
    m_next_expected_packet_id m' = Z.max (m_next_expected_packet_id m) (hid + 1) ∧
    m_pending_acks m' = m_pending_acks m ++ (if m_next_expected_packet_id m <=? hid then [hid] else []) ∧
    inv m' (resolved + len q1) sent.
Proof.
  intros Hinv Hs Hb Hid.
  destruct (process_read_Ok m resolved sent buffer Hinv Hs Hb Hid)
    as (hid & a & mask & q1 & q2 & m' & H1 & H2 & H3 & H4 & H5 & H6 & H7 & _ & _ & H8 & H9).
  by exists hid, a, mask, q1, q2, m'.
Qed.

Lemma process_read_total_witness :
  ∃ hid a mask q1 q2 m', PacketHeader.id (replicate 12 1) = Ok hid ∧
    PacketHeader.ack_sequence_number (replicate 12 1) = Ok a ∧
    PacketHeader.ack_bitmask (replicate 12 1) = Ok mask ∧
    m_in_flight_packets sender = q1 ++ q2 ∧ m_in_flight_packets m' = q2 ∧
    process_read sender (replicate 12 1)
    = Ok (m', (if 0 <=? hid then 12 else 0, statuses_of a mask q1, hid)) ∧
    m_next_expected_packet_id m' = Z.max 0 (hid + 1) ∧
    m_pending_acks m' = [] ++ (if 0 <=? hid then [hid] else []) ∧
    inv m' (0 + len q1) 3.
Proof.
  apply (process_read_total sender 0 3 (replicate 12 1)); try (done || lia).
  - split; [by split|done|constructor|constructor].
Defined.

(** A datagram shorter than a packet header is read out of bounds: nothing
    checks its size. *)
Theorem short_packet_out_of_bounds m buffer :
  len buffer < PacketHeader.kSerializedSize → process_read m buffer = out_of_bounds.
Proof. apply process_read_short. Qed.

Lemma short_packet_out_of_bounds_witness : process_read sender (replicate 11 0) = out_of_bounds.
Proof. by apply (short_packet_out_of_bounds sender (replicate 11 0)). Defined.

(** No packet is accepted twice, and none after a later one: the ids accepted by
    any sequence of reads are strictly increasing, so duplicated and reordered
    packets are filtered. *)
Theorem accepted_increasing packets : ∀ m resolved sent m' ids,
  inv m resolved sent → sent ≤ 2 ^ 32 →
  Forall (λ p, PacketHeader.id p ≠ Ok (2 ^ 32 - 1)) packets →
  read_all m packets = Ok (m', ids) →
  StronglySorted Z.lt ids ∧ Forall (λ i, m_next_expected_packet_id m ≤ i < 2 ^ 32) ids.
Proof.
  induction packets as [|p packets IH]; intros m resolved sent m' ids Hinv Hs Hp Hrun; cbn [read_all] in Hrun.
  { inv_result. split; constructor. }
  apply Forall_cons in Hp as [Hid Hp]. destruct (decide (len p < PacketHeader.kSerializedSize)) as [Hlt|Hge].
  { by rewrite process_read_short in Hrun. }
  destruct (process_read_Ok m resolved sent p Hinv Hs ltac:(lia) Hid)
    as (hid & a & mask & q1 & q2 & m1 & Hi & _ & _ & _ & Hread & Hinv1 & _ & _ & _ & Hexp & _).
  rewrite Hread in Hrun. cbn [mbind result_bind] in Hrun. inv_result.
  destruct (IH m1 _ _ _ _ Hinv1 Hs Hp Hrun0) as [Hsort Hall]. rewrite Hexp in Hall.
  apply read_unsigned_inv in Hi as [_ Hrange]; [|autounfold with wire; lia|lia].
  unfold in_u in Hrange. change (8 * Z.of_nat 4) with 32 in Hrange.
  destruct (Z.leb_spec (m_next_expected_packet_id m) hid).
  - change (PacketHeader.kSerializedSize =? 0) with false. cbv iota. split.
    + constructor; [done|]. eapply Forall_impl; [exact Hall|]. simpl. lia.
    + constructor; [lia|]. eapply Forall_impl; [exact Hall|]. simpl. lia.
  - simpl. split; [done|]. eapply Forall_impl; [exact Hall|]. simpl. lia.
Qed.

Lemma accepted_increasing_witness :
  let ps := [PacketHeader.encode 4 0 0; PacketHeader.encode 2 0 0; PacketHeader.encode 4 0 0;
             PacketHeader.encode 9 0 0] in
  ∃ m', read_all sender ps = Ok (m', [4; 9]) ∧
    StronglySorted Z.lt [4; 9] ∧ Forall (λ i, 0 ≤ i < 2 ^ 32) [4; 9].
Proof.
  set (ps := [_; _; _; _]). destruct (read_all sender ps) as [[m' ids]|] eqn:Hrun; [|by vm_compute in Hrun].
  exists m'. assert (ids = [4; 9]) as -> by (vm_compute in Hrun; congruence). split; [done|].
  apply (accepted_increasing ps sender 0 3 m' [4; 9]); [|lia|by repeat constructor|done].
  split; [by split|done|constructor|constructor].
Defined.

(** C39: the id 2^32 - 1 breaks the window: after it, the next expected id is 0,
    every lower id is accepted again, and the acknowledgement queue is no longer
    increasing, so the next [write] fails its assertion. A single datagram with
    this id from the peer is enough. *)
Theorem id_wraparound_breaks_acks m buffer now i :
  m_pending_acks m = [] → m_next_expected_packet_id m ≤ 2 ^ 32 - 1 → 0 ≤ i < 2 ^ 32 - 1 →
  ∃ m1 m2, process_packet_header m (2 ^ 32 - 1) = Ok (m1, PacketHeader.kSerializedSize) ∧
    process_packet_header m1 i = Ok (m2, PacketHeader.kSerializedSize) ∧
    m_next_expected_packet_id m1 = 0 ∧
    write m2 buffer now = Fault AssertFailed.
Proof.
  intros Hacks Hexp Hi.
  set (m1 := with_expected (add_pending_ack m (2 ^ 32 - 1)) 0).
  set (m2 := with_expected (add_pending_ack m1 i) (u32 (i + 1))).
  exists m1, m2. split_and!.
  - unfold process_packet_header. destruct (Z.eqb_spec (2 ^ 32 - 1) (m_next_expected_packet_id m)); [done|].
    destruct (Z.ltb_spec (2 ^ 32 - 1) (m_next_expected_packet_id m)); [lia|].
    rewrite assert_that_true by (apply Z.ltb_lt; lia). done.
  - unfold process_packet_header. change (m_next_expected_packet_id m1) with 0.
    destruct (Z.eqb_spec i 0); [done|]. destruct (Z.ltb_spec i 0); [lia|].
    rewrite assert_that_true by (apply Z.ltb_lt; lia). done.
  - done.
  - unfold write. cbn [m2 m1 with_expected add_pending_ack m_pending_acks]. rewrite Hacks.
    cbn [app pending_acks_loop]. rewrite (assert_that_true (2 ^ 32 - 1 <=? 2 ^ 32 - 1)) by done. rewrite Z.sub_diag.
    change (4 * 8 <=? u32 0) with false. change (int_shift_1 (u32 0)) with (@Ok Z 1).
    cbn [mbind result_bind]. unfold assert_that.
    rewrite (proj2 (Z.leb_gt (2 ^ 32 - 1) i)) by lia. done.
Qed.

Lemma id_wraparound_breaks_acks_witness :
  ∃ m1 m2, process_packet_header sender (2 ^ 32 - 1) = Ok (m1, 12) ∧
    process_packet_header m1 5 = Ok (m2, 12) ∧ m_next_expected_packet_id m1 = 0 ∧
    write m2 (replicate 12 0) 0 = Fault AssertFailed.
Proof. by apply (id_wraparound_breaks_acks sender (replicate 12 0) 0 5). Defined.

(** A timeout drops exactly the leading packets that were dispatched at least
    [m_packet_timeout] ago, and the manager keeps every other packet; the times fit
    the 64-bit count of nanoseconds. *)
Theorem drop_old_packets_exact m resolved sent now :
  inv m resolved sent → times_ok m →
  ∃ q1 q2, m_in_flight_packets m = q1 ++ q2 ∧
    drop_old_packets m now = Ok (with_in_flight m q2, (λ p, (id p, DROP)) <$> q1) ∧
    Forall (expired m now) q1 ∧
    match q2 with [] => True | p :: _ => ¬ expired m now p end ∧
    inv (with_in_flight m q2) (resolved + len q1) sent.
Proof.
  intros Hinv Ht. destruct (drop_old_packets_Ok m now Ht) as (q1 & q2 & Hq & Hd & H1 & H2).
  exists q1, q2. split_and!; try done. by eapply inv_pop.
Qed.

Lemma drop_old_packets_exact_witness :
  ∃ q1 q2, m_in_flight_packets sender = q1 ++ q2 ∧
    drop_old_packets sender 5000000000 = Ok (with_in_flight sender q2, (λ p, (id p, DROP)) <$> q1) ∧
    Forall (expired sender 5000000000) q1 ∧
    match q2 with [] => True | p :: _ => ¬ expired sender 5000000000 p end ∧
    inv (with_in_flight sender q2) (0 + len q1) 3.
Proof.
  apply (drop_old_packets_exact sender 0 3 5000000000).
  - split; [by split|done|constructor|constructor].
  - split; [|repeat constructor]; vm_compute; by repeat split.
Defined.
