(* ===== verification/ConnectionManager.v ===== *)
(** * ConnectionManager (neptun/connection_manager.h)

    The handshake: LetsConnect messages announce the bandwidth limits of a peer;
    they are repeated [num_redundant_packets] times and until one is known to have
    been delivered. *)
From Stdlib Require Import ZArith Lia.
From stdpp Require Import prelude strings.
From S2P Require Import Prelude Span IoBuffer Messages.
Open Scope Z_scope.

Record BandwidthLimit := mkLimit {
  max_read_packet_rate : Z;
  max_read_packet_size : Z;
  max_send_packet_rate : Z;
  max_send_packet_size : Z;
}.

Record ConnectionManagerConfig := mkConfig {
  num_redundant_packets : Z;
  limit : BandwidthLimit;
}.

Record ConnectionManager := mkConnectionManager {
  m_config : ConnectionManagerConfig;
  m_in_flight_lets_connect : list Z;
  m_num_lets_connect_to_send : Z;
  is_fail : bool;
  m_is_initiator : bool;
  m_self_is_connected : bool;
  m_peer_bandwidth_limit : option BandwidthLimit;
}.

#[export] Instance BandwidthLimit_eq_dec : EqDecision BandwidthLimit.
Proof. solve_decision. Defined.
#[export] Instance ConnectionManagerConfig_eq_dec : EqDecision ConnectionManagerConfig.
Proof. solve_decision. Defined.
#[export] Instance ConnectionManager_eq_dec : EqDecision ConnectionManager.
Proof. solve_decision. Defined.

(** The constructor. *)
Definition create (config : ConnectionManagerConfig) : ConnectionManager :=
  mkConnectionManager config [] 0 false false false None.

Definition connect (c : ConnectionManager) : ConnectionManager :=
  mkConnectionManager (m_config c) (m_in_flight_lets_connect c)
    (usize (num_redundant_packets (m_config c) + 1)) (is_fail c) true
    (m_self_is_connected c) (m_peer_bandwidth_limit c).

Definition is_peer_connected (c : ConnectionManager) : bool :=
  match m_peer_bandwidth_limit c with Some _ => true | None => false end.

Definition is_fully_connected (c : ConnectionManager) : bool :=
  is_peer_connected c && m_self_is_connected c.

Definition peer_limit (c : ConnectionManager) : option BandwidthLimit := m_peer_bandwidth_limit c.

(** [!q.empty() && q.front() == packet_id] *)
Definition front_is (q : list Z) (packet_id : Z) : bool :=
  match q with [] => false | front :: _ => front =? packet_id end.

(** The loop that clears the queue. *)
Fixpoint clear_queue (q : list Z) : list Z :=
  match q with [] => [] | _ :: q' => clear_queue q' end.

Definition on_packet_status_delivery `{Platform} (c : ConnectionManager) (packet_id : Z)
    (status : PacketDeliveryStatus) : result ConnectionManager :=
  match status with
  | ACK =>
      if front_is (m_in_flight_lets_connect c) packet_id then
        q ← queue_pop (clear_queue (m_in_flight_lets_connect c));
        Ok (mkConnectionManager (m_config c) q 0 (is_fail c) (m_is_initiator c) true
              (m_peer_bandwidth_limit c))
      else Ok c
  | DROP =>
      if front_is (m_in_flight_lets_connect c) packet_id then
        q ← queue_pop (m_in_flight_lets_connect c);
        Ok (mkConnectionManager (m_config c) q
              (if is_peer_connected c then m_num_lets_connect_to_send c
               else usize (m_num_lets_connect_to_send c + 1))
              (is_fail c) (m_is_initiator c) (m_self_is_connected c) (m_peer_bandwidth_limit c))
      else Ok c
  end.

Definition validate (lets_connect : bytes) : result bool :=
  send_size ← LetsConnect.max_send_packet_size lets_connect;
  if 100 <=? send_size then
    read_size ← LetsConnect.max_read_packet_size lets_connect;
    Ok (100 <=? read_size)
  else Ok false.

Definition read_limit (lets_connect : bytes) : result BandwidthLimit :=
  read_rate ← LetsConnect.max_read_packet_rate lets_connect;
  read_size ← LetsConnect.max_read_packet_size lets_connect;
  send_rate ← LetsConnect.max_send_packet_rate lets_connect;
  send_size ← LetsConnect.max_send_packet_size lets_connect;
  Ok (mkLimit read_rate read_size send_rate send_size).

Definition set_peer_bandwidth_limit (c : ConnectionManager) (lets_connect : bytes)
    : result ConnectionManager :=
  l ← read_limit lets_connect;
  Ok (mkConnectionManager (m_config c) (m_in_flight_lets_connect c) (m_num_lets_connect_to_send c)
        (is_fail c) (m_is_initiator c) (m_self_is_connected c) (Some l)).

Definition set_fail (c : ConnectionManager) (b : bool) : ConnectionManager :=
  mkConnectionManager (m_config c) (m_in_flight_lets_connect c) (m_num_lets_connect_to_send c)
    b (m_is_initiator c) (m_self_is_connected c) (m_peer_bandwidth_limit c).

Definition set_to_send (c : ConnectionManager) (n : Z) : ConnectionManager :=
  mkConnectionManager (m_config c) (m_in_flight_lets_connect c) n
    (is_fail c) (m_is_initiator c) (m_self_is_connected c) (m_peer_bandwidth_limit c).

(** [buffer] is the span; [tail] are the bytes behind it that an index can reach.
    The message objects are constructed on sub-spans; their getters do not check
    sizes, so they see the tail as well. *)
Definition read (c : ConnectionManager) (buffer tail : bytes)
    : result (ConnectionManager * expected Z NeptunError) :=
  if len buffer <? Segment.kSerializedSize then Ok (c, Value 0)
  else
    manager_type ← Segment.manager_type buffer;
    if negb (manager_type =? CONNECTION_MANAGER) then Ok (c, Value 0)
    else
      message_count ← Segment.message_count buffer;
      if negb (message_count =? 1) then Ok (c, Unexpected MALFORMED_PACKET)
      else
        let idx := Segment.kSerializedSize in
        message_header ← advance buffer idx;
        let idx := idx + MessageHeader.kSerializedSize in
        message_type ← MessageHeader.message_type (message_header ++ tail);
        if message_type =? LetsConnect.kId then
          lets_connect ← advance buffer idx;
          valid ← validate (lets_connect ++ tail);
          if valid : bool then
            let c := set_fail c false in
            let c := if m_is_initiator c then c
                     else set_to_send c (usize (num_redundant_packets (m_config c) + 1)) in
            c ← set_peer_bandwidth_limit c (lets_connect ++ tail);
            Ok (c, Value (idx + LetsConnect.kSerializedSize))
          else Ok (set_fail c true, Value (idx + LetsConnect.kSerializedSize))
        else if message_type =? RejectLetsConnect.kId then Ok (c, Unexpected LETS_CONNECT_REJECTED)
        else Ok (c, Unexpected MALFORMED_PACKET).

(** The new state, the new contents of [buffer] and the returned size. *)
Definition write (c : ConnectionManager) (packet_id : Z) (buffer : bytes)
    : result (ConnectionManager * bytes * Z) :=
  if 0 <? m_num_lets_connect_to_send c then
    '(buffer, payload) ← Segment.write buffer CONNECTION_MANAGER 1;
    let idx := len payload in
    '(buffer, idx) ←
      (if is_fail c then
         '(buffer, _) ← on_advance buffer idx (λ b, MessageHeader.write b LetsConnect.kId);
         '(buffer, _) ← on_advance buffer (idx + MessageHeader.kSerializedSize) RejectLetsConnect.write;
         Ok (buffer, idx + (MessageHeader.kSerializedSize + RejectLetsConnect.kSerializedSize))
       else
         '(buffer, _) ← on_advance buffer idx (λ b, MessageHeader.write b LetsConnect.kId);
         '(buffer, _) ← on_advance buffer (idx + MessageHeader.kSerializedSize) (λ b,
            LetsConnect.write b
              (max_send_packet_rate (limit (m_config c))) (max_read_packet_rate (limit (m_config c)))
              (max_send_packet_size (limit (m_config c))) (max_read_packet_size (limit (m_config c))));
         Ok (buffer, idx + (MessageHeader.kSerializedSize + LetsConnect.kSerializedSize)));
    assert_that (idx <? len buffer);;
    Ok (mkConnectionManager (m_config c) (m_in_flight_lets_connect c ++ [packet_id])
          (m_num_lets_connect_to_send c - 1) (is_fail c) (m_is_initiator c)
          (m_self_is_connected c) (m_peer_bandwidth_limit c),
        buffer, idx)
  else Ok (c, buffer, 0).


(** ** Messages *)

(** The ten bytes [write] changes; it returns the size nine. *)
Definition encode_lets_connect (gap : Z) (l : BandwidthLimit) : bytes :=
  Segment.encode CONNECTION_MANAGER 1 ++ MessageHeader.encode LetsConnect.kId ++
  LetsConnect.encode gap (max_send_packet_rate l) (max_read_packet_rate l)
    (max_send_packet_size l) (max_read_packet_size l).

Definition encoded_size := 9.

(** The fields of the limit have the widths of the struct. *)
Record limit_ok (l : BandwidthLimit) : Prop := {
  lo_read_rate : in_u 8 (max_read_packet_rate l);
  lo_read_size : in_u 16 (max_read_packet_size l);
  lo_send_rate : in_u 8 (max_send_packet_rate l);
  lo_send_size : in_u 16 (max_send_packet_size l);
}.

(** The state after one LetsConnect was written to packet [packet_id]. *)
Definition after_write (c : ConnectionManager) (packet_id : Z) : ConnectionManager :=
  mkConnectionManager (m_config c) (m_in_flight_lets_connect c ++ [packet_id])
    (m_num_lets_connect_to_send c - 1) (is_fail c) (m_is_initiator c)
    (m_self_is_connected c) (m_peer_bandwidth_limit c).

Lemma cm_write_Ok c packet_id buffer :
  0 < m_num_lets_connect_to_send c → is_fail c = false → 10 ≤ len buffer < 2 ^ 62 →
  ∃ gap, buffer !! 5%nat = Some gap ∧
    write c packet_id buffer
    = Ok (after_write c packet_id,
          encode_lets_connect gap (limit (m_config c)) ++ drop 10 buffer, encoded_size).
Proof.
  intros Hn Hf Hb.
  destruct buffer as [|b0 [|b1 [|b2 [|b3 [|b4 [|gap rest]]]]]]; try (simpl in Hb; lia).
  exists gap. split; [done|]. assert (4 ≤ len rest < 2 ^ 62) as Hrest by (simpl in Hb; lia). clear Hb.
  unfold write. rewrite (proj2 (Z.ltb_lt _ _) Hn), Hf.
  rewrite Segment.segment_write_Ok by (simpl; autounfold with wire; lia). cbn [mbind result_bind].
  rewrite Segment.segment_length_encode. cbn [drop].
  rewrite (on_advance_Ok _ _ (MessageHeader.encode LetsConnect.kId ++ b3 :: b4 :: gap :: rest) _ _
             (MessageHeader.encode LetsConnect.kId)); [|done|list_lia|].
  2:{ rewrite MessageHeader.message_header_write_Ok by (autounfold with wire; list_lia). done. }
  cbn [mbind result_bind]. rewrite app_assoc.
  erewrite (on_advance_Ok _ (b3 :: b4 :: gap :: rest));
    [|by autounfold with wire|list_lia|by apply LetsConnect.lets_connect_write_Ok; lia].
  cbn [mbind result_bind]. rewrite assert_that_true.
  2:{ apply Z.ltb_lt. autounfold with wire. list_lia. }
  cbn [mbind result_bind]. unfold encode_lets_connect, after_write. by rewrite Hf, <-!app_assoc.
Qed.

(** Nothing is written, and no state changes, when no message is due. *)
Lemma write_idle c packet_id buffer :
  m_num_lets_connect_to_send c ≤ 0 → write c packet_id buffer = Ok (c, buffer, 0).
Proof. intros. unfold write. destruct (Z.ltb_spec 0 (m_num_lets_connect_to_send c)); [lia|done]. Qed.

(** What the receiver gets: [x] is the byte behind the nine bytes of the message. *)
Definition received_limit (l : BandwidthLimit) (x : Z) : BandwidthLimit :=
  mkLimit (max_read_packet_rate l) (256 * (max_read_packet_size l / 256) + x)
    (max_send_packet_rate l) (max_send_packet_size l).

Definition limit_valid (l : BandwidthLimit) : bool :=
  (100 <=? max_send_packet_size l) && (100 <=? max_read_packet_size l).

(** The state after reading a LetsConnect with the limit [l]. *)
Definition after_read (c : ConnectionManager) (l : BandwidthLimit) : ConnectionManager :=
  if limit_valid l then
    mkConnectionManager (m_config c) (m_in_flight_lets_connect c)
      (if m_is_initiator c then m_num_lets_connect_to_send c
       else usize (num_redundant_packets (m_config c) + 1))
      false (m_is_initiator c) (m_self_is_connected c) (Some l)
  else set_fail c true.

(** The getters on whatever bytes: seven bytes give a limit, fewer a fault. *)
Lemma read_limit_total b :
  7 ≤ len b → ∃ l, read_limit b = Ok l ∧ validate b = Ok (limit_valid l) ∧ limit_ok l.
Proof.
  intros Hb. unfold read_limit, validate, LetsConnect.max_send_packet_size,
    LetsConnect.max_read_packet_size, LetsConnect.max_send_packet_rate, LetsConnect.max_read_packet_rate,
    read_u8, read_u16. autounfold with wire.
  rewrite !read_unsigned_Ok by lia. cbn [mbind result_bind]. eexists. split; [done|].
  unfold limit_valid. cbn [max_send_packet_size max_read_packet_size]. split.
  - by destruct (100 <=? _).
  - split; cbn; apply wrap_range; lia.
Qed.

Lemma read_limit_encode gap l x rest :
  limit_ok l → in_u 8 x →
  read_limit (take 6 (LetsConnect.encode gap (max_send_packet_rate l) (max_read_packet_rate l)
                        (max_send_packet_size l) (max_read_packet_size l)) ++ x :: rest)
  = Ok (received_limit l x).
Proof.
  intros [] Hx. unfold read_limit.
  destruct (LetsConnect.getters_overread gap (max_send_packet_rate l) (max_read_packet_rate l)
              (max_send_packet_size l) (max_read_packet_size l) x rest Hx) as (-> & -> & -> & ->).
  cbn [mbind result_bind]. by rewrite !wrap_small.
Qed.

(** [read] on a LetsConnect segment, by the bytes [b ++ tail] behind the headers. *)
Lemma read_reaches_message c b tail :
  len b < 2 ^ 63 →
  read c (Segment.encode CONNECTION_MANAGER 1 ++ MessageHeader.encode LetsConnect.kId ++ b) tail
  = (valid ← validate (b ++ tail);
     if valid : bool then
       let c := set_fail c false in
       let c := if m_is_initiator c then c
                else set_to_send c (usize (num_redundant_packets (m_config c) + 1)) in
       c ← set_peer_bandwidth_limit c (b ++ tail);
       Ok (c, Value encoded_size)
     else Ok (set_fail c true, Value encoded_size)).
Proof.
  intros Hb. unfold read. set (buffer := Segment.encode _ _ ++ _).
  assert (len buffer = 3 + len b) as Hbuf by (unfold buffer; list_lia).
  destruct (Z.ltb_spec (len buffer) Segment.kSerializedSize) as [H|_];
    [autounfold with wire in H; lia|].
  assert (Segment.manager_type buffer = Ok (u8 CONNECTION_MANAGER)) as ->
    by apply Segment.manager_type_encode.
  assert (Segment.message_count buffer = Ok (u8 1)) as -> by apply Segment.message_count_encode.
  cbn [mbind result_bind]. change (negb (u8 CONNECTION_MANAGER =? CONNECTION_MANAGER)) with false.
  change (negb (u8 1 =? 1)) with false. cbv iota.
  rewrite !Span.advance_Ok by (autounfold with wire; lia). cbn [mbind result_bind].
  change (zdrop Segment.kSerializedSize buffer) with (MessageHeader.encode LetsConnect.kId ++ b).
  change (zdrop (Segment.kSerializedSize + MessageHeader.kSerializedSize) buffer) with b.
  by rewrite <-app_assoc, MessageHeader.message_type_encode.
Qed.

Lemma read_lets_connect c b tail l :
  7 ≤ len (b ++ tail) → len b < 2 ^ 63 → read_limit (b ++ tail) = Ok l →
  read c (Segment.encode CONNECTION_MANAGER 1 ++ MessageHeader.encode LetsConnect.kId ++ b) tail
  = Ok (after_read c l, Value encoded_size).
Proof.
  intros Hlen Hb Hl. rewrite read_reaches_message by done.
  destruct (read_limit_total _ Hlen) as (l' & Hl' & -> & _). rewrite Hl in Hl'. injection Hl' as <-.
  cbn [mbind result_bind]. unfold after_read. destruct (limit_valid l); [|done].
  unfold set_peer_bandwidth_limit. rewrite Hl. by destruct c as [? ? ? ? [] ? ?].
Qed.

(** ** Runs *)

(** The calls [Neptun] makes. *)
Inductive call :=
  | Connect
  | Deliver (packet_id : Z) (status : PacketDeliveryStatus)
  | Read (buffer tail : bytes)
  | Write (packet_id : Z) (buffer : bytes).

Definition run_call `{Platform} (c : ConnectionManager) (k : call) : result ConnectionManager :=
  match k with
  | Connect => Ok (connect c)
  | Deliver packet_id status => on_packet_status_delivery c packet_id status
  | Read buffer tail => '(c, _) ← read c buffer tail; Ok c
  | Write packet_id buffer => '(c, _, _) ← write c packet_id buffer; Ok c
  end.

Fixpoint run `{Platform} (c : ConnectionManager) (ks : list call) : result ConnectionManager :=
  match ks with
  | [] => Ok c
  | k :: ks => c ← run_call c k; run c ks
  end.

(** Writes to packets [ids], with the sizes returned. *)
Fixpoint write_all (c : ConnectionManager) (buffer : bytes) (ids : list Z)
    : result (ConnectionManager * list Z) :=
  match ids with
  | [] => Ok (c, [])
  | i :: ids =>
      '(c, buffer, n) ← write c i buffer;
      '(c, ns) ← write_all c buffer ids;
      Ok (c, n :: ns)
  end.

Lemma clear_queue_empty q : clear_queue q = [].
Proof. by induction q. Qed.

(** Reading and writing leave the flag of the own side and the queue's start alone. *)
Lemma read_frame c buffer tail c' r :
  read c buffer tail = Ok (c', r) →
  m_self_is_connected c' = m_self_is_connected c ∧ m_config c' = m_config c ∧
  m_in_flight_lets_connect c' = m_in_flight_lets_connect c.
Proof.
  unfold read. intros H. destruct (len buffer <? _); [by inv_result|]. inv_result.
  destruct (negb _); [by inv_result|]. inv_result.
  destruct (negb _); [by inv_result|]. inv_result.
  destruct (_ =? LetsConnect.kId).
  2:{ destruct (_ =? RejectLetsConnect.kId); by inv_result. }
  inv_result. destruct a4; [|by inv_result]. inv_result.
  unfold set_peer_bandwidth_limit in *. inv_result. by destruct (m_is_initiator c).
Qed.

Lemma cm_write_frame c packet_id buffer c' buffer' n :
  write c packet_id buffer = Ok (c', buffer', n) →
  (c' = c ∧ n = 0 ∧ buffer' = buffer) ∨ c' = after_write c packet_id.
Proof.
  unfold write. intros H. destruct (0 <? _); [|inv_result; by left].
  right. by inv_result.
Qed.

(** Under [standard] the own side never gets connected: the only statement that
    sets the flag is followed by a [pop] of the queue just emptied. *)
Lemma run_call_standard c k c' :
  @run_call standard c k = Ok c' → m_self_is_connected c' = m_self_is_connected c.
Proof.
  destruct k as [|i []|buffer tail|i buffer]; simpl; intros H.
  - by inv_result.
  - destruct (front_is _ _); [|by inv_result]. by rewrite clear_queue_empty in H.
  - unfold queue_pop in H. destruct (m_in_flight_lets_connect c); simpl in H; [by inv_result|].
    destruct (_ =? _); by inv_result.
  - inv_result. by apply read_frame in H0 as [-> _].
  - inv_result. by apply cm_write_frame in H0 as [(-> & _)| ->].
Qed.

Lemma write_all_Ok n : ∀ c buffer ids,
  is_fail c = false → 10 ≤ len buffer < 2 ^ 62 →
  m_num_lets_connect_to_send c = Z.of_nat n → length ids = n →
  ∃ c', write_all c buffer ids = Ok (c', replicate n encoded_size) ∧
    m_num_lets_connect_to_send c' = 0 ∧ is_fail c' = false ∧
    m_in_flight_lets_connect c' = m_in_flight_lets_connect c ++ ids.
Proof.
  induction n as [|n IH]; intros c buffer [|i ids] Hf Hb Hn Hl; try done.
  { exists c. by rewrite app_nil_r. }
  cbn [write_all]. destruct (cm_write_Ok c i buffer) as (gap & _ & ->); [lia|done..|].
  cbn [mbind result_bind].
  destruct (IH (after_write c i) (encode_lets_connect gap (limit (m_config c)) ++ drop 10 buffer) ids)
    as (c' & -> & Hn' & Hf' & Hq).
  - done.
  - unfold encode_lets_connect. list_lia.
  - simpl. lia.
  - by injection Hl.
  - exists c'. cbn [mbind result_bind]. split_and!; try done. rewrite Hq. simpl. by rewrite <-app_assoc.
Qed.

(** The segment [write] makes: the LetsConnect of the configuration or, after an invalid
    one has been read, a rejection, of which there is only the header. *)
Definition handshake_bytes (c : ConnectionManager) (gap : Z) : bytes :=
  if is_fail c then Segment.encode CONNECTION_MANAGER 1 ++ MessageHeader.encode LetsConnect.kId
  else ztake encoded_size (encode_lets_connect gap (limit (m_config c))).

(** What [write] does when a message is due, in both branches. *)
Lemma write_due c packet_id buffer :
  0 < m_num_lets_connect_to_send c → 10 ≤ len buffer < 2 ^ 62 →
  ∃ buffer' n, write c packet_id buffer = Ok (after_write c packet_id, buffer', n) ∧
    len buffer' = len buffer ∧
    take 3 buffer' = Segment.encode CONNECTION_MANAGER 1 ++ MessageHeader.encode LetsConnect.kId ∧
    (n = if is_fail c then 3 else encoded_size) ∧ ∃ gap, ztake n buffer' = handshake_bytes c gap.
Proof.
  intros Hn Hb. destruct (is_fail c) eqn:Hf.
  2:{ destruct (cm_write_Ok c packet_id buffer Hn Hf Hb) as (gap & _ & ->). do 2 eexists.
      split; [done|]. split; [unfold encode_lets_connect; list_lia|]. split; [done|]. split; [done|].
      exists gap. unfold handshake_bytes. rewrite Hf. unfold encode_lets_connect. by rewrite <-!app_assoc. }
  destruct buffer as [|b0 [|b1 [|b2 rest]]]; try (simpl in Hb; lia).
  assert (4 ≤ len rest < 2 ^ 62) as Hrest by (simpl in Hb; lia). clear Hb.
  unfold write. rewrite (proj2 (Z.ltb_lt _ _) Hn), Hf.
  rewrite Segment.segment_write_Ok by (simpl; autounfold with wire; lia). cbn [mbind result_bind].
  rewrite Segment.segment_length_encode. cbn [drop].
  rewrite (on_advance_Ok _ _ (MessageHeader.encode LetsConnect.kId ++ rest) _ _
             (MessageHeader.encode LetsConnect.kId)); [|done|list_lia|].
  2:{ rewrite MessageHeader.message_header_write_Ok by (autounfold with wire; list_lia). done. }
  cbn [mbind result_bind]. rewrite app_assoc.
  erewrite (on_advance_Ok _ rest rest _ _ []); [|by autounfold with wire|list_lia|].
  2:{ unfold RejectLetsConnect.write. by rewrite span_first_Ok by lia. }
  cbn [mbind result_bind]. rewrite assert_that_true.
  2:{ apply Z.ltb_lt. autounfold with wire. list_lia. }
  cbn [mbind result_bind]. do 2 eexists.
  split; [unfold after_write; by rewrite Hf|]. split; [list_lia|]. split; [done|]. split; [done|].
  exists 0. unfold handshake_bytes. by rewrite Hf.
Qed.

(** [write] returns whenever a due message fits, and keeps the size of the buffer. *)
Lemma write_total c packet_id buffer :
  m_num_lets_connect_to_send c ≤ 0 ∨ 10 ≤ len buffer → len buffer < 2 ^ 62 →
  ∃ c' buffer' n, write c packet_id buffer = Ok (c', buffer', n) ∧ len buffer' = len buffer ∧
    0 ≤ n ≤ len buffer ∧
    (m_num_lets_connect_to_send c ≤ 0 → c' = c ∧ buffer' = buffer ∧ n = 0) ∧
    (0 < m_num_lets_connect_to_send c → c' = after_write c packet_id ∧ 3 ≤ n ∧ ∃ gap, ztake n buffer' = handshake_bytes c gap).
Proof.
  intros Hb Hlen. destruct (decide (m_num_lets_connect_to_send c ≤ 0)) as [Hn|Hn].
  - exists c, buffer, 0. rewrite write_idle by done. split_and!; (done || lia).
  - destruct (write_due c packet_id buffer) as (buffer' & n & Hw & Hl & _ & Hsize & Hgap); [lia|lia|].
    exists (after_write c packet_id), buffer', n. unfold encoded_size in Hsize.
    assert (3 ≤ n ≤ 9) by (destruct (is_fail c); lia). split; [done|]. split; [done|]. split; [lia|]. split; [lia|]. intros _. split; [done|]. split; [lia|done].
Qed.

(** A packet without a segment of this manager leaves it alone. *)
Lemma cm_read_other c buffer tail :
  len buffer < Segment.kSerializedSize ∨ (∃ t, Segment.manager_type buffer = Ok t ∧ t ≠ CONNECTION_MANAGER) →
  read c buffer tail = Ok (c, Value 0).
Proof.
  unfold read. destruct (Z.ltb_spec (len buffer) Segment.kSerializedSize) as [|Hl]; [done|].
  intros [?|(t & -> & Ht)]; [lia|]. cbn [mbind result_bind].
  by rewrite (proj2 (Z.eqb_neq _ _) Ht).
Qed.

(** The state of a finished handshake: connected, nothing to send and nothing in flight. *)
Record idle (c : ConnectionManager) : Prop := {
  idle_num : m_num_lets_connect_to_send c = 0;
  idle_queue : m_in_flight_lets_connect c = [];
  idle_peer : is_peer_connected c = true;
}.

Lemma status_idle `{Platform} c packet_id status :
  m_in_flight_lets_connect c = [] → on_packet_status_delivery c packet_id status = Ok c.
Proof. intros Hq. unfold on_packet_status_delivery. rewrite Hq. by destruct status. Qed.

(** Any bytes long enough for a LetsConnect. *)
Lemma cm_read_total c buffer tail :
  10 ≤ len buffer < 2 ^ 63 →
  ∃ c' r, read c buffer tail = Ok (c', r) ∧
    match r with
    | Value n => (n = 0 ∧ c' = c) ∨ (n = encoded_size ∧ ∃ l, limit_ok l ∧ c' = after_read c l)
    | Unexpected e => c' = c ∧ (e = MALFORMED_PACKET ∨ e = LETS_CONNECT_REJECTED)
    end.
Proof.
  intros Hb. unfold read. destruct (Segment.segment_read_total buffer) as (t & n & -> & -> & _ & _);
    [autounfold with wire; lia|].
  destruct (Z.ltb_spec (len buffer) Segment.kSerializedSize) as [H|_]; [autounfold with wire in H; lia|].
  cbn [mbind result_bind]. destruct (negb (t =? CONNECTION_MANAGER)).
  { exists c, (Value 0). by auto. }
  destruct (negb (n =? 1)).
  { exists c, (Unexpected MALFORMED_PACKET). by auto. }
  rewrite !Span.advance_Ok by (autounfold with wire; lia). cbn [mbind result_bind].
  unfold MessageHeader.message_type, read_u8. rewrite read_unsigned_Ok by (autounfold with wire; list_lia).
  cbn [mbind result_bind].
  destruct (_ =? LetsConnect.kId).
  2:{ destruct (_ =? RejectLetsConnect.kId);
      [exists c, (Unexpected LETS_CONNECT_REJECTED)|exists c, (Unexpected MALFORMED_PACKET)]; by auto. }
  set (b := zdrop (Segment.kSerializedSize + MessageHeader.kSerializedSize) buffer ++ tail).
  destruct (read_limit_total b) as (l & Hl & -> & Hok); [unfold b; autounfold with wire; list_lia|].
  cbn [mbind result_bind].
  exists (after_read c l), (Value encoded_size). split; [|right; by eauto].
  unfold after_read. destruct (limit_valid l); [|done].
  unfold set_peer_bandwidth_limit. rewrite Hl. by destruct c as [? ? ? ? [] ? ?].
Qed.

(** ** Properties *)

(** A LetsConnect without the byte behind it. *)
Lemma read_cut_message c gap l :
  limit_ok l → 100 ≤ max_send_packet_size l →
  read c (ztake encoded_size (encode_lets_connect gap l)) [] = out_of_bounds.
Proof.
  intros Hlimit Hsize. unfold encode_lets_connect.
  set (b := take 6 (LetsConnect.encode gap (max_send_packet_rate l) (max_read_packet_rate l)
              (max_send_packet_size l) (max_read_packet_size l))).
  match goal with |- read _ ?b' _ = _ => replace b' with
    (Segment.encode CONNECTION_MANAGER 1 ++ MessageHeader.encode LetsConnect.kId ++ b) by done end.
  rewrite read_reaches_message, app_nil_r by done.
  unfold validate. assert (LetsConnect.max_send_packet_size b = Ok (max_send_packet_size l)) as ->.
  { destruct (LetsConnect.getters_overread gap (max_send_packet_rate l) (max_read_packet_rate l)
      (max_send_packet_size l) (max_read_packet_size l) 0 [] ltac:(done)) as (_ & _ & H & _).
    rewrite wrap_small in H by apply Hlimit. etrans; [|exact H].
    unfold LetsConnect.max_send_packet_size, read_u16. autounfold with wire.
    rewrite !read_unsigned_Ok by (unfold b; list_lia). done. }
  cbn [mbind result_bind]. rewrite (proj2 (Z.leb_le _ _) Hsize).
  by rewrite LetsConnect.max_read_packet_size_oob.
Qed.

Section Handshake.
(** A peer [c] with a message to send, and a peer [s] that receives it. *)
Context (c s : ConnectionManager) (packet_id : Z) (buffer : bytes).
Context (Hsend : 0 < m_num_lets_connect_to_send c) (Hfail : is_fail c = false).
Context (Hlimit : limit_ok (limit (m_config c))) (Hbuffer : 10 ≤ len buffer < 2 ^ 62).

(** C27: the handshake message round-trips but for one byte. What one side writes, the
    other side reads as the writer's bandwidth limit with the byte [x] behind the message
    for the low byte of [max_read_packet_size]. If both packet sizes of that are at least
    100 the receiver is connected with it, and when it did not start the handshake it owes
    [num_redundant_packets + 1] answers; otherwise it keeps what it knew and is marked
    failed. Nothing else of it changes. *)
Theorem handshake_roundtrip x tail :
  in_u 8 x →
  let l := received_limit (limit (m_config c)) x in
  ∃ buffer' s', write c packet_id buffer = Ok (after_write c packet_id, buffer', encoded_size) ∧
    len buffer' = len buffer ∧
    read s (ztake encoded_size buffer') (x :: tail) = Ok (s', Value encoded_size) ∧
    (limit_valid l = true → peer_limit s' = Some l ∧ is_fail s' = false ∧
       m_num_lets_connect_to_send s' = if m_is_initiator s then m_num_lets_connect_to_send s
                                       else usize (num_redundant_packets (m_config s) + 1)) ∧
    (limit_valid l = false → peer_limit s' = peer_limit s ∧ is_fail s' = true ∧
       m_num_lets_connect_to_send s' = m_num_lets_connect_to_send s) ∧
    m_config s' = m_config s ∧ m_in_flight_lets_connect s' = m_in_flight_lets_connect s ∧
    m_is_initiator s' = m_is_initiator s ∧ m_self_is_connected s' = m_self_is_connected s.
Proof using All.
  intros Hx l. destruct (cm_write_Ok c packet_id buffer) as (gap & _ & ->); [done..|].
  eexists. exists (after_read s l). split; [done|]. unfold encode_lets_connect. split; [list_lia|].
  split; [|unfold after_read; by destruct (limit_valid l)].
  rewrite <-!app_assoc.
  match goal with |- read _ ?b _ = _ => replace b with
    (Segment.encode CONNECTION_MANAGER 1 ++ MessageHeader.encode LetsConnect.kId ++
     take 6 (LetsConnect.encode gap (max_send_packet_rate (limit (m_config c)))
       (max_read_packet_rate (limit (m_config c))) (max_send_packet_size (limit (m_config c)))
       (max_read_packet_size (limit (m_config c))))) by done end.
  apply read_lets_connect; [list_lia|list_lia|]. by apply read_limit_encode.
Qed.

(** C35: the nine bytes the writer reports do not hold its message: reading
    exactly them leaves the span as soon as the announced send size passes the
    first check of [validate]. *)
Theorem handshake_out_of_bounds :
  100 ≤ max_send_packet_size (limit (m_config c)) →
  ∃ buffer', write c packet_id buffer = Ok (after_write c packet_id, buffer', encoded_size) ∧
    read s (ztake encoded_size buffer') [] = out_of_bounds.
Proof using All.
  intros Hsize. destruct (cm_write_Ok c packet_id buffer) as (gap & _ & ->); [done..|].
  eexists. split; [done|]. rewrite <-(read_cut_message s gap (limit (m_config c)) Hlimit Hsize). f_equal.
Qed.
End Handshake.

Section Witness.
Definition client : ConnectionManager := connect (create (mkConfig 5 (mkLimit 120 1400 60 800))).
Definition server : ConnectionManager := create (mkConfig 5 (mkLimit 30 400 10 300)).
Definition packet : bytes := replicate 1600 7.
End Witness.

Lemma handshake_roundtrip_witness :
  let l := mkLimit 120 1480 60 800 in
  limit_valid l = true ∧
  ∃ buffer' s', write client 33 packet = Ok (after_write client 33, buffer', 9) ∧
    len buffer' = len packet ∧
    read server (ztake 9 buffer') (200 :: []) = Ok (s', Value 9) ∧
    (limit_valid l = true → peer_limit s' = Some l ∧ is_fail s' = false ∧
       m_num_lets_connect_to_send s' = if m_is_initiator server then m_num_lets_connect_to_send server
                                       else usize (num_redundant_packets (m_config server) + 1)) ∧
    (limit_valid l = false → peer_limit s' = peer_limit server ∧ is_fail s' = true ∧
       m_num_lets_connect_to_send s' = m_num_lets_connect_to_send server) ∧
    m_config s' = m_config server ∧ m_in_flight_lets_connect s' = m_in_flight_lets_connect server ∧
    m_is_initiator s' = m_is_initiator server ∧ m_self_is_connected s' = m_self_is_connected server.
Proof.
  intros l. split; [done|]. apply (handshake_roundtrip client server 33 packet); try (vm_compute; done).
Defined.

Lemma handshake_out_of_bounds_witness :
  ∃ buffer', write client 33 packet = Ok (after_write client 33, buffer', 9) ∧
    read server (ztake 9 buffer') [] = out_of_bounds.
Proof.
  apply (handshake_out_of_bounds client server 33 packet); try (vm_compute; done).
Defined.

(** After [connect], exactly [num_redundant_packets + 1] packets carry a
    LetsConnect, each recorded as in flight, and the next packet carries nothing. *)
Theorem redundant_packets cfg buffer ids i :
  0 ≤ num_redundant_packets cfg < 2 ^ 64 - 1 → 10 ≤ len buffer < 2 ^ 62 →
  len ids = num_redundant_packets cfg + 1 →
  ∃ c', write_all (connect (create cfg)) buffer ids = Ok (c', replicate (length ids) encoded_size) ∧
    m_in_flight_lets_connect c' = ids ∧ write c' i buffer = Ok (c', buffer, 0).
Proof.
  intros Hn Hb Hids.
  destruct (write_all_Ok (length ids) (connect (create cfg)) buffer ids) as (c' & Hw & Hz & _ & Hq);
    [done|done| |done|].
  { simpl. rewrite wrap_small by (unfold in_u; lia). lia. }
  exists c'. split_and!; [done|done|]. apply write_idle. lia.
Qed.

Lemma redundant_packets_witness :
  ∃ c', write_all (connect (create (mkConfig 1 (mkLimit 0 1400 0 1400)))) (replicate 12 0) [4; 5]
        = Ok (c', [9; 9]) ∧
    m_in_flight_lets_connect c' = [4; 5] ∧ write c' 6 (replicate 12 0) = Ok (c', replicate 12 0, 0).
Proof. by apply (redundant_packets (mkConfig 1 (mkLimit 0 1400 0 1400)) (replicate 12 0) [4; 5] 6). Defined.

(** A dropped LetsConnect is sent again: when the packet with the oldest one is
    reported lost and the peer has not answered, the next packet carries one more. *)
Theorem dropped_handshake_is_resent `{Platform} c packet_id q i buffer :
  m_in_flight_lets_connect c = packet_id :: q → is_peer_connected c = false → is_fail c = false →
  0 ≤ m_num_lets_connect_to_send c < 2 ^ 64 - 1 → 10 ≤ len buffer < 2 ^ 62 →
  ∃ c' buffer', on_packet_status_delivery c packet_id DROP = Ok c' ∧
    m_in_flight_lets_connect c' = q ∧
    m_num_lets_connect_to_send c' = m_num_lets_connect_to_send c + 1 ∧
    write c' i buffer = Ok (after_write c' i, buffer', encoded_size).
Proof.
  intros Hq Hp Hf Hn Hb. unfold on_packet_status_delivery. rewrite Hq, Hp. simpl.
  rewrite Z.eqb_refl, wrap_small by (unfold in_u; lia). cbn [mbind result_bind].
  match goal with |- context [Ok ?c' = _] => destruct (cm_write_Ok c' i buffer) as (gap & _ & Hw) end;
    [simpl; lia|done|done|].
  do 2 eexists. by split_and!.
Qed.

Lemma dropped_handshake_is_resent_witness :
  let c := after_write client 7 in
  ∃ c' buffer', @on_packet_status_delivery standard c 7 DROP = Ok c' ∧
    m_in_flight_lets_connect c' = [] ∧
    m_num_lets_connect_to_send c' = 5 + 1 ∧ write c' 8 packet = Ok (after_write c' 8, buffer', 9).
Proof.
  by apply (@dropped_handshake_is_resent standard (after_write client 7) 7 [] 8 packet).
Defined.

(** C36: on a C++ implementation that is only held to the standard no sequence of
    calls makes the own side connected, so [is_fully_connected] stays false: the
    acknowledgement of the oldest LetsConnect pops an empty queue. *)
Theorem never_fully_connected cfg ks c :
  @run standard (create cfg) ks = Ok c →
  is_fully_connected c = false ∧
  ∀ packet_id q, m_in_flight_lets_connect c = packet_id :: q →
    @on_packet_status_delivery standard c packet_id ACK = Fault (Undefined EmptyQueue).
Proof.
  intros Hrun. assert (∀ c0, @run standard c0 ks = Ok c →
    m_self_is_connected c = m_self_is_connected c0) as Hself.
  { clear Hrun. induction ks as [|k ks IH]; intros c0 Hrun; simpl in Hrun; inv_result; [done|].
    rewrite (IH _ Hrun). by eapply run_call_standard. }
  split.
  - unfold is_fully_connected. rewrite (Hself _ Hrun). apply andb_false_r.
  - intros packet_id q Hq. unfold on_packet_status_delivery. rewrite Hq. simpl.
    by rewrite Z.eqb_refl, clear_queue_empty.
Qed.

Lemma never_fully_connected_witness :
  let ks := [Connect; Write 0 packet; Write 1 packet] in
  ∃ c, @run standard (create (m_config client)) ks = Ok c ∧ is_fully_connected c = false ∧
    @on_packet_status_delivery standard c 0 ACK = Fault (Undefined EmptyQueue).
Proof.
  assert (∃ c, @run standard (create (m_config client)) [Connect; Write 0 packet; Write 1 packet] = Ok c ∧
    m_in_flight_lets_connect c = [0; 1]) as (c & Hrun & Hq).
  { eexists. split; [vm_compute; reflexivity|reflexivity]. }
  destruct (never_fully_connected _ _ _ Hrun) as [Hc Hack].
  exists c. split_and!; [done|done|]. exact (Hack 0 [1] Hq).
Defined.

(** [read] on any bytes long enough for a LetsConnect: it returns, either
    leaving the state alone, with the size 0 or an error, or having taken a whole
    message. Nothing else of the state is touched. *)
Theorem connection_read_total c buffer tail :
  10 ≤ len buffer < 2 ^ 63 →
  ∃ c' r, read c buffer tail = Ok (c', r) ∧
    match r with
    | Value n => (n = 0 ∧ c' = c) ∨ (n = encoded_size ∧ ∃ l, limit_ok l ∧ c' = after_read c l)
    | Unexpected e => c' = c ∧ (e = MALFORMED_PACKET ∨ e = LETS_CONNECT_REJECTED)
    end.
Proof. apply cm_read_total. Qed.

Lemma connection_read_total_witness :
  ∃ c' r, read server (replicate 10 1) [] = Ok (c', r) ∧
    match r with
    | Value n => (n = 0 ∧ c' = server) ∨ (n = encoded_size ∧ ∃ l, limit_ok l ∧ c' = after_read server l)
    | Unexpected e => c' = server ∧ (e = MALFORMED_PACKET ∨ e = LETS_CONNECT_REJECTED)
    end.
Proof. apply (connection_read_total server (replicate 10 1) []). change (10 ≤ 10 < 2 ^ 63). lia. Defined.

(** The message a failed peer sends is not the rejection: [write] puts the id of
    LetsConnect into the header in both branches, and after a failed handshake
    the message has no body at all. *)
Theorem rejection_is_never_sent c packet_id buffer :
  0 < m_num_lets_connect_to_send c → 10 ≤ len buffer < 2 ^ 62 →
  ∃ buffer' n, write c packet_id buffer = Ok (after_write c packet_id, buffer', n) ∧
    take 3 buffer' = Segment.encode CONNECTION_MANAGER 1 ++ MessageHeader.encode LetsConnect.kId ∧
    n = if is_fail c then 3 else encoded_size.
Proof.
  intros Hn Hb. destruct (write_due c packet_id buffer Hn Hb) as (buffer' & n & H1 & _ & H2 & H3 & _).
  by exists buffer', n.
Qed.

Lemma rejection_is_never_sent_witness :
  let c := set_to_send (set_fail server true) 1 in
  ∃ buffer' n, write c 3 packet = Ok (after_write c 3, buffer', n) ∧
    take 3 buffer' = Segment.encode CONNECTION_MANAGER 1 ++ MessageHeader.encode LetsConnect.kId ∧
    n = 3.
Proof. by apply (rejection_is_never_sent (set_to_send (set_fail server true) 1) 3 packet). Defined.
