(* ===== verification/Handshake.v ===== *)
(** * Handshake: two connection managers and what happens between them

    The two ends of a connection exchange LetsConnect messages over a network that
    loses, delays, duplicates and reorders packets. A packet is a number, the
    acknowledgements it carries and the segment of the connection manager, if there is
    one: the three come and get lost together. What the streams write behind them is
    any bytes. [Scenarios], [Startup] and [HalfOpen] run the handshake inside whole
    packets. *)
From Stdlib Require Import ZArith Lia.
From stdpp Require Import prelude strings relations.
From S2P Require Import Prelude Span IoBuffer Messages PacketDeliveryManager ConnectionManager.
Open Scope Z_scope.

(** A packet under way. *)
Record Packet := mkPacket { number : Z; acks : list Z; message : bytes }.

(** One end: its manager and, of its packet delivery manager, the next outgoing number,
    the first packet without a status, the next expected number and the packets to
    acknowledge. Also: its packets the network has, those that carried a message, and the
    other end's packets it has read. *)
Record End := mkEnd {
  manager : ConnectionManager;
  next_number : Z;
  resolved : Z;
  expected_number : Z;
  owed : list Z;
  under_way : list Packet;
  carriers : list Z;
  seen : list Z;
}.

Record Ends := mkEnds { left : End; right : End }.

Definition fresh (cfg : ConnectionManagerConfig) : End := mkEnd (create cfg) 0 0 0 [] [] [] [].

Definition start (cfgl cfgr : ConnectionManagerConfig) : Ends := mkEnds (fresh cfgl) (fresh cfgr).

(** The statuses a packet with these acknowledgements gives the packets from [resolved] on,
    up to the last one acknowledged. *)
Definition statuses_by (resolved : Z) (acks : list Z) : list (Z * PacketDeliveryStatus) :=
  match last acks with
  | None => []
  | Some highest => (λ i, (i, if decide (i ∈ acks) then ACK else DROP)) <$> seqZ resolved (highest + 1 - resolved)
  end.

(** The first packet without a status after that. *)
Definition resolved_by (resolved : Z) (acks : list Z) : Z :=
  match last acks with None => resolved | Some highest => Z.max resolved (highest + 1) end.

(** What the streams write does not start with a segment of the connection manager. *)
Definition of_streams (rest : bytes) : Prop :=
  len rest < Segment.kSerializedSize ∨ (∃ t, Segment.manager_type rest = Ok t ∧ t ≠ CONNECTION_MANAGER).

Section Steps.
Context `{Platform}.

(** What one end does. It writes a packet: the manager into the [buffer] that is left of
    it, and the first ones of the packets to acknowledge, at least one if there is one. It
    reads a packet that is not old, [rest] being the streams' segments and [tail] the
    bytes behind the packet: the statuses first, then the message. The statuses an old
    packet brings are lost. A packet without a status may time out. With
    [may_connect] the application may call [connect]. *)
Inductive end_step (may_connect : bool) (other : End) : End → End → Prop :=
  | step_connect c n r e o w ids xs :
      may_connect = true → end_step may_connect other (mkEnd c n r e o w ids xs) (mkEnd (connect c) n r e o w ids xs)
  | step_write c n r e acks o w ids xs buffer c' buffer' size :
      n < 2 ^ 32 - 1 → 10 ≤ len buffer < 2 ^ 62 → (acks = [] → o = []) → write c n buffer = Ok (c', buffer', size) →
      end_step may_connect other (mkEnd c n r e (acks ++ o) w ids xs)
        (mkEnd c' (n + 1) r e o (w ++ [mkPacket n acks (ztake size buffer')]) (if size =? 0 then ids else ids ++ [n]) xs)
  | step_read c n r e o w ids xs packet rest tail c1 c' res :
      packet ∈ under_way other → e ≤ number packet →
      (message packet = [] → of_streams rest) → Forall (in_u 8) (rest ++ tail) → len rest < 2 ^ 62 →
      for_each on_packet_status_delivery (statuses_by r (acks packet)) c = Ok c1 →
      read c1 (message packet ++ rest) (if overread then tail else []) = Ok (c', res) →
      end_step may_connect other (mkEnd c n r e o w ids xs)
        (mkEnd c' n (resolved_by r (acks packet)) (number packet + 1) (o ++ [number packet]) w ids (number packet :: xs))
  | step_old c n r e o w ids xs packet :
      packet ∈ under_way other → number packet < e →
      end_step may_connect other (mkEnd c n r e o w ids xs) (mkEnd c n (resolved_by r (acks packet)) e o w ids xs)
  | step_timeout c n r e o w ids xs c' :
      r < n → on_packet_status_delivery c r DROP = Ok c' →
      end_step may_connect other (mkEnd c n r e o w ids xs) (mkEnd c' n (r + 1) e o w ids xs)
  | step_lose c n r e o w ids xs w' :
      w' ⊆ w → end_step may_connect other (mkEnd c n r e o w ids xs) (mkEnd c n r e o w' ids xs).

Inductive step (may_connect : bool) : Ends → Ends → Prop :=
  | step_left a b a' : end_step may_connect b a a' → step may_connect (mkEnds a b) (mkEnds a' b)
  | step_right a b b' : end_step may_connect a b b' → step may_connect (mkEnds a b) (mkEnds a b').

(** ** Stuck handshakes *)

(** Nothing to send, nothing to wait for: no packet that is under way has a message. *)
Definition exhausted (e : End) : Prop :=
  m_num_lets_connect_to_send (manager e) = 0 ∧ m_in_flight_lets_connect (manager e) = [] ∧
  Forall (λ p, message p = []) (under_way e).

Lemma statuses_idle sts : ∀ c, m_in_flight_lets_connect c = [] → for_each on_packet_status_delivery sts c = Ok c.
Proof.
  induction sts as [|[i st] sts IH]; intros c Hq; [done|]. cbn. rewrite status_idle by done. by apply IH.
Qed.

Lemma end_step_exhausted e other e' :
  exhausted e → exhausted other → end_step false other e e' → exhausted e' ∧ manager e' = manager e.
Proof.
  intros (Hn & Hq & Hw) (_ & _ & Hw') Hstep.
  destruct Hstep as [c n r e o w ids xs ?|c n r e acks o w ids xs buffer c' buffer' size Hlt Hb Ho Hwr
    |c n r e o w ids xs packet rest tail c1 c' res Hp He Hrest Hbytes Hlen Hst Hr|c n r e o w ids xs packet Hp He
    |c n r e o w ids xs c' Hlt Hst|c n r e o w ids xs w' Hsub];
    cbn [manager next_number resolved expected_number owed under_way carriers seen] in *.
  - done.
  - rewrite write_idle in Hwr by lia. injection Hwr as <- _ <-. split; [|done]. split_and!; [done|done|].
    apply Forall_app. split; [done|]. by apply Forall_singleton.
  - rewrite statuses_idle in Hst by done. injection Hst as <-.
    assert (message packet = []) as Hm by (by eapply Forall_forall in Hw'). rewrite Hm in Hr.
    rewrite app_nil_l, cm_read_other in Hr by (by apply Hrest). by injection Hr as <- _.
  - done.
  - rewrite status_idle in Hst by done. by injection Hst as <-.
  - split; [|done]. split_and!; [done|done|]. apply Forall_forall. intros p Hp%Hsub. by eapply Forall_forall in Hw.
Qed.

Lemma exhausted_stuck s s' :
  exhausted (left s) → exhausted (right s) → rtc (step false) s s' →
  manager (left s') = manager (left s) ∧ manager (right s') = manager (right s).
Proof.
  intros Hl Hr Hs. induction Hs as [s|s s1 s' Hstep _ IH]; [done|].
  destruct Hstep as [a b a' Hs|a b b' Hs]; cbn in *; apply end_step_exhausted in Hs as [He E]; try done.
  - destruct (IH He Hr) as [-> ->]. by rewrite E.
  - destruct (IH Hl He) as [-> ->]. by rewrite E.
Qed.

(** ** Agreement *)

(** A [pop] of an empty queue, when it returns, leaves the queue empty. *)
Context (Hpop : ∀ q, pop_on_empty = Ok q → q = []).

(** Limits that are not taken for invalid, whatever the byte behind the message. *)
Record config_ok (cfg : ConnectionManagerConfig) : Prop := {
  cfg_limit : limit_ok (limit cfg);
  cfg_send : 100 ≤ max_send_packet_size (limit cfg);
  cfg_read : 256 ≤ max_read_packet_size (limit cfg);
}.

(** The message with the limit of [cfg], as it is under way. *)
Definition announces (cfg : ConnectionManagerConfig) (segment : bytes) : Prop :=
  ∃ gap, segment = ztake encoded_size (encode_lets_connect gap (limit cfg)).

Definition knows (cfg : ConnectionManagerConfig) (c : ConnectionManager) : Prop :=
  ∀ l, peer_limit c = Some l → ∃ x, in_u 8 x ∧ l = received_limit (limit cfg) x.

(** What the packets of [e] say. *)
Record packet_inv (cfg : ConnectionManagerConfig) (e : End) (p : Packet) : Prop := {
  pk_new : number p < next_number e;
  pk_acks : acks p ⊆ seen e;
  pk_message : (message p = [] ∧ number p ∉ carriers e) ∨ announces cfg (message p);
}.

(** The end [e] of the configuration [cfg], whose other end is [other]. *)
Record end_inv (cfg cfg_other : ConnectionManagerConfig) (e other : End) : Prop := {
  ei_config : m_config (manager e) = cfg;
  ei_fail : is_fail (manager e) = false;
  ei_packets p : p ∈ under_way e → packet_inv cfg e p;
  ei_carriers i : i ∈ m_in_flight_lets_connect (manager e) → i ∈ carriers e;
  ei_carried i : i ∈ carriers e → i < next_number e;
  ei_owed : owed e ⊆ seen e;
  ei_knows : knows cfg_other (manager e);
  ei_known i : i ∈ seen e → i < next_number other;
  ei_seen i : i ∈ seen e → i ∈ carriers other → is_peer_connected (manager e) = true;
  ei_self : m_self_is_connected (manager e) = true → is_peer_connected (manager other) = true;
}.

Lemma received_valid cfg x : config_ok cfg → in_u 8 x → limit_valid (received_limit (limit cfg) x) = true.
Proof.
  intros [_ Hs Hr] [Hx _]. unfold limit_valid, received_limit. cbn.
  apply andb_true_intro. split; apply Z.leb_le; [done|].
  assert (1 ≤ max_read_packet_size (limit cfg) / 256) by (apply Z.div_le_lower_bound; lia). lia.
Qed.

Lemma read_announced_in cfg c segment rest tail x tl :
  config_ok cfg → announces cfg segment → rest ++ tail = x :: tl → in_u 8 x → len rest < 2 ^ 62 →
  read c (segment ++ rest) tail = Ok (after_read c (received_limit (limit cfg) x), Value encoded_size).
Proof.
  intros Hcfg [gap ->] Hrest Hx Hl. set (l := limit cfg).
  set (b := take 6 (LetsConnect.encode gap (max_send_packet_rate l) (max_read_packet_rate l)
    (max_send_packet_size l) (max_read_packet_size l))).
  replace (ztake encoded_size (encode_lets_connect gap l) ++ rest) with
    (Segment.encode CONNECTION_MANAGER 1 ++ MessageHeader.encode LetsConnect.kId ++ (b ++ rest)) by done.
  assert ((b ++ rest) ++ tail = b ++ x :: tl) as E by (by rewrite <-app_assoc, Hrest).
  apply read_lets_connect; rewrite ?E; [unfold b; list_lia|unfold b; list_lia|]. apply read_limit_encode; [apply Hcfg|done].
Qed.

Lemma read_announced cfg c segment x tail :
  config_ok cfg → announces cfg segment → in_u 8 x →
  read c segment (x :: tail) = Ok (after_read c (received_limit (limit cfg) x), Value encoded_size).
Proof. intros. rewrite <-(app_nil_r segment). by apply (read_announced_in cfg _ _ [] _ x tail). Qed.

(** What a status changes. *)
Record status_result (c c' : ConnectionManager) (acked : list Z) : Prop := {
  sr_config : m_config c' = m_config c;
  sr_fail : is_fail c' = is_fail c;
  sr_limit : m_peer_bandwidth_limit c' = m_peer_bandwidth_limit c;
  sr_in_flight : m_in_flight_lets_connect c' ⊆ m_in_flight_lets_connect c;
  sr_self : m_self_is_connected c' = true →
            m_self_is_connected c = true ∨ ∃ i, i ∈ acked ∧ i ∈ m_in_flight_lets_connect c;
}.

Lemma status_changes c i st c' :
  on_packet_status_delivery c i st = Ok c' → status_result c c' (match st with ACK => [i] | DROP => [] end).
Proof using Hpop.
  intros Hst. assert (status_result c c (match st with ACK => [i] | DROP => [] end)) as Hsame by (split; try done; by left).
  unfold on_packet_status_delivery in Hst. destruct (m_in_flight_lets_connect c) as [|j q] eqn:Hq, st; simpl in Hst;
    try (by injection Hst as <-); destruct (Z.eqb_spec j i) as [->|_]; try (by injection Hst as <-).
  - rewrite clear_queue_empty in Hst. simpl in Hst. apply Prelude.bind_Ok in Hst as (q' & Hq' & [= <-]).
    rewrite (Hpop _ Hq'). split; cbn; try done; [apply list_subseteq_nil|]. right. exists i. rewrite Hq. set_solver.
  - injection Hst as <-. split; cbn; try done; [rewrite Hq; set_solver|by left].
Qed.

Lemma statuses_change sts : ∀ c c',
  for_each on_packet_status_delivery sts c = Ok c' →
  status_result c c' (omap (λ s, match s.2 with ACK => Some s.1 | DROP => None end) sts).
Proof using Hpop.
  induction sts as [|[i st] sts IH]; intros c c' Hs; cbn in Hs; [injection Hs as <-; split; try done; by left|].
  apply Prelude.bind_Ok in Hs as (c1 & H1 & Hs). destruct (status_changes _ _ _ _ H1) as [E1 E2 E3 E4 E5].
  destruct (IH _ _ Hs) as [F1 F2 F3 F4 F5]. split; [congruence|congruence|congruence|set_solver|].
  intros [Hc|(k & Hk & Hk')]%F5; [apply E5 in Hc as [?|(k & Hk & Hk')]; [by left|]|]; right; exists k;
    (split; [destruct st; set_solver|by (done || apply E4)]).
Qed.

Lemma acked_by r as_ i :
  i ∈ omap (λ s : Z * PacketDeliveryStatus, match s.2 with ACK => Some s.1 | DROP => None end) (statuses_by r as_) → i ∈ as_.
Proof.
  unfold statuses_by. destruct (last as_) as [h|]; [|by intros ?%elem_of_nil].
  intros (s & (k & -> & _)%list_elem_of_fmap & Hi)%list_elem_of_omap. cbn in Hi. by case_decide; [injection Hi as <-|].
Qed.

(** What the other end relies on. *)
Record moves_on (e e' : End) : Prop := {
  mv_next : next_number e ≤ next_number e';
  mv_carriers i : i < next_number e → i ∈ carriers e' → i ∈ carriers e;
  mv_connected : is_peer_connected (manager e) = true → is_peer_connected (manager e') = true;
}.

Lemma other_inv cfg cfg_other e e' other : moves_on e e' → end_inv cfg_other cfg other e → end_inv cfg_other cfg other e'.
Proof.
  intros [Hn Hc Hp] [? ? ? ? ? ? ? Hk Hs ?]. split; try done; try (by auto).
  - intros i Hi%Hk. lia.
  - intros i Hi Hi'. apply (Hs i Hi). apply Hc; [by apply Hk|done].
Qed.

(** Reading the message of a packet, if it has one. *)
Lemma message_read cfg other packet c rest tail c' res :
  config_ok cfg → packet_inv cfg other packet → (message packet = [] → of_streams rest) → Forall (in_u 8) (rest ++ tail) →
  len rest < 2 ^ 62 → read c (message packet ++ rest) (if overread then tail else []) = Ok (c', res) → is_fail c = false →
  c' = c ∧ number packet ∉ carriers other ∨
  m_config c' = m_config c ∧ is_fail c' = false ∧ m_in_flight_lets_connect c' = m_in_flight_lets_connect c ∧
    m_self_is_connected c' = m_self_is_connected c ∧ is_peer_connected c' = true ∧ knows cfg c'.
Proof.
  intros Hcfg [_ _ [[Hm Hno]|Hann]] Hrest Hbytes Hlen Hr Hf.
  - left. rewrite Hm, app_nil_l, cm_read_other in Hr by (by apply Hrest). by injection Hr as <- _.
  - right. destruct (rest ++ (if overread then tail else [])) as [|x tl] eqn:Ex.
    { exfalso. apply app_eq_nil in Ex as [-> Etail]. rewrite Etail, app_nil_r in Hr. destruct Hann as [gap Hgap].
      rewrite Hgap, read_cut_message in Hr by apply Hcfg. done. }
    assert (in_u 8 x) as Hx.
    { assert (Forall (in_u 8) (x :: tl)) as Hall; [|by apply Forall_cons in Hall as [? _]].
      rewrite <-Ex. destruct overread; [done|]. rewrite app_nil_r. by apply Forall_app in Hbytes as [? _]. }
    rewrite (read_announced_in cfg _ _ _ _ x tl) in Hr by done. injection Hr as <- _.
    unfold after_read. rewrite received_valid by done. split_and!; try done. intros l [= <-]. by exists x.
Qed.

Let inv cfg cfg_other c n r e o w ids xs other := end_inv cfg cfg_other (mkEnd c n r e o w ids xs) other.

(** The statuses change what [status_result] says; the packet with an acknowledgement
    comes from an end that has read what it acknowledges. *)
Lemma statuses_inv cfg cfg_other c n r e o w ids xs other sts acked c' r' :
  inv cfg cfg_other c n r e o w ids xs other → end_inv cfg_other cfg other (mkEnd c n r e o w ids xs) →
  acked ⊆ seen other → (∀ i, i ∈ omap (λ s : Z * PacketDeliveryStatus, match s.2 with ACK => Some s.1 | DROP => None end) sts → i ∈ acked) →
  for_each on_packet_status_delivery sts c = Ok c' → inv cfg cfg_other c' n r' e o w ids xs other.
Proof using Hpop.
  intros [Hc Hf Hw Hi Hcn Ho Hk Hkn Hs Hself] Hother Hacked Hsts Hst. destruct (statuses_change _ _ _ Hst) as [E1 E2 E3 E4 E5].
  split; cbn in *; try done; try congruence.
  - intros p Hp. by destruct (Hw p Hp).
  - intros i Hi'%E4. by apply Hi.
  - intros l. unfold peer_limit. rewrite E3. apply Hk.
  - intros i. unfold is_peer_connected. rewrite E3. apply Hs.
  - intros [?|(i & Hi1 & Hi2)]%E5; [by apply Hself|].
    apply (ei_seen _ _ _ _ Hother i); [by apply Hacked, Hsts|by apply Hi].
Qed.

Lemma write_inv cfg cfg_other c n r e acks o w ids xs other buffer c' buffer' size :
  inv cfg cfg_other c n r e (acks ++ o) w ids xs other → 10 ≤ len buffer < 2 ^ 62 →
  write c n buffer = Ok (c', buffer', size) →
  let e' := mkEnd c' (n + 1) r e o (w ++ [mkPacket n acks (ztake size buffer')]) (if size =? 0 then ids else ids ++ [n]) xs in
  end_inv cfg cfg_other e' other ∧ moves_on (mkEnd c n r e (acks ++ o) w ids xs) e'.
Proof.
  intros [Hc Hf Hw Hi Hcn Ho Hk Hkn Hs Hself] Hb Hwr e'. unfold e'.
  assert (∀ p, p ∈ w → packet_inv cfg (mkEnd c n r e (acks ++ o) w ids xs) p) as Hw' by done. clear Hw.
  cbn in *. assert (acks ⊆ xs ∧ o ⊆ xs) as [Ha Ho'] by (split; etrans; [|exact Ho| |exact Ho]; set_solver).
  destruct (decide (m_num_lets_connect_to_send c ≤ 0)) as [Hle|Hgt].
  - rewrite write_idle in Hwr by done. injection Hwr as <- <- <-. cbn. split; [|split; cbn; [lia|done|done]].
    split; cbn; try done; try (intros i Hi'%Hcn; lia).
    intros p [Hp|Hp%list_elem_of_singleton]%elem_of_app; [|subst p].
    + destruct (Hw' p Hp) as [H1 H2 H3]. split; cbn in *; [lia|done|done].
    + split; cbn; [lia|done|]. left. split; [done|]. intros Hn%Hcn. lia.
  - destruct (cm_write_Ok c n buffer ltac:(lia) Hf Hb) as (gap & _ & Hwr'). rewrite Hwr in Hwr'. injection Hwr' as -> -> ->.
    change (encoded_size =? 0) with false. cbn iota. split.
    2:{ split; cbn; [lia| |done]. intros i Hlt [?|Hin%list_elem_of_singleton]%elem_of_app; [done|lia]. }
    split; cbn; try done.
    + intros p [Hp|Hp%list_elem_of_singleton]%elem_of_app; [|subst p].
      * destruct (Hw' p Hp) as [H1 H2 H3]. split; cbn in *; [lia|done|]. destruct H3 as [[Hm Hno]|]; [left|by right].
        split; [done|]. intros [?|Hin%list_elem_of_singleton]%elem_of_app; [done|lia].
      * split; cbn; [lia|done|]. right. exists gap. by rewrite <-Hc.
    + intros i [Hin%Hi|Hin]%elem_of_app; apply elem_of_app; [by left|by right].
    + intros i [Hin%Hcn|Hin%list_elem_of_singleton]%elem_of_app; lia.
Qed.

Lemma read_inv cfg cfg_other c n r e o w ids xs other packet rest tail c1 c' res :
  config_ok cfg_other → inv cfg cfg_other c n r e o w ids xs other → end_inv cfg_other cfg other (mkEnd c n r e o w ids xs) →
  packet ∈ under_way other → (message packet = [] → of_streams rest) → Forall (in_u 8) (rest ++ tail) → len rest < 2 ^ 62 →
  for_each on_packet_status_delivery (statuses_by r (acks packet)) c = Ok c1 →
  read c1 (message packet ++ rest) (if overread then tail else []) = Ok (c', res) →
  let e' := mkEnd c' n (resolved_by r (acks packet)) (number packet + 1) (o ++ [number packet]) w ids (number packet :: xs) in
  end_inv cfg cfg_other e' other ∧ moves_on (mkEnd c n r e o w ids xs) e'.
Proof using Hpop.
  intros Hcfg Hinv Hother Hp Hrest Hbytes Hlen Hst Hr e'. unfold e'.
  pose proof (ei_packets _ _ _ _ Hother _ Hp) as Hpk. pose proof Hpk as [Hnum Hacks _].
  destruct (statuses_change _ _ _ Hst) as [_ _ El _ _].
  destruct (statuses_inv _ _ _ _ _ _ _ _ _ _ _ _ (acks packet) _ r Hinv Hother Hacks (λ i Hi, acked_by _ _ i Hi) Hst)
    as [Hc Hf Hw Hi Hcn Ho Hk Hkn Hs Hself]. cbn in *.
  destruct (message_read _ _ _ _ _ _ _ _ Hcfg Hpk Hrest Hbytes Hlen Hr Hf) as [[-> Hno]|(E1 & E2 & E3 & E4 & E5 & E6)].
  - split; [|split; cbn; try done; unfold is_peer_connected; by rewrite El]. split; cbn; try done.
    + intros p Hp'. destruct (Hw p Hp') as [H1 H2 H3]. split; cbn in *; [done|set_solver|done].
    + set_solver.
    + intros i [->|Hin]%elem_of_cons; [done|by apply Hkn].
    + intros i [->|Hin]%elem_of_cons; [done|by apply Hs].
  - split; [|by split]. split; cbn; try done; try congruence.
    + intros p Hp'. destruct (Hw p Hp') as [H1 H2 H3]. split; cbn in *; [done|set_solver|done].
    + intros i. rewrite E3. apply Hi.
    + set_solver.
    + intros i [->|Hin]%elem_of_cons; [done|by apply Hkn].
    + intros Hself'. apply Hself. congruence.
Qed.

Lemma timeout_inv cfg cfg_other c n r e o w ids xs other c' :
  inv cfg cfg_other c n r e o w ids xs other → end_inv cfg_other cfg other (mkEnd c n r e o w ids xs) →
  on_packet_status_delivery c r DROP = Ok c' →
  let e' := mkEnd c' n (r + 1) e o w ids xs in
  end_inv cfg cfg_other e' other ∧ moves_on (mkEnd c n r e o w ids xs) e'.
Proof using Hpop.
  intros Hinv Hother Hst e'. destruct (status_changes _ _ _ _ Hst) as [_ _ El _ _]. split.
  - apply (statuses_inv _ _ c n r e o w ids xs other [(r, DROP)] [] c' (r + 1) Hinv Hother); [apply list_subseteq_nil|done|].
    cbn [for_each]. by rewrite Hst.
  - split; cbn; try done. unfold is_peer_connected. by rewrite El.
Qed.

Lemma end_step_inv may_connect cfg cfg_other e other e' :
  config_ok cfg_other → end_step may_connect other e e' →
  end_inv cfg cfg_other e other → end_inv cfg_other cfg other e → end_inv cfg cfg_other e' other ∧ moves_on e e'.
Proof using Hpop.
  intros Hcfg Hstep [Hc Hf Hw Hi Hcn Ho Hk Hkn Hs Hself] Hother.
  destruct Hstep as [c n r e o w ids xs _|c n r e acks o w ids xs buffer c' buffer' size Hlt Hb Ha Hwr
    |c n r e o w ids xs packet rest tail c1 c' res Hp He Hrest Hbytes Hlen Hst Hr|c n r e o w ids xs packet Hp He
    |c n r e o w ids xs c' Hlt Hst|c n r e o w ids xs w' Hsub];
    cbn [manager next_number resolved expected_number owed under_way carriers seen] in *.
  - split; [|by split]. split; try done. intros p Hp. by destruct (Hw p Hp).
  - by eapply write_inv.
  - by eapply read_inv.
  - split; [|by split]. split; try done. intros p' Hp'. by destruct (Hw p' Hp').
  - by eapply timeout_inv.
  - split; [|by split]. split; try done. intros p Hp%Hsub. by destruct (Hw p Hp).
Qed.

Lemma step_inv may_connect cfgl cfgr s s' :
  config_ok cfgl → config_ok cfgr → step may_connect s s' →
  end_inv cfgl cfgr (left s) (right s) ∧ end_inv cfgr cfgl (right s) (left s) →
  end_inv cfgl cfgr (left s') (right s') ∧ end_inv cfgr cfgl (right s') (left s').
Proof using Hpop.
  intros Hl Hr [a b a' Hs|a b b' Hs] [Ha Hb]; cbn in *.
  - destruct (end_step_inv _ _ _ _ _ _ Hr Hs Ha Hb) as [Ha' Hm]. split; [done|]. by eapply other_inv.
  - destruct (end_step_inv _ _ _ _ _ _ Hl Hs Hb Ha) as [Hb' Hm]. split; [|done]. by eapply other_inv.
Qed.

Lemma start_inv cfg cfg' : end_inv cfg cfg' (fresh cfg) (fresh cfg').
Proof. split; try done; cbn; by intros ? ?%not_elem_of_nil. Qed.

Lemma reachable_inv cfgl cfgr s :
  config_ok cfgl → config_ok cfgr → rtc (step true) (start cfgl cfgr) s →
  end_inv cfgl cfgr (left s) (right s) ∧ end_inv cfgr cfgl (right s) (left s).
Proof using Hpop.
  intros Hl Hr Hs. assert (end_inv cfgl cfgr (left (start cfgl cfgr)) (right (start cfgl cfgr)) ∧
    end_inv cfgr cfgl (right (start cfgl cfgr)) (left (start cfgl cfgr))) as Hinv by (split; apply start_inv).
  induction Hs as [s|s s1 s' Hstep _ IH]; [done|]. apply IH. by eapply step_inv.
Qed.

(** C13: the two ends of a handshake agree. Whatever the applications, the network
    and the timing do, the limits an end keeps for its peer are those of the other
    end's configuration, but for the low byte of [max_read_packet_size]; no configuration
    that sends at least 100 bytes and reads at least 256 is rejected (one that reads
    between 100 and 255 can be, when that byte is lost); and an end that is fully
    connected knows that the other end has its limits. When the [pop] of an empty queue
    returns, it leaves the queue empty. *)
Theorem handshake_agreement cfgl cfgr s :
  config_ok cfgl → config_ok cfgr → rtc (step true) (start cfgl cfgr) s →
  knows cfgr (manager (left s)) ∧ knows cfgl (manager (right s)) ∧
  is_fail (manager (left s)) = false ∧ is_fail (manager (right s)) = false ∧
  (is_fully_connected (manager (left s)) = true → is_peer_connected (manager (right s)) = true) ∧
  (is_fully_connected (manager (right s)) = true → is_peer_connected (manager (left s)) = true).
Proof using Hpop.
  intros Hl Hr Hs. destruct (reachable_inv _ _ _ Hl Hr Hs) as [[] []]. split_and!; try done;
    intros [_ Hc]%andb_prop; auto.
Qed.

End Steps.

(** ** The exchange *)

Section Exchange.
Context `{Platform} (Hpop : pop_on_empty = Ok []).
Context (cfgl cfgr : ConnectionManagerConfig) (Hl : config_ok cfgl) (Hr : config_ok cfgr).
Context (Hnl : 0 ≤ num_redundant_packets cfgl < 2 ^ 64 - 1) (Hnr : 0 ≤ num_redundant_packets cfgr < 2 ^ 64 - 1).

(** The end that has called [connect] and then: has written to packet [i], has been
    acknowledged, and has read the response. *)
Definition asked (i : Z) : ConnectionManager :=
  mkConnectionManager cfgl [i] (num_redundant_packets cfgl) false true false None.
Definition initiator_done (limit : option BandwidthLimit) : ConnectionManager :=
  mkConnectionManager cfgl [] 0 false true true limit.

(** The other end: has read the request, has responded in packet [j], has been acknowledged. *)
Definition requested (x : Z) : ConnectionManager :=
  mkConnectionManager cfgr [] (num_redundant_packets cfgr + 1) false false false (Some (received_limit (limit cfgl) x)).
Definition responded (x j : Z) : ConnectionManager :=
  mkConnectionManager cfgr [j] (num_redundant_packets cfgr) false false false (Some (received_limit (limit cfgl) x)).
Definition responder_done (x : Z) : ConnectionManager :=
  mkConnectionManager cfgr [] 0 false false true (Some (received_limit (limit cfgl) x)).

Lemma ask i buffer :
  10 ≤ len buffer < 2 ^ 62 →
  ∃ gap, write (connect (create cfgl)) i buffer
    = Ok (asked i, encode_lets_connect gap (limit cfgl) ++ drop 10 buffer, encoded_size).
Proof using Hnl.
  intros Hb. destruct (cm_write_Ok (connect (create cfgl)) i buffer) as (gap & _ & Hw); [|done|done|].
  { cbn. rewrite wrap_small by (unfold in_u; lia). lia. }
  exists gap. rewrite Hw. unfold after_write, asked. cbn. rewrite wrap_small by (unfold in_u; lia). by rewrite Z.add_simpl_r.
Qed.

Lemma respond x j buffer :
  10 ≤ len buffer < 2 ^ 62 →
  ∃ gap, write (requested x) j buffer
    = Ok (responded x j, encode_lets_connect gap (limit cfgr) ++ drop 10 buffer, encoded_size).
Proof using Hnr.
  intros Hb. destruct (cm_write_Ok (requested x) j buffer) as (gap & _ & Hw); [cbn; lia|done|done|].
  exists gap. rewrite Hw. unfold after_write, responded. cbn. by rewrite Z.add_simpl_r.
Qed.

Lemma announced cfg gap rest : announces cfg (ztake encoded_size (encode_lets_connect gap (limit cfg) ++ rest)).
Proof. exists gap. by unfold encode_lets_connect; rewrite <-!app_assoc. Qed.

Lemma hear_request x segment tail :
  announces cfgl segment → in_u 8 x → read (create cfgr) segment (x :: tail) = Ok (requested x, Value encoded_size).
Proof using Hl Hnr.
  intros Ha Hx. rewrite (read_announced cfgl) by done. unfold after_read. rewrite received_valid by done.
  cbn. by rewrite wrap_small by (unfold in_u; lia).
Qed.

Lemma hear_response y segment tail :
  announces cfgr segment → in_u 8 y →
  read (initiator_done None) segment (y :: tail) = Ok (initiator_done (Some (received_limit (limit cfgr) y)), Value encoded_size).
Proof using Hr.
  intros Ha Hy. rewrite (read_announced cfgr) by done. unfold after_read. by rewrite received_valid.
Qed.

Lemma acknowledged i c :
  m_in_flight_lets_connect c = [i] →
  on_packet_status_delivery c i ACK
  = Ok (mkConnectionManager (m_config c) [] 0 (is_fail c) (m_is_initiator c) true (m_peer_bandwidth_limit c)).
Proof using Hpop. intros Hq. unfold on_packet_status_delivery. rewrite Hq. simpl. by rewrite Z.eqb_refl, Hpop. Qed.

Lemma acknowledged_once i c :
  m_in_flight_lets_connect c = [i] →
  for_each on_packet_status_delivery (statuses_by i [i]) c
  = Ok (mkConnectionManager (m_config c) [] 0 (is_fail c) (m_is_initiator c) true (m_peer_bandwidth_limit c)).
Proof using Hpop.
  intros Hq. unfold statuses_by. cbn [last]. replace (i + 1 - i) with 1 by (clear; lia).
  change (seqZ i 1) with [0 + i]. rewrite Z.add_0_l. cbn [fmap list_fmap for_each].
  rewrite decide_True by (by apply list_elem_of_singleton). rewrite acknowledged by done. done.
Qed.

(** A packet without a message. *)
Lemma bare_write may_connect other c n r e as_ w ids xs :
  n < 2 ^ 32 - 1 → m_num_lets_connect_to_send c ≤ 0 →
  end_step may_connect other (mkEnd c n r e as_ w ids xs) (mkEnd c (n + 1) r e [] (w ++ [mkPacket n as_ []]) ids xs).
Proof using Type.
  intros Hn Hc. rewrite <-(app_nil_r as_) at 1.
  apply (step_write may_connect other c n r e as_ [] w ids xs (replicate 10 0) c (replicate 10 0) 0);
    [done|by vm_compute|done|by apply write_idle].
Qed.

Lemma bare_read may_connect other c n r e o w ids xs packet c' :
  packet ∈ under_way other → e ≤ number packet → message packet = [] →
  for_each on_packet_status_delivery (statuses_by r (acks packet)) c = Ok c' →
  end_step may_connect other (mkEnd c n r e o w ids xs)
    (mkEnd c' n (resolved_by r (acks packet)) (number packet + 1) (o ++ [number packet]) w ids (number packet :: xs)).
Proof using Type.
  intros Hp He Hm Hst. eapply (step_read may_connect) with (rest := []) (tail := []) (c1 := c') (res := Value 0); try done.
  - by left.
  - rewrite Hm. by destruct overread.
Qed.

(** A run up to the response. *)
Lemma response_sent : ∃ request response,
  announces cfgr response ∧
  rtc (step true) (start cfgl cfgr)
    (mkEnds (mkEnd (asked 0) 1 0 0 [] [mkPacket 0 [] request] [0] [])
            (mkEnd (responded 0 0) 1 0 1 [] [mkPacket 0 [0] response] [0] [0])).
Proof using All.
  set (buffer := replicate 10 0 : bytes). assert (10 ≤ len buffer < 2 ^ 62) as Hb by (split; vm_compute; congruence).
  destruct (ask 0 buffer Hb) as (g1 & H1). destruct (respond 0 0 buffer Hb) as (g2 & H2).
  do 2 eexists. split; [apply announced|].
  eapply rtc_l; [apply step_left, (step_connect true); done|].
  eapply rtc_l; [apply step_left, (step_write true) with (acks := []) (2 := Hb) (4 := H1); done|].
  change (encoded_size =? 0) with false. cbn [app].
  eapply rtc_l; [apply step_right, (step_read true) with (rest := [0]) (tail := []) (c1 := create cfgr)
    (packet := mkPacket 0 [] (ztake encoded_size (encode_lets_connect g1 (limit cfgl) ++ drop 10 buffer)))
    (c' := requested 0) (res := Value encoded_size)|]; [cbn; set_solver|done|done|by constructor|done|done| |].
  { cbn [message]. replace (if overread then [] else []) with (@nil Z) by (by destruct overread).
    rewrite (read_announced_in cfgl _ _ _ _ 0 []) by (done || apply announced). unfold after_read. rewrite received_valid by done.
    cbn. by rewrite wrap_small by (unfold in_u; lia). }
  eapply rtc_l; [apply step_right, (step_write true) with (acks := [0]) (o := []) (2 := Hb) (4 := H2); done|].
  apply rtc_refl.
Qed.

Lemma exchanged : ∃ s, rtc (step true) (start cfgl cfgr) s ∧
  is_fully_connected (manager (left s)) = true ∧ is_fully_connected (manager (right s)) = true.
Proof using All.
  destruct response_sent as (request & response & Ha & Hrun). eexists. split.
  - etrans; [exact Hrun|].
    eapply rtc_l; [apply step_left, (step_read true) with (packet := mkPacket 0 [0] response) (rest := [0]) (tail := [])
      (c1 := initiator_done None) (c' := initiator_done (Some (received_limit (limit cfgr) 0))) (res := Value encoded_size);
      [cbn; set_solver|done|intros _; by left|by constructor|done|cbn [acks]; by apply acknowledged_once|]|].
    { cbn [message]. replace (if overread then [] else []) with (@nil Z) by (by destruct overread).
      rewrite (read_announced_in cfgr _ _ _ _ 0 []) by done. unfold after_read. by rewrite received_valid. }
    eapply rtc_l; [by apply step_left, (bare_write true) with (as_ := [0])|].
    eapply rtc_l; [apply step_right, (bare_read true) with (packet := mkPacket 1 [0] []) (c' := responder_done 0);
      [cbn; set_solver|done|done|cbn [acks]; by apply acknowledged_once]|].
    apply rtc_refl.
  - done.
Qed.

(** C14: a handshake of which one request and one response arrive and are acknowledged
    completes, between ends that send at least 100 bytes and read at least 256, on a
    platform where the [pop] of an empty queue leaves it empty. Both ends are then fully
    connected with the limits of the other, but for the low byte of its
    [max_read_packet_size], and idle: no redundant message is sent any more. *)
Theorem handshake_completes i j x y buffer buffer' tail tail' :
  10 ≤ len buffer < 2 ^ 62 → 10 ≤ len buffer' < 2 ^ 62 → in_u 8 x → in_u 8 y →
  ∃ c1 request s1 s2 response c2 c3 s3,
    write (connect (create cfgl)) i buffer = Ok (c1, request, encoded_size) ∧
    read (create cfgr) (ztake encoded_size request) (x :: tail) = Ok (s1, Value encoded_size) ∧
    write s1 j buffer' = Ok (s2, response, encoded_size) ∧
    on_packet_status_delivery c1 i ACK = Ok c2 ∧
    read c2 (ztake encoded_size response) (y :: tail') = Ok (c3, Value encoded_size) ∧
    on_packet_status_delivery s2 j ACK = Ok s3 ∧
    is_fully_connected c3 = true ∧ is_fully_connected s3 = true ∧ idle c3 ∧ idle s3 ∧
    peer_limit c3 = Some (received_limit (limit cfgr) y) ∧ peer_limit s3 = Some (received_limit (limit cfgl) x).
Proof using All.
  intros Hb Hb' Hx Hy.
  destruct (ask i buffer Hb) as (g1 & H1). destruct (respond x j buffer' Hb') as (g2 & H2).
  exists (asked i). eexists. exists (requested x), (responded x j). eexists.
  exists (initiator_done None), (initiator_done (Some (received_limit (limit cfgr) y))), (responder_done x).
  split; [exact H1|]. split; [apply hear_request; [apply announced|done]|]. split; [exact H2|].
  rewrite !acknowledged by done. split; [done|]. split; [apply hear_response; [apply announced|done]|]. by split_and!.
Qed.

End Exchange.

(** ** Both ends call

    Each takes the other's request for the response to its own, and does not answer. *)
Section Collision.
Context `{Platform} (Hpop : pop_on_empty = Ok []).
Context (cfgl cfgr : ConnectionManagerConfig) (Hl : config_ok cfgl) (Hr : config_ok cfgr).
Context (Hnr : 0 ≤ num_redundant_packets cfgr < 2 ^ 64 - 1) (Hfrugal : num_redundant_packets cfgl = 0).

(** The left end has read the right end's request, and its own is lost. *)
Definition unheard : ConnectionManager :=
  mkConnectionManager cfgl [] 0 false true false (Some (received_limit (limit cfgr) 0)).

(** Both requests have been written, and the left end's is lost. *)
Lemma one_request_lost : ∃ request,
  announces cfgr request ∧
  rtc (step true) (start cfgl cfgr)
    (mkEnds (mkEnd (asked cfgl 0) 1 0 0 [] [] [0] []) (mkEnd (asked cfgr 0) 1 0 0 [] [mkPacket 0 [] request] [0] [])).
Proof using All.
  set (buffer := replicate 10 0 : bytes). assert (10 ≤ len buffer < 2 ^ 62) as Hb by (split; vm_compute; congruence).
  destruct (ask cfgl ltac:(lia) 0 buffer Hb) as (g1 & H1). destruct (ask cfgr Hnr 0 buffer Hb) as (g2 & H2).
  eexists. split; [apply announced|].
  eapply rtc_l; [by apply step_left, (step_connect true)|]. eapply rtc_l; [by apply step_right, (step_connect true)|].
  eapply rtc_l; [apply step_left, (step_write true) with (acks := []) (2 := Hb) (4 := H1); done|].
  eapply rtc_l; [apply step_right, (step_write true) with (acks := []) (2 := Hb) (4 := H2); done|].
  change (encoded_size =? 0) with false. cbn [app].
  eapply rtc_l; [apply step_left, (step_lose true) with (w' := []), list_subseteq_nil|]. apply rtc_refl.
Qed.

(** C16: both ends call [connect] at once, and one request is lost. The end whose request
    arrives is acknowledged and repeats it no more; the other one takes it for the
    response, so it neither answers nor repeats its own request, whose loss it learns of
    when it knows the limit already ([on_packet_status_delivery] repeats a message only
    while it does not). One end never learns the other's limit: no step but a new [connect]
    changes either manager. The end that lost its request has no redundant packets, and the
    [pop] of an empty queue leaves it empty. [HalfOpen.colliding_requests_stay_stuck] is a
    run of whole endpoints. *)
Theorem simultaneous_connect_deadlock :
  ∃ s, rtc (step true) (start cfgl cfgr) s ∧
    is_peer_connected (manager (left s)) = true ∧ m_self_is_connected (manager (left s)) = false ∧
    is_peer_connected (manager (right s)) = false ∧ m_self_is_connected (manager (right s)) = true ∧
    ∀ s', rtc (step false) s s' → manager (left s') = manager (left s) ∧ manager (right s') = manager (right s).
Proof using All.
  destruct one_request_lost as (request & Ha & Hrun).
  set (sl := mkEnd unheard 2 2 2 [1] [] [0] [1; 0]).
  set (sr := mkEnd (initiator_done cfgr None) 2 1 2 [] [mkPacket 1 [1] []] [0] [1]).
  exists (mkEnds sl sr). split.
  - etrans; [exact Hrun|].
    eapply rtc_l; [apply step_left, (step_read true) with (packet := mkPacket 0 [] request) (rest := [0]) (tail := [])
      (c1 := asked cfgl 0) (c' := mkConnectionManager cfgl [0] 0 false true false (Some (received_limit (limit cfgr) 0)))
      (res := Value encoded_size); [cbn; set_solver|done|intros _; by left|by constructor|done|done|]|].
    { cbn [message]. replace (if overread then [] else []) with (@nil Z) by (by destruct overread).
      rewrite (read_announced_in cfgr _ _ _ _ 0 []) by done. unfold after_read. rewrite received_valid by done. cbn. by rewrite Hfrugal. }
    eapply rtc_l; [by apply step_left, (bare_write true) with (as_ := [0])|].
    eapply rtc_l; [apply step_right, (bare_read true) with (packet := mkPacket 1 [0] []) (c' := initiator_done cfgr None);
      [cbn; set_solver|done|done|by apply (acknowledged_once Hpop 0)]|].
    eapply rtc_l; [apply step_right, (step_lose true) with (w' := []), list_subseteq_nil|].
    eapply rtc_l; [by apply step_right, (bare_write true) with (as_ := [1])|].
    eapply rtc_l; [apply step_left, (bare_read true) with (packet := mkPacket 1 [1] []) (c' := unheard); [cbn; set_solver|done|done|]|].
    { done. }
    eapply rtc_l; [apply step_left, (step_lose true) with (w' := []), list_subseteq_nil|]. apply rtc_refl.
  - do 4 (split; [done|]). intros s' Hs. apply (exhausted_stuck (mkEnds sl sr)); [..|done]; (split; [done|split; [done|]]); by repeat constructor.
Qed.
End Collision.

(** ** Witnesses *)

Definition client_cfg : ConnectionManagerConfig := mkConfig 0 (mkLimit 120 1400 60 800).
Definition server_cfg : ConnectionManagerConfig := mkConfig 0 (mkLimit 30 400 10 300).

Lemma client_cfg_ok : config_ok client_cfg.
Proof. split; [split|..]; vm_compute; (split; congruence) || congruence. Qed.
Lemma server_cfg_ok : config_ok server_cfg.
Proof. split; [split|..]; vm_compute; (split; congruence) || congruence. Qed.

Lemma tolerant_pop q : @pop_on_empty tolerant = Ok q → q = [].
Proof. by intros [= <-]. Qed.

Lemma handshake_agreement_witness :
  ∃ s, rtc (@step tolerant true) (start client_cfg server_cfg) s ∧
    is_fully_connected (manager (left s)) = true ∧ is_fully_connected (manager (right s)) = true ∧
    knows server_cfg (manager (left s)) ∧ knows client_cfg (manager (right s)) ∧
    is_peer_connected (manager (left s)) = true ∧ is_peer_connected (manager (right s)) = true.
Proof.
  destruct (@exchanged tolerant eq_refl client_cfg server_cfg client_cfg_ok server_cfg_ok ltac:(done) ltac:(done))
    as (s & Hs & Hl & Hr).
  destruct (@handshake_agreement tolerant tolerant_pop client_cfg server_cfg s client_cfg_ok server_cfg_ok Hs)
    as (H1 & H2 & _ & _ & H3 & H4).
  exists s. split_and!; auto.
Defined.

Lemma handshake_completes_witness :
  ∃ c1 request s1 s2 response c2 c3 s3,
    write (connect (create client_cfg)) 7 (replicate 20 0) = Ok (c1, request, encoded_size) ∧
    read (create server_cfg) (ztake encoded_size request) [5] = Ok (s1, Value encoded_size) ∧
    write s1 9 (replicate 30 0) = Ok (s2, response, encoded_size) ∧
    @on_packet_status_delivery tolerant c1 7 ACK = Ok c2 ∧
    read c2 (ztake encoded_size response) [6; 1] = Ok (c3, Value encoded_size) ∧ @on_packet_status_delivery tolerant s2 9 ACK = Ok s3 ∧
    is_fully_connected c3 = true ∧ is_fully_connected s3 = true ∧ idle c3 ∧ idle s3 ∧
    peer_limit c3 = Some (mkLimit 30 262 10 300) ∧ peer_limit s3 = Some (mkLimit 120 1285 60 800).
Proof.
  apply (@handshake_completes tolerant eq_refl client_cfg server_cfg client_cfg_ok server_cfg_ok ltac:(done) ltac:(done)
    7 9 5 6 (replicate 20 0) (replicate 30 0) [] [1]); done.
Defined.

Lemma simultaneous_connect_deadlock_witness :
  ∃ s, rtc (@step tolerant true) (start client_cfg server_cfg) s ∧
    is_peer_connected (manager (left s)) = true ∧ m_self_is_connected (manager (left s)) = false ∧
    is_peer_connected (manager (right s)) = false ∧ m_self_is_connected (manager (right s)) = true ∧
    ∀ s', rtc (@step tolerant false) s s' → manager (left s') = manager (left s) ∧ manager (right s') = manager (right s).
Proof.
  by apply (@simultaneous_connect_deadlock tolerant eq_refl client_cfg server_cfg client_cfg_ok server_cfg_ok ltac:(done)).
Defined.
