(* ===== verification/UnreliableStream.v ===== *)
(** * UnreliableStream (neptun/unreliable_stream.h)

    Messages are queued as spans into a FlipBuffer; [write] sends the longest prefix
    that fits into the packet and forgets the rest. A pending span is its offset
    and size in the vector, so that what it views is what the vector holds when it
    is written. *)
From Stdlib Require Import ZArith Lia.
From stdpp Require Import prelude strings.
From S2P Require Import Prelude Span IoBuffer FlipBuffer Messages.
Open Scope Z_scope.

Record PendingSpan := mkPendingSpan { p_offset : Z; p_size : Z }.

Record UnreliableStream := mkUnreliableStream {
  m_buffer : FlipBuffer;
  m_pending_messages : list PendingSpan;
}.

#[export] Instance PendingSpan_eq_dec : EqDecision PendingSpan.
Proof. solve_decision. Defined.
#[export] Instance UnreliableStream_eq_dec : EqDecision UnreliableStream.
Proof. solve_decision. Defined.

(** The constructor; its default argument is 3200. *)
Definition create (buffer_capacity : Z) : UnreliableStream :=
  mkUnreliableStream (FlipBuffer.create buffer_capacity) [].

Definition kDefaultCapacity := 3200.

(** ** read *)

(** The loop of [read] from its [n]-th last iteration on. *)
Fixpoint read_loop (n : nat) (buffer : bytes) (idx : Z) (delivered : list bytes)
    : result (list bytes * expected Z NeptunError) :=
  match n with
  | O => Ok (delivered, Value idx)
  | S n' =>
      unreliable_message ← Span.advance buffer idx;
      msg_size ← UnreliableMessage.validate_size unreliable_message;
      match msg_size with
      | Unexpected _ => Ok (delivered, Unexpected MALFORMED_PACKET)
      | Value size =>
          payload ← UnreliableMessage.payload unreliable_message;
          read_loop n' buffer (idx + size) (delivered ++ [payload])
      end
  end.

(** The payloads the callback gets, in order, and the returned value. The stream
    itself does not change. *)
Definition read (buffer : bytes) : result (list bytes * expected Z NeptunError) :=
  if len buffer <? Segment.kSerializedSize then Ok ([], Value 0)
  else
    manager_type ← Segment.manager_type buffer;
    if negb (manager_type =? UNRELIABLE_STREAM) then Ok ([], Value 0)
    else
      message_count ← Segment.message_count buffer;
      read_loop (Z.to_nat message_count) buffer Segment.kSerializedSize [].

(** ** write *)

(** The first loop: how many messages fit. *)
Fixpoint count_loop (pending : list PendingSpan) (buffer_size total_size : Z) (message_count : nat)
    : Z * nat :=
  match pending with
  | [] => (total_size, message_count)
  | payload :: rest =>
      let msg_size := UnreliableMessage.serialized_size (p_size payload) in
      if buffer_size <? total_size + msg_size then (total_size, message_count)
      else count_loop rest buffer_size (total_size + msg_size) (S message_count)
  end.

(** The bytes a pending span views. *)
Definition view (fb : FlipBuffer) (p : PendingSpan) : result bytes :=
  span_range (FlipBuffer.m_buffer fb) (p_offset p) (p_offset p + p_size p).

(** The second loop: [n] messages are consumed and serialised. *)
Fixpoint write_loop (n : nat) (fb : FlipBuffer) (pending : list PendingSpan) (buffer : bytes) (idx : Z)
    : result (FlipBuffer * bytes * Z) :=
  match n with
  | O => Ok (fb, buffer, idx)
  | S n' =>
      match pending with
      | [] => Fault (Undefined EmptyQueue)
      | p :: rest =>
          let fb := consume fb (p_size p) in
          payload ← view fb p;
          '(buffer', unreliable_message_buffer) ← on_advance buffer idx (λ b,
             UnreliableMessage.write b (u16 (p_size p)) payload);
          let total_message_size := len unreliable_message_buffer in
          assert_that (total_message_size <=? usize (len buffer - idx));;
          write_loop n' fb rest buffer' (idx + total_message_size)
      end
  end.

(** The new state, the new contents of [buffer] and the returned size. *)
Definition write (s : UnreliableStream) (buffer : bytes) : result (UnreliableStream * bytes * Z) :=
  let '(total_size, message_count) :=
    count_loop (m_pending_messages s) (len buffer) Segment.kSerializedSize 0 in
  if (message_count =? 0)%nat then Ok (s, buffer, 0)
  else
    '(buffer, segment) ← Segment.write buffer UNRELIABLE_STREAM (Z.of_nat message_count);
    '(fb, buffer, idx) ← write_loop message_count (m_buffer s) (m_pending_messages s) buffer (len segment);
    assert_that (idx =? total_size);;
    fb ← flip fb;
    Ok (mkUnreliableStream fb [], buffer, total_size).

(** ** send *)

Definition send (s : UnreliableStream) (write_to_buffer : WriteToBufferFn) : result UnreliableStream :=
  rest ← remaining (m_buffer s);
  let w := write_to_buffer rest in
  let fb := put_remaining (m_buffer s) (w_buffer w) in
  if w_size w =? 0 then Ok (mkUnreliableStream fb (m_pending_messages s))
  else
    fb' ← FlipBuffer.advance fb (w_size w);
    Ok (mkUnreliableStream fb'
          (m_pending_messages s ++ [mkPendingSpan (m_end fb + w_offset w) (w_size w)])).

(** ** Invariant *)

(** The non-empty spans [ps] tile [b, e). *)
Fixpoint tiled (b : Z) (ps : list PendingSpan) (e : Z) : Prop :=
  match ps with
  | [] => b = e
  | p :: ps' => p_offset p = b ∧ 0 < p_size p ∧ tiled (b + p_size p) ps' e
  end.

Definition total (ps : list PendingSpan) : Z := foldr (λ p n, p_size p + n) 0 ps.

(** The window starts at 0, its first [leak] bytes belong to no message any more,
    and the pending messages tile the rest of it. *)
Record inv (s : UnreliableStream) (leak : Z) : Prop := {
  inv_wf : FlipBuffer.wf (m_buffer s);
  inv_capacity : len (FlipBuffer.m_buffer (m_buffer s)) < 2 ^ 16;
  inv_begin : m_begin (m_buffer s) = 0;
  inv_leak : 0 ≤ leak;
  inv_tiled : tiled leak (m_pending_messages s) (m_end (m_buffer s));
}.

Definition payload_in (fb : FlipBuffer) (p : PendingSpan) : bytes :=
  slice fb (p_offset p) (p_offset p + p_size p).

(** The payloads waiting to be written. *)
Definition pending (s : UnreliableStream) : list bytes := payload_in (m_buffer s) <$> m_pending_messages s.

Lemma us_inv_create capacity : 0 ≤ capacity < 2 ^ 16 → inv (create capacity) 0.
Proof. intros. split; simpl; [apply flip_wf_create; lia|list_lia|done..]. Qed.

Lemma tiled_app b ps1 ps2 e :
  tiled b (ps1 ++ ps2) e ↔ tiled b ps1 (b + total ps1) ∧ tiled (b + total ps1) ps2 e.
Proof.
  revert b. induction ps1 as [|p ps1 IH]; intros b; simpl.
  - rewrite Z.add_0_r. naive_solver.
  - rewrite IH, Z.add_assoc. naive_solver.
Qed.

Lemma tiled_total b ps e : tiled b ps e → e = b + total ps ∧ 0 ≤ total ps.
Proof.
  revert b. induction ps as [|p ps IH]; intros b; simpl; [lia|].
  intros (? & ? & [-> ?]%IH). lia.
Qed.

Lemma tiled_elem b ps e p :
  tiled b ps e → p ∈ ps → b ≤ p_offset p ∧ 0 < p_size p ∧ p_offset p + p_size p ≤ e.
Proof.
  revert b. induction ps as [|x ps IH]; simpl; intros b H Hp; [by apply not_elem_of_nil in Hp|].
  destruct H as (Hb & Hs & H). pose proof (tiled_total _ _ _ H).
  apply elem_of_cons in Hp as [->|Hp]; [lia|]. specialize (IH _ H Hp). lia.
Qed.

Section Pending.
Context (s : UnreliableStream) (leak : Z) (Hinv : inv s leak).

Lemma payload_length p : p ∈ m_pending_messages s → len (payload_in (m_buffer s) p) = p_size p.
Proof using Hinv.
  intros Hp. destruct Hinv as [[] _ _ Hleak Ht]. destruct (tiled_elem _ _ _ _ Ht Hp) as (? & ? & ?).
  unfold payload_in. rewrite length_slice by lia. lia.
Qed.

Lemma payload_ok p : p ∈ m_pending_messages s → 0 < len (payload_in (m_buffer s) p) < 2 ^ 16.
Proof using Hinv.
  intros Hp. rewrite payload_length by done. pose proof Hinv as [[] ? _ Hleak Ht].
  destruct (tiled_elem _ _ _ _ Ht Hp) as (? & ? & ?). lia.
Qed.

(** Consuming changes no byte, so a span views the same bytes at any time. *)
Lemma view_Ok p b : p ∈ m_pending_messages s →
  view (mkFlipBuffer b (m_end (m_buffer s)) (FlipBuffer.m_buffer (m_buffer s))) p
  = Ok (payload_in (m_buffer s) p).
Proof using Hinv.
  intros Hp. destruct Hinv as [[] _ _ Hleak Ht]. destruct (tiled_elem _ _ _ _ Ht Hp) as (? & ? & ?).
  unfold view. by rewrite span_range_Ok by (simpl; lia).
Qed.
End Pending.

(** ** send *)

(** [send] hands out the space behind the window and queues what is written there. *)
Lemma us_send_Ok s leak f :
  inv s leak → WriterOk f →
  let space := zdrop (m_end (m_buffer s)) (FlipBuffer.m_buffer (m_buffer s)) in
  ∃ s', send s f = Ok s' ∧ inv s' leak ∧
    pending s' = pending s ++ (if w_size (f space) =? 0 then [] else [payload_of (f space)]) ∧
    len (FlipBuffer.m_buffer (m_buffer s')) = len (FlipBuffer.m_buffer (m_buffer s)).
Proof.
  intros [Hwf Hcap Hb Hl Ht] Hf space. pose proof Hwf as []. unfold send.
  rewrite (remaining_Ok _ Hwf). fold space. cbn [mbind result_bind].
  destruct Hf as [Hlen Hoff Hsize]. specialize (Hlen space). specialize (Hoff space). specialize (Hsize space).
  assert (len space = len (FlipBuffer.m_buffer (m_buffer s)) - m_end (m_buffer s)) as Hsp
    by (unfold space; list_lia).
  set (w := f space) in *. set (fb := put_remaining (m_buffer s) (w_buffer w)).
  assert (FlipBuffer.wf fb) as Hwf' by (apply put_remaining_wf; [done|lia]).
  assert (len (FlipBuffer.m_buffer fb) = len (FlipBuffer.m_buffer (m_buffer s))) as Hlen'
    by (unfold fb; simpl; list_lia).
  assert (∀ b, (payload_in (mkFlipBuffer 0 b (FlipBuffer.m_buffer fb)) <$> m_pending_messages s) = pending s) as Hsame.
  { intros b. apply list_fmap_ext. intros i p Hp%list_elem_of_lookup_2.
    destruct (tiled_elem _ _ _ _ Ht Hp) as (? & ? & ?).
    apply (put_remaining_slice (m_buffer s) (w_buffer w)); [done|lia|lia]. }
  destruct (Z.eqb_spec (w_size w) 0) as [Hz|Hnz].
  - exists (mkUnreliableStream fb (m_pending_messages s)). split; [done|]. split_and!; [|rewrite app_nil_r; exact (Hsame 0)|done].
    split; cbn [m_buffer m_pending_messages]; rewrite ?Hlen'; done.
  - destruct (FlipBuffer.flip_advance_Ok fb (w_size w) Hwf') as [-> Hwf'']; [simpl in *; lia|].
    cbn [mbind result_bind]. eexists. split; [done|]. split_and!; [|  |done].
    + split; cbn [m_buffer]; [done|cbn [FlipBuffer.m_buffer]; by rewrite Hlen'|done|done|]. apply tiled_app.
      destruct (tiled_total _ _ _ Ht) as [He _]. change (m_end fb) with (m_end (m_buffer s)).
      cbn [m_end]. rewrite <-He. split; [done|]. simpl. split_and!; lia.
    + unfold pending at 1. cbn [m_pending_messages m_buffer]. rewrite fmap_app. simpl. rewrite Hb, Hsame.
      f_equal. f_equal. unfold payload_in, slice, payload_of. simpl. rewrite Hoff, Z.add_0_r.
      replace (m_end (m_buffer s) + w_size w - m_end (m_buffer s)) with (w_size w) by lia.
      by rewrite drop_reassoc by list_lia.
Qed.

(** ** write *)

Definition encode_messages (ps : list bytes) : bytes := concat (UnreliableMessage.encode <$> ps).

Definition encode_segment (ps : list bytes) : bytes :=
  match ps with
  | [] => []
  | _ => Segment.encode UNRELIABLE_STREAM (len ps) ++ encode_messages ps
  end.

Lemma us_encode_messages_cons p ps :
  encode_messages (p :: ps) = UnreliableMessage.encode p ++ encode_messages ps.
Proof. done. Qed.

Lemma us_count_loop_Ok fb size l : ∀ total count,
  Forall (λ p, len (payload_in fb p) = p_size p) l →
  ∃ taken rest, l = taken ++ rest ∧
    count_loop l size total count
    = (total + len (encode_messages (payload_in fb <$> taken)), (count + length taken)%nat) ∧
    (taken = [] ∨ total + len (encode_messages (payload_in fb <$> taken)) ≤ size) ∧
    match rest with
    | [] => True
    | p :: _ => size < total + len (encode_messages (payload_in fb <$> taken))
                       + UnreliableMessage.serialized_size (p_size p)
    end.
Proof.
  induction l as [|p l IH]; intros total count Hl; cbn [count_loop].
  { exists [], []. rewrite Z.add_0_r, Nat.add_0_r. by split_and!; [..|left|]. }
  apply Forall_cons in Hl as [Hp Hl].
  destruct (Z.ltb_spec size (total + UnreliableMessage.serialized_size (p_size p))).
  { exists [], (p :: l). change (len (encode_messages (payload_in fb <$> []))) with 0.
    rewrite Z.add_0_r, Nat.add_0_r. by split_and!; [..|left|]. }
  destruct (IH (total + UnreliableMessage.serialized_size (p_size p)) (S count) Hl)
    as (taken & rest & -> & -> & Hle & Hrest).
  assert (len (encode_messages (payload_in fb <$> p :: taken))
    = UnreliableMessage.serialized_size (p_size p) + len (encode_messages (payload_in fb <$> taken))) as Hlen.
  { rewrite fmap_cons, us_encode_messages_cons, length_app, Nat2Z.inj_add, UnreliableMessage.unreliable_message_length_encode, Hp. done. }
  exists (p :: taken), rest. rewrite Hlen, !Z.add_assoc. split_and!; try done.
  - f_equal. simpl. lia.
  - right. destruct Hle as [->|?]; [|done].
    change (len (encode_messages (payload_in fb <$> []))) with 0. lia.
Qed.

Section Write.
Context (s : UnreliableStream) (leak : Z) (Hinv : inv s leak).

(** The second loop serialises the messages one after the other and consumes
    their sizes. *)
Lemma us_write_loop_Ok rest taken : ∀ b pre post,
  (∀ p, p ∈ taken → p ∈ m_pending_messages s) →
  let fb b := mkFlipBuffer b (m_end (m_buffer s)) (FlipBuffer.m_buffer (m_buffer s)) in
  let enc := encode_messages (payload_in (m_buffer s) <$> taken) in
  len enc ≤ len post → len (pre ++ post) < 2 ^ 64 →
  write_loop (length taken) (fb b) (taken ++ rest) (pre ++ post) (len pre)
  = Ok (fb (b + total taken), pre ++ enc ++ drop (length enc) post, len pre + len enc).
Proof using All.
  induction taken as [|p taken IH]; intros b pre post Hin fb enc Hfit Hlen.
  { subst fb enc. cbn. by rewrite !Z.add_0_r. }
  subst fb enc. cbn [length write_loop app]. rewrite fmap_cons, us_encode_messages_cons in *.
  unfold consume. cbn [m_begin m_end FlipBuffer.m_buffer].
  rewrite (view_Ok s leak Hinv) by set_solver. cbn [mbind result_bind].
  pose proof (payload_length s leak Hinv p ltac:(set_solver)) as Hp.
  destruct (payload_ok s leak Hinv p ltac:(set_solver)) as [_ Hsize].
  set (payload := payload_in (m_buffer s) p) in *.
  pose proof (UnreliableMessage.unreliable_message_length_encode payload) as Henc.
  set (enc := UnreliableMessage.encode payload) in *.
  rewrite <-Hp, (wrap_small 16) by (unfold in_u; lia).
  rewrite (on_advance_Ok pre post (enc ++ drop (length enc) post) _ _ enc).
  2,3: done.
  2:{ rewrite UnreliableMessage.unreliable_message_write_Ok by (rewrite <-Henc; list_lia).
      fold enc. rewrite <-Henc, Nat2Z.id. done. }
  cbn [mbind result_bind]. rewrite assert_that_true.
  2:{ apply Z.leb_le. rewrite wrap_small by (unfold in_u; list_lia). list_lia. }
  cbn [mbind result_bind]. rewrite app_assoc.
  replace (len pre + len enc) with (len (pre ++ enc)) by list_lia.
  rewrite IH; [|set_solver|list_lia|list_lia].
  rewrite <-!app_assoc, drop_drop, !length_app. f_equal. f_equal; [|list_lia].
  replace (b + len payload + total taken) with (b + total (p :: taken)) by (simpl; lia).
  f_equal.
Qed.
End Write.

(** The state after the pending messages [taken] were written and [rest] dropped. *)
Record written_state (s s' : UnreliableStream) (leak : Z) (rest : list PendingSpan) : Prop := {
  ws_inv : inv s' (leak + total rest);
  ws_pending : m_pending_messages s' = [];
  ws_end : m_end (m_buffer s') = leak + total rest;
  ws_capacity : len (FlipBuffer.m_buffer (m_buffer s')) = len (FlipBuffer.m_buffer (m_buffer s));
}.

Lemma us_write_Ok s leak buffer :
  inv s leak → len buffer < 2 ^ 63 →
  ∃ taken rest, m_pending_messages s = taken ++ rest ∧
    match rest with
    | [] => True
    | p :: _ => len buffer < 2 + len (encode_messages (payload_in (m_buffer s) <$> taken))
                  + UnreliableMessage.serialized_size (p_size p)
    end ∧
    ((taken = [] ∧ write s buffer = Ok (s, buffer, 0)) ∨
     (taken ≠ [] ∧ ∃ s', let seg := encode_segment (payload_in (m_buffer s) <$> taken) in
        write s buffer = Ok (s', seg ++ drop (length seg) buffer, len seg) ∧
        len seg ≤ len buffer ∧ written_state s s' leak rest)).
Proof.
  intros Hinv Hb. pose proof Hinv as [Hwf Hcap Hbeg Hleak Ht]. pose proof Hwf as [].
  set (fb := m_buffer s) in *.
  destruct (us_count_loop_Ok fb (len buffer) (m_pending_messages s) Segment.kSerializedSize 0)
    as (taken & rest & Hp & Hcount & Hfit & Hmax).
  { apply Forall_forall. intros p. by eapply payload_length. }
  exists taken, rest. split; [done|]. unfold Segment.kSerializedSize in *. split; [exact Hmax|].
  unfold write. fold fb. unfold Segment.kSerializedSize. rewrite Hcount.
  destruct taken as [|p0 taken'] eqn:Htk; [by left|right]. rewrite <-Htk in *. split; [by rewrite Htk|].
  destruct Hfit as [Hnil|Hfit]; [by rewrite Htk in Hnil|].
  set (ps := payload_in fb <$> taken) in *.
  assert (encode_segment ps = Segment.encode UNRELIABLE_STREAM (len taken) ++ encode_messages ps) as Hseg.
  { unfold encode_segment. replace (length taken) with (length ps) by apply length_fmap.
    unfold ps. by rewrite Htk. }
  pose proof (Segment.segment_length_encode UNRELIABLE_STREAM (len taken)) as Hhdr.
  replace ((0 + length taken) =? 0)%nat with false by (by rewrite Htk).
  rewrite Hp, tiled_app in Ht. destruct Ht as [Ht1 Ht2].
  destruct (tiled_total _ _ _ Ht1) as [_ ?]. destruct (tiled_total _ _ _ Ht2) as [Hend ?].
  rewrite Segment.segment_write_Ok by (unfold Segment.kSerializedSize; lia). cbn [mbind result_bind].
  rewrite Nat.add_0_l, Hp.
  assert (mkFlipBuffer 0 (m_end fb) (FlipBuffer.m_buffer fb) = fb) as Hfb
    by (rewrite <-Hbeg; by destruct fb).
  pose proof (us_write_loop_Ok s leak Hinv rest taken 0 (Segment.encode UNRELIABLE_STREAM (len taken))
                (drop 2 buffer)) as Hloop. cbv beta zeta in Hloop. fold fb ps in Hloop. rewrite Hfb in Hloop.
  rewrite Hloop by (rewrite ?Hp; (set_solver || list_lia)). cbn [mbind result_bind]. rewrite assert_that_true by (apply Z.eqb_eq; list_lia).
  cbn [mbind result_bind].
  set (fb1 := mkFlipBuffer (0 + total taken) (m_end fb) (FlipBuffer.m_buffer fb)).
  assert (FlipBuffer.wf fb1) as Hwf1 by (split; simpl; lia).
  pose proof (flip_Ok fb1 Hwf1) as Hflip. cbv zeta in Hflip.
  pose proof (flip_wf _ _ Hwf1 Hflip) as Hwf2. pose proof (flip_length _ _ Hwf1 Hflip) as Hlen2.
  replace (m_end fb1 - m_begin fb1) with (leak + total rest) in * by (simpl; lia).
  rewrite Hflip. cbn [mbind result_bind]. eexists. cbv zeta. rewrite Hseg.
  split; [|split; [list_lia|]].
  - do 2 f_equal; [|list_lia]. f_equal. rewrite <-app_assoc, drop_drop. do 3 f_equal.
  - split; [split| | |]; try done; [exact (eq_ind_r (λ n, n < 2 ^ 16) Hcap Hlen2)|lia].
Qed.

(** ** read *)

Definition messages_ok (ps : list bytes) : Prop := Forall (λ p, 0 < len p < 2 ^ 16) ps.

Lemma us_read_loop_Ok ps : ∀ pre rest delivered,
  messages_ok ps → len (pre ++ encode_messages ps ++ rest) < 2 ^ 64 →
  read_loop (length ps) (pre ++ encode_messages ps ++ rest) (len pre) delivered
  = Ok (delivered ++ ps, Value (len pre + len (encode_messages ps))).
Proof.
  induction ps as [|p ps IH]; intros pre rest delivered Hps Hlen.
  { cbn. by rewrite app_nil_r, Z.add_0_r. }
  apply Forall_cons in Hps as [Hp Hps]. cbn [length read_loop]. rewrite us_encode_messages_cons in *.
  pose proof (λ r, UnreliableMessage.unreliable_message_validate_size_encode p r Hp) as Hvalid.
  pose proof (λ r, UnreliableMessage.unreliable_message_payload_encode p r (proj2 Hp)) as Hpayload.
  pose proof (UnreliableMessage.unreliable_message_length_encode p) as Henc.
  set (enc := UnreliableMessage.encode p) in *.
  rewrite Span.advance_Ok by list_lia. cbn [mbind result_bind].
  rewrite Nat2Z.id, drop_app_length, <-app_assoc, Hvalid. cbn [mbind result_bind].
  rewrite Hpayload by list_lia. cbn [mbind result_bind].
  rewrite <-Henc, (app_assoc pre enc).
  replace (len pre + len enc) with (len (pre ++ enc)) by list_lia.
  rewrite IH by (done || list_lia). rewrite <-app_assoc. do 3 f_equal. list_lia.
Qed.

Lemma length_encode_segment ps : ps ≠ [] → len (encode_segment ps) = 2 + len (encode_messages ps).
Proof. destruct ps; [done|]. unfold encode_segment. rewrite length_app, Segment.segment_length_encode. lia. Qed.

(** Reading a segment of [ps]: its one-byte counter holds the count modulo 256, and
    so many messages are read. *)
Lemma us_read_segment_Ok ps rest :
  ps ≠ [] → messages_ok ps → len (encode_segment ps ++ rest) < 2 ^ 63 →
  let got := take (Z.to_nat (u8 (len ps))) ps in
  read (encode_segment ps ++ rest) = Ok (got, Value (2 + len (encode_messages got))).
Proof.
  intros Hne Hps Hlen got. unfold read.
  assert (encode_segment ps = Segment.encode UNRELIABLE_STREAM (len ps) ++ encode_messages ps) as Hseg
    by (by destruct ps).
  rewrite Hseg in *. rewrite <-app_assoc in *.
  pose proof (Segment.segment_length_encode UNRELIABLE_STREAM (len ps)) as Hhdr.
  pose proof (Segment.manager_type_encode UNRELIABLE_STREAM (len ps) (encode_messages ps ++ rest)) as ->.
  pose proof (Segment.message_count_encode UNRELIABLE_STREAM (len ps) (encode_messages ps ++ rest)) as ->.
  set (hdr := Segment.encode UNRELIABLE_STREAM (len ps)) in *.
  unfold Segment.kSerializedSize.
  destruct (Z.ltb_spec (len (hdr ++ encode_messages ps ++ rest)) (1 + 1)); [list_lia|].
  cbn [mbind result_bind]. change (negb (u8 UNRELIABLE_STREAM =? UNRELIABLE_STREAM)) with false. cbv iota.
  assert (encode_messages ps = encode_messages got ++ encode_messages (drop (length got) ps)) as Hsplit.
  { unfold encode_messages. rewrite <-concat_app, <-fmap_app. do 2 f_equal. symmetry. apply take_drop_taken. }
  assert (u8 (len ps) ≤ len ps) as Hle by (unfold wrap; apply Z.mod_le; lia).
  pose proof (wrap_range 8 (len ps) ltac:(lia)) as Hr. unfold in_u in Hr.
  rewrite Hsplit, <-app_assoc in *. replace (Z.to_nat (u8 (len ps))) with (length got) by (unfold got; list_lia).
  replace (1 + 1) with (len hdr) by lia.
  rewrite us_read_loop_Ok; [|by apply Forall_take|list_lia].
  done.
Qed.

(** Whatever the bytes of a packet are, [read] returns. *)
Lemma us_read_loop_total buffer n : ∀ idx delivered,
  len buffer < 2 ^ 64 → 0 ≤ idx ≤ len buffer →
  ∃ new r, read_loop n buffer idx delivered = Ok (delivered ++ new, r) ∧
    (length new ≤ n)%nat ∧ messages_ok new ∧
    match r with Value idx' => length new = n ∧ idx ≤ idx' ≤ len buffer | Unexpected e => e = MALFORMED_PACKET end.
Proof.
  induction n as [|n IH]; intros idx delivered Hlen Hidx; cbn [read_loop].
  { exists [], (Value idx). rewrite app_nil_r. split_and!; try (done || lia). constructor. }
  rewrite Span.advance_Ok by done. cbn [mbind result_bind].
  assert (len (zdrop idx buffer) < 2 ^ 64) as Hlen' by list_lia.
  destruct (UnreliableMessage.unreliable_message_validate_size_total _ Hlen')
    as [-> | (tot & p & -> & Hp & -> & Htot & Hpos)]; cbn [mbind result_bind].
  { exists [], (Unexpected MALFORMED_PACKET). rewrite app_nil_r.
    split_and!; try (done || (simpl; lia)). constructor. }
  rewrite Hp. cbn [mbind result_bind].
  unfold UnreliableMessage.serialized_size in *. rewrite length_drop in Htot.
  destruct (IH (idx + (2 + len p)) (delivered ++ [p]) Hlen ltac:(lia)) as (new & r & -> & Hn & Hnew & Hr).
  exists (p :: new), r. rewrite <-app_assoc.
  split_and!; [done|simpl; lia|by constructor|]. destruct r; [simpl; lia|done].
Qed.

Lemma us_read_total buffer :
  len buffer < 2 ^ 64 →
  ∃ new r, read buffer = Ok (new, r) ∧ len new < 256 ∧ messages_ok new ∧
    match r with Value idx => 0 ≤ idx ≤ len buffer | Unexpected e => e = MALFORMED_PACKET end.
Proof.
  intros Hlen. unfold read.
  destruct (Z.ltb_spec (len buffer) Segment.kSerializedSize) as [|Hs].
  { exists [], (Value 0). split_and!; try (done || lia). constructor. }
  destruct (Segment.segment_read_total buffer Hs) as (t & c & -> & -> & _ & Hc). cbn [mbind result_bind].
  destruct (negb (t =? UNRELIABLE_STREAM)).
  { exists [], (Value 0). split_and!; try (done || lia). constructor. }
  destruct (us_read_loop_total buffer (Z.to_nat c) Segment.kSerializedSize [] Hlen)
    as (new & r & -> & Hn & Hnew & Hr); [unfold Segment.kSerializedSize in *; lia|].
  exists new, r. unfold in_u in Hc. change (2 ^ 8) with 256 in Hc.
  split_and!; [done|lia|done|]. unfold Segment.kSerializedSize in *. destruct r; [lia|done].
Qed.

(** ** Later calls *)

Inductive call := Send (write_to_buffer : WriteToBufferFn) | Write (buffer : bytes).

Definition call_ok (c : call) : Prop :=
  match c with Send f => WriterOk f | Write buffer => len buffer < 2 ^ 63 end.

Definition run_call (s : UnreliableStream) (c : call) : result UnreliableStream :=
  match c with
  | Send f => send s f
  | Write buffer => '(s, _, _) ← write s buffer; Ok s
  end.

Fixpoint run (s : UnreliableStream) (cs : list call) : result UnreliableStream :=
  match cs with
  | [] => Ok s
  | c :: cs => s ← run_call s c; run s cs
  end.

(** No call gives back what leaks. *)
Lemma run_call_Ok s leak c :
  inv s leak → call_ok c → ∃ s', run_call s c = Ok s' ∧ (∃ leak', leak ≤ leak' ∧ inv s' leak') ∧
    len (FlipBuffer.m_buffer (m_buffer s')) = len (FlipBuffer.m_buffer (m_buffer s)).
Proof.
  intros Hinv Hc. destruct c as [f|buffer]; cbn [run_call] in *.
  - destruct (us_send_Ok s leak f Hinv Hc) as (s' & ? & ? & _ & ?). exists s'. split_and!; [done| |done]. by exists leak.
  - destruct (us_write_Ok s leak buffer Hinv Hc) as (taken & rest & Hp & _ & [[_ ->]|[_ (s' & -> & _ & [])]]);
      cbn [mbind result_bind].
    + exists s. split_and!; [done| |done]. by exists leak.
    + exists s'. split_and!; [done| |done]. exists (leak + total rest). split; [|done].
      pose proof (inv_tiled _ _ Hinv) as Ht. rewrite Hp, tiled_app in Ht. destruct Ht as [_ Ht%tiled_total]. lia.
Qed.

Lemma run_Ok cs : ∀ s leak,
  inv s leak → Forall call_ok cs → ∃ s', run s cs = Ok s' ∧ (∃ leak', leak ≤ leak' ∧ inv s' leak') ∧
    len (FlipBuffer.m_buffer (m_buffer s')) = len (FlipBuffer.m_buffer (m_buffer s)).
Proof.
  induction cs as [|c cs IH]; intros s leak Hinv Hcs.
  { exists s. split_and!; [done| |done]. by exists leak. }
  apply Forall_cons in Hcs as [Hc Hcs].
  destruct (run_call_Ok s leak c Hinv Hc) as (s1 & Hr & (leak1 & ? & Hinv1) & Hcap1).
  destruct (IH s1 leak1 Hinv1 Hcs) as (s2 & Hr2 & (leak2 & ? & ?) & Hcap2).
  exists s2. cbn [run]. rewrite Hr. split_and!; [done| |lia]. exists leak2. split; [lia|done].
Qed.

(** What leaks is not handed out. *)
Lemma space_left s leak :
  inv s leak → ∃ space, remaining (m_buffer s) = Ok space ∧
    len space ≤ len (FlipBuffer.m_buffer (m_buffer s)) - leak.
Proof.
  intros Hinv. pose proof (inv_wf _ _ Hinv) as Hwf. pose proof Hwf as [].
  pose proof (inv_tiled _ _ Hinv) as Ht%tiled_total. eexists. split; [by apply remaining_Ok|]. list_lia.
Qed.

Lemma total_payloads s leak ps :
  inv s leak → Forall (λ p, p ∈ m_pending_messages s) ps →
  len (concat (payload_in (m_buffer s) <$> ps)) = total ps.
Proof.
  intros Hinv. induction 1 as [|p ps Hp _ IH]; [done|]. cbn [fmap list_fmap concat total foldr] in *.
  rewrite length_app, Nat2Z.inj_add, IH, (payload_length s leak) by done. done.
Qed.

(** ** Properties *)

(** C28: the unreliable stream round-trips: a non-zero [write] puts a prefix [ps] of
    the pending payloads on the wire, and the peer's [read] delivers, in order, the
    first [len ps mod 256] of them; that is all of them, with the size the writer
    returned, as long as there are fewer than 256. *)
Theorem unreliable_roundtrip s leak buffer trailing :
  inv s leak → len buffer < 2 ^ 62 → len trailing < 2 ^ 62 →
  ∃ ps lost s' buffer' n, pending s = ps ++ lost ∧
    write s buffer = Ok (s', buffer', n) ∧ len buffer' = len buffer ∧ 0 ≤ n ≤ len buffer ∧
    (n = 0 → ps = [] ∧ s' = s) ∧
    (n ≠ 0 → m_pending_messages s' = [] ∧
       let got := take (Z.to_nat (u8 (len ps))) ps in
       ∃ m, read (ztake n buffer' ++ trailing) = Ok (got, Value m) ∧
            (len ps < 256 → got = ps ∧ m = n)).
Proof.
  intros Hinv Hb Htr. destruct (us_write_Ok s leak buffer Hinv ltac:(lia))
    as (taken & rest & Hp & _ & [[-> Hw]|[Hne (s' & Hw & Hsize & Hs')]]).
  { exists [], (pending s), s, buffer, 0. split_and!; try (done || lia). }
  set (ps := payload_in (m_buffer s) <$> taken) in *.
  assert (ps ≠ []) as Hps by (by intros ?%fmap_nil_inv).
  assert (messages_ok ps) as Hok.
  { apply Forall_fmap, Forall_forall. intros p Hin. eapply payload_ok; [done|]. rewrite Hp. set_solver. }
  pose proof (length_encode_segment ps Hps) as Hseg.
  exists ps, (payload_in (m_buffer s) <$> rest), s'. do 2 eexists.
  split; [unfold pending; by rewrite Hp, fmap_app|]. split; [exact Hw|].
  split; [list_lia|]. split; [lia|]. split; [lia|]. intros _.
  split; [apply Hs'|]. rewrite Nat2Z.id, take_app_length. eexists. split.
  - apply us_read_segment_Ok; [done|done|list_lia].
  - intros Hc. rewrite wrap_small by (unfold in_u; lia). rewrite Nat2Z.id, firstn_all. by rewrite Hseg.
Qed.

(** A stream with a leak: a message was dropped because it did not fit. *)
Definition send_all (s : UnreliableStream) (msgs : list bytes) : result UnreliableStream :=
  foldl (λ s msg, s ← s; send s (write_message msg)) (Ok s) msgs.

Definition sample_state : UnreliableStream :=
  mkUnreliableStream (mkFlipBuffer 0 5 [9; 9; 1; 2; 3; 0; 0; 0]) [mkPendingSpan 2 2; mkPendingSpan 4 1].

Lemma us_sample_inv : inv sample_state 2.
Proof. split; [split| | | |]; vm_compute; by repeat split. Qed.

Lemma unreliable_roundtrip_witness :
  ∃ ps lost s' buffer' n, [[1; 2]; [3]] = ps ++ lost ∧
    write sample_state (replicate 20 0) = Ok (s', buffer', n) ∧ len buffer' = 20 ∧ 0 ≤ n ≤ 20 ∧
    (n = 0 → ps = [] ∧ s' = sample_state) ∧
    (n ≠ 0 → m_pending_messages s' = [] ∧
       let got := take (Z.to_nat (u8 (len ps))) ps in
       ∃ m, read (ztake n buffer' ++ []) = Ok (got, Value m) ∧
            (len ps < 256 → got = ps ∧ m = n)).
Proof. by apply (unreliable_roundtrip sample_state 2 (replicate 20 0) [] us_sample_inv). Defined.

(** [unreliable_roundtrip] at the size where the one-byte counter wraps: 256 one-byte
    messages fit into 1388 bytes, [write] sends them all, and the receiver delivers none. *)
Example message_counter_overflow :
  (s ← send_all (create kDefaultCapacity) (replicate 256 [65]);
   '(_, buffer, n) ← write s (replicate 1388 0);
   '(delivered, r) ← read (ztake n buffer);
   Ok (n, delivered, r)) = Ok (770, [], Value 2).
Proof. vm_compute. reflexivity. Qed.

(** C38: dropped messages leak. A [write] that puts some messages on the wire forgets the
    others, the first of which does not fit behind them, but it never releases their bytes:
    the space [send] can hand out is smaller by their size, and no later calls, which all
    return, ever give it back. *)
Theorem dropped_messages_leak s leak buffer s' buffer' n cs :
  inv s leak → len buffer < 2 ^ 63 → write s buffer = Ok (s', buffer', n) → n ≠ 0 → Forall call_ok cs →
  ∃ taken dropped space s'' space'', pending s = taken ++ dropped ∧ n = len (encode_segment taken) ∧
    match dropped with [] => True | p :: _ => len buffer < n + UnreliableMessage.serialized_size (len p) end ∧
    pending s' = [] ∧ remaining (m_buffer s') = Ok space ∧
    len space = len (FlipBuffer.m_buffer (m_buffer s)) - leak - len (concat dropped) ∧
    run s' cs = Ok s'' ∧ remaining (m_buffer s'') = Ok space'' ∧ len space'' ≤ len space.
Proof.
  intros Hinv Hb Hw Hn Hcs. destruct (us_write_Ok s leak buffer Hinv Hb)
    as (taken & rest & Hp & Hnofit & [[-> Hw']|[Hne (s1 & Hw' & Hsize & [])]]); rewrite Hw in Hw'.
  { by injection Hw' as _ _ ->. }
  injection Hw' as <- _ ->. pose proof (inv_wf _ _ ws_inv0) as Hwf. pose proof Hwf as [].
  destruct (run_Ok cs s' (leak + total rest) ws_inv0 Hcs) as (s'' & Hrun & (leak' & Hle & Hinv'') & Hcap).
  destruct (space_left _ _ Hinv'') as (space'' & Hsp & Hlsp).
  assert (Forall (λ p, p ∈ m_pending_messages s) rest) as Hin by (rewrite Forall_forall, Hp; set_solver).
  assert (len (encode_segment (payload_in (m_buffer s) <$> taken))
    = 2 + len (encode_messages (payload_in (m_buffer s) <$> taken))) as Hseg.
  { apply length_encode_segment. by intros ?%fmap_nil_inv. }
  exists (payload_in (m_buffer s) <$> taken), (payload_in (m_buffer s) <$> rest). do 3 eexists.
  split; [unfold pending; by rewrite Hp, fmap_app|]. split; [done|].
  split; [|split; [unfold pending; by rewrite ws_pending0|split; [by apply remaining_Ok|]]].
  - destruct rest as [|p rest]; [done|]. rewrite Hseg. apply Forall_cons in Hin as [Hin _]. cbn [fmap list_fmap].
    by rewrite (payload_length s leak).
  - rewrite (total_payloads s leak) by done. split; [list_lia|]. split; [done|]. split; [done|]. list_lia.
Qed.

Lemma dropped_messages_leak_witness :
  let cs := [Send (write_message [7]); Write (replicate 20 0)] in
  ∃ s' buffer', write sample_state (replicate 6 0) = Ok (s', buffer', 6) ∧
  ∃ taken dropped space s'' space'', [[1; 2]; [3]] = taken ++ dropped ∧ 6 = len (encode_segment taken) ∧
    match dropped with [] => True | p :: _ => 6 < 6 + UnreliableMessage.serialized_size (len p) end ∧
    pending s' = [] ∧ remaining (m_buffer s') = Ok space ∧
    len space = 8 - 2 - len (concat dropped) ∧
    run s' cs = Ok s'' ∧ remaining (m_buffer s'') = Ok space'' ∧ len space'' ≤ len space.
Proof.
  intros cs. destruct (write sample_state (replicate 6 0)) as [[[s' buffer'] n]|] eqn:Hw; [|by vm_compute in Hw].
  assert (n = 6) as -> by (vm_compute in Hw; congruence).
  exists s', buffer'. split; [done|].
  apply (dropped_messages_leak sample_state 2 (replicate 6 0) s' buffer' 6 cs us_sample_inv); [done|done|done|].
  unfold cs. apply Forall_cons_2; [exact (write_message_ok [7])|by apply Forall_singleton].
Defined.

(** [read] returns on every byte sequence, having delivered at most 255 non-empty
    messages, with an index inside the buffer or the error. *)
Theorem unreliable_read_total buffer :
  len buffer < 2 ^ 64 →
  ∃ new r, read buffer = Ok (new, r) ∧ len new < 256 ∧ messages_ok new ∧
    match r with Value idx => 0 ≤ idx ≤ len buffer | Unexpected e => e = MALFORMED_PACKET end.
Proof. apply us_read_total. Qed.

Lemma unreliable_read_total_witness :
  ∃ new r, read [4; 2; 0; 1; 7; 0; 9] = Ok (new, r) ∧ len new < 256 ∧ messages_ok new ∧
    match r with Value idx => 0 ≤ idx ≤ 7 | Unexpected e => e = MALFORMED_PACKET end.
Proof. by apply (unreliable_read_total [4; 2; 0; 1; 7; 0; 9]). Defined.

(** [send] never faults: it queues the written message, and the payloads queued
    before stay as they are. *)
Theorem unreliable_send_appends s leak f :
  inv s leak → WriterOk f →
  let space := zdrop (m_end (m_buffer s)) (FlipBuffer.m_buffer (m_buffer s)) in
  ∃ s', send s f = Ok s' ∧ inv s' leak ∧
    pending s' = pending s ++ (if w_size (f space) =? 0 then [] else [payload_of (f space)]).
Proof. intros Hinv Hf space. destruct (us_send_Ok s leak f Hinv Hf) as (s' & H1 & H2 & H3 & _). by exists s'. Qed.

Lemma unreliable_send_appends_witness :
  ∃ s', send sample_state (write_message [7; 7]) = Ok s' ∧ inv s' 2 ∧
    pending s' = [[1; 2]; [3]] ++ [[7; 7]].
Proof. apply (unreliable_send_appends sample_state 2 (write_message [7; 7]) us_sample_inv). apply _. Defined.
