(* ===== verification/Ticker.v ===== *)
(** * Ticker (common/ticker.h)

    Times and durations are counts of nanoseconds in a signed 64-bit integer;
    overflow of a sum or difference and [%] by zero are undefined behaviour. *)
From Stdlib Require Import ZArith Lia.
From stdpp Require Import prelude strings.
From S2P Require Import Prelude.
Open Scope Z_scope.

Record Ticker := mkTicker {
  m_last_known_now : option Z;
  m_tick_interval : option Z;
  m_time_since_last_tick : Z;
}.

#[export] Instance Ticker_eq_dec : EqDecision Ticker.
Proof. solve_decision. Defined.

(** The constructor. *)
Definition create (now : Z) (tick_interval : option Z) : Ticker :=
  mkTicker (Some now) tick_interval 0.

Definition calc_elapsed_time (t : Ticker) (now : Z) : result (option Z) :=
  match m_last_known_now t with
  | Some last => d ← i64 (now - last); Ok (Some d)
  | None => Ok None
  end.

(** [a % b] on [int64_t]. *)
Definition duration_rem (a b : Z) : result Z :=
  if b =? 0 then Fault (Undefined DivByZero)
  else if (a =? - 2 ^ 63) && (b =? -1) then Fault (Undefined SignedOverflow)
  else Ok (Z.rem a b).

Definition tick (t : Ticker) (now : Z) : result (Ticker * bool) :=
  elapsed_time ← calc_elapsed_time t now;
  let last := Some now in
  match elapsed_time, m_tick_interval t with
  | Some elapsed_time, Some tick_interval =>
      time ← i64 (m_time_since_last_tick t + elapsed_time);
      if tick_interval <=? time then
        time ← duration_rem time tick_interval;
        Ok (mkTicker last (m_tick_interval t) time, true)
      else Ok (mkTicker last (m_tick_interval t) time, false)
  | _, _ => Ok (mkTicker last (m_tick_interval t) 0, true)
  end.

Definition set_tick_interval (t : Ticker) (tick_interval : Z) : Ticker :=
  mkTicker (m_last_known_now t) (Some tick_interval) (m_time_since_last_tick t).

Definition clear_tick_interval (t : Ticker) : Ticker :=
  mkTicker (m_last_known_now t) None (m_time_since_last_tick t).

(** A series of calls; the result counts the ticks. *)
Fixpoint ticks (t : Ticker) (nows : list Z) : result (Ticker * Z) :=
  match nows with
  | [] => Ok (t, 0)
  | now :: nows =>
      '(t, b) ← tick t now;
      '(t, n) ← ticks t nows;
      Ok (t, if b : bool then n + 1 else n)
  end.

(** [time] has passed since the last tick and the clock was last seen at [last]. *)
Definition at_time (last interval time : Z) : Ticker := mkTicker (Some last) (Some interval) time.

(** Times that do not go backwards and stay where no difference overflows. *)
Fixpoint monotone (last : Z) (nows : list Z) : Prop :=
  match nows with
  | [] => True
  | now :: nows => last ≤ now < 2 ^ 61 ∧ monotone now nows
  end.

(** Below the interval [mod] changes nothing: both branches are one equation. *)
Lemma tick_mod last interval time now :
  0 < interval < 2 ^ 61 → 0 ≤ time < 2 ^ 62 → 0 ≤ last ≤ now → now < 2 ^ 61 →
  tick (at_time last interval time) now
  = Ok (at_time now interval ((time + (now - last)) mod interval), interval <=? time + (now - last)).
Proof.
  intros Hi Ht Hl Hn. unfold tick, calc_elapsed_time. simpl.
  do 2 (rewrite i64_Ok by (unfold in_i64; lia); cbn [mbind result_bind]).
  destruct (Z.leb_spec interval (time + (now - last))) as [|Hlt].
  - unfold duration_rem. destruct (Z.eqb_spec interval 0); [lia|].
    destruct (Z.eqb_spec interval (-1)); [lia|]. rewrite andb_false_r. cbn [mbind result_bind].
    by rewrite Z.rem_mod_nonneg by lia.
  - by rewrite Z.mod_small by lia.
Qed.

Lemma ticks_bound interval nows : ∀ last time,
  0 < interval < 2 ^ 61 → 0 ≤ time < interval → 0 ≤ last → monotone last nows →
  ∃ t n now, ticks (at_time last interval time) nows = Ok (t, n) ∧
    last ≤ now ∧ m_last_known_now t = Some now ∧
    now = List.last nows last ∧ 0 ≤ n ∧ n * interval ≤ time + (now - last).
Proof.
  induction nows as [|now nows IH]; intros last time Hi Ht Hl Hm; cbn [ticks].
  { exists (at_time last interval time), 0, last. simpl. split_and!; try done; lia. }
  destruct Hm as [Hnow Hm]. rewrite tick_mod by lia. cbn [mbind result_bind].
  pose proof (Z.mod_pos_bound (time + (now - last)) interval ltac:(lia)) as Hmod.
  pose proof (Z.div_mod (time + (now - last)) interval ltac:(lia)) as Hdiv.
  destruct (IH now _ Hi Hmod ltac:(lia) Hm) as (t & n & now' & -> & Hle & Hlast & Heq & Hn & Hb).
  cbn [mbind result_bind].
  eexists t, _, now'. split; [done|]. split_and!; [lia|done| | |].
  - rewrite Heq. destruct nows as [|x nows]; [done|]. cbn [List.last]. clear.
    generalize x. induction nows; intros; [done|]. cbn [List.last]. done.
  - destruct (_ <=? _); lia.
  - destruct (Z.leb_spec interval (time + (now - last))) as [Hge|]; [|rewrite Z.mod_small in Hb by lia; lia].
    assert (1 ≤ (time + (now - last)) / interval) by (apply Z.div_le_lower_bound; lia). nia.
Qed.

(** ** Properties *)

(** The rate limit: however often [tick] is called, and whatever the times, the
    ticks it grants are at most one per interval of the time that has passed, the
    carried-over time included. *)
Theorem tick_rate_bound last interval time nows :
  0 < interval < 2 ^ 61 → 0 ≤ time < interval → 0 ≤ last → monotone last nows →
  ∃ t n, ticks (at_time last interval time) nows = Ok (t, n) ∧
    0 ≤ n ≤ (time + (List.last nows last - last)) / interval.
Proof.
  intros Hi Ht Hl Hm. destruct (ticks_bound interval nows last time Hi Ht Hl Hm)
    as (t & n & now & Hrun & _ & _ & <- & Hn & Hb).
  exists t, n. split; [done|]. split; [done|]. apply Z.div_le_lower_bound; lia.
Qed.

Lemma tick_rate_bound_witness :
  ∃ t n, ticks (at_time 0 30 0) [10; 29; 35; 100; 101; 140] = Ok (t, n) ∧ 0 ≤ n ≤ (0 + (140 - 0)) / 30.
Proof. apply (tick_rate_bound 0 30 0 [10; 29; 35; 100; 101; 140]); (lia || by simpl). Defined.

(** One call: a tick is granted exactly when the carried-over time and the time
    since the last call reach the interval, and what exceeds whole intervals is
    carried over; without an interval every call is granted. *)
Theorem tick_step last interval time now :
  0 < interval < 2 ^ 61 → 0 ≤ time < interval → 0 ≤ last ≤ now → now < 2 ^ 61 →
  (∃ time' b, tick (at_time last interval time) now = Ok (at_time now interval time', b) ∧
     b = bool_decide (interval ≤ time + (now - last)) ∧
     time' = (time + (now - last)) mod interval ∧ 0 ≤ time' < interval) ∧
  tick (clear_tick_interval (at_time last interval time)) now = Ok (mkTicker (Some now) None 0, true).
Proof.
  intros Hi Ht Hl Hn. split.
  - do 2 eexists. split; [by apply tick_mod; lia|]. split_and!; [|done|apply Z.mod_pos_bound; lia..].
    case_bool_decide; [by apply Z.leb_le|by apply Z.leb_gt; lia].
  - unfold tick, calc_elapsed_time. simpl. by rewrite i64_Ok by (unfold in_i64; lia).
Qed.

Lemma tick_step_witness :
  (∃ time' b, tick (at_time 100 30 20) 175 = Ok (at_time 175 30 time', b) ∧
     b = bool_decide (30 ≤ 20 + (175 - 100)) ∧ time' = (20 + (175 - 100)) mod 30 ∧ 0 ≤ time' < 30) ∧
  tick (clear_tick_interval (at_time 100 30 20)) 175 = Ok (mkTicker (Some 175) None 0, true).
Proof. apply (tick_step 100 30 20 175); lia. Defined.

(** An interval of zero is undefined behaviour at the first call that does not go
    back in time: the remainder of a division by zero is computed. The program's
    own example constructs such a ticker. *)
Theorem zero_interval_undefined last now :
  0 ≤ last ≤ now → now < 2 ^ 62 → tick (create last (Some 0)) now = Fault (Undefined DivByZero).
Proof.
  intros Hl Hn. unfold tick, calc_elapsed_time, create. simpl.
  do 2 (rewrite i64_Ok by (unfold in_i64; lia); cbn [mbind result_bind]).
  destruct (Z.leb_spec 0 (0 + (now - last))); [done|lia].
Qed.

Lemma zero_interval_undefined_witness : tick (create 5 (Some 0)) 5 = Fault (Undefined DivByZero).
Proof. apply (zero_interval_undefined 5 5); lia. Defined.
