(* ===== verification/Metrics.v ===== *)
(** * Metrics (common/metrics.h, neptun/neptun_metrics.h, network/network_metrics.h)

    Counters indexed by an enumeration. The specialisations of the free functions
    for a key type are an instance of [MetricKey]. Values are 64-bit unsigned, as
    in [NeptunMetrics] and [NetworkMetrics]; [DoubleMetrics] are the rates the example
    program prints, with IEEE doubles as the Standard Library specifies them. *)
From Stdlib Require Import ZArith Lia Floats.SpecFloat.
From stdpp Require Import prelude strings.
From S2P Require Import Prelude Span.
Open Scope Z_scope.

(** [double]: the operations round to the nearest double. *)
Definition to_double (n : Z) : spec_float := binary_normalize 53 1024 n 0 false.
Definition double_add : spec_float → spec_float → spec_float := SFadd 53 1024.
Definition double_div : spec_float → spec_float → spec_float := SFdiv 53 1024.

Class MetricKey (Key : Type) := {
  metric_key_count : Z;
  metric_key_index : Key → Z;
  metric_key_name : Key → string;
  metric_key_unit : Key → string;
  metric_key_cast : Z → option Key;  (** [static_cast<Key>], [None] outside the enumerators *)
  metric_key_unit_scale : Key → spec_float → spec_float;
}.

(** What the library relies on: the indices are the positions below the count. *)
Class MetricKeyOk (Key : Type) `{MetricKey Key} := {
  metric_index_range (k : Key) : 0 ≤ metric_key_index k < metric_key_count;
  metric_index_inj (k1 k2 : Key) : metric_key_index k1 = metric_key_index k2 → k1 = k2;
  metric_cast_index (k : Key) : metric_key_cast (metric_key_index k) = Some k;
  metric_cast_total i : 0 ≤ i < metric_key_count → is_Some (metric_key_cast i);
}.

Record Metrics := mkMetrics { m_values : list Z; m_name : string }.

#[export] Instance Metrics_eq_dec : EqDecision Metrics.
Proof. solve_decision. Defined.

Section Metrics.
Context {Key : Type} `{MetricKey Key}.

(** The constructor. *)
Definition create (name : string) : Metrics :=
  mkMetrics (replicate (Z.to_nat metric_key_count) 0) name.

(** [inc(key, value)] *)
Definition inc_by (m : Metrics) (key : Key) (value : Z) : result Metrics :=
  v ← span_get (m_values m) (metric_key_index key);
  values ← span_set (m_values m) (metric_key_index key) (usize (v + value));
  Ok (mkMetrics values (m_name m)).

(** [inc(key)] *)
Definition inc (m : Metrics) (key : Key) : result Metrics := inc_by m key 1.

Definition value (m : Metrics) (key : Key) : result Z := span_get (m_values m) (metric_key_index key).

Definition value_by_index (m : Metrics) (index : Z) : result Z := span_get (m_values m) index.

(** The keys [foreach_key] calls its argument with, in order. *)
Definition foreach_key : list (option Key) := metric_key_cast <$> seqZ 0 metric_key_count.

(** The array has one element per key. *)
Definition wf (m : Metrics) : Prop := len (m_values m) = metric_key_count.

Lemma metrics_wf_create name : 0 ≤ metric_key_count → wf (create name).
Proof using Type. intros. unfold wf, create. simpl. list_lia. Qed.

Context `{!MetricKeyOk Key}.

Lemma inc_by_Ok m key v :
  wf m → ∃ m' old, value m key = Ok old ∧ inc_by m key v = Ok m' ∧ wf m' ∧
    value m' key = Ok (usize (old + v)) ∧
    (∀ k, k ≠ key → value m' k = value m k) ∧ m_name m' = m_name m.
Proof using All.
  intros Hwf. pose proof (metric_index_range key) as Hi. unfold wf in Hwf. unfold value, inc_by.
  destruct (span_get_total (m_values m) (metric_key_index key)) as (old & Hold & Hl); [lia|].
  rewrite Hold. cbn [mbind result_bind]. rewrite span_set_Ok by lia. cbn [mbind result_bind].
  do 2 eexists. split; [done|]. split; [done|]. cbn [m_values m_name]. split_and!.
  - unfold wf. simpl. list_lia.
  - apply span_get_Ok; [lia|]. apply list_lookup_insert_eq. lia.
  - intros k Hk. unfold span_get. pose proof (metric_index_range k).
    rewrite list_lookup_insert_ne; [done|]. intros He. apply Hk. apply metric_index_inj. lia.
  - done.
Qed.

Lemma inc_Ok m key : wf m → ∃ m', inc m key = Ok m' ∧ wf m'.
Proof using All.
  intros Hwf. destruct (inc_by_Ok m key 1 Hwf) as (m' & old & _ & H1 & H2 & _). by exists m'.
Qed.
End Metrics.

Arguments create Key {_} name.
Arguments wf Key {_} m.

(** neptun_metrics.h *)
Inductive NeptunMetricKey : Set := PACKET_ACKS | PACKET_DROPS.

#[export] Instance neptun_metric_key : MetricKey NeptunMetricKey := {|
  metric_key_count := 2;
  metric_key_index k := match k with PACKET_ACKS => 0 | PACKET_DROPS => 1 end;
  metric_key_name k := match k with PACKET_ACKS => "packet_acks" | PACKET_DROPS => "packet_drops" end;
  metric_key_unit _ := "";
  metric_key_cast i := if i =? 0 then Some PACKET_ACKS else if i =? 1 then Some PACKET_DROPS else None;
  metric_key_unit_scale _ value := value;
|}.

#[export] Instance neptun_metric_key_ok : MetricKeyOk NeptunMetricKey.
Proof.
  split.
  - by intros [].
  - by intros [] [].
  - by intros [].
  - simpl. intros i Hi. destruct (Z.eqb_spec i 0); [by eexists|]. destruct (Z.eqb_spec i 1); [by eexists|lia].
Qed.

(** network_metrics.h *)
Inductive NetworkMetricKey : Set := PACKETS_SENT | PACKETS_READ | PAYLOAD_INGRESS | PAYLOAD_EGRESS.

#[export] Instance network_metric_key : MetricKey NetworkMetricKey := {|
  metric_key_count := 4;
  metric_key_index k :=
    match k with PACKETS_SENT => 0 | PACKETS_READ => 1 | PAYLOAD_INGRESS => 2 | PAYLOAD_EGRESS => 3 end;
  metric_key_name k :=
    match k with
    | PACKETS_SENT => "packets_sent" | PACKETS_READ => "packets_read"
    | PAYLOAD_INGRESS => "payload_ingress" | PAYLOAD_EGRESS => "payload_egress"
    end;
  metric_key_unit k := match k with PAYLOAD_INGRESS | PAYLOAD_EGRESS => "MB" | _ => "" end;
  metric_key_cast i :=
    if i =? 0 then Some PACKETS_SENT else if i =? 1 then Some PACKETS_READ
    else if i =? 2 then Some PAYLOAD_INGRESS else if i =? 3 then Some PAYLOAD_EGRESS else None;
  metric_key_unit_scale k value :=
    match k with
    | PAYLOAD_INGRESS | PAYLOAD_EGRESS => double_div (double_div value (to_double 1024)) (to_double 1024)
    | _ => value
    end;
|}.

#[export] Instance network_metric_key_ok : MetricKeyOk NetworkMetricKey.
Proof.
  split.
  - by intros [].
  - by intros [] [].
  - by intros [].
  - simpl. intros i Hi. destruct (Z.eqb_spec i 0); [by eexists|].
    destruct (Z.eqb_spec i 1); [by eexists|]. destruct (Z.eqb_spec i 2); [by eexists|].
    destruct (Z.eqb_spec i 3); [by eexists|lia].
Qed.

(** ** Metrics of doubles *)

Section Double.
Context {Key : Type} `{MetricKey Key}.

(** [Metrics<Key, double>] *)
Record DoubleMetrics := mkDoubleMetrics { d_values : list spec_float; d_name : string }.

Definition double_create (name : string) : DoubleMetrics :=
  mkDoubleMetrics (replicate (Z.to_nat metric_key_count) (to_double 0)) name.

Definition double_inc (m : DoubleMetrics) (key : Key) (value : spec_float) : result DoubleMetrics :=
  v ← span_get (d_values m) (metric_key_index key);
  values ← span_set (d_values m) (metric_key_index key) (double_add v value);
  Ok (mkDoubleMetrics values (d_name m)).

Definition double_value (m : DoubleMetrics) (key : Key) : result spec_float :=
  span_get (d_values m) (metric_key_index key).

(** A call of the callback of [foreach_key] for each key, in order. *)
Fixpoint for_each_key {A} (keys : list (option Key)) (fn : A → Key → result A) (a : A) : result A :=
  match keys with
  | [] => Ok a
  | Some key :: keys => a ← fn a key; for_each_key keys fn a
  | None :: _ => out_of_bounds
  end.

(** [operator<<]: the title and, of each line, the name, the scaled value and the unit; how
    the stream prints a [double] is left open. *)
Definition double_table (m : DoubleMetrics) : result (string * list (string * spec_float * string)) :=
  lines ← for_each_key foreach_key (λ lines key,
    v ← double_value m key;
    Ok (lines ++ [(metric_key_name key, metric_key_unit_scale key v, metric_key_unit key)])) [];
  Ok (d_name m, lines).

Definition double_wf (m : DoubleMetrics) : Prop := len (d_values m) = metric_key_count.

Context `{!MetricKeyOk Key}.

Lemma double_create_wf name : 0 ≤ metric_key_count → double_wf (double_create name).
Proof using Type. intros. unfold double_wf, double_create. simpl. list_lia. Qed.

Lemma double_inc_Ok m key v : double_wf m → ∃ m', double_inc m key v = Ok m' ∧ double_wf m'.
Proof using All.
  intros Hwf. pose proof (metric_index_range key) as Hi. unfold double_wf in *. unfold double_inc.
  destruct (span_get_total (d_values m) (metric_key_index key)) as (old & -> & Hl); [lia|].
  cbn [mbind result_bind]. rewrite span_set_Ok by lia. cbn [mbind result_bind].
  eexists. split; [done|]. simpl. list_lia.
Qed.

(** The callback is called for every key and no call is out of range. *)
Lemma for_each_key_inv {A} (P : A → Prop) (fn : A → Key → result A) a :
  P a → (∀ a key, P a → ∃ a', fn a key = Ok a' ∧ P a') →
  ∃ a', for_each_key foreach_key fn a = Ok a' ∧ P a'.
Proof using All.
  intros Ha Hfn. unfold foreach_key.
  assert (Forall (λ k, is_Some k) (metric_key_cast <$> seqZ 0 metric_key_count)) as Hk.
  { apply Forall_fmap, Forall_forall. intros i Hi%elem_of_seqZ. apply metric_cast_total. lia. }
  revert a Ha. induction Hk as [|k keys [key ->] _ IH]; intros a Ha; [by eexists|]. cbn [for_each_key].
  destruct (Hfn a key Ha) as (a' & -> & Ha'). by apply IH.
Qed.

Lemma double_table_Ok m : double_wf m → is_ok (double_table m).
Proof using All.
  intros Hwf. unfold double_table.
  destruct (for_each_key_inv (λ _ : list (string * spec_float * string), True) (λ lines key,
    v ← double_value m key;
    Ok (lines ++ [(metric_key_name key, metric_key_unit_scale key v, metric_key_unit key)])) [])
    as (lines & -> & _); [done| |done].
  intros lines key _. pose proof (metric_index_range key). unfold double_value, double_wf in *.
  destruct (span_get_total (d_values m) (metric_key_index key)) as (v & -> & _); [lia|]. by eexists.
Qed.
End Double.

Arguments double_create Key {_} name.
Arguments double_table Key {_} m.
Arguments double_wf Key {_} m.

(** ** Properties *)

(** A counter counts: for every key type with the enumeration's laws, [inc]
    succeeds on a well-formed array, adds to its own counter modulo 2^64, and
    leaves the others. *)
Theorem inc_counts {Key} `{MetricKey Key, !MetricKeyOk Key} m (key : Key) v :
  wf Key m → ∃ m' old, value m key = Ok old ∧ inc_by m key v = Ok m' ∧ wf Key m' ∧
    value m' key = Ok (usize (old + v)) ∧ ∀ k, k ≠ key → value m' k = value m k.
Proof.
  intros Hwf. destruct (inc_by_Ok m key v Hwf) as (m' & old & ? & ? & ? & ? & ? & _). by exists m', old.
Qed.

Lemma inc_counts_witness :
  ∃ m' old, value (create NeptunMetricKey "m") PACKET_DROPS = Ok old ∧
    inc_by (create NeptunMetricKey "m") PACKET_DROPS 3 = Ok m' ∧ wf NeptunMetricKey m' ∧
    value m' PACKET_DROPS = Ok (usize (old + 3)) ∧
    ∀ k, k ≠ PACKET_DROPS → value m' k = value (create NeptunMetricKey "m") k.
Proof. by apply (inc_counts (create NeptunMetricKey "m") PACKET_DROPS 3). Defined.
