(* ===== verification/IpAddress.v ===== *)
(** * IpAddress (network/ip_address.h)

    Dotted-decimal parsing and printing, the [sockaddr_in] wrapper, and its order.
    The byte-order functions of the C library are parameters ([ByteOrder]) with
    their documented laws; [std::stoi] and [std::to_string] are modelled. *)
From Stdlib Require Import ZArith Lia Ascii String.
From stdpp Require Import prelude strings pretty.
From S2P Require Import Prelude.
Open Scope Z_scope.

(** ** The standard library *)

(** [isspace] in the C locale. *)
Definition is_space (c : ascii) : bool :=
  let n := Z.of_N (N_of_ascii c) in (n =? 32) || ((9 <=? n) && (n <=? 13)).

Definition digit_of (c : ascii) : option Z :=
  let n := Z.of_N (N_of_ascii c) in
  if (48 <=? n) && (n <=? 57) then Some (n - 48) else None.

Fixpoint skip_spaces (s : string) : string :=
  match s with
  | String c s' => if is_space c then skip_spaces s' else s
  | EmptyString => EmptyString
  end.

(** The longest prefix of digits; [None] when there is none. *)
Fixpoint parse_digits (s : string) (acc : option Z) : option Z :=
  match s with
  | String c s' =>
      match digit_of c with
      | Some d => parse_digits s' (Some (match acc with Some a => 10 * a + d | None => d end))
      | None => acc
      end
  | EmptyString => acc
  end.

(** [std::stoi] in base 10. *)
Definition stoi (s : string) : result Z :=
  let s := skip_spaces s in
  let '(sign, s) :=
    match s with
    | String "-" s' => (-1, s')
    | String "+" s' => (1, s')
    | _ => (1, s)
    end in
  match parse_digits s None with
  | None => Fault (Thrown "invalid_argument: stoi")
  | Some v =>
      let v := sign * v in
      if (- 2 ^ 31 <=? v) && (v <? 2 ^ 31) then Ok v else Fault (Thrown "out_of_range: stoi")
  end.

(** [std::to_string] *)
Definition to_string (n : Z) : string := pretty n.

(** [s.find(".")] with [substr(0, pos)] and [erase(0, pos + 1)]. *)
Fixpoint split_dot (s : string) : option (string * string) :=
  match s with
  | EmptyString => None
  | String c s' =>
      if Ascii.eqb c "." then Some (EmptyString, s')
      else match split_dot s' with
           | Some (token, rest) => Some (String c token, rest)
           | None => None
           end
  end.

(** ** The code *)

(** [ip = (0xffffff00) & (ip << 8) | (0x000000ff & byte)] *)
Definition push_byte (ip byte : Z) : Z :=
  Z.lor (Z.land 0xffffff00 (u32 (Z.shiftl ip 8))) (Z.land 0x000000ff (u32 byte)).

(** The loop of [ip_string_to_host]; every iteration shortens the string, so that
    its length is enough fuel. *)
Fixpoint parse_ip (fuel : nat) (s : string) (ip : Z) : result Z :=
  match split_dot s, fuel with
  | Some (token, rest), S fuel =>
      byte ← stoi token;
      parse_ip fuel rest (push_byte ip byte)
  | _, _ =>
      byte ← stoi s;
      Ok (push_byte ip byte)
  end.

Definition ip_string_to_host (s : string) : result Z := parse_ip (String.length s) s 0.

(** [next_token], called [n] times. *)
Fixpoint print_ip (n : nat) (ip : Z) (s sep : string) : string :=
  match n with
  | O => s
  | S n =>
      let byte := Z.shiftr (Z.land ip 0xff000000) 24 in
      print_ip n (u32 (Z.shiftl ip 8)) (s +:+ (sep +:+ to_string byte)) "."
  end.

Definition ip_host_to_string (ip : Z) : string := print_ip 4 ip "" "".

(** arpa/inet.h *)
Class ByteOrder := {
  htons : Z → Z; ntohs : Z → Z;
  htonl : Z → Z; ntohl : Z → Z;
}.

(** Documented: the functions of each pair invert each other on their width. *)
Class ByteOrderOk `{ByteOrder} := {
  ntohs_htons p : in_u 16 p → ntohs (htons p) = p;
  ntohl_htonl a : in_u 32 a → ntohl (htonl a) = a;
}.

Definition swap16 (x : Z) : Z := 256 * (x mod 256) + (x / 256) mod 256.
Definition swap32 (x : Z) : Z := 65536 * swap16 (x mod 65536) + swap16 (x / 65536 mod 65536).

(** A little-endian host. *)
Definition little_endian : ByteOrder :=
  {| htons := swap16; ntohs := swap16; htonl := swap32; ntohl := swap32 |}.

Record sockaddr_in := mkSockaddr { sin_family : Z; sin_port : Z; s_addr : Z }.

Record IpAddress := mkIpAddress { m_socket_address : sockaddr_in }.

#[export] Instance sockaddr_in_eq_dec : EqDecision sockaddr_in.
Proof. solve_decision. Defined.
#[export] Instance IpAddress_eq_dec : EqDecision IpAddress.
Proof. solve_decision. Defined.

Definition AF_INET := 2.

Section IpAddress.
Context `{ByteOrder}.

Definition from_u32 (ip port : Z) : IpAddress :=
  mkIpAddress (mkSockaddr AF_INET (htons (u16 port)) (htonl (u32 ip))).

Definition from_ipv4 (ip : string) (port : Z) : result IpAddress :=
  _ ← ip_string_to_host ip;
  host ← ip_string_to_host ip;
  Ok (mkIpAddress (mkSockaddr AF_INET (htons (u16 port)) (htonl host))).

Definition port (a : IpAddress) : Z := ntohs (sin_port (m_socket_address a)).

Definition ip_as_host_long (a : IpAddress) : Z := ntohl (s_addr (m_socket_address a)).

Definition address_string (a : IpAddress) : string :=
  ip_host_to_string (ip_as_host_long a) +:+ ":" +:+ to_string (port a).

(** [operator<] *)
Definition ip_lt (a b : IpAddress) : bool :=
  (ip_as_host_long a <? ip_as_host_long b)
  || ((ip_as_host_long a =? ip_as_host_long b) && (port a <? port b)).

(** [operator==] *)
Definition ip_eq (a b : IpAddress) : bool := negb (ip_lt a b) && negb (ip_lt b a).
End IpAddress.

(** The situation of the repository's test EncodeAndDecode. *)
Example encode_and_decode :
  (host ← ip_string_to_host "192.168.0.1"; Ok (ip_host_to_string host)) = Ok "192.168.0.1".
Proof. vm_compute. reflexivity. Qed.

(** ** Bytes and tokens *)

Lemma div_mod_pair n a b : 0 ≤ b < n → (n * a + b) mod n = b ∧ (n * a + b) / n = a.
Proof.
  intros Hb. split; symmetry; [by apply (Z.mod_unique _ _ a); [left|]|by apply (Z.div_unique _ _ _ b); [left|]].
Qed.

Lemma swap16_pair a b : 0 ≤ a < 256 → 0 ≤ b < 256 → swap16 (256 * a + b) = 256 * b + a.
Proof.
  intros Ha Hb. unfold swap16. destruct (div_mod_pair 256 a b Hb) as [-> ->].
  by rewrite Z.mod_small.
Qed.

Lemma swap16_inv x : 0 ≤ x < 65536 → swap16 (swap16 x) = x ∧ 0 ≤ swap16 x < 65536.
Proof.
  intros Hx. pose proof (Z.div_mod x 256 ltac:(lia)) as Hd. pose proof (Z.mod_pos_bound x 256 ltac:(lia)).
  rewrite Hd, !swap16_pair by lia. lia.
Qed.

Lemma swap32_pair a b :
  0 ≤ a < 65536 → 0 ≤ b < 65536 → swap32 (65536 * a + b) = 65536 * swap16 b + swap16 a.
Proof.
  intros Ha Hb. unfold swap32. destruct (div_mod_pair 65536 a b Hb) as [-> ->].
  by rewrite (Z.mod_small a).
Qed.

Lemma little_endian_ok : @ByteOrderOk little_endian.
Proof.
  split; cbn [ntohs htons ntohl htonl little_endian]; unfold in_u; intros x Hx.
  - by apply swap16_inv.
  - pose proof (Z.div_mod x 65536 ltac:(lia)) as Hd. pose proof (Z.mod_pos_bound x 65536 ltac:(lia)).
    assert (0 ≤ x / 65536 < 65536) by lia. rewrite Hd.
    destruct (swap16_inv (x / 65536)) as [E1 R1]; [done|]. destruct (swap16_inv (x mod 65536)) as [E2 R2]; [done|].
    by rewrite !swap32_pair, E1, E2.
Qed.

(** The decimal form of a byte is parsed back and has no dot. *)
Lemma byte_token b :
  in_u 8 b → stoi (to_string b) = Ok b ∧ split_dot (to_string b) = None.
Proof.
  intros Hb. assert (forallb (λ n, let b := Z.of_nat n in
    bool_decide (stoi (to_string b) = Ok b) && bool_decide (split_dot (to_string b) = None)) (seq 0 256) = true)
    as Hall by (vm_compute; reflexivity).
  rewrite forallb_forall in Hall. specialize (Hall (Z.to_nat b)).
  rewrite Z2Nat.id in Hall by (unfold in_u in Hb; lia).
  assert (In (Z.to_nat b) (seq 0 256)) as Hin by (apply in_seq; unfold in_u in Hb; lia).
  apply Hall, andb_true_iff in Hin as [H1%bool_decide_eq_true H2%bool_decide_eq_true]. done.
Qed.

Lemma split_dot_app token rest :
  split_dot token = None → split_dot (token +:+ "." +:+ rest) = Some (token, rest).
Proof.
  induction token as [|c token IH]; intros H; [done|]. simpl in *.
  destruct (Ascii.eqb c "."); [done|]. destruct (split_dot token) as [[? ?]|]; [done|].
  by rewrite IH.
Qed.

Lemma push_byte_Ok ip b : in_u 8 b → push_byte ip b = u32 (256 * ip + b).
Proof.
  intros Hb. unfold push_byte. rewrite (wrap_small 32 b) by (unfold in_u in *; lia).
  assert (Z.land 0x000000ff b = b) as ->.
  { change 0xff with (Z.ones 8). rewrite Z.land_comm, Z.land_ones by lia. by apply Z.mod_small. }
  assert (u32 (Z.shiftl ip 8) = Z.shiftl (wrap 24 ip) 8) as ->.
  { rewrite !Z.shiftl_mul_pow2 by lia. unfold wrap. change (2 ^ 32) with (2 ^ 24 * 2 ^ 8).
    by rewrite Z.mul_mod_distr_r by lia. }
  assert (Z.land 0xffffff00 (Z.shiftl (wrap 24 ip) 8) = Z.shiftl (wrap 24 ip) 8) as ->.
  { change 0xffffff00 with (Z.shiftl (Z.ones 24) 8). rewrite <-Z.shiftl_land, Z.land_comm, Z.land_ones by lia.
    f_equal. apply wrap_wrap. }
  rewrite lor_shiftl_add by (done || lia). unfold wrap. change (2 ^ 32) with (2 ^ 8 * 2 ^ 24).
  rewrite Z.rem_mul_r by lia. change (2 ^ 8) with 256.
  destruct (div_mod_pair 256 ip b Hb) as [-> ->]. lia.
Qed.

(** The four bytes of a host-order address, most significant first. *)
Definition octet (ip i : Z) : Z := wrap 8 (Z.shiftr ip (24 - 8 * i)).

Lemma octets ip :
  in_u 32 ip → ip = ((octet ip 0 * 256 + octet ip 1) * 256 + octet ip 2) * 256 + octet ip 3.
Proof.
  unfold in_u, octet, wrap. intros Hip. rewrite !Z.shiftr_div_pow2 by lia.
  change (24 - 8 * 0) with 24. change (24 - 8 * 1) with 16. change (24 - 8 * 2) with 8. change (24 - 8 * 3) with 0.
  change (2 ^ 24) with (256 * 256 * 256). change (2 ^ 16) with (256 * 256). change (2 ^ 8) with 256.
  change (2 ^ 0) with 1. rewrite Z.div_1_r, <-!Z.div_div by lia.
  pose proof (Z.div_mod ip 256). pose proof (Z.div_mod (ip / 256) 256).
  pose proof (Z.div_mod (ip / 256 / 256) 256). rewrite (Z.mod_small (ip / 256 / 256 / 256)); [lia|].
  pose proof (Z.mod_pos_bound ip 256). pose proof (Z.mod_pos_bound (ip / 256) 256).
  pose proof (Z.mod_pos_bound (ip / 256 / 256) 256). change (2 ^ 32) with 4294967296 in *. lia.
Qed.

Lemma top_byte x : Z.shiftr (Z.land x 0xff000000) 24 = wrap 8 (Z.shiftr x 24).
Proof.
  change 0xff000000 with (Z.shiftl (Z.ones 8) 24).
  rewrite Z.shiftr_land, Z.shiftr_shiftl_l by lia. simpl (24 - 24). rewrite Z.shiftl_0_r.
  by rewrite Z.land_ones by lia.
Qed.

Lemma shift_top x j :
  8 ≤ j ≤ 24 → wrap 8 (Z.shiftr (u32 (Z.shiftl x 8)) j) = wrap 8 (Z.shiftr x (j - 8)).
Proof.
  intros Hj. unfold wrap. apply Z.bits_inj'. intros n Hn. destruct (decide (n < 8)).
  - rewrite !Z.mod_pow2_bits_low, !Z.shiftr_spec by lia.
    rewrite Z.mod_pow2_bits_low, Z.shiftl_spec by lia. f_equal. lia.
  - by rewrite !Z.mod_pow2_bits_high by lia.
Qed.

Definition dotted (a b c d : Z) : string :=
  to_string a +:+ "." +:+ to_string b +:+ "." +:+ to_string c +:+ "." +:+ to_string d.

Lemma string_app_assoc (s1 s2 s3 : string) : (s1 +:+ s2) +:+ s3 = s1 +:+ (s2 +:+ s3).
Proof.
  induction s1 as [|c s1 IH]; [done|].
  change (String c ((s1 +:+ s2) +:+ s3) = String c (s1 +:+ (s2 +:+ s3))). by rewrite IH.
Qed.

Lemma ip_host_to_string_Ok ip :
  ip_host_to_string ip = dotted (octet ip 0) (octet ip 1) (octet ip 2) (octet ip 3).
Proof.
  unfold ip_host_to_string. cbn [print_ip]. rewrite !top_byte, !shift_top by lia.
  unfold dotted, octet. rewrite !string_app_assoc. done.
Qed.

Lemma octet_range ip i : in_u 8 (octet ip i).
Proof. apply wrap_range. lia. Qed.

Lemma parse_ip_token fuel b rest ip :
  in_u 8 b →
  parse_ip (S fuel) (to_string b +:+ "." +:+ rest) ip = parse_ip fuel rest (push_byte ip b).
Proof.
  intros Hb. destruct (byte_token b Hb) as [Hstoi Hdot].
  cbn [parse_ip]. rewrite (split_dot_app _ _ Hdot), Hstoi. done.
Qed.

Lemma parse_ip_last fuel b ip :
  in_u 8 b → parse_ip fuel (to_string b) ip = Ok (push_byte ip b).
Proof.
  intros Hb. destruct (byte_token b Hb) as [Hstoi Hdot].
  destruct fuel; cbn [parse_ip]; by rewrite Hdot, Hstoi.
Qed.

Lemma length_dotted a b c d : (3 ≤ String.length (dotted a b c d))%nat.
Proof.
  assert (∀ s1 s2, String.length (s1 +:+ s2) = (String.length s1 + String.length s2)%nat) as Happ.
  { induction s1 as [|x s1 IH]; intros s2; [done|].
    change (S (String.length (s1 +:+ s2)) = S (String.length s1 + String.length s2)). by rewrite IH. }
  unfold dotted. rewrite !Happ. simpl. lia.
Qed.

Lemma ip_string_to_host_dotted ip :
  in_u 32 ip →
  ip_string_to_host (dotted (octet ip 0) (octet ip 1) (octet ip 2) (octet ip 3)) = Ok ip.
Proof.
  intros Hip. unfold ip_string_to_host.
  pose proof (length_dotted (octet ip 0) (octet ip 1) (octet ip 2) (octet ip 3)) as Hlen.
  destruct (String.length (dotted _ _ _ _)) as [|[|[|fuel]]] eqn:E; try lia. clear E Hlen.
  unfold dotted. rewrite !parse_ip_token by apply octet_range.
  rewrite parse_ip_last by apply octet_range. rewrite !push_byte_Ok by apply octet_range.
  assert (∀ x y, u32 (256 * u32 x + y) = u32 (256 * x + y)) as Hu.
  { intros x y. unfold wrap. rewrite <-Zplus_mod_idemp_l, Zmult_mod_idemp_r, Zplus_mod_idemp_l. done. }
  rewrite (Hu _ (octet ip 1)), (Hu _ (octet ip 2)), (Hu _ (octet ip 3)). f_equal.
  etrans; [|by apply (wrap_small 32)]. f_equal. rewrite (octets ip Hip) at 5. lia.
Qed.

(** ** The order *)

Section Order.
Context `{ByteOrder}.
Implicit Types a b c : IpAddress.

Lemma ip_lt_spec a b :
  ip_lt a b = true ↔
  ip_as_host_long a < ip_as_host_long b ∨ (ip_as_host_long a = ip_as_host_long b ∧ port a < port b).
Proof. unfold ip_lt. rewrite orb_true_iff, andb_true_iff, !Z.ltb_lt, Z.eqb_eq. done. Qed.

Lemma ip_lt_irrefl a : ip_lt a a = false.
Proof. apply not_true_iff_false. rewrite ip_lt_spec. lia. Qed.

Lemma ip_lt_trans a b c : ip_lt a b = true → ip_lt b c = true → ip_lt a c = true.
Proof. rewrite !ip_lt_spec. lia. Qed.

Lemma ip_eq_spec a b :
  ip_eq a b = true ↔ ip_as_host_long a = ip_as_host_long b ∧ port a = port b.
Proof.
  unfold ip_eq. rewrite andb_true_iff, !negb_true_iff, <-!not_true_iff_false, !ip_lt_spec. lia.
Qed.
End Order.

(** ** Properties *)

(** C34: addresses round-trip through their text: printing a host-order address and
    parsing it gives the address back, so an address built from the text equals
    the one built from the number, and it prints as that text and its port. *)
Theorem address_roundtrip `{ByteOrder, !ByteOrderOk} ip p :
  in_u 32 ip → in_u 16 p →
  ip_string_to_host (ip_host_to_string ip) = Ok ip ∧
  from_ipv4 (ip_host_to_string ip) p = Ok (from_u32 ip p) ∧
  address_string (from_u32 ip p) = ip_host_to_string ip +:+ ":" +:+ to_string p.
Proof.
  intros Hip Hp.
  assert (ip_string_to_host (ip_host_to_string ip) = Ok ip) as Hrt
    by (rewrite ip_host_to_string_Ok; by apply ip_string_to_host_dotted).
  split; [done|]. split.
  - unfold from_ipv4. rewrite Hrt. cbn [mbind result_bind]. unfold from_u32.
    by rewrite (wrap_small 32 ip).
  - unfold address_string, ip_as_host_long, port, from_u32. cbn [m_socket_address s_addr sin_port].
    by rewrite !wrap_small, ntohl_htonl, ntohs_htons.
Qed.

Lemma address_roundtrip_witness :
  ip_string_to_host (ip_host_to_string 3232235530) = Ok 3232235530 ∧
  @from_ipv4 little_endian (ip_host_to_string 3232235530) 1000 = Ok (@from_u32 little_endian 3232235530 1000) ∧
  @address_string little_endian (@from_u32 little_endian 3232235530 1000)
  = ip_host_to_string 3232235530 +:+ ":" +:+ to_string 1000.
Proof. by apply (@address_roundtrip little_endian little_endian_ok 3232235530 1000). Defined.

(** [operator<] is a strict total order on addresses and [operator==] its
    equivalence, equality of host address and port: what [std::map] requires of
    its comparison. *)
Theorem address_order `{ByteOrder} a b c :
  ip_lt a a = false ∧ (ip_lt a b = true → ip_lt b c = true → ip_lt a c = true) ∧
  (ip_lt a b = true ∨ ip_eq a b = true ∨ ip_lt b a = true) ∧
  (ip_eq a b = true ↔ ip_as_host_long a = ip_as_host_long b ∧ port a = port b).
Proof.
  split; [apply ip_lt_irrefl|]. split; [apply ip_lt_trans|]. split; [|apply ip_eq_spec].
  rewrite ip_eq_spec, !ip_lt_spec. lia.
Qed.

Lemma address_order_witness :
  let a p := @from_u32 little_endian 167772161 p in
  @ip_lt little_endian (a 1) (a 1) = false ∧
  (@ip_lt little_endian (a 1) (a 2) = true → @ip_lt little_endian (a 2) (a 3) = true →
   @ip_lt little_endian (a 1) (a 3) = true) ∧
  (@ip_lt little_endian (a 1) (a 2) = true ∨ @ip_eq little_endian (a 1) (a 2) = true ∨
   @ip_lt little_endian (a 2) (a 1) = true) ∧
  (@ip_eq little_endian (a 1) (a 2) = true ↔
   @ip_as_host_long little_endian (a 1) = @ip_as_host_long little_endian (a 2) ∧
   @port little_endian (a 1) = @port little_endian (a 2)).
Proof. cbv zeta. apply (@address_order little_endian). Defined.
