(* ===== verification/OrderedMap.v ===== *)
(** * OrderedMap: the part of [std::map] the program uses

    A map is the list of its entries in the order of the keys, which is the order
    the program iterates in. The key comparison is a class; two keys are the same
    when neither is less than the other. *)
From Stdlib Require Import ZArith Lia Sorted.
From stdpp Require Import prelude.
From S2P Require Import Prelude IpAddress.

Class MapOrder (K : Type) := key_lt : K → K → bool.

Class MapOrderOk (K : Type) `{MapOrder K} := {
  key_lt_irrefl (k : K) : key_lt k k = false;
  key_lt_trans (a b c : K) : key_lt a b = true → key_lt b c = true → key_lt a c = true;
  (** incomparable keys are interchangeable *)
  key_lt_incomparable (a b c : K) :
    key_lt a b = false → key_lt b a = false → key_lt a c = key_lt b c ∧ key_lt c a = key_lt c b;
}.

Abbreviation map K V := (list (K * V)).

Section Keys.
Context {K : Type} `{MapOrder K}.
Implicit Types (k a b c : K).

Definition same_key a b : bool := negb (key_lt a b) && negb (key_lt b a).

Context `{!MapOrderOk K}.

Lemma same_key_spec a b : same_key a b = true ↔ key_lt a b = false ∧ key_lt b a = false.
Proof using Type. unfold same_key. by rewrite andb_true_iff, !negb_true_iff. Qed.

Lemma same_key_refl k : same_key k k = true.
Proof using All. apply same_key_spec. by rewrite key_lt_irrefl. Qed.

Lemma same_key_trans a b c : same_key a b = true → same_key b c = true → same_key a c = true.
Proof using All.
  rewrite !same_key_spec. intros [H1 H2] [H3 H4].
  destruct (key_lt_incomparable a b c H1 H2) as [-> ->]. done.
Qed.

Lemma same_key_sym a b : same_key a b = same_key b a.
Proof using Type. unfold same_key. apply andb_comm. Qed.

Lemma key_lt_asym a b : key_lt a b = true → key_lt b a = false.
Proof using All.
  intros Hab. destruct (key_lt b a) eqn:Hba; [|done].
  pose proof (key_lt_trans a b a Hab Hba) as Haa. by rewrite key_lt_irrefl in Haa.
Qed.

Lemma key_lt_not_same a b : key_lt a b = true → same_key a b = false.
Proof using Type. intros Hab. unfold same_key. by rewrite Hab. Qed.
End Keys.

Section OrderedMap.
Context {K V : Type} `{MapOrder K}.
Implicit Types (m : map K V) (k : K) (v : V).

Fixpoint find (m : map K V) (k : K) : option V :=
  match m with
  | [] => None
  | (k', v) :: m' => if same_key k k' then Some v else find m' k
  end.

Definition contains (m : map K V) (k : K) : bool :=
  match find m k with Some _ => true | None => false end.

(** [insert]: nothing happens when the key is there already. *)
Fixpoint insert (m : map K V) (k : K) (v : V) : map K V :=
  match m with
  | [] => [(k, v)]
  | (k', v') :: m' =>
      if key_lt k k' then (k, v) :: m
      else if key_lt k' k then (k', v') :: insert m' k v
      else m
  end.

(** Assignment through the reference [find(k)->second]. *)
Fixpoint update (m : map K V) (k : K) (v : V) : map K V :=
  match m with
  | [] => []
  | (k', v') :: m' => if same_key k k' then (k', v) :: m' else (k', v') :: update m' k v
  end.

(** [m[k]]: the entry is created when it is missing. *)
Definition index (m : map K V) (k : K) (default : V) : map K V * V :=
  match find m k with
  | Some v => (m, v)
  | None => (insert m k default, default)
  end.

Definition ordered (m : map K V) : Prop := StronglySorted (λ a b, key_lt a b = true) m.*1.

Context `{!MapOrderOk K}.

Lemma find_lt m k : Forall (λ k', key_lt k k' = true) m.*1 → find m k = None.
Proof using All.
  induction m as [|[k' v] m IH]; [done|]. simpl. intros [Hk Hm]%Forall_cons.
  by rewrite key_lt_not_same, IH.
Qed.

(** A missing key is found after [insert], and other keys as before. *)
Lemma find_insert m k v k' :
  find m k = None → find (insert m k v) k' = if same_key k' k then Some v else find m k'.
Proof using All.
  induction m as [|[k1 v1] m IH]; simpl; [done|]. intros Hk.
  destruct (same_key k k1) eqn:Hs; [done|].
  destruct (key_lt k k1) eqn:Hlt; [done|].
  assert (key_lt k1 k = true) as Hlt'.
  { unfold same_key in Hs. rewrite Hlt in Hs. by destruct (key_lt k1 k). }
  rewrite Hlt'. simpl. rewrite IH by done. destruct (same_key k' k1) eqn:Hs1; [|done].
  destruct (same_key k' k) eqn:Hs2; [|done]. rewrite same_key_sym in Hs2.
  by rewrite (same_key_trans k k' k1) in Hs.
Qed.

Lemma find_update m k v k' :
  find m k ≠ None → find (update m k v) k' = if same_key k' k then Some v else find m k'.
Proof using All.
  induction m as [|[k1 v1] m IH]; simpl; [done|]. intros Hk.
  destruct (same_key k k1) eqn:Hs; simpl.
  - destruct (same_key k' k1) eqn:Hs1.
    + rewrite same_key_sym in Hs. by rewrite (same_key_trans k' k1 k).
    + destruct (same_key k' k) eqn:Hs2; [|done]. by rewrite (same_key_trans k' k k1) in Hs1.
  - rewrite IH by done. destruct (same_key k' k1) eqn:Hs1; [|done].
    destruct (same_key k' k) eqn:Hs2; [|done]. rewrite same_key_sym in Hs2.
    by rewrite (same_key_trans k k' k1) in Hs.
Qed.

Lemma update_keys m k v : (update m k v).*1 = m.*1.
Proof using Type.
  induction m as [|[k1 v1] m IH]; [done|]. simpl. destruct (same_key k k1); [done|].
  by rewrite fmap_cons, IH.
Qed.

Lemma insert_keys m k v : ∀ P : K → Prop, Forall P m.*1 → P k → Forall P (insert m k v).*1.
Proof using Type.
  intros P. induction m as [|[k1 v1] m IH]; simpl; intros Hm Hk; [by constructor|].
  apply Forall_cons in Hm as [Hk1 Hm].
  destruct (key_lt k k1); [by repeat constructor|].
  destruct (key_lt k1 k); constructor; auto.
Qed.

(** The order of the entries is kept by every operation. *)
Lemma ordered_insert m k v : ordered m → ordered (insert m k v).
Proof using All.
  unfold ordered. induction m as [|[k1 v1] m IH]; simpl; intros Hm; [by repeat constructor|].
  apply StronglySorted_inv in Hm as [Hm Hk1]. destruct (key_lt k k1) eqn:Hlt.
  - constructor; [by constructor|]. constructor; [done|].
    eapply Forall_impl; [exact Hk1|]. intros x Hx. by eapply key_lt_trans.
  - destruct (key_lt k1 k) eqn:Hlt'; constructor; auto. by apply insert_keys.
Qed.

Lemma ordered_update m k v : ordered m → ordered (update m k v).
Proof using Type. unfold ordered. by rewrite update_keys. Qed.
End OrderedMap.

(** [std::map<IpAddress, V>] *)
#[export] Instance ip_order `{ByteOrder} : MapOrder IpAddress := ip_lt.

#[export] Instance ip_order_ok `{ByteOrder} : MapOrderOk IpAddress.
Proof.
  split; unfold key_lt, ip_order.
  - apply ip_lt_irrefl.
  - apply ip_lt_trans.
  - intros a b c. rewrite <-!not_true_iff_false, !ip_lt_spec. intros Ha Hb.
    unfold ip_lt. split; [assert (ip_as_host_long a = ip_as_host_long b ∧ port a = port b) as [-> ->] by lia; done|].
    assert (ip_as_host_long a = ip_as_host_long b ∧ port a = port b) as [-> ->] by lia. done.
Qed.

(** ** Properties *)

(** A map finds what was put into it: after an insertion of a missing key, or an
    assignment to a present one, that key (and every key equivalent to it) gives
    the new value and every other key what it gave before, and the entries stay
    in the order of the keys. *)
Theorem map_lookup {K V} `{MapOrder K, !MapOrderOk K} (m : map K V) k v k' :
  ordered m →
  (find m k = None → find (insert m k v) k' = if same_key k' k then Some v else find m k') ∧
  (find m k ≠ None → find (update m k v) k' = if same_key k' k then Some v else find m k') ∧
  ordered (insert m k v) ∧ ordered (update m k v).
Proof.
  intros Hm. split_and!; [apply find_insert|apply find_update|by apply ordered_insert|by apply ordered_update].
Qed.

Lemma map_lookup_witness :
  let a p := @from_u32 little_endian 167772161 p in
  let m := [(a 1, 10%Z); (a 5, 50%Z)] in
  (@find _ _ (@ip_order little_endian) m (a 3) = None →
   @find _ _ (@ip_order little_endian) (@insert _ _ (@ip_order little_endian) m (a 3) 30%Z) (a 5)
   = if @same_key _ (@ip_order little_endian) (a 5) (a 3) then Some 30%Z
     else @find _ _ (@ip_order little_endian) m (a 5)) ∧
  (@find _ _ (@ip_order little_endian) m (a 3) ≠ None →
   @find _ _ (@ip_order little_endian) (@update _ _ (@ip_order little_endian) m (a 3) 30%Z) (a 5)
   = if @same_key _ (@ip_order little_endian) (a 5) (a 3) then Some 30%Z
     else @find _ _ (@ip_order little_endian) m (a 5)) ∧
  @ordered _ _ (@ip_order little_endian) (@insert _ _ (@ip_order little_endian) m (a 3) 30%Z) ∧
  @ordered _ _ (@ip_order little_endian) (@update _ _ (@ip_order little_endian) m (a 3) 30%Z).
Proof.
  cbv zeta. apply (@map_lookup IpAddress Z (@ip_order little_endian) (@ip_order_ok little_endian)).
  repeat constructor; vm_compute; reflexivity.
Defined.
