(* ===== verification/Network.v ===== *)
(** * Network (network/network.h, network/fake_network.h, network/udp_socket.h)

    The template parameter [Network] is the class [Network]; its laws, which the
    clients rely on, are the class [NetworkOk]. [FakeNetwork] is modelled whole
    except for logging; [OsNetwork] (its Unix branches) over the system calls, which
    are parameters. Objects that the program shares by reference are passed in and
    returned. *)
From Stdlib Require Import ZArith Lia String.
From stdpp Require Import prelude strings pretty.
From S2P Require Import Prelude Span Metrics IpAddress OrderedMap.
Open Scope Z_scope.

(** A file descriptor is its [value]. A read returns the new contents of the buffer
    and, for a packet, its sender and the size of the payload, a prefix of the
    buffer. *)
Class Network (N : Type) := {
  udp_socket_ipv4 : N → result (N * Z);
  bind : N → Z → IpAddress → result N;
  set_non_blocking : N → Z → result N;
  read_from_socket : N → Z → bytes → result (N * bytes * option (IpAddress * Z));
  send_to : N → Z → IpAddress → bytes → result (N * Z);
}.

Class NetworkOk (N : Type) `{Network N} := {
  read_buffer n fd buffer n' buffer' r :
    read_from_socket n fd buffer = Ok (n', buffer', r) → len buffer' = len buffer;
  read_size n fd buffer n' buffer' sender size :
    len buffer < 2 ^ 31 →
    read_from_socket n fd buffer = Ok (n', buffer', Some (sender, size)) → 0 ≤ size ≤ len buffer;
  send_size n fd ip payload n' size :
    send_to n fd ip payload = Ok (n', size) → size = len payload;
}.

(** ** UdpSocket *)
Module UdpSocket.
Record UdpSocket := mkUdpSocket { m_fd : Z; m_ip : IpAddress }.

Section Ops.
Context {N : Type} `{Network N}.

(** The static [bind]. *)
Definition bind (ip : IpAddress) (network : N) : result (N * UdpSocket) :=
  '(network, fd) ← udp_socket_ipv4 network;
  let socket := mkUdpSocket fd ip in
  network ← Network.bind network fd ip;
  network ← set_non_blocking network fd;
  Ok (network, socket).

Definition read (network : N) (s : UdpSocket) (buffer : bytes) :=
  read_from_socket network (m_fd s) buffer.

Definition send_to (network : N) (s : UdpSocket) (ip_address : IpAddress) (payload : bytes) :=
  Network.send_to network (m_fd s) ip_address payload.
End Ops.
End UdpSocket.

(** ** FakeNetwork *)
Module FakeNetwork.
Definition kReasonableMtu := 1400.

Record PendingPacket := mkPacket { sender : IpAddress; payload : bytes }.

Record Stats := mkStats {
  num_sent_packets : Z;
  num_read_packets : Z;
  num_sent_bytes : Z;
  num_read_bytes : Z;
}.

Definition no_stats : Stats := mkStats 0 0 0 0.

(** Without the members that only control logging ([Logging]). *)
Record FakeNetwork := mkFakeNetwork {
  m_mtu : Z;
  m_next_fd : Z;
  m_should_drop_packets : bool;
  m_bind : list (IpAddress * Z);
  m_buffers : map IpAddress (list PendingPacket);
  m_stats : map IpAddress Stats;
}.

#[global] Instance PendingPacket_eq_dec : EqDecision PendingPacket.
Proof. solve_decision. Defined.
#[global] Instance Stats_eq_dec : EqDecision Stats.
Proof. solve_decision. Defined.

(** The constructor. *)
Definition create (mtu : Z) : FakeNetwork := mkFakeNetwork mtu 0 false [] [] [].

Section Ops.
Context `{ByteOrder}.

Definition is_socket_open (n : FakeNetwork) (fd : Z) : bool := fd <? m_next_fd n.

Definition socket_predicate (socket_fd : Z) (candidate : IpAddress * Z) : bool := socket_fd =? candidate.2.
#[global] Arguments socket_predicate _ _ /.

Definition find_ip (n : FakeNetwork) (socket_fd : Z) : option IpAddress :=
  fst <$> List.find (socket_predicate socket_fd) (m_bind n).

Definition is_socket_bound (n : FakeNetwork) (fd : Z) : bool :=
  match find_ip n fd with Some _ => true | None => false end.

(** [IpAddressOrSocketPredicate] *)
Definition ip_or_socket (socket_fd : Z) (ip : IpAddress) (candidate : IpAddress * Z) : bool :=
  bool_decide (address_string ip = address_string candidate.1) || (socket_fd =? candidate.2).

Definition bind (n : FakeNetwork) (fd : Z) (ip_address : IpAddress) : result FakeNetwork :=
  if negb (is_socket_open n fd) then
    Fault (Thrown ("Cannot bind unknown socket: " +:+ to_string fd))
  else
    match List.find (ip_or_socket fd ip_address) (m_bind n) with
    | Some _ => Fault (Thrown ("IP " +:+ address_string ip_address +:+
                               " is already bound to a socket " +:+ to_string fd))
    | None => Ok (mkFakeNetwork (m_mtu n) (m_next_fd n) (m_should_drop_packets n)
                    (m_bind n ++ [(ip_address, fd)]) (m_buffers n) (m_stats n))
    end.

(** [m_next_fd++] on an [int]. *)
Definition udp_socket_ipv4 (n : FakeNetwork) : result (FakeNetwork * Z) :=
  if m_next_fd n <? 2 ^ 31 - 1 then
    Ok (mkFakeNetwork (m_mtu n) (m_next_fd n + 1) (m_should_drop_packets n)
          (m_bind n) (m_buffers n) (m_stats n), m_next_fd n)
  else Fault (Undefined SignedOverflow).

Definition set_non_blocking (n : FakeNetwork) (fd : Z) : result FakeNetwork := Ok n.

(** The loop that copies the packet into the buffer; [idx] counts the bytes. *)
Fixpoint copy_loop (buffer payload : bytes) (idx : Z) : bytes * Z :=
  match buffer, payload with
  | [], _ => ([], idx)
  | _, [] => (buffer, idx)
  | _ :: buffer', x :: payload' =>
      let '(rest, idx) := copy_loop buffer' payload' (idx + 1) in (x :: rest, idx)
  end.

Definition count_read (s : Stats) (size : Z) : Stats :=
  mkStats (num_sent_packets s) (usize (num_read_packets s + 1)) (num_sent_bytes s)
    (usize (num_read_bytes s + size)).

Definition count_sent (s : Stats) (size : Z) : Stats :=
  mkStats (usize (num_sent_packets s + 1)) (num_read_packets s)
    (usize (num_sent_bytes s + size)) (num_read_bytes s).

Definition read_from_socket (n : FakeNetwork) (fd : Z) (buffer : bytes)
    : result (FakeNetwork * bytes * option (IpAddress * Z)) :=
  match find_ip n fd with
  | None => Fault (Thrown ("Failed to read data from unbound socket: " +:+ to_string fd))
  | Some ip =>
      let '(buffers, packets) := index (m_buffers n) ip [] in
      match packets with
      | [] => Ok (mkFakeNetwork (m_mtu n) (m_next_fd n) (m_should_drop_packets n)
                    (m_bind n) buffers (m_stats n), buffer, None)
      | packet :: packets =>
          let buffers := update buffers ip packets in
          let '(stats, s) := index (m_stats n) ip no_stats in
          let stats := update stats ip (count_read s (len (payload packet))) in
          let '(buffer, idx) := copy_loop buffer (payload packet) 0 in
          view ← span_sub buffer 0 idx;
          Ok (mkFakeNetwork (m_mtu n) (m_next_fd n) (m_should_drop_packets n)
                (m_bind n) buffers stats, buffer, Some (sender packet, len view))
      end
  end.

Definition send_to (n : FakeNetwork) (sender_fd : Z) (ip_address : IpAddress) (payload : bytes)
    : result (FakeNetwork * Z) :=
  match find_ip n sender_fd with
  | None => Fault (Thrown ("Failed to send data via unbound socket: " +:+ to_string sender_fd))
  | Some sender =>
      let '(stats, s) := index (m_stats n) sender no_stats in
      let stats := update stats sender (count_sent s (len payload)) in
      if m_should_drop_packets n then
        Ok (mkFakeNetwork (m_mtu n) (m_next_fd n) true (m_bind n) (m_buffers n) stats, len payload)
      else
        let '(buffers, packets) := index (m_buffers n) ip_address [] in
        let pending_payload :=
          if usize (m_mtu n) <? len payload then ztake (m_mtu n) payload else payload in
        let buffers := update buffers ip_address (packets ++ [mkPacket sender pending_payload]) in
        Ok (mkFakeNetwork (m_mtu n) (m_next_fd n) false (m_bind n) buffers stats, len payload)
  end.

Definition drop_packets (n : FakeNetwork) (should_drop_packets : bool) : FakeNetwork :=
  mkFakeNetwork (m_mtu n) (m_next_fd n) should_drop_packets (m_bind n) (m_buffers n) (m_stats n).

Definition stats (n : FakeNetwork) (ip : IpAddress) : Stats :=
  match find (m_stats n) ip with Some s => s | None => no_stats end.

Definition clear_stats (n : FakeNetwork) : FakeNetwork :=
  mkFakeNetwork (m_mtu n) (m_next_fd n) (m_should_drop_packets n) (m_bind n) (m_buffers n) [].

(** The members that control logging, and what has been logged. *)
Record Logging := mkLogging {
  m_should_log_packets : bool;
  m_packet_formatter : option (bytes → string);
  logged : list string;
}.

Definition log_packets (l : Logging) (should_log : bool) : Logging :=
  mkLogging should_log (m_packet_formatter l) (logged l).

Definition set_packet_formatter (l : Logging) (packet_formatter : bytes → string) : Logging :=
  mkLogging (m_should_log_packets l) (Some packet_formatter) (logged l).

(** [send_to] with its log: a packet that is dropped is not logged. *)
Definition log_send (n : FakeNetwork) (l : Logging) (sender_fd : Z) (ip_address : IpAddress) (payload : bytes)
    : result (FakeNetwork * Logging * Z) :=
  '(n', size) ← send_to n sender_fd ip_address payload;
  if m_should_drop_packets n || negb (m_should_log_packets l) then Ok (n', l, size)
  else
    match find_ip n sender_fd with
    | None => Fault (Thrown ("Failed to send data via unbound socket: " +:+ to_string sender_fd))
    | Some sender_ip =>
        let payload_string :=
          match m_packet_formatter l with Some packet_formatter => packet_formatter payload | None => "<no formatter>" end in
        Ok (n', mkLogging (m_should_log_packets l) (m_packet_formatter l)
                  (logged l ++ ["Send[" +:+ address_string sender_ip +:+ " -> " +:+ address_string ip_address
                                +:+ "] " +:+ payload_string]), size)
    end.

#[global] Instance fake_network : Network FakeNetwork := {|
  Network.udp_socket_ipv4 := udp_socket_ipv4;
  Network.bind := bind;
  Network.set_non_blocking := set_non_blocking;
  Network.read_from_socket := read_from_socket;
  Network.send_to := send_to;
|}.

(** The packets waiting for an address. *)
Definition queue (n : FakeNetwork) (ip : IpAddress) : list PendingPacket :=
  default [] (find (m_buffers n) ip).

Lemma copy_loop_Ok payload : ∀ buffer idx,
  copy_loop buffer payload idx
  = (take (length buffer) payload ++ drop (length payload) buffer,
     idx + Z.min (len buffer) (len payload)).
Proof using Type.
  induction payload as [|x payload IH]; intros [|y buffer] idx; simpl.
  - by rewrite Z.add_0_r.
  - by rewrite Z.add_0_r.
  - by rewrite Z.add_0_r.
  - rewrite IH. f_equal. lia.
Qed.

Lemma find_index {V} (m : map IpAddress V) ip d k :
  find (index m ip d).1 k
  = match find m ip with Some _ => find m k | None => if same_key k ip then Some d else find m k end.
Proof using Type.
  unfold index. destruct (find m ip) eqn:E; [done|]. simpl. by apply find_insert.
Qed.

Lemma index_value {V} (m : map IpAddress V) ip d : (index m ip d).2 = default d (find m ip).
Proof using Type. unfold index. by destruct (find m ip). Qed.

Lemma find_same_key {V} (m : map IpAddress V) a b : same_key a b = true → find m a = find m b.
Proof using Type.
  intros Hab. induction m as [|[k v] m IH]; [done|]. simpl.
  destruct (same_key a k) eqn:Ha, (same_key b k) eqn:Hb; try done.
  - rewrite same_key_sym in Hab. by rewrite (same_key_trans b a k) in Hb.
  - by rewrite (same_key_trans a b k) in Ha.
Qed.

(** [m[ip] = v] on the queues. *)
Lemma find_index_update {V} (m : map IpAddress V) ip d v k :
  find (update (index m ip d).1 ip v) k = if same_key k ip then Some v else find m k.
Proof using Type.
  rewrite find_update.
  - destruct (same_key k ip) eqn:E; [done|]. rewrite find_index, E. by destruct (find m ip).
  - rewrite find_index. destruct (find m ip) eqn:E; [done|]. by rewrite same_key_refl.
Qed.

Lemma send_to_Ok n fd ip p a :
  find_ip n fd = Some a → m_should_drop_packets n = false → 0 ≤ m_mtu n < 2 ^ 31 →
  ∃ n', send_to n fd ip p = Ok (n', len p) ∧ m_bind n' = m_bind n ∧
    (∀ k, queue n' k = if same_key k ip then queue n k ++ [mkPacket a (ztake (m_mtu n) p)]
                       else queue n k).
Proof using Type.
  intros Ha Hd Hmtu. unfold send_to. rewrite Ha, Hd.
  destruct (index (m_stats n) a no_stats) as [st s].
  destruct (index (m_buffers n) ip []) as [buffers packets] eqn:Hi.
  eexists. split; [done|]. split; [done|]. intros k. unfold queue. cbn [m_buffers].
  replace buffers with ((index (m_buffers n) ip []).1) by (by rewrite Hi).
  rewrite find_index_update. destruct (same_key k ip) eqn:Hk; [|done].
  rewrite (find_same_key _ _ _ Hk). cbn [default]. rewrite <-index_value, Hi. simpl. do 3 f_equal.
  rewrite wrap_small by (unfold in_u; lia).
  destruct (Z.ltb_spec (m_mtu n) (len p)); [done|]. by rewrite take_ge by lia.
Qed.

Lemma read_from_socket_Ok n fd buffer a :
  find_ip n fd = Some a →
  ∃ n' buffer' r, read_from_socket n fd buffer = Ok (n', buffer', r) ∧ m_bind n' = m_bind n ∧
    match queue n a with
    | [] => r = None ∧ buffer' = buffer ∧ ∀ k, queue n' k = queue n k
    | packet :: rest =>
        let got := take (length buffer) (payload packet) in
        r = Some (sender packet, len got) ∧ buffer' = got ++ drop (length got) buffer ∧
        ∀ k, queue n' k = if same_key k a then rest else queue n k
    end.
Proof using Type.
  intros Ha. unfold read_from_socket. rewrite Ha.
  destruct (index (m_buffers n) a []) as [buffers packets] eqn:Hi.
  assert (queue n a = packets) as Hq by (unfold queue; by rewrite <-index_value, Hi).
  assert (buffers = (index (m_buffers n) a []).1) as -> by (by rewrite Hi). rewrite Hq.
  destruct packets as [|packet packets].
  { do 3 eexists. split; [done|]. split; [done|]. split_and!; [done|done|]. intros k.
    unfold queue. cbn [m_buffers]. rewrite find_index.
    destruct (find (m_buffers n) a) eqn:E; [done|]. destruct (same_key k a) eqn:Hk; [|done].
    by rewrite (find_same_key _ _ _ Hk), E. }
  destruct (index (m_stats n) a no_stats) as [st s].
  rewrite copy_loop_Ok. set (got := take (length buffer) (payload packet)).
  assert (len got = Z.min (len buffer) (len (payload packet))) as Hgot by (unfold got; list_lia).
  rewrite Z.add_0_l, <-Hgot.
  assert (drop (length (payload packet)) buffer = drop (length got) buffer) as ->.
  { unfold got. rewrite length_take. destruct (Nat.le_ge_cases (length buffer) (length (payload packet))).
    - by rewrite Nat.min_l, !drop_ge by lia.
    - by rewrite Nat.min_r by lia. }
  rewrite span_sub_Ok by list_lia. cbn [mbind result_bind].
  do 3 eexists. split; [done|]. split; [done|]. cbv zeta. split_and!; [|done|].
  - do 2 f_equal. change (zdrop 0 (got ++ drop (length got) buffer)) with (got ++ drop (length got) buffer).
    by rewrite Nat2Z.id, take_app_length.
  - intros k. unfold queue. cbn [m_buffers]. rewrite find_index_update. by destruct (same_key k a).
Qed.

(** The implementation keeps the promises of the interface. *)
#[global] Instance fake_network_ok : NetworkOk FakeNetwork.
Proof using Type.
  split; cbn [Network.read_from_socket Network.send_to fake_network].
  - intros n fd buffer n' buffer' r Hr. destruct (find_ip n fd) as [a|] eqn:Ha.
    + destruct (read_from_socket_Ok n fd buffer a Ha) as (n1 & b1 & r1 & Hr1 & _ & Hq).
      rewrite Hr in Hr1. injection Hr1 as <- <- <-.
      destruct (queue n a); destruct Hq as (_ & -> & _); [done|list_lia].
    + unfold read_from_socket in Hr. by rewrite Ha in Hr.
  - intros n fd buffer n' buffer' s size _ Hr. destruct (find_ip n fd) as [a|] eqn:Ha.
    + destruct (read_from_socket_Ok n fd buffer a Ha) as (n1 & b1 & r1 & Hr1 & _ & Hq).
      rewrite Hr in Hr1. injection Hr1 as <- <- <-.
      destruct (queue n a); destruct Hq as (Hq & _ & _); [done|]. injection Hq as _ ->. list_lia.
    + unfold read_from_socket in Hr. by rewrite Ha in Hr.
  - intros n fd ip p n' size Hs. unfold send_to in Hs. destruct (find_ip n fd); [|done].
    destruct (index _ _ _), (m_should_drop_packets n); [by injection Hs|].
    destruct (index _ _ _). by injection Hs.
Qed.
End Ops.
End FakeNetwork.

(** ** OsNetwork *)
Module OsNetwork.
(** [PLATFORM]: the system the program is compiled for. *)
Inductive PLATFORM := PLATFORM_WINDOWS | PLATFORM_MAC | PLATFORM_UNIX.

(** The system calls: a result of -1 is an error, and the last error number is
    returned with it. [recvfrom] returns the bytes it put into the buffer. Those of the
    Windows library are only called there. *)
Class Syscalls (W : Type) := {
  platform : PLATFORM;
  sys_socket : W → W * Z;
  sys_bind : W → Z → IpAddress → W * Z;
  sys_fcntl_nonblock : W → Z → W * Z;
  sys_close : W → Z → W * Z;
  sys_recvfrom : W → Z → Z → W * (Z * Z * bytes * IpAddress);
  sys_sendto : W → Z → IpAddress → bytes → W * (Z * Z);
  EWOULDBLOCK : Z;
  sys_WSAStartup : W → Z → W * Z;
  sys_WSACleanup : W → W;
  sys_ioctlsocket_nonblock : W → Z → W * Z;
  sys_closesocket : W → Z → W * (Z * Z);
  NO_ERROR : Z;
  SOCKET_ERROR : Z;
}.

(** Documented in recvfrom(2): the result is the number of bytes received, which
    fit the buffer. *)
Class SyscallsOk (W : Type) `{Syscalls W} := {
  recvfrom_size w fd size w' ret errno data sender :
    sys_recvfrom w fd size = (w', (ret, errno, data, sender)) →
    0 ≤ ret → ret ≤ size ∧ len data = ret;
  recvfrom_error w fd size w' ret errno data sender :
    sys_recvfrom w fd size = (w', (ret, errno, data, sender)) → -1 ≤ ret;
}.

Section Ops.
Context {W : Type} `{Syscalls W} `{ByteOrder}.

(** The world outside and the counters [OS_NETWORK_METRICS]. *)
Record OsNetwork := mkOsNetwork { os : W; os_network_metrics : Metrics }.

Definition create (w : W) : OsNetwork :=
  mkOsNetwork w (Metrics.create NetworkMetricKey "Network Metrics").

Definition bind (n : OsNetwork) (fd : Z) (ip_address : IpAddress) : result OsNetwork :=
  let '(w, r) := sys_bind (os n) fd ip_address in
  if r =? -1 then Fault (Thrown "Failed to bind the socket")
  else Ok (mkOsNetwork w (os_network_metrics n)).

Definition udp_socket_ipv4 (n : OsNetwork) : result (OsNetwork * Z) :=
  let '(w, fd) := sys_socket (os n) in
  if fd =? -1 then Fault (Thrown "Couldn't create udp socket")
  else Ok (mkOsNetwork w (os_network_metrics n), fd).

(** [MAKEWORD]: the low byte first. *)
Definition MAKEWORD (low high : Z) : Z := Z.lor low (Z.shiftl high 8).

Definition initialize (n : OsNetwork) : result OsNetwork :=
  match platform with
  | PLATFORM_WINDOWS =>
      let '(w, status) := sys_WSAStartup (os n) (MAKEWORD 2 2) in
      if negb (status =? NO_ERROR) then Fault (Thrown "Failed to initialize socket on Windows.")
      else Ok (mkOsNetwork w (os_network_metrics n))
  | PLATFORM_MAC | PLATFORM_UNIX => Ok n
  end.

Definition shutdown (n : OsNetwork) : OsNetwork :=
  match platform with
  | PLATFORM_WINDOWS => mkOsNetwork (sys_WSACleanup (os n)) (os_network_metrics n)
  | PLATFORM_MAC | PLATFORM_UNIX => n
  end.

Definition set_non_blocking (n : OsNetwork) (fd : Z) : result OsNetwork :=
  let '(w, failed) :=
    match platform with
    | PLATFORM_WINDOWS => let '(w, r) := sys_ioctlsocket_nonblock (os n) fd in (w, negb (r =? 0))
    | PLATFORM_MAC | PLATFORM_UNIX => let '(w, r) := sys_fcntl_nonblock (os n) fd in (w, r =? -1)
    end in
  if failed : bool then Fault (Thrown ("Failed to set socket as non-blocking: " +:+ to_string fd))
  else Ok (mkOsNetwork w (os_network_metrics n)).

Definition close_socket (n : OsNetwork) (fd : Z) : result OsNetwork :=
  match platform with
  | PLATFORM_WINDOWS =>
      let '(w, (r, last_error)) := sys_closesocket (os n) fd in
      if r =? SOCKET_ERROR then
        Fault (Thrown ("Failed to close socket: " +:+ to_string fd +:+ " with error: " +:+ to_string last_error))
      else Ok (mkOsNetwork w (os_network_metrics n))
  | PLATFORM_MAC | PLATFORM_UNIX =>
      let '(w, r) := sys_close (os n) fd in
      if r =? -1 then Fault (Thrown ("Failed to close socket: " +:+ to_string fd))
      else Ok (mkOsNetwork w (os_network_metrics n))
  end.

Definition read_from_socket (n : OsNetwork) (fd : Z) (buffer : bytes)
    : result (OsNetwork * bytes * option (IpAddress * Z)) :=
  let '(w, (read_bytes, errno, data, sender_ip)) := sys_recvfrom (os n) fd (len buffer) in
  if (read_bytes =? -1) && (errno =? EWOULDBLOCK) then
    Ok (mkOsNetwork w (os_network_metrics n), buffer, None)
  else if read_bytes =? -1 then
    Fault (Thrown ("Failed to read data from the socket: " +:+ to_string fd))
  else if read_bytes =? 0 then Ok (mkOsNetwork w (os_network_metrics n), buffer, None)
  else
    metrics ← inc (os_network_metrics n) PACKETS_READ;
    metrics ← inc_by metrics PAYLOAD_INGRESS (usize read_bytes);
    let buffer := data ++ drop (length data) buffer in
    view ← span_sub buffer 0 read_bytes;
    Ok (mkOsNetwork w metrics, buffer, Some (sender_ip, len view)).

Definition send_to (n : OsNetwork) (fd : Z) (ip_address : IpAddress) (payload : bytes)
    : result (OsNetwork * Z) :=
  let '(w, (sent_bytes, error_code)) := sys_sendto (os n) fd ip_address payload in
  if negb (usize sent_bytes =? len payload) then
    let error := if error_code =? EWOULDBLOCK then "WOULD_BLOCK"
                 else "unknown code: " +:+ to_string error_code in
    Fault (Thrown ("Failed to sent bytes to: " +:+ address_string ip_address +:+ " " +:+ error))
  else
    metrics ← inc (os_network_metrics n) PACKETS_SENT;
    metrics ← inc_by metrics PAYLOAD_EGRESS (usize sent_bytes);
    Ok (mkOsNetwork w metrics, usize sent_bytes).

#[global] Instance os_network : Network OsNetwork := {|
  Network.udp_socket_ipv4 := udp_socket_ipv4;
  Network.bind := bind;
  Network.set_non_blocking := set_non_blocking;
  Network.read_from_socket := read_from_socket;
  Network.send_to := send_to;
|}.

Context `{!SyscallsOk W}.

Lemma read_from_socket_inv n fd buffer n' buffer' r :
  read_from_socket n fd buffer = Ok (n', buffer', r) →
  len buffer' = len buffer ∧
  match r with Some (_, size) => 0 < size ≤ len buffer | None => buffer' = buffer end.
Proof using All.
  unfold read_from_socket. intros Hr.
  destruct (sys_recvfrom (os n) fd (len buffer)) as [w [[[ret errno] data] s]] eqn:Hs.
  destruct (Z.eqb_spec ret (-1)); simpl in Hr.
  { destruct (errno =? EWOULDBLOCK); by inv_result. }
  destruct (Z.eqb_spec ret 0); [by inv_result|]. inv_result.
  pose proof (recvfrom_error _ _ _ _ _ _ _ _ Hs).
  destruct (recvfrom_size _ _ _ _ _ _ _ _ Hs ltac:(lia)) as [Hle Hlen].
  rewrite span_sub_Ok in Hr2 by list_lia. injection Hr2 as <-. split; list_lia.
Qed.

#[global] Instance os_network_ok : NetworkOk OsNetwork.
Proof using All.
  split; cbn [Network.read_from_socket Network.send_to os_network].
  - intros n fd buffer n' buffer' r Hr. by apply read_from_socket_inv in Hr as [? _].
  - intros n fd buffer n' buffer' s size _ Hr. apply read_from_socket_inv in Hr as [_ ?]. lia.
  - intros n fd ip p n' size Hs. unfold send_to in Hs.
    destruct (sys_sendto _ _ _ _) as [w [sent err]].
    destruct (Z.eqb_spec (usize sent) (len p)) as [E|]; simpl in Hs; [|done].
    inv_result. done.
Qed.
End Ops.
Arguments OsNetwork W : clear implicits.
End OsNetwork.

(** ** Properties *)

Section Fake.
Import FakeNetwork.
Context `{ByteOrder}.

(** Every open socket has its own descriptor below the counter and its own address. *)
Definition bindings_ok (n : FakeNetwork.FakeNetwork) : Prop :=
  NoDup (m_bind n).*2 ∧ NoDup (address_string <$> (m_bind n).*1) ∧
  Forall (λ fd, 0 ≤ fd < m_next_fd n) (m_bind n).*2.

Lemma fake_bind_Ok n fd a n' :
  0 ≤ fd → bindings_ok n → FakeNetwork.bind n fd a = Ok n' →
  bindings_ok n' ∧ find_ip n' fd = Some a ∧ m_next_fd n' = m_next_fd n ∧
  ∀ fd', fd' ≠ fd → find_ip n' fd' = find_ip n fd'.
Proof using Type.
  intros Hfd (Hd1 & Hd2 & Hlt) Hb. unfold FakeNetwork.bind, is_socket_open in Hb.
  destruct (Z.ltb_spec fd (m_next_fd n)) as [Hopen|]; [|done]. cbn [negb] in Hb.
  destruct (List.find _ _) eqn:Hf; [done|]. injection Hb as <-.
  assert (∀ c, c ∈ m_bind n → address_string a ≠ address_string c.1 ∧ fd ≠ c.2) as Hnew.
  { intros c Hc%list_elem_of_In. pose proof (find_none _ _ Hf c Hc) as Hn. unfold ip_or_socket in Hn.
    apply orb_false_iff in Hn as [H1%bool_decide_eq_false H2%Z.eqb_neq]. done. }
  unfold bindings_ok, find_ip. cbn [m_bind m_next_fd]. rewrite !fmap_app. simpl.
  split_and!; [| | | |done|].
  - apply NoDup_app. split; [done|]. split; [|apply NoDup_singleton].
    intros x (c & -> & Hc)%list_elem_of_fmap Hx. apply list_elem_of_singleton in Hx.
    by apply Hnew in Hc as [_ []].
  - apply NoDup_app. split; [done|]. split; [|apply NoDup_singleton].
    intros x (y & -> & (c & -> & Hc)%list_elem_of_fmap)%list_elem_of_fmap Hx.
    apply list_elem_of_singleton in Hx. apply Hnew in Hc as [Hc _]. by destruct Hc.
  - apply Forall_app. split; [done|]. by constructor.
  - clear -Hnew. induction (m_bind n) as [|c l IH]; simpl; [by rewrite Z.eqb_refl|].
    destruct (Z.eqb_spec fd c.2) as [->|]; [by destruct (Hnew c ltac:(set_solver))|].
    apply IH. intros c' Hc'. apply Hnew. set_solver.
  - intros fd' Hne. clear -Hne. induction (m_bind n) as [|c l IH]; simpl.
    + by rewrite (proj2 (Z.eqb_neq _ _)).
    + destruct (fd' =? c.2); [done|exact IH].
Qed.

(** Sockets of the fake network stay unique: creating a socket and binding it
    keep descriptors and addresses distinct, and a bound socket is found with its
    address while the others keep theirs. *)
Theorem fake_bindings_unique n a n' s :
  0 ≤ m_next_fd n → bindings_ok n → UdpSocket.bind a n = Ok (n', s) →
  bindings_ok n' ∧ find_ip n' (UdpSocket.m_fd s) = Some a ∧ UdpSocket.m_ip s = a ∧
  m_next_fd n' = m_next_fd n + 1 ∧
  ∀ fd, fd < m_next_fd n → find_ip n' fd = find_ip n fd.
Proof using Type.
  intros Hfd (H1 & H2 & H3) Hb. unfold UdpSocket.bind in Hb. cbn in Hb.
  unfold udp_socket_ipv4 in Hb. destruct (_ <? _); [|done]. cbn [mbind result_bind] in Hb. inv_result.
  unfold FakeNetwork.set_non_blocking in *. inv_result.
  eapply fake_bind_Ok in Hb0 as (Hok & Hfind & Hnext & Hother); [|lia|].
  - split; [done|]. split; [done|]. split; [done|]. split; [done|].
    intros fd Hlt. by rewrite Hother by lia.
  - split; [done|]. split; [done|]. eapply Forall_impl; [exact H3|]. cbn [m_next_fd]. simpl. lia.
Qed.

(** What one socket of the fake network sends the other reads: a packet to an
    address waits behind the earlier ones, truncated to the MTU; reading takes
    the oldest one, truncated to the buffer, with the sender's address; nothing
    of any other queue changes, and while packets are dropped nothing is queued. *)
Theorem fake_delivery n fd a ip p fd' b buffer :
  find_ip n fd = Some a → find_ip n fd' = Some b → same_key b ip = true →
  queue n b = [] → 0 ≤ m_mtu n < 2 ^ 31 → m_should_drop_packets n = false →
  ∃ n1 n2 buffer', FakeNetwork.send_to n fd ip p = Ok (n1, len p) ∧
    (let got := take (length buffer) (ztake (m_mtu n) p) in
     FakeNetwork.read_from_socket n1 fd' buffer = Ok (n2, buffer', Some (a, len got)) ∧
     ztake (len got) buffer' = got ∧ len buffer' = len buffer) ∧
    (∀ k, queue n2 k = if same_key k b then [] else queue n k) ∧
    FakeNetwork.send_to (drop_packets n true) fd ip p
    = Ok (drop_packets (mkFakeNetwork (m_mtu n) (m_next_fd n) true (m_bind n) (m_buffers n)
            (m_stats n1)) true, len p).
Proof using Type.
  intros Ha Hb Hkey Hq Hmtu Hd.
  destruct (send_to_Ok n fd ip p a Ha Hd Hmtu) as (n1 & Hs & Hbind & Hq1).
  assert (find_ip n1 fd' = Some b) as Hb1 by (unfold find_ip in *; by rewrite Hbind).
  destruct (read_from_socket_Ok n1 fd' buffer b Hb1) as (n2 & buffer' & r & Hr & _ & Hr').
  rewrite Hq1, Hkey, Hq in Hr'. simpl in Hr'. destruct Hr' as (-> & -> & Hq2).
  set (got := take (length buffer) (ztake (m_mtu n) p)) in *.
  exists n1, n2. eexists. split; [done|]. split; [split; [exact Hr|]|split].
  - rewrite Nat2Z.id, take_app_length. split; [done|]. unfold got. list_lia.
  - intros k. rewrite Hq2. destruct (same_key k b) eqn:Hk; [done|]. rewrite Hq1.
    destruct (same_key k ip) eqn:Hk'; [|done]. rewrite same_key_sym in Hkey.
    by rewrite (same_key_trans k ip b) in Hk.
  - unfold FakeNetwork.send_to in Hs |- *. unfold find_ip in *. cbn [m_bind drop_packets m_stats] in *.
    rewrite Ha, Hd in *. destruct (index (m_stats n) a no_stats). destruct (index (m_buffers n) ip []).
    injection Hs as <-. done.
Qed.
End Fake.

(** Two sockets of a fake network with an MTU of 7. *)
Definition two_sockets : result FakeNetwork.FakeNetwork :=
  let a i := @from_u32 little_endian (3232235520 + i) 1000 in
  '(n, _) ← @UdpSocket.bind _ (@FakeNetwork.fake_network little_endian) (a 10) (FakeNetwork.create 7);
  '(n, _) ← @UdpSocket.bind _ (@FakeNetwork.fake_network little_endian) (a 20) n;
  Ok n.

Definition two_sockets_state : FakeNetwork.FakeNetwork :=
  let a i := @from_u32 little_endian (3232235520 + i) 1000 in
  FakeNetwork.mkFakeNetwork 7 2 false [(a 10, 0); (a 20, 1)] [] [].

Example two_sockets_eq : two_sockets = Ok two_sockets_state.
Proof. vm_compute. reflexivity. Qed.

Lemma fake_bindings_unique_witness :
  let a i := @from_u32 little_endian (3232235520 + i) 1000 in
  ∃ n' s, @UdpSocket.bind _ (@FakeNetwork.fake_network little_endian) (a 30) two_sockets_state = Ok (n', s) ∧
  @bindings_ok little_endian n' ∧ FakeNetwork.find_ip n' (UdpSocket.m_fd s) = Some (a 30) ∧
  UdpSocket.m_ip s = a 30 ∧ FakeNetwork.m_next_fd n' = 2 + 1 ∧
  ∀ fd, fd < 2 → FakeNetwork.find_ip n' fd = FakeNetwork.find_ip two_sockets_state fd.
Proof.
  cbv zeta. set (a := @from_u32 little_endian (3232235520 + 30) 1000).
  destruct (@UdpSocket.bind _ (@FakeNetwork.fake_network little_endian) a two_sockets_state)
    as [[n' s]|] eqn:Hb; [|by vm_compute in Hb].
  exists n', s. split; [done|].
  apply (@fake_bindings_unique little_endian two_sockets_state a n' s); [done| |done].
  split; [|split].
  - apply NoDup_cons. split; [set_solver|apply NoDup_singleton].
  - apply NoDup_cons. split; [|apply NoDup_singleton]. intros H%list_elem_of_singleton. by vm_compute in H.
  - repeat constructor; done.
Defined.

Lemma fake_delivery_witness :
  let a i := @from_u32 little_endian (3232235520 + i) 1000 in
  let p := [84; 104; 105; 115; 32; 105; 115; 32; 116] in
  ∃ n1 n2 buffer', @FakeNetwork.send_to little_endian two_sockets_state 0 (a 20) p = Ok (n1, 9) ∧
    (let got := take 12 (ztake 7 p) in
     @FakeNetwork.read_from_socket little_endian n1 1 (replicate 12 0) = Ok (n2, buffer', Some (a 10, len got)) ∧
     ztake (len got) buffer' = got ∧ len buffer' = 12) ∧
    (∀ k, @FakeNetwork.queue little_endian n2 k
          = if @same_key _ (@ip_order little_endian) k (a 20) then []
            else @FakeNetwork.queue little_endian two_sockets_state k) ∧
    @FakeNetwork.send_to little_endian (FakeNetwork.drop_packets two_sockets_state true) 0 (a 20) p
    = Ok (FakeNetwork.drop_packets (FakeNetwork.mkFakeNetwork 7 2 true (FakeNetwork.m_bind two_sockets_state) []
            (FakeNetwork.m_stats n1)) true, 9).
Proof.
  cbv zeta. apply (@fake_delivery little_endian two_sockets_state 0 _ _
    [84; 104; 105; 115; 32; 105; 115; 32; 116] 1 _ (replicate 12 0));
    first [reflexivity | vm_compute; by repeat split].
Defined.

(** C29: over system calls that behave as documented the operating system's network
    keeps the same promises to its clients as the fake one: a read fills at most
    the buffer and leaves its size, and a send that returns has sent everything. *)
Theorem os_network_interface {W} `{OsNetwork.Syscalls W, ByteOrder, !OsNetwork.SyscallsOk W}
    (n : OsNetwork.OsNetwork W) fd ip payload buffer n1 size n2 buffer' r :
  OsNetwork.send_to n fd ip payload = Ok (n1, size) →
  OsNetwork.read_from_socket n fd buffer = Ok (n2, buffer', r) →
  size = len payload ∧ len buffer' = len buffer ∧
  match r with Some (_, got) => 0 < got ≤ len buffer | None => buffer' = buffer end.
Proof.
  intros Hs Hr. split; [exact (send_size n fd ip payload n1 size Hs)|].
  by apply OsNetwork.read_from_socket_inv in Hr.
Qed.

(** System calls of a world that holds one waiting packet. *)
Definition one_packet : OsNetwork.Syscalls bytes := {|
  OsNetwork.platform := OsNetwork.PLATFORM_UNIX;
  OsNetwork.sys_socket w := (w, 3);
  OsNetwork.sys_bind w _ _ := (w, 0);
  OsNetwork.sys_fcntl_nonblock w _ := (w, 0);
  OsNetwork.sys_close w _ := (w, 0);
  OsNetwork.sys_recvfrom w _ size :=
    if (len w =? 0) || (size <? len w) then (w, (-1, 11, [], mkIpAddress (mkSockaddr 2 0 0)))
    else ([], (len w, 0, w, mkIpAddress (mkSockaddr 2 0 0)));
  OsNetwork.sys_sendto w _ _ p := (w, (len p, 0));
  OsNetwork.EWOULDBLOCK := 11;
  OsNetwork.sys_WSAStartup w _ := (w, 0);
  OsNetwork.sys_WSACleanup w := w;
  OsNetwork.sys_ioctlsocket_nonblock w _ := (w, 0);
  OsNetwork.sys_closesocket w _ := (w, (0, 0));
  OsNetwork.NO_ERROR := 0;
  OsNetwork.SOCKET_ERROR := -1;
|}.

Lemma one_packet_ok : @OsNetwork.SyscallsOk bytes one_packet.
Proof.
  split; cbn; intros w fd size w' ret errno data s H;
    destruct ((len w =? 0) || (size <? len w)) eqn:E; injection H as <- <- <- <- <-; try lia.
Qed.

Lemma os_network_interface_witness :
  let n := @OsNetwork.create bytes [1; 2; 3] in
  ∃ n1 n2 r, @OsNetwork.send_to bytes one_packet little_endian n 3 (mkIpAddress (mkSockaddr 2 0 0)) [7; 7]
    = Ok (n1, 2) ∧
    @OsNetwork.read_from_socket bytes one_packet n 3 [0; 0; 0; 0] = Ok (n2, [1; 2; 3; 0], r) ∧
    2 = len [7; 7] ∧ len [1; 2; 3; 0] = len [0; 0; 0; 0] ∧
    match r with Some (_, got) => 0 < got ≤ len [0; 0; 0; 0] | None => [1; 2; 3; 0] = [0; 0; 0; 0] end.
Proof.
  cbv zeta. do 3 eexists. split; [vm_compute; reflexivity|]. split; [vm_compute; reflexivity|].
  eapply (@os_network_interface bytes one_packet little_endian one_packet_ok
            (@OsNetwork.create bytes [1; 2; 3]) 3 (mkIpAddress (mkSockaddr 2 0 0)) [7; 7] [0; 0; 0; 0]);
    vm_compute; reflexivity.
Defined.
