(* ===== verification/Neptun.v ===== *)
(** * Neptun (neptun/neptun.h)

    One endpoint: the peers with their managers and streams, the socket, the
    network buffer. The network is an object shared by reference and is passed in
    and returned. The callbacks are modelled by the payloads they are called with,
    in order. *)
From Stdlib Require Import ZArith Lia.
From stdpp Require Import prelude strings.
From S2P Require Import Prelude Span IoBuffer FlipBuffer Messages ReliableStream PacketDeliveryManager ConnectionManager UnreliableStream Ticker Metrics IpAddress OrderedMap Network.
Open Scope Z_scope.

Definition kJustAboveMtu := 1600.
Definition kJustBelowMtu := 1400.

Record Peer := mkPeer {
  send_packet_ticker : Ticker;
  packet_delivery_manager : PacketDeliveryManager;
  connection_manager : ConnectionManager;
  reliable_stream : ReliableStream;
  unreliable_stream : UnreliableStream;
}.

#[export] Instance Peer_eq_dec : EqDecision Peer.
Proof. solve_decision. Defined.

Definition with_ticker (p : Peer) (t : Ticker) : Peer :=
  mkPeer t (packet_delivery_manager p) (connection_manager p) (reliable_stream p) (unreliable_stream p).
Definition with_pdm (p : Peer) (m : PacketDeliveryManager) : Peer :=
  mkPeer (send_packet_ticker p) m (connection_manager p) (reliable_stream p) (unreliable_stream p).
Definition with_cm (p : Peer) (c : ConnectionManager) : Peer :=
  mkPeer (send_packet_ticker p) (packet_delivery_manager p) c (reliable_stream p) (unreliable_stream p).
Definition with_reliable (p : Peer) (s : ReliableStream) : Peer :=
  mkPeer (send_packet_ticker p) (packet_delivery_manager p) (connection_manager p) s (unreliable_stream p).
Definition with_unreliable (p : Peer) (s : UnreliableStream) : Peer :=
  mkPeer (send_packet_ticker p) (packet_delivery_manager p) (connection_manager p) (reliable_stream p) s.

(** [nanoseconds(seconds(1)) / rate] *)
Definition update_send_rate (p : Peer) (rate : Z) : Peer :=
  if rate =? 0 then with_ticker p (clear_tick_interval (send_packet_ticker p))
  else
    let tick_interval := 1000000000 / rate in
    with_ticker p (set_tick_interval (send_packet_ticker p) tick_interval).

Record Neptun := mkNeptun {
  m_peers : map IpAddress Peer;
  m_udp_socket : UdpSocket.UdpSocket;
  m_network_buffer : bytes;
  m_packet_timeout : Z;
  m_connection_manager_config : ConnectionManagerConfig;
  m_metrics : Metrics;
}.

Definition with_peers (n : Neptun) (peers : map IpAddress Peer) : Neptun :=
  mkNeptun peers (m_udp_socket n) (m_network_buffer n) (m_packet_timeout n)
    (m_connection_manager_config n) (m_metrics n).
Definition with_network_buffer (n : Neptun) (b : bytes) : Neptun :=
  mkNeptun (m_peers n) (m_udp_socket n) b (m_packet_timeout n)
    (m_connection_manager_config n) (m_metrics n).
Definition with_metrics (n : Neptun) (m : Metrics) : Neptun :=
  mkNeptun (m_peers n) (m_udp_socket n) (m_network_buffer n) (m_packet_timeout n)
    (m_connection_manager_config n) m.

(** ** Delivery statuses *)

(** The callback of [process_delivery_statuses] on one status. *)
Definition process_delivery_status `{Platform} (peer : Peer) (metrics : Metrics)
    (packet_id : Z) (status : PacketDeliveryStatus) : result (Peer * Metrics) :=
  c ← on_packet_status_delivery (connection_manager peer) packet_id status;
  s ← ReliableStream.on_packet_delivery_status (reliable_stream peer) packet_id status;
  metrics ← inc metrics (match status with ACK => PACKET_ACKS | DROP => PACKET_DROPS end);
  Ok (with_reliable (with_cm peer c) s, metrics).

Fixpoint process_delivery_statuses `{Platform} (peer : Peer) (metrics : Metrics)
    (delivery_statuses : DeliveryStatuses) : result (Peer * Metrics) :=
  match delivery_statuses with
  | [] => Ok (peer, metrics)
  | (packet_id, status) :: rest =>
      '(peer, metrics) ← process_delivery_status peer metrics packet_id status;
      process_delivery_statuses peer metrics rest
  end.

Lemma process_delivery_statuses_for_each `{Platform} sts : ∀ peer metrics,
  process_delivery_statuses peer metrics sts
  = PacketDeliveryManager.for_each (λ '(peer, metrics) i st, process_delivery_status peer metrics i st) sts (peer, metrics).
Proof.
  induction sts as [|[i st] sts IH]; intros peer metrics; [done|]. cbn.
  destruct (process_delivery_status peer metrics i st) as [[p m]|]; [apply IH|done].
Qed.

(** ** Reading one packet *)

(** The rate both sides can do; 0 is no limit. *)
Definition negotiated_rate (peer_max_read_packet_rate self_max_send_packet_rate : Z) : Z :=
  if peer_max_read_packet_rate =? 0 then self_max_send_packet_rate
  else if self_max_send_packet_rate =? 0 then peer_max_read_packet_rate
  else Z.min peer_max_read_packet_rate self_max_send_packet_rate.

(** The part of [Neptun::read] behind the packet delivery manager, which has accepted
    the packet; [buffer] is what follows the header in the span and [tail] what an
    index behind the span reaches. *)
Definition read_segments `{Platform} (cfg : ConnectionManagerConfig) (peer : Peer) (metrics : Metrics)
    (delivery_statuses : DeliveryStatuses) (buffer tail : bytes)
    : result (Peer * Metrics * list bytes * list bytes) :=
  '(peer, metrics) ← process_delivery_statuses peer metrics delivery_statuses;
  (* Connection Manager stage. *)
  '(c, connection_manager_result) ← ConnectionManager.read (connection_manager peer) buffer tail;
  let peer := with_cm peer c in
  match connection_manager_result with
  | Unexpected _ => Ok (peer, metrics, [], [])
  | Value count =>
      buffer ← Span.advance buffer count;
      match peer_limit c with
      | None => Ok (peer, metrics, [], [])
      | Some l =>
          let peer := update_send_rate peer
            (negotiated_rate (max_read_packet_rate l) (max_send_packet_rate (limit cfg))) in
          (* Reliable Stream stage. *)
          '(s, on_reliable, reliable_stream_result) ← ReliableStream.read (reliable_stream peer) buffer;
          let peer := with_reliable peer s in
          match reliable_stream_result with
          | Unexpected _ => Ok (peer, metrics, on_reliable, [])
          | Value count =>
              buffer ← Span.advance buffer count;
              (* Unreliable Stream stage. *)
              '(on_unreliable, unreliable_stream_result) ← UnreliableStream.read buffer;
              match unreliable_stream_result with
              | Unexpected _ => Ok (peer, metrics, on_reliable, on_unreliable)
              | Value count =>
                  _ ← Span.advance buffer count;
                  Ok (peer, metrics, on_reliable, on_unreliable)
              end
          end
      end
  end.

(** What [Neptun::read] does with a packet for a peer: [buffer] is the payload and
    [rest] what follows it in the network buffer. The result is the peer, the
    metrics and the payloads the two callbacks get. *)
Definition read_packet `{Platform} (cfg : ConnectionManagerConfig) (peer : Peer) (metrics : Metrics)
    (buffer rest : bytes) : result (Peer * Metrics * list bytes * list bytes) :=
  (* Packet Delivery Manager stage. *)
  '(m, (read_count, delivery_statuses, packet_id)) ←
    process_read (packet_delivery_manager peer) (buffer ++ beyond rest);
  let peer := with_pdm peer m in
  if read_count =? 0 then Ok (peer, metrics, [], [])
  else
    buffer ← Span.advance buffer read_count;
    read_segments cfg peer metrics delivery_statuses buffer (beyond rest).

(** ** Writing one packet *)

(** What [write_to_peer] puts into the packet: the peer, the new contents of the
    span [buffer], and the sizes of the four parts. *)
Definition write_packet (peer : Peer) (buffer : bytes) (now : Z)
    : result (Peer * bytes * (Z * Z * Z * Z)) :=
  '(m, buffer, packet_header_count) ← PacketDeliveryManager.write (packet_delivery_manager peer) buffer now;
  view ← span_first buffer packet_header_count;
  packet_id ← PacketHeader.id view;
  '(buffer, (c, s, u, n2, n3, n4)) ← on_advance buffer packet_header_count (λ buffer,
    '(c, buffer, connection_manager_count) ← ConnectionManager.write (connection_manager peer) packet_id buffer;
    '(buffer, (s, u, n3, n4)) ← on_advance buffer connection_manager_count (λ buffer,
      '(s, buffer, reliable_stream_count) ← ReliableStream.write (reliable_stream peer) packet_id buffer;
      '(buffer, (u, n4)) ← on_advance buffer reliable_stream_count (λ buffer,
        '(u, buffer, unreliable_stream_count) ← UnreliableStream.write (unreliable_stream peer) buffer;
        _ ← Span.advance buffer unreliable_stream_count;
        Ok (buffer, (u, unreliable_stream_count)));
      Ok (buffer, (s, u, reliable_stream_count, n4)));
    Ok (buffer, (c, s, u, connection_manager_count, n3, n4)));
  Ok (mkPeer (send_packet_ticker peer) m c s u, buffer, (packet_header_count, n2, n3, n4)).

(** [max_send_packet_size] of [write]. *)
Definition send_size_limit (cfg : ConnectionManagerConfig) (peer : Peer) : Z :=
  match peer_limit (connection_manager peer) with
  | Some l => Z.min (max_read_packet_size l) (max_send_packet_size (limit cfg))
  | None => max_send_packet_size (limit cfg)
  end.

Section Endpoint.
Context `{Platform} `{ByteOrder} {N : Type} `{Network N}.

(** The constructor. *)
Definition create (network : N) (ip : IpAddress) (connection_manager_config : ConnectionManagerConfig)
    (packet_timeout : Z) : result (N * Neptun) :=
  '(network, socket) ← UdpSocket.bind ip network;
  Ok (network,
      mkNeptun [] socket (replicate (Z.to_nat kJustAboveMtu) 0) packet_timeout
        connection_manager_config (Metrics.create NeptunMetricKey "Neptun metrics")).

Definition new_peer (n : Neptun) (next_expected_packet_id now : Z) : Peer :=
  mkPeer (Ticker.create now None)
    (PacketDeliveryManager.create next_expected_packet_id (m_packet_timeout n))
    (ConnectionManager.create (m_connection_manager_config n))
    (ReliableStream.create ReliableStream.kDefaultCapacity)
    (UnreliableStream.create UnreliableStream.kDefaultCapacity).

(** The returned reference is the key: the caller updates the entry. *)
Definition find_or_create_peer (n : Neptun) (next_expected_packet_id : Z) (peer_ip : IpAddress) (now : Z)
    : Neptun * Peer :=
  match find (m_peers n) peer_ip with
  | Some peer => (n, peer)
  | None =>
      let peer := new_peer n next_expected_packet_id now in
      (with_peers n (insert (m_peers n) peer_ip peer), peer)
  end.

Definition set_peer (n : Neptun) (ip : IpAddress) (peer : Peer) : Neptun :=
  with_peers n (update (m_peers n) ip peer).

Definition connect (n : Neptun) (ip : IpAddress) (now : Z) : Neptun :=
  let '(n, peer) := find_or_create_peer n 0 ip now in
  set_peer n ip (with_cm peer (ConnectionManager.connect (connection_manager peer))).

Definition is_connected (n : Neptun) (ip : IpAddress) : bool :=
  match find (m_peers n) ip with
  | Some peer => is_peer_connected (connection_manager peer)
  | None => false
  end.

Definition send_reliable_to (n : Neptun) (ip : IpAddress) (write_to_buffer : WriteToBufferFn) (now : Z)
    : result Neptun :=
  assert_that (is_connected n ip);;
  let '(n, peer) := find_or_create_peer n 0 ip now in
  s ← ReliableStream.send (reliable_stream peer) write_to_buffer;
  Ok (set_peer n ip (with_reliable peer s)).

Definition send_unreliable_to (n : Neptun) (ip : IpAddress) (write_to_buffer : WriteToBufferFn) (now : Z)
    : result Neptun :=
  assert_that (is_connected n ip);;
  let '(n, peer) := find_or_create_peer n 0 ip now in
  s ← UnreliableStream.send (unreliable_stream peer) write_to_buffer;
  Ok (set_peer n ip (with_unreliable peer s)).

Definition read (network : N) (n : Neptun) (now : Z)
    : result (N * Neptun * list bytes * list bytes) :=
  network_buffer ← span_range (m_network_buffer n) 0 kJustAboveMtu;
  '(network, buffer, packet_info) ← UdpSocket.read network (m_udp_socket n) network_buffer;
  let n := with_network_buffer n (buffer ++ zdrop kJustAboveMtu (m_network_buffer n)) in
  match packet_info with
  | None => Ok (network, n, [], [])
  | Some (sender, size) =>
      let '(n, peer) := find_or_create_peer n 0 sender now in
      '(peer, metrics, on_reliable, on_unreliable) ←
        read_packet (m_connection_manager_config n) peer (m_metrics n)
          (ztake size (m_network_buffer n)) (zdrop size (m_network_buffer n));
      Ok (network, with_metrics (set_peer n sender peer) metrics, on_reliable, on_unreliable)
  end.

Definition write_to_peer (network : N) (n : Neptun) (now : Z) (ip : IpAddress) (peer : Peer)
    (max_send_packet_size : Z) : result (N * Neptun * Peer) :=
  let size := Z.min kJustBelowMtu max_send_packet_size in
  buffer ← span_range (m_network_buffer n) 0 size;
  '(peer, buffer, (n1, n2, n3, n4)) ← write_packet peer buffer now;
  let network_buffer := buffer ++ zdrop size (m_network_buffer n) in
  payload ← span_range network_buffer 0 (n1 + n2 + n3 + n4);
  '(network, sent_count) ← UdpSocket.send_to network (m_udp_socket n) ip payload;
  assert_that (sent_count =? len payload);;
  Ok (network, with_network_buffer n network_buffer, peer).

(** The body of the loop of [write]. *)
Definition write_peer (network : N) (n : Neptun) (now : Z) (ip : IpAddress) (peer : Peer)
    : result (N * Neptun * Peer) :=
  let max_send_packet_size := send_size_limit (m_connection_manager_config n) peer in
  '(ticker, ticked) ← tick (send_packet_ticker peer) now;
  let peer := with_ticker peer ticker in
  if ticked || negb (is_fully_connected (connection_manager peer)) then
    write_to_peer network n now ip peer max_send_packet_size
  else Ok (network, n, peer).

(** The loop; [done] are the entries it has been through. *)
Fixpoint write_loop (network : N) (n : Neptun) (now : Z) (peers : map IpAddress Peer)
    : result (N * Neptun * map IpAddress Peer) :=
  match peers with
  | [] => Ok (network, n, [])
  | (ip, peer) :: peers =>
      '(network, n, peer) ← write_peer network n now ip peer;
      '(network, n, peers) ← write_loop network n now peers;
      Ok (network, n, (ip, peer) :: peers)
  end.

Definition write (network : N) (n : Neptun) (now : Z) : result (N * Neptun) :=
  '(network, n, peers) ← write_loop network n now (m_peers n);
  Ok (network, with_peers n peers).

(** The body of the loop of [tick]. *)
Definition drop_peer (peer : Peer) (metrics : Metrics) (now : Z) : result (Peer * Metrics) :=
  '(m, delivery_statuses) ← drop_old_packets (packet_delivery_manager peer) now;
  process_delivery_statuses (with_pdm peer m) metrics delivery_statuses.

Fixpoint drop_loop (peers : map IpAddress Peer) (metrics : Metrics) (now : Z)
    : result (map IpAddress Peer * Metrics) :=
  match peers with
  | [] => Ok ([], metrics)
  | (ip, peer) :: peers =>
      '(peer, metrics) ← drop_peer peer metrics now;
      '(peers, metrics) ← drop_loop peers metrics now;
      Ok ((ip, peer) :: peers, metrics)
  end.

Definition tick (network : N) (n : Neptun) (now : Z)
    : result (N * Neptun * list bytes * list bytes) :=
  '(peers, metrics) ← drop_loop (m_peers n) (m_metrics n) now;
  let n := with_metrics (with_peers n peers) metrics in
  '(network, n, on_reliable, on_unreliable) ← read network n now;
  '(network, n) ← write network n now;
  Ok (network, n, on_reliable, on_unreliable).
End Endpoint.

(** ** Invariant of a peer *)

(** The invariants of a peer's parts, [resolved] of its [sent] packets having left
    the in-flight queue. *)
Record peer_ok (p : Peer) (resolved sent first leak : Z) : Prop := {
  ok_pdm : PacketDeliveryManager.inv (packet_delivery_manager p) resolved sent;
  ok_reliable : ReliableStream.inv (reliable_stream p) first;
  ok_unreliable : UnreliableStream.inv (unreliable_stream p) leak;
  ok_expected : in_u 32 (m_next_expected_sequence_number (reliable_stream p));
  ok_behind : Forall (λ m, packet_id m < sent) (in_flight_messages (reliable_stream p));
}.

(** A peer in good order: in addition no message is in flight in a packet that has
    left the queue. *)
Record peer_inv (p : Peer) (resolved sent first leak : Z) : Prop := {
  pi_ok : peer_ok p resolved sent first leak;
  pi_coupled : Forall (λ m, resolved ≤ packet_id m) (in_flight_messages (reliable_stream p));
}.

(** The platform survives the [pop] of [on_packet_status_delivery], or no
    LetsConnect is in flight. *)
Definition handshake_safe `{Platform} (c : ConnectionManager) : Prop :=
  m_in_flight_lets_connect c = [] ∨ pop_on_empty = Ok [].

Lemma status_safe `{Platform} c packet_id status :
  handshake_safe c → ∃ c', on_packet_status_delivery c packet_id status = Ok c' ∧ handshake_safe c' ∧
    m_peer_bandwidth_limit c' = m_peer_bandwidth_limit c ∧ m_config c' = m_config c.
Proof.
  intros [Hq|Hp]; [exists c; rewrite status_idle by done; split_and!; by try left|].
  unfold on_packet_status_delivery, handshake_safe. destruct status.
  - destruct (front_is _ _); [|exists c; split_and!; by try right].
    rewrite clear_queue_empty. simpl. rewrite Hp. eexists. split; [done|]. split_and!; [by left|done..].
  - destruct (m_in_flight_lets_connect c) as [|x q] eqn:E; simpl; [exists c; split_and!; by try right|].
    destruct (x =? packet_id); eexists; (split; [done|]); split_and!; by try right.
Qed.

(** ** Delivery statuses *)

(** A batch of statuses for the next packets: all of them are processed, the
    messages of acknowledged packets are released and no message in flight is left
    behind. *)
Lemma statuses_Ok `{Platform} sts : ∀ p metrics next first,
  sts.*1 = seqZ next (len sts) → ReliableStream.inv (reliable_stream p) first →
  Forall (λ m, next ≤ packet_id m) (in_flight_messages (reliable_stream p)) →
  handshake_safe (connection_manager p) → wf NeptunMetricKey metrics →
  ∃ c s metrics' k, process_delivery_statuses p metrics sts = Ok (with_reliable (with_cm p c) s, metrics') ∧
    ReliableStream.inv s (first + Z.of_nat k) ∧ outstanding s = drop k (outstanding (reliable_stream p)) ∧
    m_next_expected_sequence_number s = m_next_expected_sequence_number (reliable_stream p) ∧
    Forall (λ m, next + len sts ≤ packet_id m) (in_flight_messages s) ∧
    (∀ m, m ∈ in_flight_messages s → m ∈ in_flight_messages (reliable_stream p)) ∧
    handshake_safe c ∧ m_peer_bandwidth_limit c = m_peer_bandwidth_limit (connection_manager p) ∧
    m_config c = m_config (connection_manager p) ∧ wf NeptunMetricKey metrics'.
Proof.
  induction sts as [|[i st] sts IH]; intros p metrics next first Hids Hinv Hge Hsafe Hwf.
  { exists (connection_manager p), (reliable_stream p), metrics, 0%nat. simpl. rewrite !Z.add_0_r, drop_0.
    split_and!; try done. by destruct p. }
  rewrite fmap_cons, length_cons, Nat2Z.inj_succ, <-Z.add_1_l, seqZ_cons in Hids by lia.
  injection Hids as -> Hids. replace (Z.pred (1 + len sts)) with (len sts) in Hids by lia.
  cbn [process_delivery_statuses]. unfold process_delivery_status at 1.
  destruct (status_safe (connection_manager p) next st Hsafe) as (c & -> & Hsafe' & Hlim & Hcfg).
  cbn [mbind result_bind].
  assert (∃ s, ReliableStream.on_packet_delivery_status (reliable_stream p) next st = Ok s) as [s Hs].
  { destruct st; [destruct (on_ack_Ok _ _ _ Hinv Hge) as (? & s & Hx & _)
                 |destruct (on_drop_Ok _ _ _ Hinv Hge) as (s & Hx & _)]; by exists s. }
  rewrite Hs. cbn [mbind result_bind].
  destruct (on_status_inv _ _ _ _ _ Hinv Hs) as (acked & Hinv' & Hout & Hexp & Hgt & Hst).
  destruct (inc_Ok metrics (match st with ACK => PACKET_ACKS | DROP => PACKET_DROPS end) Hwf)
    as (metrics1 & -> & Hwf1). cbn [mbind result_bind].
  destruct (IH (with_reliable (with_cm p c) s) metrics1 (Z.succ next) (first + len acked))
    as (c2 & s2 & metrics2 & k & -> & Hinv2 & Hout2 & Hexp2 & Hge2 & Hsub & Hsafe2 & Hlim2 & Hcfg2 & Hwf2);
    [done|done|eapply Forall_impl; [exact Hgt|]; simpl; lia|done|done|].
  cbn [reliable_stream with_reliable connection_manager with_cm] in *.
  exists c2, s2, metrics2, (length acked + k)%nat. split_and!; try done.
  - by replace (first + Z.of_nat (length acked + k)) with (first + len acked + Z.of_nat k) by lia.
  - by rewrite Hout2, Hout, drop_drop.
  - congruence.
  - eapply Forall_impl; [exact Hge2|]. simpl. lia.
  - intros m Hm%Hsub. destruct st.
    + destruct Hst as (-> & _ & _). set_solver.
    + destruct Hst as (_ & Hnil & _). rewrite Hnil in Hm. set_solver.
  - congruence.
  - congruence.
Qed.

(** ** Writing a packet *)

(** The parts of a packet: the header, what the connection manager wrote, the
    segment of the reliable messages [ps] from number [start] on, and the unreliable
    segment of [us]. *)
Record packet := mkPacket {
  pk_id : Z; pk_ack : Z; pk_mask : Z;
  pk_handshake : bytes;
  pk_start : Z; pk_reliable : list bytes;
  pk_unreliable : list bytes;
}.

Definition packet_bytes (k : packet) : bytes :=
  PacketHeader.encode (pk_id k) (pk_ack k) (pk_mask k) ++ pk_handshake k ++
  segment_of (pk_start k) (pk_reliable k) ++ UnreliableStream.encode_segment (pk_unreliable k).

(** No further one of the messages [all] fits into [size] bytes behind [ps], the first ones. *)
Definition longest (size start : Z) (ps all : list bytes) : Prop :=
  match drop (length ps) all with
  | [] => True
  | x :: _ => size < Segment.kSerializedSize + len (encode_from start ps) + ReliableMessage.serialized_size (len x)
  end.

(** What a packet written into [size] bytes has to do with the peer before and after. *)
Record packet_of (size : Z) (p p' : Peer) (sent first : Z) (k : packet) : Prop := {
  po_id : pk_id k = sent;
  po_ack : in_u 32 (pk_ack k);
  po_mask : in_u 32 (pk_mask k);
  po_acked i : status_of (pk_ack k) (pk_mask k) i = ACK → i ∈ m_pending_acks (packet_delivery_manager p);
  po_pending i : i ∈ m_pending_acks (packet_delivery_manager p') → i ∈ m_pending_acks (packet_delivery_manager p);
  po_next : m_next_expected_packet_id (packet_delivery_manager p')
            = m_next_expected_packet_id (packet_delivery_manager p);
  po_handshake : m_num_lets_connect_to_send (connection_manager p) ≤ 0 →
                 pk_handshake k = [] ∧ connection_manager p' = connection_manager p;
  po_start : pk_start k = first + len (in_flight_messages (reliable_stream p));
  po_reliable : ∃ taken rest, pending_messages (reliable_stream p) = taken ++ rest ∧
    reliable_stream p' = ReliableStream.after_write (reliable_stream p) sent taken rest ∧
    pk_reliable k = ReliableStream.payload_in (ReliableStream.m_buffer (reliable_stream p)) <$> taken;
  po_count : (length (pk_reliable k) < 256)%nat;
  po_reliable_ok : ReliableStream.messages_ok (pk_reliable k);
  po_unreliable : ∃ lost, UnreliableStream.pending (unreliable_stream p) = pk_unreliable k ++ lost;
  po_kept : pk_unreliable k ++ UnreliableStream.pending (unreliable_stream p')
            `sublist_of` UnreliableStream.pending (unreliable_stream p);
  po_unreliable_ok : UnreliableStream.messages_ok (pk_unreliable k);
  po_acks : ∃ acked, m_pending_acks (packet_delivery_manager p) = acked ++ m_pending_acks (packet_delivery_manager p') ∧
    (acked = [] → m_pending_acks (packet_delivery_manager p) = []) ∧
    ∀ i, status_of (pk_ack k) (pk_mask k) i = ACK ↔ i ∈ acked;
  po_longest : longest (size - 12 - len (pk_handshake k)) (pk_start k) (pk_reliable k)
    (ReliableStream.payload_in (ReliableStream.m_buffer (reliable_stream p)) <$> pending_messages (reliable_stream p));
  po_due : 0 < m_num_lets_connect_to_send (connection_manager p) →
           (∃ gap, pk_handshake k = handshake_bytes (connection_manager p) gap) ∧
           connection_manager p' = ConnectionManager.after_write (connection_manager p) sent;
}.

Lemma unreliable_write_Ok s leak buffer :
  UnreliableStream.inv s leak → len buffer < 2 ^ 62 →
  ∃ us lost s' leak', UnreliableStream.pending s = us ++ lost ∧ UnreliableStream.messages_ok us ∧
    let seg := UnreliableStream.encode_segment us in
    UnreliableStream.write s buffer = Ok (s', seg ++ drop (length seg) buffer, len seg) ∧
    len seg ≤ len buffer ∧ UnreliableStream.inv s' leak' ∧
    us ++ UnreliableStream.pending s' `sublist_of` UnreliableStream.pending s.
Proof.
  intros Hinv Hb. destruct (UnreliableStream.us_write_Ok s leak buffer Hinv ltac:(lia))
    as (taken & rest & Hp & _ & [[-> Hw]|[Hne (s' & Hw & Hsize & [Hinv' Hnil _ _])]]).
  { exists [], (UnreliableStream.pending s), s, leak. simpl. rewrite drop_0.
    split_and!; try (done || lia). constructor. }
  exists (UnreliableStream.payload_in (UnreliableStream.m_buffer s) <$> taken),
    (UnreliableStream.payload_in (UnreliableStream.m_buffer s) <$> rest), s', (leak + total rest).
  split; [unfold UnreliableStream.pending; by rewrite Hp, fmap_app|].
  split; [|split_and!; try done].
  - apply Forall_fmap, Forall_forall. intros x Hx. simpl.
    eapply UnreliableStream.payload_ok; [done|]. rewrite Hp. set_solver.
  - unfold UnreliableStream.pending. rewrite Hnil, Hp, fmap_app. apply sublist_app; [done|apply sublist_nil_l].
Qed.

(** The messages the two streams put into a packet: [taken] and [us]; [u] is the
    unreliable stream afterwards. *)
Record streams_written (size first : Z) (p : Peer) (taken rest : list PendingMessage) (us : list bytes)
    (u : UnreliableStream) (leak : Z) : Prop := {
  sw_pending : pending_messages (reliable_stream p) = taken ++ rest;
  sw_count : (length taken < 256)%nat;
  sw_ok : ReliableStream.messages_ok
            (ReliableStream.payload_in (ReliableStream.m_buffer (reliable_stream p)) <$> taken);
  sw_lost : ∃ lost, UnreliableStream.pending (unreliable_stream p) = us ++ lost;
  sw_unreliable_ok : UnreliableStream.messages_ok us;
  sw_kept : us ++ UnreliableStream.pending u `sublist_of` UnreliableStream.pending (unreliable_stream p);
  sw_inv : UnreliableStream.inv u leak;
  sw_longest : let payload := ReliableStream.payload_in (ReliableStream.m_buffer (reliable_stream p)) in
    longest size (first + len (in_flight_messages (reliable_stream p))) (payload <$> taken)
      (payload <$> pending_messages (reliable_stream p));
}.

(** The part behind the header of the packet, by the sub-spans of [write_packet]. *)
Lemma write_streams_Ok p sent first leak buffer :
  ReliableStream.inv (reliable_stream p) first → UnreliableStream.inv (unreliable_stream p) leak → len buffer ≤ 1793 →
  ∃ taken rest us u leak', streams_written (len buffer) first p taken rest us u leak' ∧
    let ps := ReliableStream.payload_in (ReliableStream.m_buffer (reliable_stream p)) <$> taken in
    let seg := segment_of (first + len (in_flight_messages (reliable_stream p))) ps in
    let useg := UnreliableStream.encode_segment us in
    len seg + len useg ≤ len buffer ∧
    ReliableStream.write (reliable_stream p) sent buffer
    = Ok (ReliableStream.after_write (reliable_stream p) sent taken rest, seg ++ drop (length seg) buffer, len seg) ∧
    on_advance (seg ++ drop (length seg) buffer) (len seg) (λ b,
      '(u, b, n) ← UnreliableStream.write (unreliable_stream p) b;
      _ ← Span.advance b n;
      Ok (b, (u, n)))
    = Ok (seg ++ useg ++ drop (length seg + length useg) buffer, (u, len useg)).
Proof.
  intros Hrel Hunrel Hb.
  destruct (ReliableStream.rs_write_Ok _ first sent buffer Hrel Hb) as (taken & rest & Hp & Hw & Hsize & Hcount & Hmax).
  pose proof (inv_numbered _ _ Hrel) as Hnum. unfold ReliableStream.messages in Hnum. apply numbered_app in Hnum as [_ Hnum].
  rewrite Hp, length_fmap in Hnum. apply numbered_app in Hnum as [Hnum _].
  rewrite (encode_segment_of _ _ _ Hnum) in Hw, Hsize. rewrite (encode_messages_from _ _ _ Hnum) in Hmax.
  set (ps := ReliableStream.payload_in (ReliableStream.m_buffer (reliable_stream p)) <$> taken) in *.
  set (seg := segment_of (first + len (in_flight_messages (reliable_stream p))) ps) in *.
  destruct (unreliable_write_Ok (unreliable_stream p) leak (drop (length seg) buffer) Hunrel)
    as (us & lost & u & leak' & Hu & Hok & Huw & Husize & Huinv & Hkept); [list_lia|].
  set (useg := UnreliableStream.encode_segment us) in *.
  exists taken, rest, us, u, leak'. split.
  - split; try done; [|by exists lost|].
    2:{ cbv zeta. unfold longest. rewrite Hp, fmap_app, drop_app_length. by destruct rest. }
    apply Forall_fmap, Forall_forall. intros m Hm. simpl. pose proof Hrel as [Hwf Hcap Hc _ _ _].
    eapply ReliableStream.payload_size; [exact Hwf|exact Hcap| | |exact Hc|]; [lia|lia|].
    unfold ReliableStream.messages. rewrite Hp. set_solver.
  - cbv zeta. fold ps. fold seg. fold useg. split_and!; [rewrite length_drop in Husize; lia|done|].
    erewrite on_advance_Ok; [|done|list_lia|].
    2:{ rewrite Huw. cbn [mbind result_bind]. rewrite Span.advance_Ok by list_lia. done. }
    by rewrite drop_drop.
Qed.

(** The two streams behind the handshake of [n] bytes. *)
Lemma write_behind_handshake_Ok p sent first leak buffer n :
  ReliableStream.inv (reliable_stream p) first → UnreliableStream.inv (unreliable_stream p) leak →
  len buffer ≤ 1793 → 0 ≤ n ≤ len buffer →
  ∃ taken rest us u leak', streams_written (len buffer - n) first p taken rest us u leak' ∧
    let ps := ReliableStream.payload_in (ReliableStream.m_buffer (reliable_stream p)) <$> taken in
    let seg := segment_of (first + len (in_flight_messages (reliable_stream p))) ps in
    let useg := UnreliableStream.encode_segment us in
    n + len seg + len useg ≤ len buffer ∧
    ∃ buffer', len buffer' = len buffer ∧
      ztake (n + len seg + len useg) buffer' = ztake n buffer ++ seg ++ useg ∧
    on_advance buffer n (λ buffer,
      '(s, buffer, n3) ← ReliableStream.write (reliable_stream p) sent buffer;
      '(buffer, (u, n4)) ← on_advance buffer n3 (λ buffer,
        '(u, buffer, n4) ← UnreliableStream.write (unreliable_stream p) buffer;
        _ ← Span.advance buffer n4;
        Ok (buffer, (u, n4)));
      Ok (buffer, (s, u, n3, n4)))
    = Ok (buffer', (ReliableStream.after_write (reliable_stream p) sent taken rest, u, len seg, len useg)).
Proof.
  intros Hrel Hunrel Hb Hn. destruct (write_streams_Ok p sent first leak (zdrop n buffer) Hrel Hunrel)
    as (taken & rest & us & u & leak' & Hsw & H7 & H8 & H9); [list_lia|].
  exists taken, rest, us, u, leak'.
  split; [by rewrite length_drop in Hsw; replace (len buffer - n) with (Z.of_nat (length buffer - Z.to_nat n)) by lia|]. cbv zeta in *.
  set (seg := segment_of _ _) in *. set (useg := UnreliableStream.encode_segment us) in *.
  rewrite length_drop in H7. split; [lia|].
  exists (ztake n buffer ++ seg ++ useg ++ drop (length seg + length useg) (zdrop n buffer)).
  split; [list_lia|]. split.
  - rewrite (app_assoc seg), (app_assoc (ztake n buffer)). apply take_reassoc. list_lia.
  - rewrite <-(take_drop (Z.to_nat n) buffer) at 1.
    erewrite on_advance_Ok; [done|list_lia|list_lia|]. rewrite H8. cbn [mbind result_bind].
    rewrite H9. done.
Qed.

Lemma write_packet_Ok p resolved sent first leak buffer now :
  peer_ok p resolved sent first leak → sent < 2 ^ 32 →
  m_num_lets_connect_to_send (connection_manager p) ≤ 0 ∨ 22 ≤ len buffer →
  12 ≤ len buffer ≤ 1793 →
  ∃ p' buffer' n2 n3 n4 k leak', write_packet p buffer now = Ok (p', buffer', (12, n2, n3, n4)) ∧
    len buffer' = len buffer ∧ 0 ≤ n2 ∧ 0 ≤ n3 ∧ 0 ≤ n4 ∧ 12 + n2 + n3 + n4 ≤ len buffer ∧
    ztake (12 + n2 + n3 + n4) buffer' = packet_bytes k ∧
    packet_of (len buffer) p p' sent first k ∧ peer_ok p' resolved (sent + 1) first leak' ∧
    outstanding (reliable_stream p') = outstanding (reliable_stream p) ∧
    send_packet_ticker p' = send_packet_ticker p ∧
    (0 < m_num_lets_connect_to_send (connection_manager p) →
       connection_manager p' = ConnectionManager.after_write (connection_manager p) sent).
Proof.
  intros Hinv Hs Hhs Hb. pose proof Hinv as [Hpdm Hrel Hunrel Hexp Hbehind].
  pose proof (si_resolved _ _ _ (inv_sent _ _ _ Hpdm)) as Hres.
  destruct (PacketDeliveryManager.pdm_write_Ok _ resolved sent buffer now Hpdm Hs)
    as (acked & arest & a & mask & m' & Hpend & Hw & Hpdm' & Hrest & Hnext & Hto & Hfl & Ha & Hmask & Hne & Hst);
    [unfold PacketHeader.kSerializedSize; lia|].
  pose proof (PacketHeader.packet_header_length_encode sent a mask) as Hhdr.
  destruct (ConnectionManager.write_total (connection_manager p) sent (drop 12 buffer))
    as (c' & cb & n2 & Hcw & Hcl & Hn2 & Hidle & Hdue); [list_lia|list_lia|].
  destruct (write_behind_handshake_Ok p sent first leak cb n2 Hrel Hunrel ltac:(list_lia) ltac:(lia))
    as (taken & rest & us & u & leak' & [Hp Hcount Hps Hlost Huok Hkept Huinv Hlong] & Hfit & sb & Hsl & Hsb & Hsw).
  set (ps := ReliableStream.payload_in (ReliableStream.m_buffer (reliable_stream p)) <$> taken) in *.
  set (seg := segment_of _ ps) in *. set (useg := UnreliableStream.encode_segment us) in *.
  exists (mkPeer (send_packet_ticker p) m' c' (ReliableStream.after_write (reliable_stream p) sent taken rest) u),
    (PacketHeader.encode sent a mask ++ sb), n2, (len seg), (len useg),
    (mkPacket sent a mask (ztake n2 cb) (first + len (in_flight_messages (reliable_stream p))) ps us), leak'.
  split_and!; [| list_lia | lia | lia | lia | list_lia | | | | | done | ].
  - unfold write_packet. rewrite Hw. cbn [mbind result_bind].
    rewrite span_first_Ok by (unfold PacketHeader.kSerializedSize; list_lia). cbn [mbind result_bind].
    change (Z.to_nat PacketHeader.kSerializedSize) with 12%nat.
    rewrite (take_reassoc 12) by done. rewrite <-(app_nil_r (PacketHeader.encode sent a mask)) at 1.
    rewrite PacketHeader.id_encode, wrap_small by (unfold in_u; lia). cbn [mbind result_bind].
    erewrite on_advance_Ok; [|unfold PacketHeader.kSerializedSize; lia|list_lia|].
    2:{ rewrite Hcw. cbn [mbind result_bind]. rewrite Hsw. done. }
    done.
  - unfold packet_bytes. cbn [pk_id pk_ack pk_mask pk_handshake pk_start pk_reliable pk_unreliable].
    fold seg. fold useg. rewrite <-Hsb. rewrite take_app_ge by (rewrite Hhdr; lia).
    f_equal. rewrite Hhdr. f_equal. lia.
  - split; cbn; try done.
    + intros i Hi. rewrite Hpend. apply elem_of_app. left. by apply Hst.
    + intros i Hi. rewrite Hpend, <-Hrest. set_solver.
    + intros Hn. destruct (Hidle Hn) as (-> & -> & ->). done.
    + exists taken, rest. done.
    + unfold ps. by rewrite length_fmap.
    + exists acked. by rewrite Hrest.
    + rewrite Hcl, length_drop in Hlong. rewrite length_take.
      by replace (len buffer - 12 - Z.of_nat (Z.to_nat n2 `min` length cb)) with (Z.of_nat (length buffer - 12) - n2) by list_lia.
    + intros Hn. by destruct (Hdue Hn) as (-> & _ & Hgap).
  - destruct (inv_after_write _ first sent taken rest Hrel Hp) as [Hrel' _].
    { eapply Forall_impl; [exact Hbehind|]. simpl. lia. }
    split; cbn; try done. apply Forall_app. split.
    + eapply Forall_impl; [exact Hbehind|]. simpl. lia.
    + apply Forall_fmap, Forall_true. intros m. simpl. lia.
  - cbn [reliable_stream]. eapply inv_after_write; [exact Hrel|exact Hp|].
    eapply Forall_impl; [exact Hbehind|]. simpl. lia.
  - intros Hn. by destruct (Hdue Hn) as [-> _].
Qed.

(** A packet that could be written had room for a header. *)
Lemma write_packet_size p buffer now r : write_packet p buffer now = Ok r → 12 ≤ len buffer.
Proof.
  unfold write_packet. intros H. apply Prelude.bind_Ok in H as ([[m b] n] & H & _).
  unfold PacketDeliveryManager.write in H. destruct (m_pending_acks _).
  - apply Prelude.bind_Ok in H as ([b' v] & H & _). by eapply PacketHeader.packet_header_write_size.
  - apply Prelude.bind_Ok in H as ([q mask] & _ & H). apply Prelude.bind_Ok in H as ([b' v] & H & _).
    by eapply PacketHeader.packet_header_write_size.
Qed.

(** A written packet is the newest: what goes in flight with it is no older. *)
Lemma packet_coupled size p p' resolved sent first k :
  packet_of size p p' sent first k → resolved ≤ sent →
  Forall (λ m, resolved ≤ packet_id m) (in_flight_messages (reliable_stream p)) →
  Forall (λ m, resolved ≤ packet_id m) (in_flight_messages (reliable_stream p')).
Proof.
  intros Hk Hle Hall. destruct (po_reliable _ _ _ _ _ _ Hk) as (taken & rest & _ & -> & _).
  cbn. apply Forall_app. split; [done|]. by apply Forall_fmap, Forall_true.
Qed.

(** ** Reading a packet *)

(** A buffer on which the connection manager does not read beyond the end: it is not
    a segment, or a segment of somebody else, or long enough for a LetsConnect. *)
Definition handshake_readable (buffer : bytes) : Prop :=
  len buffer < Segment.kSerializedSize ∨ 10 ≤ len buffer ∨
  ∃ t, Segment.manager_type buffer = Ok t ∧ t ≠ CONNECTION_MANAGER.

Lemma handshake_read_Ok c buffer tail :
  handshake_readable buffer → len buffer < 2 ^ 63 →
  ∃ c' r, ConnectionManager.read c buffer tail = Ok (c', r) ∧
    m_in_flight_lets_connect c' = m_in_flight_lets_connect c ∧
    match r with Value n => 0 ≤ n ≤ len buffer | Unexpected _ => True end.
Proof.
  intros Hr Hl. assert (∃ c' r, ConnectionManager.read c buffer tail = Ok (c', r) ∧
    match r with Value n => 0 ≤ n ≤ len buffer | Unexpected _ => True end) as (c' & r & H & Hn).
  { destruct Hr as [Hr|[Hr|Hr]].
    - exists c, (Value 0). split; [apply cm_read_other; by left|lia].
    - destruct (ConnectionManager.cm_read_total c buffer tail ltac:(lia)) as (c' & r & -> & Hc).
      exists c', r. split; [done|]. destruct r; [|done]. unfold encoded_size in Hc. lia.
    - exists c, (Value 0). split; [apply cm_read_other; by right|lia]. }
  exists c', r. pose proof H as (_ & _ & Hq)%read_frame. by split_and!.
Qed.

Lemma handshake_safe_queue `{Platform} c c' :
  m_in_flight_lets_connect c' = m_in_flight_lets_connect c → handshake_safe c → handshake_safe c'.
Proof. intros Hq [Hs|Hs]; [left; congruence|by right]. Qed.

Lemma reliable_stream_update_send_rate p rate :
  packet_delivery_manager (update_send_rate p rate) = packet_delivery_manager p ∧
  connection_manager (update_send_rate p rate) = connection_manager p ∧
  reliable_stream (update_send_rate p rate) = reliable_stream p ∧
  unreliable_stream (update_send_rate p rate) = unreliable_stream p.
Proof. unfold update_send_rate. by destruct (rate =? 0). Qed.

(** The streams behind the connection manager, on any bytes. *)
Lemma read_streams_total (s : ReliableStream) buffer :
  len buffer < 2 ^ 63 → in_u 32 (m_next_expected_sequence_number s) →
  ∃ new r, ReliableStream.read s buffer
    = Ok (ReliableStream.with_expected s (u32 (m_next_expected_sequence_number s + len new)), new, r) ∧
    match r with
    | Unexpected _ => True
    | Value n => ∃ rest unew ur, Span.advance buffer n = Ok rest ∧ UnreliableStream.read rest = Ok (unew, ur) ∧
        match ur with
        | Unexpected _ => True
        | Value m => ∃ rest', Span.advance rest m = Ok rest'
        end
    end.
Proof.
  intros Hl Hs. destruct (ReliableStream.rs_read_total s buffer ltac:(lia) Hs) as (new & r & -> & _ & _ & Hr).
  exists new, r. split; [done|]. destruct r as [n|]; [|done].
  exists (zdrop n buffer). rewrite Span.advance_Ok by lia.
  destruct (UnreliableStream.us_read_total (zdrop n buffer)) as (unew & ur & -> & _ & _ & Hur); [list_lia|].
  exists unew, ur. split_and!; [done|done|]. destruct ur as [m|]; [|done].
  exists (zdrop m (zdrop n buffer)). apply Span.advance_Ok; [lia|list_lia].
Qed.

(** What reading an accepted packet does to a peer. *)
Record peer_after_read `{Platform} (p p' : Peer) (next first k : Z) (new : list bytes) : Prop := {
  ar_pdm : packet_delivery_manager p' = packet_delivery_manager p;
  ar_unreliable : unreliable_stream p' = unreliable_stream p;
  ar_safe : handshake_safe (connection_manager p');
  ar_reliable : ReliableStream.inv (reliable_stream p') (first + k);
  ar_released : 0 ≤ k;
  ar_outstanding : outstanding (reliable_stream p') = zdrop k (outstanding (reliable_stream p));
  ar_expected : m_next_expected_sequence_number (reliable_stream p')
                = u32 (m_next_expected_sequence_number (reliable_stream p) + len new);
  ar_coupled : Forall (λ m, next ≤ packet_id m) (in_flight_messages (reliable_stream p'));
  ar_subset m : m ∈ in_flight_messages (reliable_stream p') → m ∈ in_flight_messages (reliable_stream p);
}.

Lemma read_segments_Ok `{Platform} cfg p metrics sts buffer tail next first :
  sts.*1 = seqZ next (len sts) → ReliableStream.inv (reliable_stream p) first →
  in_u 32 (m_next_expected_sequence_number (reliable_stream p)) →
  Forall (λ m, next ≤ packet_id m) (in_flight_messages (reliable_stream p)) →
  handshake_safe (connection_manager p) → wf NeptunMetricKey metrics →
  handshake_readable buffer → len buffer < 2 ^ 62 →
  ∃ p' metrics' new unew k, read_segments cfg p metrics sts buffer tail = Ok (p', metrics', new, unew) ∧
    wf NeptunMetricKey metrics' ∧ peer_after_read p p' (next + len sts) first k new.
Proof.
  intros Hids Hrel Hexp Hge Hsafe Hwf Hr Hl. unfold read_segments.
  destruct (statuses_Ok sts p metrics next first Hids Hrel Hge Hsafe Hwf)
    as (c & s & metrics' & k & -> & Hrel' & Hout & Hexp' & Hge' & Hsub & Hsafe' & _ & _ & Hwf').
  cbn [mbind result_bind]. cbn [connection_manager with_reliable with_cm].
  destruct (handshake_read_Ok c buffer tail Hr ltac:(lia)) as (c2 & r & -> & Hq & Hn).
  pose proof (handshake_safe_queue _ _ Hq Hsafe') as Hsafe2. cbn [mbind result_bind].
  set (p2 := with_cm (with_reliable (with_cm p c) s) c2).
  assert (in_u 32 (m_next_expected_sequence_number s)) as Hexp2 by (by rewrite Hexp').
  assert (peer_after_read p p2 (next + len sts) first (Z.of_nat k) []) as Hp2.
  { split; cbn; try (done || lia); [by rewrite Nat2Z.id|]. by rewrite Z.add_0_r, wrap_small. }
  destruct r as [n|]; [|by do 5 eexists].
  rewrite Span.advance_Ok by lia. cbn [mbind result_bind].
  destruct (peer_limit c2) as [l|]; [|by do 5 eexists].
  set (rate := negotiated_rate _ _).
  destruct (reliable_stream_update_send_rate p2 rate) as (E1 & E2 & E3 & E4).
  rewrite E3. cbn [reliable_stream p2 with_cm with_reliable].
  destruct (read_streams_total s (zdrop n buffer) ltac:(list_lia) Hexp2) as (new & r & -> & Hu).
  cbn [mbind result_bind]. set (s' := ReliableStream.with_expected s _).
  assert (peer_after_read p (with_reliable (update_send_rate p2 rate) s') (next + len sts) first (Z.of_nat k) new)
    as Hp3.
  { split; cbn; rewrite ?E1, ?E2, ?E4; try (done || lia); [by destruct Hrel'|by rewrite Nat2Z.id|by rewrite Hexp']. }
  destruct r as [m|]; [|by do 5 eexists].
  destruct Hu as (rest1 & unew & ur & -> & Hur & Hend). cbn [mbind result_bind]. rewrite Hur.
  cbn [mbind result_bind]. destruct ur; [|by do 5 eexists].
  destruct Hend as [rest2 ->]. cbn [mbind result_bind]. by do 5 eexists.
Qed.

(** The bytes the packet delivery manager looks at are those of the payload. *)
Lemma header_prefix buffer tail :
  PacketHeader.kSerializedSize ≤ len buffer →
  PacketHeader.id (buffer ++ tail) = PacketHeader.id buffer ∧
  PacketHeader.ack_sequence_number (buffer ++ tail) = PacketHeader.ack_sequence_number buffer ∧
  PacketHeader.ack_bitmask (buffer ++ tail) = PacketHeader.ack_bitmask buffer.
Proof.
  unfold PacketHeader.id, PacketHeader.ack_sequence_number, PacketHeader.ack_bitmask, read_u32.
  autounfold with wire. intros Hl. by rewrite !read_unsigned_prefix by lia.
Qed.

(** A packet that is accepted: whatever is in it, reading it returns and leaves the
    peer in good order. *)
Lemma read_packet_accepted `{Platform} cfg p resolved sent first leak metrics buffer rest hid :
  peer_inv p resolved sent first leak → sent ≤ 2 ^ 32 → 12 ≤ len buffer < 2 ^ 62 →
  PacketHeader.id buffer = Ok hid → hid ≠ 2 ^ 32 - 1 →
  m_next_expected_packet_id (packet_delivery_manager p) ≤ hid →
  handshake_safe (connection_manager p) → handshake_readable (drop 12 buffer) →
  wf NeptunMetricKey metrics →
  ∃ p' metrics' new unew j k, read_packet cfg p metrics buffer rest = Ok (p', metrics', new, unew) ∧
    wf NeptunMetricKey metrics' ∧ 0 ≤ j ∧ 0 ≤ k ∧
    peer_inv p' (resolved + j) sent (first + k) leak ∧ handshake_safe (connection_manager p') ∧
    m_next_expected_packet_id (packet_delivery_manager p') = hid + 1.
Proof.
  intros [[Hpdm Hrel Hunrel Hexp Hbehind] Hcoupled] Hs Hl Hid Hne Hfresh Hsafe Hr Hwf.
  destruct (header_prefix buffer (beyond rest)) as (Hid' & _ & _); [unfold PacketHeader.kSerializedSize; lia|].
  destruct (process_read_Ok _ resolved sent (buffer ++ beyond rest) Hpdm Hs)
    as (hid' & a & mask & q1 & q2 & m' & Hi & _ & _ & Hq & Hread & Hpdm' & Hfl & Hids & _ & Hnext & _);
    [unfold PacketHeader.kSerializedSize; list_lia|congruence|].
  assert (hid' = hid) as -> by congruence. rewrite (proj2 (Z.leb_le _ _) Hfresh) in Hread.
  unfold read_packet. rewrite Hread. cbn [mbind result_bind].
  change (PacketHeader.kSerializedSize =? 0) with false. cbv iota.
  rewrite Span.advance_Ok by (unfold PacketHeader.kSerializedSize; lia). cbn [mbind result_bind].
  change (Z.to_nat PacketHeader.kSerializedSize) with 12%nat.
  assert ((statuses_of a mask q1).*1 = seqZ resolved (len (statuses_of a mask q1))) as Hst.
  { rewrite fst_statuses_of, Hids. unfold statuses_of. by rewrite length_fmap. }
  destruct (read_segments_Ok cfg (with_pdm p m') metrics (statuses_of a mask q1) (drop 12 buffer) (beyond rest)
    resolved first Hst Hrel Hexp Hcoupled) as (p' & metrics' & new & unew & k & -> & Hwf' & Hp');
    [done|done|done|list_lia|].
  destruct Hp' as [Ep Eu Hsafe' Hrel' Hk Ho Hx Hc Hsub].
  exists p', metrics', new, unew, (len q1), k. split; [done|]. split_and!; try (done || lia).
  - split; [split; rewrite ?Ep, ?Eu; try done|].
    + rewrite Hx. apply wrap_range. lia.
    + apply Forall_forall. intros m Hm%Hsub. by eapply Forall_forall in Hbehind.
    + eapply Forall_impl; [exact Hc|]. simpl. unfold statuses_of. rewrite length_fmap. lia.
  - rewrite Ep. simpl. lia.
Qed.

(** A packet that is not accepted: its acknowledgements take packets out of the
    in-flight queue of the packet delivery manager, but their statuses go nowhere. *)
Lemma read_packet_stale `{Platform} cfg p resolved sent metrics buffer rest hid :
  PacketDeliveryManager.inv (packet_delivery_manager p) resolved sent → sent ≤ 2 ^ 32 →
  12 ≤ len buffer → PacketHeader.id buffer = Ok hid →
  hid < m_next_expected_packet_id (packet_delivery_manager p) →
  ∃ m' a mask q1 q2, read_packet cfg p metrics buffer rest = Ok (with_pdm p m', metrics, [], []) ∧
    PacketHeader.ack_sequence_number buffer = Ok a ∧ PacketHeader.ack_bitmask buffer = Ok mask ∧
    m_in_flight_packets (packet_delivery_manager p) = q1 ++ q2 ∧ m_in_flight_packets m' = q2 ∧
    process_acks (packet_delivery_manager p) a mask
    = Ok (with_in_flight (packet_delivery_manager p) q2, statuses_of a mask q1) ∧
    PacketDeliveryManager.inv m' (resolved + len q1) sent ∧
    m_next_expected_packet_id m' = m_next_expected_packet_id (packet_delivery_manager p) ∧
    m_pending_acks m' = m_pending_acks (packet_delivery_manager p).
Proof.
  intros Hpdm Hs Hl Hid Hstale.
  destruct (header_prefix buffer (beyond rest)) as (Hid' & Ha' & Hm'); [unfold PacketHeader.kSerializedSize; lia|].
  pose proof (inv_expected _ _ _ Hpdm) as Hex. unfold in_u in Hex.
  destruct (header_fields buffer) as (hid1 & a & mask & Hi & Ha & Hm & _ & Har & Hmr);
    [unfold PacketHeader.kSerializedSize; lia|].
  assert (hid1 = hid) as -> by congruence.
  destruct (acks_total _ resolved sent a mask (inv_sent _ _ _ Hpdm) Hs Har Hmr) as (q1 & q2 & Hq & Hacks).
  destruct (inv_pop _ _ _ _ _ Hpdm Hq) as [Hpdm' _].
  exists (with_in_flight (packet_delivery_manager p) q2), a, mask, q1, q2. split_and!; try done.
  unfold read_packet, process_read. rewrite Ha', Hm', Hid', Ha, Hm, Hid. cbn [mbind result_bind].
  rewrite Hacks. cbn [mbind result_bind]. unfold process_packet_header. simpl.
  destruct (Z.eqb_spec hid (m_next_expected_packet_id (packet_delivery_manager p))); [lia|].
  by rewrite (proj2 (Z.ltb_lt _ _) Hstale).
Qed.

(** [rate] packets a second: the interval the ticker gets. *)
Definition interval_of (rate : Z) : Z := 1000000000 / rate.

Lemma interval_range rate : 1 ≤ rate < 256 → 3900000 ≤ interval_of rate ≤ 1000000000.
Proof.
  intros Hr. unfold interval_of. split; [apply Z.div_le_lower_bound; lia|].
  apply Z.div_le_upper_bound; lia.
Qed.

(** Within a second there is room for at most [rate + 1] intervals, the carried-over
    time included. *)
Lemma intervals_in_a_second rate time d :
  1 ≤ rate < 256 → 0 ≤ time < interval_of rate → 0 ≤ d ≤ 1000000000 →
  (time + d) / interval_of rate ≤ rate + 1.
Proof.
  intros Hr Ht Hd. pose proof (interval_range rate Hr) as Hi.
  enough ((time + d) / interval_of rate < rate + 2) by lia.
  apply Z.div_lt_upper_bound; [lia|].
  assert (1000000000 < rate * interval_of rate + rate) as Hm.
  { unfold interval_of. pose proof (Z.div_mod 1000000000 rate). pose proof (Z.mod_pos_bound 1000000000 rate). lia. }
  lia.
Qed.

(** ** Properties *)

(** A peer after a finished handshake, with messages in both streams. *)
Definition sample_peer : Peer :=
  mkPeer (Ticker.create 0 None)
    (mkPacketDeliveryManager 5000 1 4 [1; 3] [mkInFlightPacket 0 0])
    (mkConnectionManager (mkConfig 5 (mkLimit 0 1400 0 800)) [] 0 false true true (Some (mkLimit 60 1400 60 1400)))
    (mkReliableStream (mkFlipBuffer 0 5 ([3; 5; 6; 7; 8] ++ replicate 11 0))
       [mkInFlight 0 (mkPending (mkRange 0 1) 1)] [mkPending (mkRange 1 5) 2] 3 0)
    UnreliableStream.sample_state.

Lemma sample_peer_inv : peer_inv sample_peer 0 1 1 2.
Proof.
  split; [split; [| |exact UnreliableStream.us_sample_inv|done|repeat constructor; done]|repeat constructor; done].
  - split; [by split|done|repeat constructor|repeat constructor; simpl; lia].
  - split; [split| | | | |]; vm_compute; repeat (constructor || done).
Qed.

(** C20: writing a packet never faults: from a peer in good order and a span of 22 to
    1793 bytes (12 when no handshake message is due) it makes a packet that is the header,
    the handshake message when one is due, byte for byte but for the gap it does not write,
    the longest prefix of the pending reliable messages and a prefix of the unreliable
    ones, within the span, and the peer stays in good order with every reliable message
    kept. *)
Theorem write_packet_total p resolved sent first leak buffer now :
  peer_inv p resolved sent first leak → sent < 2 ^ 32 →
  m_num_lets_connect_to_send (connection_manager p) ≤ 0 ∨ 22 ≤ len buffer →
  12 ≤ len buffer ≤ 1793 →
  ∃ p' buffer' n2 n3 n4 k leak', write_packet p buffer now = Ok (p', buffer', (12, n2, n3, n4)) ∧
    len buffer' = len buffer ∧ 12 + n2 + n3 + n4 ≤ len buffer ∧
    ztake (12 + n2 + n3 + n4) buffer' = packet_bytes k ∧
    packet_of (len buffer) p p' sent first k ∧ peer_inv p' resolved (sent + 1) first leak' ∧
    outstanding (reliable_stream p') = outstanding (reliable_stream p).
Proof.
  intros [Hok Hc] Hs Hhs Hb. destruct (write_packet_Ok p resolved sent first leak buffer now Hok Hs Hhs Hb)
    as (p' & buffer' & n2 & n3 & n4 & k & leak' & H1 & H2 & _ & _ & _ & H3 & H4 & H5 & H6 & H7 & _).
  exists p', buffer', n2, n3, n4, k, leak'. split_and!; try done. split; [done|].
  eapply packet_coupled; [done| |done]. apply (si_resolved _ _ _ (inv_sent _ _ _ (ok_pdm _ _ _ _ _ Hok))).
Qed.

Lemma write_packet_total_witness :
  ∃ p' buffer' n2 n3 n4 k leak', write_packet sample_peer (replicate 60 0) 9 = Ok (p', buffer', (12, n2, n3, n4)) ∧
    len buffer' = 60 ∧ 12 + n2 + n3 + n4 ≤ 60 ∧
    ztake (12 + n2 + n3 + n4) buffer' = packet_bytes k ∧
    packet_of 60 sample_peer p' 1 1 k ∧ peer_inv p' 0 (1 + 1) 1 leak' ∧
    outstanding (reliable_stream p') = outstanding (reliable_stream sample_peer).
Proof.
  apply (write_packet_total sample_peer 0 1 1 2 (replicate 60 0) 9 sample_peer_inv);
    [lia|left; done|simpl; lia].
Defined.

(** C22: the size limits are kept: whatever network is below, as long as it keeps the
    promises of its interface, the packet handed to it is at most 1400 bytes, at
    most this side's [max_send_packet_size] and at most the [max_read_packet_size] it
    has recorded for the peer; the assertion behind the send cannot fail. The low byte of
    what is recorded lies behind the peer's message ([handshake_roundtrip]), so a packet
    may exceed what the peer announced [l], but by fewer than 256 bytes. The limits have
    to leave room for 22 bytes. *)
Theorem packet_size_limit `{ByteOrder} {N} `{Network N, !NetworkOk N} (network : N) n now ip
    p resolved sent first leak :
  peer_ok p resolved sent first leak → sent < 2 ^ 32 → len (m_network_buffer n) = kJustAboveMtu →
  22 ≤ send_size_limit (m_connection_manager_config n) p →
  ∃ payload p' buffer', len buffer' = kJustAboveMtu ∧
    len payload ≤ kJustBelowMtu ∧
    len payload ≤ max_send_packet_size (limit (m_connection_manager_config n)) ∧
    (∀ l, peer_limit (connection_manager p) = Some l → len payload ≤ max_read_packet_size l) ∧
    (∀ l x, in_u 8 x → peer_limit (connection_manager p) = Some (received_limit l x) →
       len payload < max_read_packet_size l + 256) ∧
    write_to_peer network n now ip p (send_size_limit (m_connection_manager_config n) p)
    = ('(network, _) ← UdpSocket.send_to network (m_udp_socket n) ip payload;
       Ok (network, with_network_buffer n buffer', p')).
Proof.
  intros Hinv Hs Hbuf Hlim. unfold write_to_peer.
  set (size := Z.min kJustBelowMtu (send_size_limit (m_connection_manager_config n) p)).
  assert (22 ≤ size ≤ 1400) as Hsize by (unfold size, kJustBelowMtu; lia). unfold kJustAboveMtu in *.
  rewrite span_range_Ok by lia. cbn [mbind result_bind]. rewrite Z.sub_0_r. change (zdrop 0 ?x) with x.
  destruct (write_packet_Ok p resolved sent first leak (ztake size (m_network_buffer n)) now Hinv Hs)
    as (p' & b & n2 & n3 & n4 & k & leak' & -> & Hl & ? & ? & ? & Hfit & _); [right; list_lia|list_lia|].
  assert (len (ztake size (m_network_buffer n)) = size) as Hts by list_lia. rewrite Hts in *.
  cbn [mbind result_bind]. set (buffer' := b ++ zdrop size (m_network_buffer n)).
  assert (len buffer' = 1600) as Hlb by (unfold buffer'; list_lia).
  rewrite span_range_Ok by lia. cbn [mbind result_bind]. rewrite Z.sub_0_r. change (zdrop 0 ?x) with x.
  set (payload := ztake (12 + n2 + n3 + n4) buffer').
  assert (len payload ≤ size) as Hpl by (unfold payload; list_lia).
  exists payload, p', buffer'. unfold size, send_size_limit, kJustBelowMtu in *.
  split_and!; [done|lia| | | |].
  - destruct (peer_limit (connection_manager p)); lia.
  - intros l Hpl'. rewrite Hpl' in Hpl. lia.
  - intros l x [_ Hx] Hpl'. rewrite Hpl' in Hpl. cbn in Hpl.
    pose proof (Z.mul_div_le (max_read_packet_size l) 256 ltac:(lia)). lia.
  - destruct (UdpSocket.send_to network (m_udp_socket n) ip payload) as [[net' count]|] eqn:Hsend; [|done].
    cbn [mbind result_bind]. rewrite (send_size _ _ _ _ _ _ Hsend), assert_that_true; [done|].
    apply Z.eqb_refl.
Qed.

Lemma packet_size_limit_witness :
  let n := mkNeptun [] (UdpSocket.mkUdpSocket 0 (mkIpAddress (mkSockaddr 2 0 0))) (replicate 1600 0) 5000
             (mkConfig 5 (mkLimit 0 1400 0 800)) (Metrics.create NeptunMetricKey "m") in
  ∃ payload p' buffer', len buffer' = kJustAboveMtu ∧ len payload ≤ kJustBelowMtu ∧ len payload ≤ 800 ∧
    (∀ l, peer_limit (connection_manager sample_peer) = Some l → len payload ≤ max_read_packet_size l) ∧
    (∀ l x, in_u 8 x → peer_limit (connection_manager sample_peer) = Some (received_limit l x) →
       len payload < max_read_packet_size l + 256) ∧
    @write_to_peer _ (@FakeNetwork.fake_network little_endian) two_sockets_state n 5
      (mkIpAddress (mkSockaddr 2 0 0)) sample_peer 800
    = ('(network, _) ← @UdpSocket.send_to _ (@FakeNetwork.fake_network little_endian) two_sockets_state
         (m_udp_socket n) (mkIpAddress (mkSockaddr 2 0 0)) payload;
       Ok (network, with_network_buffer n buffer', p')).
Proof.
  cbv zeta. set (n := mkNeptun _ _ _ _ _ _).
  apply (@packet_size_limit little_endian _ (@FakeNetwork.fake_network little_endian)
    (@FakeNetwork.fake_network_ok little_endian) two_sockets_state n 5 (mkIpAddress (mkSockaddr 2 0 0))
    sample_peer 0 1 1 2 (pi_ok _ _ _ _ _ sample_peer_inv)); [lia|done|vm_compute; done].
Defined.

(** C21: no accepted packet can hurt a peer in good order: whatever bytes follow the
    header, except a segment for the connection manager of fewer than ten bytes, reading it
    returns, on a platform that survives the handshake's [pop] or after the handshake; the
    peer stays in good order and the next packet id is expected. *)
Theorem read_packet_total `{Platform} cfg p resolved sent first leak metrics buffer rest hid :
  peer_inv p resolved sent first leak → sent ≤ 2 ^ 32 → 12 ≤ len buffer < 2 ^ 62 →
  PacketHeader.id buffer = Ok hid → hid ≠ 2 ^ 32 - 1 →
  m_next_expected_packet_id (packet_delivery_manager p) ≤ hid →
  handshake_safe (connection_manager p) → handshake_readable (drop 12 buffer) →
  wf NeptunMetricKey metrics →
  ∃ p' metrics' new unew j k, read_packet cfg p metrics buffer rest = Ok (p', metrics', new, unew) ∧
    wf NeptunMetricKey metrics' ∧ 0 ≤ j ∧ 0 ≤ k ∧
    peer_inv p' (resolved + j) sent (first + k) leak ∧ handshake_safe (connection_manager p') ∧
    m_next_expected_packet_id (packet_delivery_manager p') = hid + 1.
Proof. apply read_packet_accepted. Qed.

Lemma read_packet_total_witness :
  let buffer := PacketHeader.encode 9 0 1 ++ replicate 30 3 in
  ∃ p' metrics' new unew j k,
    @read_packet standard (mkConfig 5 (mkLimit 0 1400 0 800)) sample_peer
      (Metrics.create NeptunMetricKey "m") buffer [] = Ok (p', metrics', new, unew) ∧
    wf NeptunMetricKey metrics' ∧ 0 ≤ j ∧ 0 ≤ k ∧
    peer_inv p' (0 + j) 1 (1 + k) 2 ∧ @handshake_safe standard (connection_manager p') ∧
    m_next_expected_packet_id (packet_delivery_manager p') = 9 + 1.
Proof.
  cbv zeta. apply (@read_packet_total standard (mkConfig 5 (mkLimit 0 1400 0 800)) sample_peer 0 1 1 2
    (Metrics.create NeptunMetricKey "m") (PacketHeader.encode 9 0 1 ++ replicate 30 3) [] 9 sample_peer_inv);
    try (done || (simpl; lia)).
  - by left.
  - right. left. simpl. lia.
Defined.

(** C23: delivery statuses get lost. A packet that arrives after a later one is not
    accepted, but its acknowledgements take packets out of the in-flight queue and
    the statuses are thrown away; the messages of an acknowledged packet then stay
    in flight for ever, and the next status of any later packet, of which there
    will be one for every packet still in flight, fails an assertion. This is how
    the assertion marked in reliable_stream.h fails "when a few processes run for a
    very long time". *)
Theorem lost_statuses_crash `{Platform} cfg p resolved sent first leak metrics buffer rest hid a mask m q :
  peer_inv p resolved sent first leak → sent ≤ 2 ^ 32 → handshake_safe (connection_manager p) →
  12 ≤ len buffer → PacketHeader.id buffer = Ok hid →
  hid < m_next_expected_packet_id (packet_delivery_manager p) →
  PacketHeader.ack_sequence_number buffer = Ok a → PacketHeader.ack_bitmask buffer = Ok mask →
  0 ≤ a < 2 ^ 32 - 32 → in_u 32 mask → status_of a mask (packet_id m) = ACK →
  in_flight_messages (reliable_stream p) = m :: q →
  ∃ m', read_packet cfg p metrics buffer rest = Ok (with_pdm p m', metrics, [], []) ∧
    Forall (λ x, packet_id m < id x) (m_in_flight_packets m') ∧
    ∀ i st sts metrics', packet_id m < i →
      process_delivery_statuses (with_pdm p m') metrics' ((i, st) :: sts) = Fault AssertFailed.
Proof.
  intros [[Hpdm Hrel _ _ _] Hcoupled] Hs Hsafe Hl Hid Hstale Ha Hm Har Hmr Hack Hfl.
  destruct (read_packet_stale cfg p resolved sent metrics buffer rest hid Hpdm Hs Hl Hid Hstale)
    as (m' & a' & mask' & q1 & q2 & Hread & Ha' & Hm' & Hq & Hfl' & Hacks & _).
  assert (a' = a ∧ mask' = mask) as [-> ->] by (split; congruence).
  exists m'. split; [done|]. split.
  - rewrite Hfl'. unfold status_of in Hack. destruct (Z.leb_spec a (packet_id m)); [|done]. simpl in Hack.
    destruct (Z.testbit mask (packet_id m - a)) eqn:Hbit; [|done].
    assert (mask ≠ 0) as Hne by (intros ->; by rewrite Z.bits_0 in Hbit).
    assert (packet_id m - a ≤ Z.log2 mask) as Hlog.
    { destruct (decide (Z.log2 mask < packet_id m - a)); [|lia].
      by rewrite Z.bits_above_log2 in Hbit by (unfold in_u in Hmr; lia). }
    assert (Z.log2 mask < 32) as Hlog32 by (apply Z.log2_lt_pow2; unfold in_u in Hmr; lia).
    pose proof (Z.log2_nonneg mask).
    destruct (process_acks_Ok _ a mask ltac:(unfold in_u; lia) Hmr (sent_inv_range _ _ _ (inv_sent _ _ _ Hpdm) Hs))
      as (r1 & r2 & Hr & Hacks' & _ & Hmax).
    rewrite Hacks in Hacks'. injection Hacks' as Heq _. subst r2.
    destruct (Hmax Hne) as [_ Hmax2]. rewrite wrap_small in Hmax2 by (unfold in_u; lia).
    pose proof (in_flight_sorted _ _ _ _ _ _ (inv_sent _ _ _ Hpdm) Hr Hmax2) as Hall.
    eapply Forall_impl; [exact Hall|]. simpl. lia.
  - intros i st sts metrics' Hi. cbn [process_delivery_statuses]. unfold process_delivery_status.
    cbn [connection_manager reliable_stream with_pdm].
    destruct (status_safe (connection_manager p) i st Hsafe) as (c & -> & _). cbn [mbind result_bind].
    destruct (on_ack_stale (reliable_stream p) i m q Hfl Hi) as [H1 H2].
    destruct st; [by rewrite H1|by rewrite H2].
Qed.

Lemma lost_statuses_crash_witness :
  let buffer := PacketHeader.encode 2 0 1 in
  ∃ m', @read_packet standard (mkConfig 5 (mkLimit 0 1400 0 800)) sample_peer
          (Metrics.create NeptunMetricKey "m") buffer []
        = Ok (with_pdm sample_peer m', Metrics.create NeptunMetricKey "m", [], []) ∧
    Forall (λ x, 0 < id x) (m_in_flight_packets m') ∧
    ∀ i st sts metrics', 0 < i →
      @process_delivery_statuses standard (with_pdm sample_peer m') metrics' ((i, st) :: sts) = Fault AssertFailed.
Proof.
  cbv zeta. apply (@lost_statuses_crash standard (mkConfig 5 (mkLimit 0 1400 0 800)) sample_peer 0 1 1 2
    (Metrics.create NeptunMetricKey "m") (PacketHeader.encode 2 0 1) [] 2 0 1
    (mkInFlight 0 (mkPending (mkRange 0 1) 1)) [] sample_peer_inv); try (done || (simpl; lia)).
  by left.
Defined.

(** C24: the rate limits are kept: the rate of a peer is the smaller of what this side
    sends and what the peer reads if both have a limit, the other's if one has none, and
    there is no limit if neither has; and a ticker with the interval [update_send_rate]
    computes from the rate grants at most [rate + 1] packets in any second, whatever the
    times it is asked at. *)
Theorem packet_rate_limit p peer_rate self_rate last time nows :
  0 ≤ peer_rate < 256 → 0 ≤ self_rate < 256 →
  let rate := negotiated_rate peer_rate self_rate in
  (peer_rate ≠ 0 → self_rate ≠ 0 → rate = Z.min peer_rate self_rate) ∧
  (peer_rate = 0 → rate = self_rate) ∧ (self_rate = 0 → rate = peer_rate) ∧
  (rate = 0 → m_tick_interval (send_packet_ticker (update_send_rate p rate)) = None) ∧
  (rate ≠ 0 → m_tick_interval (send_packet_ticker (update_send_rate p rate)) = Some (1000000000 / rate) ∧
   (0 ≤ time < 1000000000 / rate → 0 ≤ last → monotone last nows → List.last nows last - last ≤ 1000000000 →
    ∃ t n, ticks (at_time last (1000000000 / rate) time) nows = Ok (t, n) ∧ 0 ≤ n ≤ rate + 1)).
Proof.
  intros Hp Hs rate. assert (0 ≤ rate < 256 ∧ (peer_rate ≠ 0 → self_rate ≠ 0 → rate = Z.min peer_rate self_rate) ∧
    (peer_rate = 0 → rate = self_rate) ∧ (self_rate = 0 → rate = peer_rate)) as (Hr & H1 & H2 & H3).
  { unfold rate, negotiated_rate. destruct (Z.eqb_spec peer_rate 0), (Z.eqb_spec self_rate 0); split_and!; lia. }
  split; [done|]. split; [done|]. split; [done|]. unfold update_send_rate. split.
  - intros ->. done.
  - intros Hne. rewrite (proj2 (Z.eqb_neq _ _) Hne). split; [done|]. intros Ht Hl Hm Hsec.
    change (1000000000 / rate) with (interval_of rate) in *. pose proof (interval_range rate ltac:(lia)).
    destruct (ticks_bound (interval_of rate) nows last time ltac:(lia) Ht Hl Hm)
      as (t & n & now & -> & Hle & _ & -> & Hn & Hb).
    exists t, n. split; [done|]. split; [done|].
    etrans; [|apply (intervals_in_a_second rate time (List.last nows last - last)); lia].
    apply Z.div_le_lower_bound; lia.
Qed.

(** With the limits 60 and 90, and with 60 and none. *)
Lemma packet_rate_limit_witness :
  negotiated_rate 60 90 = 60 ∧ negotiated_rate 60 0 = 60 ∧
  m_tick_interval (send_packet_ticker (update_send_rate sample_peer (negotiated_rate 60 90))) = Some 16666666 ∧
  ∃ t n, ticks (at_time 0 16666666 0) [5; 20000000; 900000000] = Ok (t, n) ∧ 0 ≤ n ≤ 61.
Proof.
  destruct (packet_rate_limit sample_peer 60 90 0 0 [5; 20000000; 900000000] ltac:(lia) ltac:(lia)) as (H1 & _ & _ & _ & H5).
  destruct (packet_rate_limit sample_peer 60 0 0 0 [] ltac:(lia) ltac:(lia)) as (_ & _ & H3 & _).
  destruct (H5 ltac:(discriminate)) as [Hi Hn].
  split; [by apply H1|]. split; [by apply H3|]. split; [exact Hi|].
  destruct (Hn ltac:(by vm_compute) ltac:(lia) ltac:(by repeat split) ltac:(by vm_compute)) as (t & k & Ht & Hk). by exists t, k.
Defined.

Lemma find_update_other `{ByteOrder} (peers : map IpAddress Peer) k p ip :
  same_key ip k = false → find (update peers k p) ip = find peers ip.
Proof.
  intros Hip. induction peers as [|[k' x] peers IH]; [done|]. simpl.
  destruct (same_key k k') eqn:Hk; simpl; [|by rewrite IH].
  destruct (same_key ip k') eqn:Hk'; [|done]. rewrite same_key_sym in Hk. by rewrite (same_key_trans ip k' k) in Hip.
Qed.

Lemma find_update_same `{ByteOrder} (peers : map IpAddress Peer) k p x :
  find peers k = Some x → find (update peers k p) k = Some p.
Proof.
  induction peers as [|[k' y] peers IH]; [done|]. simpl.
  destruct (same_key k k') eqn:Hk; simpl; rewrite Hk; [done|]. by apply IH.
Qed.

(** C30: peers do not interfere: what arrives changes the peer it is from and no other.
    When the socket has nothing every peer stays as it is. When it has a packet, the peer
    of its sender, which is made if there is none, is what [read_packet] makes of it, the
    callbacks get what that hands over, and every other peer stays as it is. *)
Theorem read_changes_only_the_sender `{Platform, ByteOrder} {N} `{Network N} (network network' : N) n n' now r u :
  Neptun.read network n now = Ok (network', n', r, u) →
  ∃ view buffer packet_info, span_range (m_network_buffer n) 0 kJustAboveMtu = Ok view ∧
    UdpSocket.read network (m_udp_socket n) view = Ok (network', buffer, packet_info) ∧
    match packet_info with
    | None => m_peers n' = m_peers n ∧ r = [] ∧ u = []
    | Some (sender, size) =>
        let b := buffer ++ zdrop kJustAboveMtu (m_network_buffer n) in
        (∃ p' metrics, find (m_peers n') sender = Some p' ∧
           read_packet (m_connection_manager_config n) (default (new_peer n 0 now) (find (m_peers n) sender))
             (m_metrics n) (ztake size b) (zdrop size b) = Ok (p', metrics, r, u)) ∧
        ∀ ip, same_key ip sender = false → find (m_peers n') ip = find (m_peers n) ip
    end.
Proof.
  unfold Neptun.read. intros Hr. apply Prelude.bind_Ok in Hr as (view & Hv & Hr).
  apply Prelude.bind_Ok in Hr as ([[net b] info] & Hread & Hr). destruct info as [[sender size]|].
  2:{ injection Hr as <- <- <- <-. by exists view, b, None. }
  unfold find_or_create_peer in Hr. cbn [m_peers with_network_buffer m_network_buffer m_metrics m_connection_manager_config] in Hr.
  destruct (find (m_peers n) sender) as [p|] eqn:Hf; apply Prelude.bind_Ok in Hr as ([[[p' metrics] rel] unrel] & Hp & Hr);
    injection Hr as <- <- <- <-; exists view, b, (Some (sender, size)); (split; [done|split; [done|]]); cbv zeta;
    cbn [m_peers with_metrics set_peer with_peers with_network_buffer]; rewrite Hf; split.
  - exists p', metrics. split; [by eapply find_update_same|done].
  - intros ip Hip. by apply find_update_other.
  - exists p', metrics. split; [|done]. eapply find_update_same. rewrite find_insert by done. by rewrite same_key_refl.
  - intros ip Hip. rewrite find_update_other, find_insert by done. by rewrite Hip.
Qed.

Lemma read_changes_only_the_sender_witness :
  let a i := @from_u32 little_endian (3232235520 + i) 1000 in
  let network := FakeNetwork.mkFakeNetwork 1400 2 false [(a 10, 0); (a 20, 1)]
    [(a 10, [FakeNetwork.mkPacket (a 20) (PacketHeader.encode 0 0 0)])] [] in
  let n := mkNeptun [(a 30, sample_peer)] (UdpSocket.mkUdpSocket 0 (a 10)) (replicate 1600 0) 5000
             (mkConfig 5 (mkLimit 0 1400 0 800)) (Metrics.create NeptunMetricKey "m") in
  ∃ network' n', @Neptun.read standard little_endian _ (@FakeNetwork.fake_network little_endian) network n 7
                 = Ok (network', n', [], []) ∧
    length (m_peers n') = 2%nat ∧ is_Some (@find _ Peer (@ip_order little_endian) (m_peers n') (a 20)) ∧
    ∀ ip, @same_key _ (@ip_order little_endian) ip (a 20) = false →
      @find _ Peer (@ip_order little_endian) (m_peers n') ip = @find _ Peer (@ip_order little_endian) (m_peers n) ip.
Proof.
  cbv zeta. set (a i := @from_u32 little_endian (3232235520 + i) 1000).
  set (network := FakeNetwork.mkFakeNetwork _ _ _ _ _ _). set (n := mkNeptun _ _ _ _ _ _).
  destruct (@Neptun.read standard little_endian _ (@FakeNetwork.fake_network little_endian) network n 7)
    as [[[[network' n'] r] u]|] eqn:Hr; [|by vm_compute in Hr].
  destruct (@read_changes_only_the_sender standard little_endian _ (@FakeNetwork.fake_network little_endian) _ _ _ _ _ _ _ Hr)
    as (view & buffer & info & Hv & Hread & Hinfo).
  exists network', n'. split; [vm_compute in Hr; by injection Hr as <- <- <- <-|].
  split; [vm_compute in Hr; by injection Hr as <- <- <- <-|]. clear Hr.
  vm_compute in Hv. injection Hv as <-. vm_compute in Hread. injection Hread as <- <- <-.
  destruct Hinfo as [(p' & metrics & Hp & _) Hother]. split; [by exists p'|exact Hother].
Defined.
