(* ===== verification/WellFormed.v ===== *)
(** * WellFormed: the states an endpoint can be in

    The ranges and shapes every member of a [Neptun] object keeps, whatever the
    application calls and whatever bytes the network delivers. Unlike [peer_inv] of
    Neptun.v, which the totality theorems start from, this asks nothing of the
    packets that are read. *)
From Stdlib Require Import ZArith Lia Sorted.
From stdpp Require Import prelude strings.
From S2P Require Import Prelude Span IoBuffer FlipBuffer Messages ReliableStream PacketDeliveryManager ConnectionManager UnreliableStream Ticker Metrics IpAddress OrderedMap Network Neptun.
Open Scope Z_scope.

(** A configuration whose limits the handshake accepts. *)
Record config_wf (cfg : ConnectionManagerConfig) : Prop := {
  cf_limit : limit_ok (limit cfg);
  cf_valid : limit_valid (limit cfg) = true;
}.

(** The counter is a [usize], a peer's limits have been validated. *)
Record cm_wf (cfg : ConnectionManagerConfig) (c : ConnectionManager) : Prop := {
  cw_config : m_config c = cfg;
  cw_count : in_u 64 (m_num_lets_connect_to_send c);
  cw_limit l : peer_limit c = Some l → limit_ok l ∧ limit_valid l = true;
}.

(** The remainder by the interval is defined. *)
Definition ticker_wf (t : Ticker) : Prop := ∀ i, m_tick_interval t = Some i → 0 < i ≤ 1000000000.

(** A peer to which [sent] packets have been written. *)
Record peer_wf (cfg : ConnectionManagerConfig) (p : Peer) (sent : Z) : Prop := {
  pw_pdm : ∃ resolved, sent_inv (packet_delivery_manager p) resolved sent;
  pw_expected : in_u 32 (m_next_expected_packet_id (packet_delivery_manager p));
  pw_reliable : ∃ first, ReliableStream.inv (reliable_stream p) first;
  pw_sequence : in_u 32 (m_next_expected_sequence_number (reliable_stream p));
  pw_behind : Forall (λ m, packet_id m < sent) (in_flight_messages (reliable_stream p));
  pw_unreliable : ∃ leak, UnreliableStream.inv (unreliable_stream p) leak;
  pw_manager : cm_wf cfg (Neptun.connection_manager p);
  pw_ticker : ticker_wf (send_packet_ticker p);
}.

(** ** The connection manager *)

Lemma cm_wf_connect cfg c : cm_wf cfg c → cm_wf cfg (ConnectionManager.connect c).
Proof. intros [? ? ?]. split; try done. apply wrap_range. lia. Qed.

Lemma cm_wf_status `{Platform} cfg c i st c' :
  cm_wf cfg c → on_packet_status_delivery c i st = Ok c' → cm_wf cfg c'.
Proof.
  unfold on_packet_status_delivery. intros [? Hn ?] Hs.
  destruct st, (front_is _ _); inv_result; split; try done; cbn.
  destruct (is_peer_connected c); [done|apply wrap_range; lia].
Qed.

Lemma read_unsigned_range n buf idx v :
  (0 < n)%nat → 0 ≤ idx → read_unsigned n buf idx = Ok v → in_u (8 * Z.of_nat n) v.
Proof. intros Hn Hi Hr. by apply read_unsigned_inv in Hr as [_ ?]. Qed.

Lemma read_limit_range b l : read_limit b = Ok l → limit_ok l ∧ validate b = Ok (limit_valid l).
Proof.
  unfold read_limit. intros Hr. apply Prelude.bind_Ok in Hr as (rr & H1 & Hr). apply Prelude.bind_Ok in Hr as (rs & H2 & Hr).
  apply Prelude.bind_Ok in Hr as (sr & H3 & Hr). apply Prelude.bind_Ok in Hr as (ss & H4 & Hr). injection Hr as <-.
  split.
  - unfold LetsConnect.max_send_packet_size, LetsConnect.max_read_packet_size, LetsConnect.max_send_packet_rate,
      LetsConnect.max_read_packet_rate, read_u8, read_u16 in *. autounfold with wire in *.
    apply (read_unsigned_range 1) in H1, H3; [|lia..]. apply (read_unsigned_range 2) in H2, H4; [by split|lia..].
  - unfold validate, limit_valid. rewrite H4, H2. cbn. by destruct (100 <=? ss).
Qed.

Lemma cm_wf_read cfg c b tail c' r : cm_wf cfg c → ConnectionManager.read c b tail = Ok (c', r) → cm_wf cfg c'.
Proof.
  intros Hc Hr. pose proof Hc as [? Hn Hl]. unfold ConnectionManager.read in Hr. destruct (len b <? _); [by inv_result|].
  apply Prelude.bind_Ok in Hr as (t & _ & Hr). destruct (negb _); [by inv_result|].
  apply Prelude.bind_Ok in Hr as (n & _ & Hr). destruct (negb _); [by inv_result|].
  apply Prelude.bind_Ok in Hr as (h & _ & Hr). apply Prelude.bind_Ok in Hr as (ty & _ & Hr).
  destruct (ty =? LetsConnect.kId); [|destruct (ty =? RejectLetsConnect.kId); by inv_result].
  apply Prelude.bind_Ok in Hr as (m & _ & Hr). apply Prelude.bind_Ok in Hr as (v & Hv & Hr).
  destruct v; [|by inv_result; split]. apply Prelude.bind_Ok in Hr as (c1 & Hs & [= <- _]).
  unfold set_peer_bandwidth_limit in Hs. apply Prelude.bind_Ok in Hs as (l & Hlim & [= <-]).
  destruct (read_limit_range _ _ Hlim) as [Hok Hval]. rewrite Hv in Hval. injection Hval as Hval.
  split; cbn; [by destruct (m_is_initiator c)| |by intros ? [= <-]].
  destruct (m_is_initiator c); [done|apply wrap_range; lia].
Qed.

Lemma cm_wf_after_write cfg c i : cm_wf cfg c → 0 < m_num_lets_connect_to_send c → cm_wf cfg (ConnectionManager.after_write c i).
Proof. intros [? [Hn1 Hn2] ?] Hpos. split; try done. cbn. unfold in_u. lia. Qed.

(** ** Statuses and packets read *)

Lemma peer_wf_statuses `{Platform} cfg sent sts : ∀ p m p' m',
  peer_wf cfg p sent → wf NeptunMetricKey m → process_delivery_statuses p m sts = Ok (p', m') →
  peer_wf cfg p' sent ∧ wf NeptunMetricKey m'.
Proof.
  induction sts as [|[i st] sts IH]; intros p m p' m' Hp Hm Hs; cbn [process_delivery_statuses] in Hs; [by inv_result|].
  apply Prelude.bind_Ok in Hs as ([p1 m1] & H1 & Hs). unfold process_delivery_status in H1.
  apply Prelude.bind_Ok in H1 as (c & Hc & H1). apply Prelude.bind_Ok in H1 as (s & Hst & H1).
  destruct (inc_Ok m (match st with ACK => PACKET_ACKS | DROP => PACKET_DROPS end) Hm) as (m2 & Hm2 & Hwf2).
  rewrite Hm2 in H1. cbn [mbind result_bind] in H1. injection H1 as <- <-.
  eapply IH; [|exact Hwf2|exact Hs]. destruct Hp as [Hpdm Hx [first Hr] Hq Hb Hu Hcm Ht].
  destruct (on_status_inv _ _ _ _ _ Hr Hst) as (acked & Hr' & _ & Hq' & _ & Hcase).
  split; cbn; try done; [by eexists|by rewrite Hq'| |by eapply cm_wf_status].
  destruct st; [|by destruct Hcase as (_ & -> & _)].
  destruct Hcase as (E & _ & _). rewrite E in Hb. by apply Forall_app in Hb as [_ ?].
Qed.

Lemma negotiated_rate_range a b : in_u 8 a → in_u 8 b → in_u 8 (negotiated_rate a b).
Proof. unfold negotiated_rate, in_u. intros ? ?. repeat case_match; lia. Qed.

Lemma ticker_wf_rate p rate :
  in_u 8 rate → ticker_wf (send_packet_ticker p) → ticker_wf (send_packet_ticker (update_send_rate p rate)).
Proof.
  intros [Hr1 Hr2] Ht. unfold update_send_rate. destruct (Z.eqb_spec rate 0); [by intros i|].
  intros i [= <-]. pose proof (interval_range rate). unfold interval_of in *. cbn. lia.
Qed.

Lemma advance_length {A} (b : list A) n b' : Span.advance b n = Ok b' → len b' ≤ len b.
Proof. unfold Span.advance, span_last. intros Ha. destruct (_ && _); [|done]. injection Ha as <-. list_lia. Qed.

Lemma peer_wf_segments `{Platform} cfg sent p m sts buffer tail p' m' rel unrel :
  config_wf cfg → peer_wf cfg p sent → wf NeptunMetricKey m → len buffer < 2 ^ 62 →
  read_segments cfg p m sts buffer tail = Ok (p', m', rel, unrel) →
  peer_wf cfg p' sent ∧ wf NeptunMetricKey m'.
Proof.
  unfold read_segments. intros [Hcfg _] Hp Hm Hl Hr. apply Prelude.bind_Ok in Hr as ([p1 m1] & Hs & Hr).
  destruct (peer_wf_statuses _ _ _ _ _ _ _ Hp Hm Hs) as [[Hpdm Hx Hrel Hq Hb Hu Hcm Ht] Hm1].
  apply Prelude.bind_Ok in Hr as ([c r] & Hc & Hr). pose proof (cm_wf_read _ _ _ _ _ _ Hcm Hc) as Hcm'.
  assert (peer_wf cfg (with_cm p1 c) sent) as Hp1 by (by split).
  destruct r; [|by inv_result]. apply Prelude.bind_Ok in Hr as (b1 & Hb1 & Hr).
  destruct (peer_limit c) as [l|] eqn:Hlim; [|by inv_result].
  pose proof (proj1 (cw_limit _ _ Hcm' l Hlim)) as Hlok.
  set (rate := negotiated_rate _ _) in *.
  assert (in_u 8 rate) as Hrate by (apply negotiated_rate_range; [apply Hlok|apply Hcfg]).
  destruct (reliable_stream_update_send_rate (with_cm p1 c) rate) as (E1 & E2 & E3 & E4).
  pose proof (ticker_wf_rate (with_cm p1 c) rate Hrate Ht) as Ht'.
  set (p2 := update_send_rate (with_cm p1 c) rate) in *.
  apply Prelude.bind_Ok in Hr as ([[s got] r] & Hread & Hr). rewrite E3 in Hread.
  apply advance_length in Hb1.
  destruct (ReliableStream.rs_read_total (reliable_stream p1) b1) as (new & r' & Hread' & _); [lia|done|].
  cbn in Hread. rewrite Hread in Hread'. injection Hread' as -> _ _.
  assert (∀ x, in_u 32 x → peer_wf cfg (with_reliable p2 (ReliableStream.with_expected (reliable_stream p1) x)) sent) as Hp3.
  { intros x Hx'. destruct Hrel as [first Hrel].
    split; cbn; rewrite ?E1, ?E2, ?E4; try done. by exists first; destruct Hrel. }
  assert (in_u 32 (u32 (m_next_expected_sequence_number (reliable_stream p1) + len new))) as Hx2 by (apply wrap_range; lia).
  specialize (Hp3 _ Hx2).
  destruct r; [|by inv_result]. apply Prelude.bind_Ok in Hr as (b2 & _ & Hr).
  apply Prelude.bind_Ok in Hr as ([ugot r] & _ & Hr). destruct r; [|by inv_result].
  by apply Prelude.bind_Ok in Hr as (b3 & _ & [= <- <- <- <-]).
Qed.

Lemma process_read_expected m buffer m' n sts i :
  process_read m buffer = Ok (m', (n, sts, i)) → in_u 32 (m_next_expected_packet_id m) →
  in_u 32 (m_next_expected_packet_id m').
Proof.
  unfold process_read. intros Hr Hx. inv_result. unfold process_acks in Hr2. inv_result.
  assert (m_next_expected_packet_id p = m_next_expected_packet_id m) as E
    by (destruct a1; by inv_result).
  unfold process_packet_header in *. rewrite ?E in *.
  destruct (_ =? _); [inv_result; apply wrap_range; lia|]. destruct (_ <? _); inv_result; [by rewrite E|apply wrap_range; lia].
Qed.

Lemma peer_wf_read `{Platform} cfg sent p m buffer rest p' m' rel unrel :
  config_wf cfg → peer_wf cfg p sent → sent ≤ 2 ^ 32 → wf NeptunMetricKey m → len buffer < 2 ^ 62 →
  read_packet cfg p m buffer rest = Ok (p', m', rel, unrel) →
  peer_wf cfg p' sent ∧ wf NeptunMetricKey m'.
Proof.
  unfold read_packet. intros Hcfg [[r Hpdm] Hx Hrel Hq Hb Hu Hcm Ht] Hs Hm Hl Hr.
  apply Prelude.bind_Ok in Hr as ([pdm [[count sts] i]] & Hp & Hr).
  destruct (run_call_sent (packet_delivery_manager p) r sent (ProcessRead (buffer ++ beyond rest)) pdm sts Hpdm)
    as (k & _ & _ & Hpdm'); [unfold PacketDeliveryManager.writes; simpl; lia|unfold PacketDeliveryManager.run_call; by rewrite Hp|].
  unfold PacketDeliveryManager.writes in Hpdm'. cbn in Hpdm'. rewrite Z.add_0_r in Hpdm'.
  assert (peer_wf cfg (with_pdm p pdm) sent) as Hp1.
  { split; cbn; try done; [by eexists|]. by eapply process_read_expected. }
  destruct (count =? 0); [by inv_result|]. apply Prelude.bind_Ok in Hr as (b & Hb1 & Hr). apply advance_length in Hb1.
  eapply peer_wf_segments; [exact Hcfg|exact Hp1|exact Hm| |exact Hr]. lia.
Qed.

Lemma pdm_write_header m buffer now m' buffer' n :
  12 ≤ len buffer → PacketDeliveryManager.write m buffer now = Ok (m', buffer', n) →
  n = 12 ∧ (∃ a mask, buffer' = PacketHeader.encode (m_next_outgoing_packet_id m) a mask ++ drop 12 buffer) ∧
  m_next_expected_packet_id m' = m_next_expected_packet_id m.
Proof.
  unfold PacketDeliveryManager.write. intros Hb Hw. destruct (m_pending_acks m).
  - rewrite PacketHeader.packet_header_write_Ok in Hw by done. cbn [mbind result_bind] in Hw.
    apply Prelude.bind_Ok in Hw as ([] & _ & [= <- <- <-]). split; [done|]. split; [by do 2 eexists|done].
  - apply Prelude.bind_Ok in Hw as ([q mask] & _ & Hw). rewrite PacketHeader.packet_header_write_Ok in Hw by done.
    cbn [mbind result_bind] in Hw. injection Hw as <- <- <-. split; [done|]. split; [by do 2 eexists|done].
Qed.

(** ** Packets written *)

Lemma peer_wf_write cfg sent p buffer now p' buffer' sizes :
  peer_wf cfg p sent → sent < 2 ^ 32 → 22 ≤ len buffer ≤ 1793 →
  write_packet p buffer now = Ok (p', buffer', sizes) →
  peer_wf cfg p' (sent + 1) ∧ len buffer' = len buffer.
Proof.
  intros [[r Hpdm] Hx [first Hrel] Hq Hb [leak Hu] Hcm Ht] Hs Hl Hw.
  pose proof (si_resolved _ _ _ Hpdm) as Hres.
  pose proof (si_next _ _ _ Hpdm) as Hnext. rewrite wrap_small in Hnext by (unfold in_u; lia).
  unfold write_packet in Hw. apply Prelude.bind_Ok in Hw as ([[m b0] n] & Hpw & Hw).
  destruct (run_call_sent (packet_delivery_manager p) r sent (PacketDeliveryManager.Write buffer now) m [] Hpdm)
    as (k & _ & _ & Hpdm'); [unfold PacketDeliveryManager.writes; simpl; lia|unfold PacketDeliveryManager.run_call; by rewrite Hpw|].
  unfold PacketDeliveryManager.writes in Hpdm'. cbn in Hpdm'.
  destruct (pdm_write_header _ buffer _ _ _ _ ltac:(lia) Hpw) as (-> & (a & mask & ->) & Hx'). rewrite Hnext in Hw.
  set (hdr := PacketHeader.encode sent a mask) in *.
  pose proof (PacketHeader.packet_header_length_encode sent a mask) as Hhdr. fold hdr in Hhdr.
  rewrite span_first_Ok in Hw by list_lia. cbn [mbind result_bind] in Hw.
  change (Z.to_nat 12) with 12%nat in Hw. rewrite (take_reassoc 12) in Hw by done.
  pose proof (PacketHeader.id_encode sent a mask []) as Hid. rewrite app_nil_r, wrap_small in Hid by (unfold in_u; lia).
  fold hdr in Hid. rewrite Hid in Hw. cbn [mbind result_bind] in Hw.
  destruct (ConnectionManager.write_total (Neptun.connection_manager p) sent (drop 12 buffer))
    as (c & cb & n2 & Hcw & Hcl & Hn2 & Hidle & Hdue); [right; list_lia|list_lia|].
  destruct (write_behind_handshake_Ok p sent first leak cb n2 Hrel Hu ltac:(list_lia) ltac:(lia))
    as (taken & rest & us & u & leak' & [Hp _ _ _ _ _ Hu' _] & _ & sb & Hsl & _ & Hsw). cbv zeta in Hsw.
  erewrite on_advance_Ok in Hw; [|lia|list_lia|rewrite Hcw; cbn [mbind result_bind]; rewrite Hsw; done].
  cbn [mbind result_bind] in Hw. injection Hw as <- <- _. split; [|list_lia].
  destruct (inv_after_write _ first sent taken rest Hrel Hp) as [Hrel' _].
  { eapply Forall_impl; [exact Hb|]. simpl. lia. }
  split; cbn; try done; [by eexists|by rewrite Hx'|by eexists| |by eexists|].
  - apply Forall_app. split; [eapply Forall_impl; [exact Hb|]; simpl; lia|].
    apply Forall_fmap, Forall_true. intros x. simpl. lia.
  - destruct (decide (m_num_lets_connect_to_send (Neptun.connection_manager p) ≤ 0)) as [Hz|Hz].
    + by destruct (Hidle Hz) as (-> & _).
    + destruct (Hdue ltac:(lia)) as [-> _]. apply cm_wf_after_write; [done|lia].
Qed.

(** ** Endpoints *)

Section Endpoints.
Context `{HP : Platform} {N : Type} `{HN : NetworkOk N} `{HO : !ByteOrder}.

(** [bound]: packets written to a peer at most. *)
Record endpoint_wf (n : Neptun) (bound : Z) : Prop := {
  ew_config : config_wf (m_connection_manager_config n);
  ew_ordered : ordered (m_peers n);
  ew_peers : Forall (λ e, ∃ sent, sent ≤ bound ∧ peer_wf (m_connection_manager_config n) e.2 sent) (m_peers n);
  ew_buffer : len (m_network_buffer n) = kJustAboveMtu;
  ew_metrics : wf NeptunMetricKey (m_metrics n);
}.

Lemma peers_wf_update {V} (P : V → Prop) (m : map IpAddress V) k v :
  Forall (λ e, P e.2) m → P v → Forall (λ e, P e.2) (update m k v).
Proof.
  intros Hm Hv. induction Hm as [|[k' v'] m Hx Hm IH]; [by constructor|]. cbn [update].
  destruct (same_key k k'); constructor; done.
Qed.

Lemma peers_wf_insert {V} (P : V → Prop) (m : map IpAddress V) k v :
  Forall (λ e, P e.2) m → P v → Forall (λ e, P e.2) (insert m k v).
Proof.
  intros Hm Hv. induction Hm as [|[k' v'] m Hx Hm IH]; [by repeat constructor|]. cbn [insert].
  destruct (key_lt k k'); [by repeat constructor|]. by destruct (key_lt k' k); repeat constructor.
Qed.

Lemma peers_wf_find {V} (P : V → Prop) (m : map IpAddress V) k v :
  Forall (λ e, P e.2) m → find m k = Some v → P v.
Proof.
  intros Hm. induction Hm as [|[k' v'] m Hx Hm IH]; [done|]. cbn [find].
  destruct (same_key k k'); [by intros [= <-]|done].
Qed.

Lemma new_peer_wf n now : config_wf (m_connection_manager_config n) → peer_wf (m_connection_manager_config n) (new_peer n 0 now) 0.
Proof.
  intros Hc. split; cbn; try done.
  - exists 0. by split.
  - exists 0. by apply ReliableStream.rs_inv_create.
  - exists 0. by apply UnreliableStream.us_inv_create.
Qed.

(** Changes to one peer. *)
Lemma endpoint_wf_set n bound ip p sent :
  endpoint_wf n bound → peer_wf (m_connection_manager_config n) p sent → sent ≤ bound → endpoint_wf (set_peer n ip p) bound.
Proof.
  intros [Hc Ho Hp Hb Hm] Hw Hs. split; cbn; try done; [by apply ordered_update|].
  apply (peers_wf_update (λ p, ∃ sent, sent ≤ bound ∧ peer_wf (m_connection_manager_config n) p sent)); [done|by exists sent].
Qed.

Lemma endpoint_wf_find n bound ip now n' p :
  endpoint_wf n bound → 0 ≤ bound → find_or_create_peer n 0 ip now = (n', p) →
  endpoint_wf n' bound ∧ m_connection_manager_config n' = m_connection_manager_config n ∧
  ∃ sent, sent ≤ bound ∧ peer_wf (m_connection_manager_config n) p sent.
Proof.
  intros [Hc Ho Hp Hb Hm] Hbd. unfold find_or_create_peer.
  set (P := λ p, ∃ sent, sent ≤ bound ∧ peer_wf (m_connection_manager_config n) p sent).
  destruct (find (m_peers n) ip) as [q|] eqn:Hf; intros [= <- <-].
  - split; [done|]. split; [done|]. by apply (peers_wf_find P _ _ _ Hp Hf).
  - assert (P (new_peer n 0 now)) as Hnew by (exists 0; split; [done|by apply new_peer_wf]).
    split; [|done]. split; cbn; try done; [by apply ordered_insert|by apply (peers_wf_insert P)].
Qed.

Lemma connect_wf n bound ip now : endpoint_wf n bound → 0 ≤ bound → endpoint_wf (connect n ip now) bound.
Proof.
  intros Hn Hb. unfold connect. destruct (find_or_create_peer n 0 ip now) as [n' p] eqn:Hf.
  destruct (endpoint_wf_find _ _ _ _ _ _ Hn Hb Hf) as (Hn' & Ec & sent & Hs & Hp).
  eapply endpoint_wf_set; [exact Hn'| |exact Hs]. rewrite Ec. destruct Hp. split; try done. by apply cm_wf_connect.
Qed.

Lemma send_reliable_wf n bound ip f now n' :
  endpoint_wf n bound → 0 ≤ bound → WriterOk f → send_reliable_to n ip f now = Ok n' → endpoint_wf n' bound.
Proof.
  intros Hn Hb Hf Hs. unfold send_reliable_to in Hs. apply Prelude.bind_Ok in Hs as ([] & _ & Hs).
  destruct (find_or_create_peer n 0 ip now) as [n1 p] eqn:Hc.
  destruct (endpoint_wf_find _ _ _ _ _ _ Hn Hb Hc) as (Hn' & Ec & sent & Hle & [Hpdm Hx [first Hr] Hq Hbh Hu Hcm Ht]).
  apply Prelude.bind_Ok in Hs as (s & Hs & [= <-]).
  destruct (ReliableStream.rs_send_Ok _ first f Hr Hf) as (space & s' & _ & Hs' & _ & Hr' & _ & _ & Hids & _ & Hexp).
  rewrite Hs in Hs'. injection Hs' as <-. eapply endpoint_wf_set; [exact Hn'| |exact Hle]. rewrite Ec.
  split; cbn; try done; [by eexists|by rewrite Hexp|].
  apply (Forall_fmap packet_id (λ i, i < sent)). rewrite Hids. by apply Forall_fmap.
Qed.

Lemma send_unreliable_wf n bound ip f now n' :
  endpoint_wf n bound → 0 ≤ bound → WriterOk f → send_unreliable_to n ip f now = Ok n' → endpoint_wf n' bound.
Proof.
  intros Hn Hb Hf Hs. unfold send_unreliable_to in Hs. apply Prelude.bind_Ok in Hs as ([] & _ & Hs).
  destruct (find_or_create_peer n 0 ip now) as [n1 p] eqn:Hc.
  destruct (endpoint_wf_find _ _ _ _ _ _ Hn Hb Hc) as (Hn' & Ec & sent & Hle & [Hpdm Hx Hr Hq Hbh [leak Hu] Hcm Ht]).
  apply Prelude.bind_Ok in Hs as (s & Hs & [= <-]).
  destruct (UnreliableStream.us_send_Ok _ leak f Hu Hf) as (s' & Hs' & Hu' & _).
  rewrite Hs in Hs'. injection Hs' as <-. eapply endpoint_wf_set; [exact Hn'| |exact Hle]. rewrite Ec.
  split; cbn; try done. by eexists.
Qed.

(** ** [tick] *)

Lemma drop_peer_wf cfg sent p m now p' m' :
  peer_wf cfg p sent → sent ≤ 2 ^ 32 → wf NeptunMetricKey m → drop_peer p m now = Ok (p', m') →
  peer_wf cfg p' sent ∧ wf NeptunMetricKey m'.
Proof.
  unfold drop_peer. intros [[r Hpdm] Hx Hrel Hq Hb Hu Hcm Ht] Hs Hm Hd.
  apply Prelude.bind_Ok in Hd as ([pdm sts] & Hdrop & Hd).
  destruct (run_call_sent (packet_delivery_manager p) r sent (DropOld now) pdm sts Hpdm) as (k & _ & _ & Hpdm');
    [unfold PacketDeliveryManager.writes; simpl; lia|done|].
  unfold PacketDeliveryManager.writes in Hpdm'. cbn in Hpdm'. rewrite Z.add_0_r in Hpdm'.
  assert (m_next_expected_packet_id pdm = m_next_expected_packet_id (packet_delivery_manager p)) as Ex.
  { unfold drop_old_packets in Hdrop. by inv_result. }
  eapply peer_wf_statuses; [|exact Hm|exact Hd]. split; cbn; try done; [by eexists|by rewrite Ex].
Qed.

Lemma drop_loop_wf cfg bound now peers : ∀ m peers' m',
  Forall (λ e, ∃ sent, sent ≤ bound ∧ peer_wf cfg e.2 sent) peers → bound ≤ 2 ^ 32 → wf NeptunMetricKey m →
  drop_loop peers m now = Ok (peers', m') →
  Forall (λ e, ∃ sent, sent ≤ bound ∧ peer_wf cfg e.2 sent) peers' ∧ peers'.*1 = peers.*1 ∧ wf NeptunMetricKey m'.
Proof.
  induction peers as [|[ip p] peers IH]; intros m peers' m' Hp Hb Hm Hd; cbn [drop_loop] in Hd; [by injection Hd as <- <-|].
  apply Forall_cons in Hp as [(sent & Hs & Hp) Hps].
  apply Prelude.bind_Ok in Hd as ([p1 m1] & H1 & Hd). apply Prelude.bind_Ok in Hd as ([ps m2] & H2 & [= <- <-]).
  destruct (drop_peer_wf _ _ _ _ _ _ _ Hp ltac:(lia) Hm H1) as [Hp1 Hm1].
  destruct (IH _ _ _ Hps Hb Hm1 H2) as (Hps' & Hk & Hm2).
  split; [constructor; [by exists sent|done]|]. split; [by rewrite !fmap_cons, Hk|done].
Qed.

Lemma read_wf network n bound now network' n' r u :
  endpoint_wf n bound → 0 ≤ bound ≤ 2 ^ 32 → read network n now = Ok (network', n', r, u) →
  endpoint_wf n' bound.
Proof.
  intros Hn Hb Hr. unfold read in Hr. pose proof Hn as [Hc Ho Hp Hbuf Hm].
  rewrite span_range_Ok in Hr by (unfold kJustAboveMtu in *; lia). cbn [mbind result_bind] in Hr.
  apply Prelude.bind_Ok in Hr as ([[net b] info] & Hread & Hr). unfold UdpSocket.read in Hread.
  pose proof (read_buffer _ _ _ _ _ _ Hread) as Hlen. unfold kJustAboveMtu in Hlen, Hbuf.
  assert (len b = 1600) as Hb1 by (rewrite Hlen, length_take, length_drop; lia).
  set (n1 := with_network_buffer n _) in *.
  assert (endpoint_wf n1 bound) as Hn1 by (split; try done; unfold n1, kJustAboveMtu; cbn; list_lia).
  destruct info as [[sender size]|]; [|by injection Hr as _ <- _ _].
  destruct (find_or_create_peer n1 0 sender now) as [n2 p] eqn:Hf.
  destruct (endpoint_wf_find _ _ _ _ _ _ Hn1 ltac:(lia) Hf) as (Hn2 & Ec & sent & Hs & Hpw).
  apply Prelude.bind_Ok in Hr as ([[[p' m'] rel] unrel] & Hrp & [= _ <- _ _]).
  pose proof Hn2 as [_ _ _ Hbuf2 Hm2]. rewrite Ec in Hrp.
  assert (len (ztake size (m_network_buffer n2)) < 2 ^ 62) as Hlt by (rewrite length_take; unfold kJustAboveMtu in Hbuf2; lia).
  destruct (peer_wf_read _ _ _ _ _ _ _ _ _ _ Hc Hpw ltac:(lia) Hm2 Hlt Hrp) as [Hp' Hm'].
  destruct (endpoint_wf_set n2 bound sender p' sent Hn2) as [? ? ? ? ?]; [by rewrite Ec|done|]. by split.
Qed.

Lemma send_size_range cfg p sent :
  config_wf cfg → peer_wf cfg p sent → 100 ≤ send_size_limit cfg p < 2 ^ 16.
Proof.
  intros [[_ _ _ [_ Hsend]] Hv] Hp. unfold send_size_limit. unfold limit_valid in Hv.
  apply andb_prop in Hv as [Hv1%Z.leb_le Hv2%Z.leb_le].
  destruct (peer_limit _) as [l|] eqn:Hl; [|lia].
  destruct (cw_limit _ _ (pw_manager _ _ _ Hp) l Hl) as [[_ [_ Hl2] _ _] Hlv]. unfold limit_valid in Hlv.
  apply andb_prop in Hlv as [Hlv1%Z.leb_le Hlv2%Z.leb_le]. lia.
Qed.

Lemma ticker_wf_tick t now t' b : ticker_wf t → Ticker.tick t now = Ok (t', b) → ticker_wf t'.
Proof.
  intros Ht Htick. assert (m_tick_interval t' = m_tick_interval t) as E; [|unfold ticker_wf; by rewrite E].
  unfold Ticker.tick in Htick. apply Prelude.bind_Ok in Htick as (e & _ & Htick).
  destruct e, (m_tick_interval t) eqn:Hi; try (by injection Htick as <- _).
  apply Prelude.bind_Ok in Htick as (x & _ & Htick). destruct (_ <=? _); [|by injection Htick as <- _].
  by apply Prelude.bind_Ok in Htick as (y & _ & [= <- _]).
Qed.

Lemma write_peer_wf network n bound now ip p sent network' n' p' :
  endpoint_wf n bound → peer_wf (m_connection_manager_config n) p sent → sent < 2 ^ 32 →
  write_peer network n now ip p = Ok (network', n', p') →
  ∃ b, n' = with_network_buffer n b ∧ len b = kJustAboveMtu ∧
    ∃ sent', sent' ≤ sent + 1 ∧ peer_wf (m_connection_manager_config n) p' sent'.
Proof.
  intros [Hc _ _ Hbuf _] Hp Hs Hw. unfold write_peer in Hw.
  pose proof (send_size_range _ _ _ Hc Hp) as Hsize. set (size := send_size_limit _ _) in *.
  apply Prelude.bind_Ok in Hw as ([t ticked] & Ht & Hw).
  assert (peer_wf (m_connection_manager_config n) (with_ticker p t) sent) as Hp1.
  { destruct Hp. split; try done. by eapply ticker_wf_tick. }
  destruct (_ || _); [|injection Hw as _ <- <-; exists (m_network_buffer n); split; [by destruct n|]; split; [done|]; exists sent; split; [lia|done]].
  unfold write_to_peer in Hw. set (size' := Z.min kJustBelowMtu size) in *.
  assert (22 ≤ size' ≤ 1400) as Hs' by (unfold size', kJustBelowMtu; lia). unfold kJustAboveMtu in Hbuf.
  rewrite span_range_Ok in Hw by lia. cbn [mbind result_bind] in Hw.
  apply Prelude.bind_Ok in Hw as ([[q b] [[[n1 n2] n3] n4]] & Hwp & Hw).
  apply Prelude.bind_Ok in Hw as (payload & _ & Hw). apply Prelude.bind_Ok in Hw as ([net cnt] & _ & Hw).
  apply Prelude.bind_Ok in Hw as ([] & _ & [= _ <- <-]).
  assert (len (ztake (size' - 0) (zdrop 0 (m_network_buffer n))) = size') as Hsp by (rewrite length_take, length_drop; lia).
  destruct (peer_wf_write _ _ _ _ _ _ _ _ Hp1 Hs ltac:(rewrite Hsp; lia) Hwp) as [Hp2 Hl].
  eexists. split; [done|]. split; [rewrite length_app, Nat2Z.inj_add, Hl, Hsp, length_drop; unfold kJustAboveMtu; lia|]. exists (sent + 1). split; [lia|done].
Qed.

Lemma write_loop_wf cfg bound now peers : ∀ network n network' n' peers',
  endpoint_wf n bound → m_connection_manager_config n = cfg → bound < 2 ^ 32 →
  Forall (λ e, ∃ sent, sent ≤ bound ∧ peer_wf cfg e.2 sent) peers →
  write_loop network n now peers = Ok (network', n', peers') →
  (∃ b, n' = with_network_buffer n b ∧ len b = kJustAboveMtu) ∧ peers'.*1 = peers.*1 ∧
  Forall (λ e, ∃ sent, sent ≤ bound + 1 ∧ peer_wf cfg e.2 sent) peers'.
Proof.
  induction peers as [|[ip p] peers IH]; intros network n network' n' peers' Hn Hcfg Hb Hp Hw; cbn [write_loop] in Hw.
  { injection Hw as _ <- <-. split; [|done]. exists (m_network_buffer n). split; [by destruct n|]. by destruct Hn. }
  apply Forall_cons in Hp as [(sent & Hs & Hp) Hps].
  apply Prelude.bind_Ok in Hw as ([[net1 n1] p1] & H1 & Hw). apply Prelude.bind_Ok in Hw as ([[net2 n2] ps] & H2 & [= _ <- <-]).
  cbn [snd] in Hp. rewrite <-Hcfg in Hp.
  destruct (write_peer_wf _ _ _ _ _ _ _ _ _ _ Hn Hp ltac:(lia) H1) as (b & -> & Hlb & sent' & Hs' & Hp').
  assert (endpoint_wf (with_network_buffer n b) bound) as Hn1 by (by destruct Hn).
  destruct (IH _ _ _ _ _ Hn1 Hcfg Hb Hps H2) as ((b2 & -> & Hlb2) & Hk & Hps').
  split; [by exists b2|]. split; [by rewrite !fmap_cons, Hk|].
  constructor; [|done]. exists sent'. cbn. rewrite <-Hcfg. split; [lia|done].
Qed.

Lemma tick_wf network n bound now network' n' r u :
  endpoint_wf n bound → 0 ≤ bound < 2 ^ 32 → tick network n now = Ok (network', n', r, u) →
  endpoint_wf n' (bound + 1).
Proof.
  intros Hn Hb Ht. unfold tick in Ht. pose proof Hn as [Hc Ho Hp Hbuf Hm].
  apply Prelude.bind_Ok in Ht as ([peers m] & Hd & Ht).
  destruct (drop_loop_wf _ _ _ _ _ _ _ Hp ltac:(lia) Hm Hd) as (Hp1 & Hk1 & Hm1).
  set (n1 := with_metrics (with_peers n peers) m) in *.
  assert (endpoint_wf n1 bound) as Hn1.
  { split; try done. unfold n1. cbn. unfold ordered. by rewrite Hk1. }
  apply Prelude.bind_Ok in Ht as ([[[net1 n2] rel] unrel] & Hr & Ht).
  pose proof (read_wf _ _ _ _ _ _ _ _ Hn1 ltac:(lia) Hr) as Hn2.
  apply Prelude.bind_Ok in Ht as ([net2 n3] & Hw & [= _ <- _ _]). unfold write in Hw.
  apply Prelude.bind_Ok in Hw as ([[net3 n4] peers4] & Hw & [= _ <-]).
  destruct (write_loop_wf _ _ _ _ _ _ _ _ _ Hn2 eq_refl ltac:(lia) (ew_peers _ _ Hn2) Hw) as ((b & -> & Hlb) & Hk4 & Hp4).
  destruct Hn2 as [? Ho2 ? ? ?]. split; try done. cbn. unfold ordered. by rewrite Hk4.
Qed.

(** What the application asks of an endpoint; each [tick] meets a network of its own,
    so that between two of them anything can happen to the datagrams. *)
Inductive Request :=
  | AskConnect (ip : IpAddress) (now : Z)
  | AskReliable (ip : IpAddress) (write_to_buffer : WriteToBufferFn) (now : Z)
  | AskUnreliable (ip : IpAddress) (write_to_buffer : WriteToBufferFn) (now : Z)
  | AskTick (network : N) (now : Z).

Definition request (n : Neptun) (r : Request) : result Neptun :=
  match r with
  | AskConnect ip now => Ok (connect n ip now)
  | AskReliable ip f now => send_reliable_to n ip f now
  | AskUnreliable ip f now => send_unreliable_to n ip f now
  | AskTick network now => '(_, n, _, _) ← tick network n now; Ok n
  end.

Fixpoint requests (n : Neptun) (rs : list Request) : result Neptun :=
  match rs with
  | [] => Ok n
  | r :: rs => n ← request n r; requests n rs
  end.

Definition request_ok (r : Request) : Prop :=
  match r with
  | AskReliable _ f _ | AskUnreliable _ f _ => WriterOk f
  | _ => True
  end.

Lemma endpoint_wf_create network ip cfg timeout network' n :
  config_wf cfg → create network ip cfg timeout = Ok (network', n) → endpoint_wf n 0.
Proof.
  intros Hc Hn. unfold create in Hn. apply Prelude.bind_Ok in Hn as ([net s] & _ & Hn).
  injection Hn as _ <-. split; cbn [m_connection_manager_config m_peers m_network_buffer m_metrics]; try done.
  by constructor.
Qed.

Lemma request_wf n bound r n' :
  endpoint_wf n bound → 0 ≤ bound < 2 ^ 32 → request_ok r → request n r = Ok n' → endpoint_wf n' (bound + 1).
Proof.
  intros Hn Hb Hr Hs. assert (∀ m, endpoint_wf m bound → endpoint_wf m (bound + 1)) as Hweaken.
  { intros m [? ? Hp ? ?]. split; try done. eapply Forall_impl; [exact Hp|].
    intros e (sent & ? & ?). exists sent. split; [lia|done]. }
  destruct r; cbn [request request_ok] in *.
  - injection Hs as <-. apply Hweaken, connect_wf; [done|lia].
  - eapply Hweaken, send_reliable_wf; [exact Hn|lia|exact Hr|exact Hs].
  - eapply Hweaken, send_unreliable_wf; [exact Hn|lia|exact Hr|exact Hs].
  - apply Prelude.bind_Ok in Hs as ([[[? ?] ?] ?] & Ht & [= <-]). by eapply tick_wf.
Qed.

Lemma requests_wf rs : ∀ n bound n',
  endpoint_wf n bound → 0 ≤ bound → bound + len rs ≤ 2 ^ 32 → Forall request_ok rs →
  requests n rs = Ok n' → endpoint_wf n' (bound + len rs).
Proof.
  induction rs as [|r rs IH]; intros n bound n' Hn Hb Hl Hr Hs; cbn [requests] in Hs.
  { injection Hs as <-. by rewrite Z.add_0_r. }
  apply Forall_cons in Hr as [Hr Hrs]. rewrite length_cons in *.
  apply Prelude.bind_Ok in Hs as (n1 & H1 & Hs).
  replace (bound + Z.of_nat (S (length rs))) with ((bound + 1) + len rs) in * by lia.
  eapply IH; [|lia|lia|done|exact Hs]. by eapply request_wf; [|lia| |].
Qed.

(** C12: an endpoint stays well formed: whatever the application asks of it and whatever
    the network does between two ticks (it may deliver any bytes, of any sender, as long as
    it keeps within the buffer), in every state it gets to without a fault the counters are
    in the range of their types; the packets in flight have consecutive ids, up to the last
    one written; the outstanding reliable messages have consecutive sequence numbers, tile
    the window of their buffer, and those in flight belong to packets already written, in
    order; the unreliable ones tile theirs behind what has leaked; the peers are a map in
    the order of their keys; the tickers can divide by their intervals; and every limit
    taken from a peer is one that [validate] accepts. Nothing is said of the order of the
    pending acknowledgements, which a wrapped packet id can break. *)
Theorem endpoint_well_formed network ip cfg timeout network' n rs n' :
  config_wf cfg → create network ip cfg timeout = Ok (network', n) →
  Forall request_ok rs → len rs ≤ 2 ^ 32 → requests n rs = Ok n' → endpoint_wf n' (len rs).
Proof.
  intros Hc Hn Hr Hl Hs. apply (requests_wf rs n 0 n'); [by eapply endpoint_wf_create|lia|lia|done|done].
Qed.
End Endpoints.

#[local] Existing Instances little_endian FakeNetwork.fake_network standard.

(** An endpoint that calls a peer, reads a bare header of a stranger, then garbage
    behind a header of the peer. *)
Definition some_config : ConnectionManagerConfig := mkConfig 5 (mkLimit 60 1400 60 1400).

Definition some_network (delivered : list FakeNetwork.PendingPacket) : FakeNetwork.FakeNetwork :=
  FakeNetwork.mkFakeNetwork 1400 1 false [(from_u32 1 1, 0)] [(from_u32 1 1, delivered)] [].

Definition some_requests : list Request :=
  [AskConnect (from_u32 2 2) 0; AskTick (some_network []) 1;
   AskTick (some_network [FakeNetwork.mkPacket (from_u32 3 3) (PacketHeader.encode 7 0 1)]) 2;
   AskTick (some_network [FakeNetwork.mkPacket (from_u32 2 2) (PacketHeader.encode 9 0 0 ++ [255])]) 3].

Lemma some_requests_run :
  match create (FakeNetwork.create 1400) (from_u32 1 1) some_config 500 with
  | Ok (_, n) => match requests n some_requests with Ok n' => length (m_peers n') = 2%nat | Fault _ => False end
  | Fault _ => False
  end.
Proof. vm_compute. reflexivity. Qed.

Lemma endpoint_well_formed_witness : ∃ n', endpoint_wf n' 4 ∧ length (m_peers n') = 2%nat.
Proof.
  pose proof some_requests_run as Hp.
  destruct (create (FakeNetwork.create 1400) (from_u32 1 1) some_config 500) as [[network n]|] eqn:Hn; [|destruct Hp].
  destruct (requests n some_requests) as [n'|] eqn:Hr; [|destruct Hp]. exists n'. split; [|exact Hp].
  refine (endpoint_well_formed (FakeNetwork.create 1400) (from_u32 1 1) some_config 500 network n some_requests n'
    _ Hn _ _ Hr).
  - split; [|reflexivity]. split; unfold in_u; cbn; lia.
  - repeat constructor.
  - cbn. lia.
Defined.
