(* ===== verification/Datagrams.v ===== *)
(** * Datagrams: what the endpoints need of a network to trust what they read

    [NetworkOk] is about sizes. [Datagrams] says what UDP promises of contents: a
    datagram may get lost, be delivered late, twice or out of order, but what is
    delivered has been sent, by the address it names, to the address it is read at.
    [FakeNetwork] keeps it. *)
From Stdlib Require Import ZArith Lia.
From stdpp Require Import prelude strings.
From S2P Require Import Prelude Span IpAddress OrderedMap Network Neptun.
Open Scope Z_scope.

Record datagram := mkDatagram { from : IpAddress; to : IpAddress; content : bytes }.

(** [socket_address]: the address a socket is bound to. [in_transit n h]: whatever
    [n] will deliver is in [h]. *)
Class Datagrams (N : Type) `{ByteOrder, Network N} := {
  socket_address : N → Z → option IpAddress;
  in_transit : N → list datagram → Prop;
}.

Class DatagramsOk (N : Type) `{Datagrams N} := {
  read_datagram n h fd a buffer n' buffer' r :
    in_transit n h → socket_address n fd = Some a → len buffer = kJustAboveMtu →
    read_from_socket n fd buffer = Ok (n', buffer', r) →
    in_transit n' h ∧ (∀ x, socket_address n' x = socket_address n x) ∧
    ∀ sender size, r = Some (sender, size) →
      ∃ d, d ∈ h ∧ from d = sender ∧ same_key (to d) a = true ∧
        (len (content d) ≤ kJustBelowMtu → 0 ≤ size ≤ len buffer' ∧ ztake size buffer' = content d);
  send_datagram n h fd a ip payload n' size :
    in_transit n h → socket_address n fd = Some a → send_to n fd ip payload = Ok (n', size) →
    in_transit n' (h ++ [mkDatagram a ip payload]) ∧ (∀ x, socket_address n' x = socket_address n x);
}.

Section Fake.
Context `{ByteOrder}.

(** A queued packet is one that was sent there, cut to the MTU. *)
Definition waiting (mtu : Z) (h : list datagram) (ip : IpAddress) (k : FakeNetwork.PendingPacket) : Prop :=
  ∃ d, d ∈ h ∧ from d = FakeNetwork.sender k ∧ same_key (to d) ip = true ∧
    FakeNetwork.payload k = ztake mtu (content d).

#[global] Instance fake_datagrams : Datagrams FakeNetwork.FakeNetwork := {|
  socket_address := FakeNetwork.find_ip;
  in_transit n h := kJustBelowMtu ≤ FakeNetwork.m_mtu n < 2 ^ 31 ∧
    ∀ ip k, k ∈ FakeNetwork.queue n ip → waiting (FakeNetwork.m_mtu n) h ip k;
|}.

Lemma fake_read_frame n fd buffer n' buffer' r :
  FakeNetwork.read_from_socket n fd buffer = Ok (n', buffer', r) →
  FakeNetwork.m_mtu n' = FakeNetwork.m_mtu n ∧ FakeNetwork.m_bind n' = FakeNetwork.m_bind n.
Proof.
  unfold FakeNetwork.read_from_socket. destruct (FakeNetwork.find_ip n fd); [|done].
  destruct (index _ _ _) as [? [|? ?]]; [by intros [= <- _ _]|].
  destruct (index _ _ _), (FakeNetwork.copy_loop _ _ _). intros Hr. by inv_result.
Qed.

Lemma fake_send_frame n fd ip payload n' size :
  FakeNetwork.send_to n fd ip payload = Ok (n', size) →
  FakeNetwork.m_mtu n' = FakeNetwork.m_mtu n ∧ FakeNetwork.m_bind n' = FakeNetwork.m_bind n.
Proof.
  unfold FakeNetwork.send_to. destruct (FakeNetwork.find_ip n fd); [|done].
  destruct (index _ _ _), (FakeNetwork.m_should_drop_packets n); [by intros [= <- _]|].
  destruct (index _ _ _). by intros [= <- _].
Qed.

Lemma fake_send_queue n fd a ip payload n' size ip' :
  FakeNetwork.find_ip n fd = Some a → 0 ≤ FakeNetwork.m_mtu n < 2 ^ 31 →
  FakeNetwork.send_to n fd ip payload = Ok (n', size) →
  FakeNetwork.queue n' ip' = FakeNetwork.queue n ip' ∨
  (same_key ip' ip = true ∧ FakeNetwork.queue n' ip'
     = FakeNetwork.queue n ip' ++ [FakeNetwork.mkPacket a (ztake (FakeNetwork.m_mtu n) payload)]).
Proof.
  intros Ha Hmtu Hs. destruct (FakeNetwork.m_should_drop_packets n) eqn:Hd.
  - left. unfold FakeNetwork.send_to in Hs. rewrite Ha, Hd in Hs. destruct (index _ _ _). by injection Hs as <- _.
  - destruct (FakeNetwork.send_to_Ok n fd ip payload a Ha Hd Hmtu) as (n1 & Hs1 & _ & Hq).
    rewrite Hs1 in Hs. injection Hs as <- _. rewrite Hq. destruct (same_key ip' ip); [right|left]; done.
Qed.

#[global] Instance fake_datagrams_ok : DatagramsOk FakeNetwork.FakeNetwork.
Proof.
  split; cbn [in_transit socket_address fake_datagrams Network.read_from_socket Network.send_to FakeNetwork.fake_network].
  - intros n h fd a buffer n' buffer' r [[Hmtu1 Hmtu2] Hq] Ha Hb Hr.
    destruct (fake_read_frame _ _ _ _ _ _ Hr) as [Em Eb]. rewrite Em.
    destruct (FakeNetwork.read_from_socket_Ok n fd buffer a Ha) as (n1 & b1 & r1 & Hr1 & _ & Hcase).
    rewrite Hr in Hr1. injection Hr1 as <- <- <-.
    assert (∀ x, FakeNetwork.find_ip n' x = FakeNetwork.find_ip n x) as Hfind by (unfold FakeNetwork.find_ip; by rewrite Eb).
    destruct (FakeNetwork.queue n a) as [|k rest] eqn:Hqa.
    { destruct Hcase as (-> & -> & Hq'). split_and!; try done. intros ip k. rewrite Hq'. apply Hq. }
    destruct Hcase as (-> & -> & Hq'). split_and!; try done.
    + intros ip k'. rewrite Hq'. destruct (same_key ip a) eqn:Hs; [|apply Hq].
      intros Hk'. destruct (Hq a k') as (d & ? & ? & ? & ?); [rewrite Hqa; by right|].
      exists d. split_and!; try done. rewrite same_key_sym in Hs. by eapply same_key_trans.
    + intros s size [= <- <-]. destruct (Hq a k) as (d & Hd & Hf & Ht & Hp); [rewrite Hqa; by left|].
      exists d. split_and!; try done. intros Hl. unfold kJustBelowMtu, kJustAboveMtu in *.
      rewrite Hp, (take_ge (content d)) by lia. rewrite (take_ge (content d)) by lia.
      split; [list_lia|]. by rewrite Nat2Z.id, take_app_length.
  - intros n h fd a ip payload n' size [Hmtu Hq] Ha Hs.
    destruct (fake_send_frame _ _ _ _ _ _ Hs) as [Em Eb]. rewrite Em.
    split; [split; [done|]|unfold FakeNetwork.find_ip; by rewrite Eb].
    unfold kJustBelowMtu in *. assert (0 ≤ FakeNetwork.m_mtu n < 2 ^ 31) as Hm by lia.
    intros ip' k Hk. destruct (fake_send_queue n fd a ip payload n' size ip' Ha Hm Hs) as [E|[Hsame E]];
      rewrite E in Hk.
    + destruct (Hq ip' k Hk) as (d & ? & ?). exists d. split; [set_solver|done].
    + apply elem_of_app in Hk as [Hk|Hk%list_elem_of_singleton].
      * destruct (Hq ip' k Hk) as (d & ? & ?). exists d. split; [set_solver|done].
      * subst k. exists (mkDatagram a ip payload). split_and!; [set_solver|done| |done]. cbn. by rewrite same_key_sym.
Qed.
End Fake.
