(* ===== verification/Format.v ===== *)
(** * Format (neptun/format.h)

    The text form of a packet that the pcap tool prints. *)
From Stdlib Require Import ZArith Lia String.
From stdpp Require Import prelude strings.
From S2P Require Import Prelude Span IoBuffer FlipBuffer Messages ReliableStream UnreliableStream IpAddress Neptun.
Open Scope Z_scope.

Definition hex_digit (d : Z) : string := substring (Z.to_nat d) 1 "0123456789abcdef".

(** [ss << std::hex << (int) byte] *)
Definition print_hex (byte : Z) : string :=
  (if byte <? 16 then "" else hex_digit (byte / 16)) +:+ hex_digit (byte mod 16).

(** The loop of [to_hex]; the separator is a blank from the second byte on. *)
Fixpoint hex_loop (payload : bytes) (sep : string) : string :=
  match payload with
  | [] => ""
  | byte :: payload => sep +:+ print_hex byte +:+ hex_loop payload " "
  end.

Definition to_hex (payload : bytes) : string := hex_loop payload "".

Definition format_manager_type (manager_type : Z) : string :=
  if manager_type =? CONNECTION_MANAGER then "ConnectionManager"
  else if manager_type =? RELIABLE_STREAM then "Reliable"
  else if manager_type =? UNRELIABLE_STREAM then "Unreliable"
  else "Unknown".

Section Format.
Context `{Platform} (rest : bytes).

(** The getters index from the start of the span; [rest] follows it. *)
Definition reach (payload : bytes) : bytes := payload ++ beyond rest.

(** The lambdas return the text they append and what is left of the payload. *)
Definition append_connection_manager_segment (payload : bytes) : result (string * bytes) :=
  message_type ← MessageHeader.message_type (reach payload);
  payload ← Span.advance payload MessageHeader.kSerializedSize;
  if message_type =? LetsConnect.kId then
    let lets_connect := reach payload in
    payload ← Span.advance payload LetsConnect.kSerializedSize;
    max_read_packet_rate ← LetsConnect.max_read_packet_rate lets_connect;
    max_read_packet_size ← LetsConnect.max_read_packet_size lets_connect;
    max_send_packet_rate ← LetsConnect.max_send_packet_rate lets_connect;
    max_send_packet_size ← LetsConnect.max_send_packet_size lets_connect;
    Ok ("[max_read_packet_rate=" +:+ to_string max_read_packet_rate
        +:+ ", max_read_packet_size=" +:+ to_string max_read_packet_size
        +:+ ", max_send_packet_rate=" +:+ to_string max_send_packet_rate
        +:+ ", max_send_packet_size=" +:+ to_string max_send_packet_size +:+ "]", payload)
  else if message_type =? RejectLetsConnect.kId then Ok ("[RejectLetsConnect]", payload)
  else Ok ("", payload).

Fixpoint append_reliable_segment (msg_count : nat) (payload : bytes) : result (string * bytes) :=
  match msg_count with
  | O => Ok ("", payload)
  | S msg_count =>
      let msg := payload in
      size ← ReliableMessage.get_serialized_size (reach msg);
      payload ← Span.advance payload size;
      sequence_number ← ReliableMessage.sequence_number (reach msg);
      length ← ReliableMessage.length (reach msg);
      data ← ReliableMessage.payload msg;
      '(ss, payload) ← append_reliable_segment msg_count payload;
      Ok ("[seq_num=" +:+ to_string sequence_number +:+ ", length=" +:+ to_string length
          +:+ ", payload=" +:+ to_hex data +:+ "]" +:+ ss, payload)
  end.

Fixpoint append_unreliable_segment (msg_count : nat) (payload : bytes) : result (string * bytes) :=
  match msg_count with
  | O => Ok ("", payload)
  | S msg_count =>
      let msg := payload in
      size ← UnreliableMessage.get_serialized_size (reach msg);
      payload ← Span.advance payload size;
      length ← UnreliableMessage.length (reach msg);
      data ← UnreliableMessage.payload msg;
      '(ss, payload) ← append_unreliable_segment msg_count payload;
      Ok ("[length=" +:+ to_string length +:+ ", payload=" +:+ to_hex data +:+ "]" +:+ ss, payload)
  end.

Definition append_segment (payload : bytes) : result (string * bytes) :=
  manager_type ← Segment.manager_type (reach payload);
  message_count ← Segment.message_count (reach payload);
  let head := "[" +:+ format_manager_type manager_type +:+ ", msg_count=" +:+ to_string message_count +:+ "]" in
  payload ← Span.advance payload Segment.kSerializedSize;
  '(ss, payload) ←
    (if manager_type =? CONNECTION_MANAGER then
       assert_that (message_count =? 1);;
       append_connection_manager_segment payload
     else if manager_type =? RELIABLE_STREAM then append_reliable_segment (Z.to_nat message_count) payload
     else if manager_type =? UNRELIABLE_STREAM then append_unreliable_segment (Z.to_nat message_count) payload
     else Fault (Thrown ("Unknown manager type: " +:+ to_string manager_type)));
  Ok (head +:+ ss, payload).

(** The loop of [format_neptun_payload]. Every segment takes at least two bytes, so
    a fuel of the payload's length is enough ([format_loop_fuel]). *)
Fixpoint format_loop (fuel : nat) (payload : bytes) (sep : string) : result string :=
  match payload, fuel with
  | [], _ => Ok ""
  | _, O => out_of_bounds
  | _, S fuel =>
      '(ss, payload) ← append_segment payload;
      tail ← format_loop fuel payload " ";
      Ok (sep +:+ ss +:+ tail)
  end.

Definition format_neptun_payload (payload : bytes) : result string :=
  let packet_header := reach payload in
  payload ← Span.advance payload PacketHeader.kSerializedSize;
  id ← PacketHeader.id packet_header;
  ack_sequence_number ← PacketHeader.ack_sequence_number packet_header;
  ack_bitmask ← PacketHeader.ack_bitmask packet_header;
  segments ← format_loop (length payload) payload "";
  Ok ("[packet_id=" +:+ to_string id +:+ ", ack_seq_num=" +:+ to_string ack_sequence_number
      +:+ ", ack_bitmask=" +:+ to_string ack_bitmask +:+ "]" +:+ " " +:+ segments).
End Format.

Example format_example :
  @format_neptun_payload standard []
    (packet_bytes (mkPacket 7 2 5 [] 3 [[1; 200]; [16]] [[255]]))
  = Ok "[packet_id=7, ack_seq_num=2, ack_bitmask=5] [Reliable, msg_count=2][seq_num=3, length=2, payload=1 c8][seq_num=4, length=1, payload=10] [Unreliable, msg_count=1][length=1, payload=ff]".
Proof. vm_compute. reflexivity. Qed.

(** ** Fuel *)

Lemma advance_inv (s r : bytes) n :
  len s < 2 ^ 63 → 0 ≤ n < 2 ^ 63 → Span.advance s n = Ok r → len r = len s - n.
Proof.
  intros Hs Hn H. destruct (decide (n ≤ len s)).
  - rewrite Span.advance_Ok in H by lia. injection H as <-. list_lia.
  - by rewrite Span.advance_oob in H by lia.
Qed.

Lemma get_serialized_size_range (buffer : bytes) n :
  ReliableMessage.get_serialized_size buffer = Ok n ∨ UnreliableMessage.get_serialized_size buffer = Ok n →
  0 ≤ n < 2 ^ 63.
Proof.
  intros [H|H]; unfold ReliableMessage.get_serialized_size, UnreliableMessage.get_serialized_size in H; inv_result;
    apply read_unsigned_inv in H0 as [_ H0]; unfold in_u in *; autounfold with wire; lia.
Qed.

Section Fuel.
Context `{Platform} (rest : bytes).

Lemma append_reliable_shorter n : ∀ payload ss payload',
  len payload < 2 ^ 63 → append_reliable_segment rest n payload = Ok (ss, payload') → len payload' ≤ len payload.
Proof using Type.
  induction n as [|n IH]; intros payload ss payload' Hl Ha; cbn [append_reliable_segment] in Ha; inv_result; [lia|].
  eapply advance_inv in Ha1; [|done|by eapply get_serialized_size_range; left].
  pose proof (get_serialized_size_range _ _ (or_introl Ha0)). apply IH in Ha5; lia.
Qed.

Lemma append_unreliable_shorter n : ∀ payload ss payload',
  len payload < 2 ^ 63 → append_unreliable_segment rest n payload = Ok (ss, payload') → len payload' ≤ len payload.
Proof using Type.
  induction n as [|n IH]; intros payload ss payload' Hl Ha; cbn [append_unreliable_segment] in Ha; inv_result; [lia|].
  eapply advance_inv in Ha1; [|done|by eapply get_serialized_size_range; right].
  pose proof (get_serialized_size_range _ _ (or_intror Ha0)). apply IH in Ha4; lia.
Qed.

(** Shortens by what [advance] takes. *)
Ltac after_advance :=
  match goal with H : Span.advance _ _ = Ok _ |- _ =>
    apply advance_inv in H; [|lia|by autounfold with wire; lia]; autounfold with wire in H end.

Lemma append_connection_shorter payload ss payload' :
  len payload < 2 ^ 63 → append_connection_manager_segment rest payload = Ok (ss, payload') →
  len payload' ≤ len payload.
Proof using Type.
  intros Hl Ha. unfold append_connection_manager_segment in Ha. inv_result. after_advance.
  destruct (_ =? LetsConnect.kId); [inv_result; after_advance; lia|].
  destruct (_ =? RejectLetsConnect.kId); inv_result; lia.
Qed.

Lemma append_segment_shorter payload ss payload' :
  len payload < 2 ^ 63 → append_segment rest payload = Ok (ss, payload') → len payload' ≤ len payload - 2.
Proof using Type.
  intros Hl Ha. unfold append_segment in Ha. inv_result. after_advance.
  match goal with H : (if _ then _ else _) = Ok _ |- _ => rename H into Hs end.
  destruct (_ =? CONNECTION_MANAGER); [inv_result; apply append_connection_shorter in Hs; lia|].
  destruct (_ =? RELIABLE_STREAM); [apply append_reliable_shorter in Hs; lia|].
  destruct (_ =? UNRELIABLE_STREAM); [apply append_unreliable_shorter in Hs; lia|done].
Qed.

(** The loop stops by itself: more fuel than the payload's length changes nothing. *)
Lemma format_loop_fuel fuel1 : ∀ fuel2 payload sep,
  len payload < 2 ^ 63 → (length payload ≤ fuel1)%nat → (length payload ≤ fuel2)%nat →
  format_loop rest fuel1 payload sep = format_loop rest fuel2 payload sep.
Proof using Type.
  induction fuel1 as [|fuel1 IH]; intros [|fuel2] [|b payload] sep Hl H1 H2; try (done || (simpl in *; lia)).
  cbn [format_loop]. destruct (append_segment rest (b :: payload)) as [[ss payload']|] eqn:Ha; [|done].
  cbn [mbind result_bind]. apply append_segment_shorter in Ha; [|done]. simpl in *.
  by rewrite (IH fuel2) by lia.
Qed.
End Fuel.

(** ** Reference *)

Fixpoint show_reliable (a : Z) (ps : list bytes) : string :=
  match ps with
  | [] => ""
  | p :: ps => "[seq_num=" +:+ to_string (u32 a) +:+ ", length=" +:+ to_string (len p)
               +:+ ", payload=" +:+ to_hex p +:+ "]" +:+ show_reliable (a + 1) ps
  end.

Fixpoint show_unreliable (ps : list bytes) : string :=
  match ps with
  | [] => ""
  | p :: ps => "[length=" +:+ to_string (len p) +:+ ", payload=" +:+ to_hex p +:+ "]" +:+ show_unreliable ps
  end.

(** The segments of a packet without a handshake message. *)
Definition show_segments (k : packet) : string :=
  let reliable := "[Reliable, msg_count=" +:+ to_string (len (pk_reliable k)) +:+ "]"
                  +:+ show_reliable (pk_start k) (pk_reliable k) in
  let unreliable := "[Unreliable, msg_count=" +:+ to_string (len (pk_unreliable k)) +:+ "]"
                    +:+ show_unreliable (pk_unreliable k) in
  match pk_reliable k, pk_unreliable k with
  | [], [] => ""
  | _, [] => reliable +:+ ""
  | [], _ => unreliable +:+ ""
  | _, _ => reliable +:+ " " +:+ unreliable +:+ ""
  end.

Definition show_packet (k : packet) : string :=
  "[packet_id=" +:+ to_string (pk_id k) +:+ ", ack_seq_num=" +:+ to_string (pk_ack k)
  +:+ ", ack_bitmask=" +:+ to_string (pk_mask k) +:+ "]" +:+ " " +:+ show_segments k.

Section Reference.
Context `{Platform} (rest : bytes).

Lemma append_reliable_Ok ps : ∀ a tail,
  ReliableStream.messages_ok ps → len (encode_from a ps ++ tail) < 2 ^ 62 →
  append_reliable_segment rest (length ps) (encode_from a ps ++ tail) = Ok (show_reliable a ps, tail).
Proof using Type.
  induction ps as [|p ps IH]; intros a tail Hok Hl; [done|]. apply Forall_cons in Hok as [Hp Hok].
  cbn [length append_reliable_segment encode_from show_reliable] in *. rewrite <-app_assoc in *.
  pose proof (ReliableMessage.reliable_message_length_encode (u32 a) p) as Henc.
  set (enc := ReliableMessage.encode (u32 a) p) in *. unfold ReliableMessage.serialized_size in Henc.
  set (body := encode_from (a + 1) ps ++ tail) in *.
  assert (reach rest (enc ++ body) = enc ++ body ++ beyond rest) as Hr by (unfold reach; by rewrite app_assoc).
  assert (ReliableMessage.length (enc ++ body ++ beyond rest) = Ok (len p)) as Hlen.
  { unfold enc. rewrite ReliableMessage.reliable_message_length_field_encode. rewrite wrap_small; [done|]. unfold in_u. simpl in Hp. lia. }
  pose proof (ReliableMessage.sequence_number_encode (u32 a) p (body ++ beyond rest)) as Hseq.
  pose proof (ReliableMessage.reliable_message_payload_encode (u32 a) p body (proj2 Hp) ltac:(fold enc; lia)) as Hpay.
  fold enc in Hseq, Hpay.
  assert (ReliableMessage.get_serialized_size (enc ++ body ++ beyond rest) = Ok (4 + 2 + len p)) as Hsize.
  { unfold ReliableMessage.get_serialized_size. unfold ReliableMessage.length in Hlen. by rewrite Hlen. }
  rewrite Hr, Hsize. cbn [mbind result_bind]. rewrite Span.advance_Ok by list_lia. cbn [mbind result_bind].
  rewrite Hseq. cbn [mbind result_bind]. rewrite Hlen. cbn [mbind result_bind]. rewrite Hpay.
  cbn [mbind result_bind]. rewrite drop_reassoc by lia. unfold body in *. rewrite IH by (done || list_lia).
  cbn [mbind result_bind]. by rewrite wrap_wrap.
Qed.

Lemma append_unreliable_Ok ps : ∀ tail,
  UnreliableStream.messages_ok ps → len (UnreliableStream.encode_messages ps ++ tail) < 2 ^ 62 →
  append_unreliable_segment rest (length ps) (UnreliableStream.encode_messages ps ++ tail)
  = Ok (show_unreliable ps, tail).
Proof using Type.
  induction ps as [|p ps IH]; intros tail Hok Hl; [done|]. apply Forall_cons in Hok as [Hp Hok].
  cbn [length append_unreliable_segment show_unreliable]. rewrite us_encode_messages_cons, <-app_assoc in *.
  pose proof (UnreliableMessage.unreliable_message_length_encode p) as Henc.
  set (enc := UnreliableMessage.encode p) in *. unfold UnreliableMessage.serialized_size in Henc.
  set (body := UnreliableStream.encode_messages ps ++ tail) in *.
  assert (reach rest (enc ++ body) = enc ++ body ++ beyond rest) as Hr by (unfold reach; by rewrite app_assoc).
  assert (UnreliableMessage.length (enc ++ body ++ beyond rest) = Ok (len p)) as Hlen.
  { unfold enc. rewrite UnreliableMessage.unreliable_message_length_field_encode. rewrite wrap_small; [done|]. unfold in_u. simpl in Hp. lia. }
  pose proof (UnreliableMessage.unreliable_message_payload_encode p body (proj2 Hp) ltac:(fold enc; lia)) as Hpay.
  fold enc in Hpay.
  assert (UnreliableMessage.get_serialized_size (enc ++ body ++ beyond rest) = Ok (2 + len p)) as Hsize.
  { unfold UnreliableMessage.get_serialized_size. unfold UnreliableMessage.length in Hlen. by rewrite Hlen. }
  rewrite Hr, Hsize. cbn [mbind result_bind]. rewrite Span.advance_Ok by list_lia. cbn [mbind result_bind].
  rewrite Hlen. cbn [mbind result_bind]. rewrite Hpay.
  cbn [mbind result_bind]. rewrite drop_reassoc by lia. unfold body in *. rewrite IH by (done || list_lia). done.
Qed.

(** One segment, by its header. *)
Lemma append_segment_Ok t (n : nat) body ss tail :
  (n < 256)%nat → len body < 2 ^ 62 → t = RELIABLE_STREAM ∨ t = UNRELIABLE_STREAM →
  (if t =? RELIABLE_STREAM then append_reliable_segment rest n body else append_unreliable_segment rest n body)
  = Ok (ss, tail) →
  append_segment rest (Segment.encode t (Z.of_nat n) ++ body)
  = Ok ("[" +:+ format_manager_type t +:+ ", msg_count=" +:+ to_string (Z.of_nat n) +:+ "]" +:+ ss, tail).
Proof using Type.
  intros Hn Hl Ht Hs. unfold append_segment, reach. rewrite <-app_assoc.
  rewrite Segment.manager_type_encode, Segment.message_count_encode. cbn [mbind result_bind].
  rewrite !wrap_small by (unfold in_u; destruct Ht; subst; unfold RELIABLE_STREAM, UNRELIABLE_STREAM; lia).
  pose proof (Segment.segment_length_encode t (Z.of_nat n)) as Hh.
  rewrite Span.advance_Ok by (autounfold with wire; list_lia). cbn [mbind result_bind].
  rewrite drop_reassoc by (rewrite Hh; done). rewrite Nat2Z.id.
  destruct Ht as [-> | ->]; cbn in Hs |- *; rewrite Hs; cbn; by rewrite !string_app_assoc.
Qed.

Lemma format_loop_step fuel payload sep ss tail :
  append_segment rest payload = Ok (ss, tail) → payload ≠ [] →
  format_loop rest (S fuel) payload sep = (t ← format_loop rest fuel tail " "; Ok (sep +:+ ss +:+ t)).
Proof using Type. intros Ha Hne. destruct payload; [done|]. cbn [format_loop]. by rewrite Ha. Qed.

(** The two kinds of segments a packet has. *)
Lemma append_reliable_segment_Ok a ps tail :
  ps ≠ [] → (length ps < 256)%nat → ReliableStream.messages_ok ps → len (segment_of a ps ++ tail) < 2 ^ 62 →
  append_segment rest (segment_of a ps ++ tail)
  = Ok ("[Reliable, msg_count=" +:+ to_string (len ps) +:+ "]" +:+ show_reliable a ps, tail).
Proof using Type.
  intros Hne Hc Hok Hl. assert (segment_of a ps = Segment.encode RELIABLE_STREAM (len ps) ++ encode_from a ps) as Hs
    by (by destruct ps).
  rewrite Hs, <-app_assoc in *. rewrite (append_segment_Ok _ _ _ (show_reliable a ps) tail); try done; [list_lia|by left|].
  apply append_reliable_Ok; [done|list_lia].
Qed.

Lemma append_unreliable_segment_Ok ps :
  ps ≠ [] → (length ps < 256)%nat → UnreliableStream.messages_ok ps → len (UnreliableStream.encode_segment ps) < 2 ^ 62 →
  append_segment rest (UnreliableStream.encode_segment ps)
  = Ok ("[Unreliable, msg_count=" +:+ to_string (len ps) +:+ "]" +:+ show_unreliable ps, []).
Proof using Type.
  intros Hne Hc Hok Hl.
  assert (UnreliableStream.encode_segment ps
    = Segment.encode UNRELIABLE_STREAM (len ps) ++ UnreliableStream.encode_messages ps ++ []) as Hs
    by (rewrite app_nil_r; by destruct ps).
  rewrite Hs in *. rewrite (append_segment_Ok _ _ _ (show_unreliable ps) []); try done; [list_lia|by right|].
  apply append_unreliable_Ok; [done|list_lia].
Qed.

Lemma format_segments k :
  (length (pk_reliable k) < 256)%nat → (length (pk_unreliable k) < 256)%nat →
  ReliableStream.messages_ok (pk_reliable k) → UnreliableStream.messages_ok (pk_unreliable k) →
  let segments := segment_of (pk_start k) (pk_reliable k) ++ UnreliableStream.encode_segment (pk_unreliable k) in
  len segments < 2 ^ 62 → format_loop rest (2 + length segments) segments "" = Ok (show_segments k).
Proof using Type.
  intros Hc Huc Hok Huok. cbv zeta. intros Hl. unfold show_segments. set (n := length _). cbn [Nat.add].
  destruct (pk_reliable k) as [|p ps] eqn:Hps, (pk_unreliable k) as [|u us] eqn:Hus.
  - done.
  - rewrite app_nil_l in *. erewrite format_loop_step; [|by apply append_unreliable_segment_Ok|done]. done.
  - erewrite format_loop_step; [|by apply append_reliable_segment_Ok|done]. done.
  - erewrite format_loop_step; [|by apply append_reliable_segment_Ok|done].
    erewrite format_loop_step; [|apply append_unreliable_segment_Ok; try done; list_lia|done].
    destruct n; cbn [format_loop mbind result_bind]; by rewrite ?string_app_assoc.
Qed.
End Reference.

(** ** Properties *)

(** C31: the text form says what is in the packet: for every packet without a handshake
    message, with fewer than 256 messages of each kind, it is the header, and for
    each segment its name, its count and its messages in order, whatever bytes follow
    the packet. *)
Theorem format_packet `{Platform} rest k :
  pk_handshake k = [] → in_u 32 (pk_id k) → in_u 32 (pk_ack k) → in_u 32 (pk_mask k) →
  (length (pk_reliable k) < 256)%nat → (length (pk_unreliable k) < 256)%nat →
  ReliableStream.messages_ok (pk_reliable k) → UnreliableStream.messages_ok (pk_unreliable k) →
  len (packet_bytes k) < 2 ^ 62 →
  format_neptun_payload rest (packet_bytes k) = Ok (show_packet k).
Proof.
  intros Hhs Hi Ha Hm Hc Huc Hok Huok Hl. unfold format_neptun_payload, packet_bytes, show_packet, reach in *.
  rewrite Hhs, app_nil_l in *. set (hdr := PacketHeader.encode (pk_id k) (pk_ack k) (pk_mask k)) in *.
  pose proof (PacketHeader.packet_header_length_encode (pk_id k) (pk_ack k) (pk_mask k)) as Hhdr. fold hdr in Hhdr.
  set (segs := segment_of _ _ ++ _) in *.
  rewrite Span.advance_Ok by (autounfold with wire; list_lia). cbn [mbind result_bind].
  rewrite drop_reassoc by (rewrite Hhdr; done). rewrite <-app_assoc. unfold hdr at 1 2 3.
  rewrite PacketHeader.id_encode, PacketHeader.ack_sequence_number_encode, PacketHeader.ack_bitmask_encode.
  cbn [mbind result_bind]. rewrite !wrap_small by done.
  rewrite (format_loop_fuel rest _ (2 + length segs)) by list_lia.
  unfold segs in *. rewrite format_segments by (done || list_lia). cbn [mbind result_bind].
  done.
Qed.

Lemma format_packet_witness :
  format_neptun_payload (H := tolerant) [1; 2] (packet_bytes (mkPacket 7 2 5 [] 3 [[1; 200]; [16]] [[255]]))
  = Ok (show_packet (mkPacket 7 2 5 [] 3 [[1; 200]; [16]] [[255]])).
Proof. apply format_packet; try (done || (simpl; lia)); repeat constructor; done. Defined.
