(* ===== verification/Pcap.v ===== *)
(** * Pcap (neptun/pcap/file_format.h, neptun/pcap/main.cc)

    The tool that prints the packets of a capture file. The file is the stream of
    its bytes, a run of the tool gives the lines it prints. [ctime], which depends
    on the time zone, is a parameter; the command line is not modelled. *)
From Stdlib Require Import ZArith Lia String.
From stdpp Require Import prelude strings.
From S2P Require Import Prelude Span IoBuffer Messages IpAddress Neptun Format.
Open Scope Z_scope.

Record PcapGlobalHeader := mkPcapGlobalHeader {
  magic_number : Z; version_major : Z; version_minor : Z;
  thiszone : Z; sigfigs : Z; snaplen : Z; network : Z;
}.

Record PcapRecordHeader := mkPcapRecordHeader { ts_sec : Z; ts_usec : Z; incl_len : Z; orig_len : Z }.

Record EthernetFrame := mkEthernetFrame {
  destination_mac_address : bytes;
  source_mac_address : bytes;
  ether_type : Z;
}.

Record Ipv4Header := mkIpv4Header {
  version : Z; ihl : Z; dscp : Z; ecn : Z; total_length : Z; identification : Z;
  flags : Z; fragment_offset : Z; time_to_live : Z; protocol : Z; header_checksum : Z;
  source_ip : Z; destination_ip : Z;
  options : bytes;
}.

Record UdpHeader := mkUdpHeader { source_port : Z; destination_port : Z; udp_length : Z; checksum : Z }.

(** [EtherType::IPv4] and [IpProtocol::UDP] *)
Definition IPv4 : Z := 0x0800.
Definition UDP : Z := 0x11.

(** [sizeof(EthernetFrame)] *)
Definition ether_serialized_size : Z := 14.
Definition ipv4_serialized_size (h : Ipv4Header) : Z := if 5 <? ihl h then 56 else 20.
Definition udp_serialized_size : Z := 4 * 2.

(** Both members of this name. *)
Definition reverse_byte_order {A} (h : A) : result A :=
  Fault (Thrown "reverse byte order not implemented").

(** ** Reading packets *)

(** The loop that fills a MAC address from [source[i]]. *)
Fixpoint copy_mac (n : nat) (i : Z) (source : bytes) : result bytes :=
  match n with
  | O => Ok []
  | S n =>
      b ← span_get source i;
      rest ← copy_mac n (i + 1) source;
      Ok (b :: rest)
  end.

Definition read_ether_frame (payload : bytes) : result EthernetFrame :=
  destination ← read_byte_array payload 0 6;
  destination_mac_address ← copy_mac 6 0 destination;
  source ← read_byte_array payload 6 6;
  source_mac_address ← copy_mac 6 0 destination;
  ether_type ← read_u16 payload (6 + 6);
  Ok (mkEthernetFrame destination_mac_address source_mac_address ether_type).

Definition read_ipv4_header (payload : bytes) : result Ipv4Header :=
  version ← read_bits 8 0 4 payload;
  if negb (version =? 4) then Fault (Thrown "Not IPv4")
  else
    ihl ← read_bits 8 4 8 payload;
    dscp ← read_bits 8 8 14 payload;
    ecn ← read_bits 8 14 16 payload;
    total_length ← read_bits 16 16 32 payload;
    identification ← read_bits 16 32 48 payload;
    flags ← read_bits 8 48 51 payload;
    fragment_offset ← read_bits 16 51 64 payload;
    time_to_live ← read_bits 8 64 72 payload;
    protocol ← read_bits 8 72 80 payload;
    header_checksum ← read_bits 16 80 96 payload;
    source_ip ← read_bits 32 96 128 payload;
    destination_ip ← read_bits 32 128 160 payload;
    Ok (mkIpv4Header version ihl dscp ecn total_length identification flags fragment_offset
          time_to_live protocol header_checksum source_ip destination_ip (replicate 36 0)).

Definition read_udp_header (payload : bytes) : result UdpHeader :=
  source_port ← read_u16 payload 0;
  destination_port ← read_u16 payload 2;
  length ← read_u16 payload 4;
  checksum ← read_u16 payload 6;
  Ok (mkUdpHeader source_port destination_port length checksum).

(** ** The file *)

(** [std::fstream]: what has not been read, and the flags. *)
Record fstream := mkFstream { unread : bytes; eof : bool; fail : bool }.

(** [file.read(_, n)]: the bytes it stores. *)
Definition file_read (file : fstream) (n : Z) : fstream * bytes :=
  if eof file || fail file then (mkFstream (unread file) (eof file) true, [])
  else
    let got := ztake n (unread file) in
    let short := len got <? n in
    (mkFstream (zdrop n (unread file)) short short, got).

Section Tool.
Context `{Platform, ByteOrder} (ctime : Z → string).

(** Loads of 32 and 16 bits in the byte order of the host. *)
Definition load32 (b : bytes) (i : Z) : Z := htonl (be_decode (ztake 4 (zdrop i b))).
Definition load16 (b : bytes) (i : Z) : Z := htons (be_decode (ztake 2 (zdrop i b))).
Definition load_i32 (b : bytes) (i : Z) : Z := wrap 32 (load32 b i + 2 ^ 31) - 2 ^ 31.

(** [global_header] is not initialised before it is read. *)
Definition read_global_header (file : fstream) : result (fstream * PcapGlobalHeader * bool) :=
  let '(file, b) := file_read file 24 in
  if len b <? 24 then Fault (Undefined Indeterminate)
  else
    let global_header := mkPcapGlobalHeader (load32 b 0) (load16 b 4) (load16 b 6)
      (load_i32 b 8) (load32 b 12) (load32 b 16) (load32 b 20) in
    let is_reverse := magic_number global_header =? 0xd4c3b2a1 in
    global_header ← (if is_reverse then reverse_byte_order global_header else Ok global_header);
    Ok (file, global_header, is_reverse).

(** [record_header] starts as zeroes. *)
Definition read_record_header (file : fstream) (is_reverse : bool) : result (fstream * PcapRecordHeader) :=
  let '(file, got) := file_read file 16 in
  let b := got ++ drop (length got) (replicate 16 0) in
  let record_header := mkPcapRecordHeader (load32 b 0) (load32 b 4) (load32 b 8) (load32 b 12) in
  record_header ← (if is_reverse then reverse_byte_order record_header else Ok record_header);
  Ok (file, record_header).

(** The new contents of [buffer] and the size of the span of its first bytes that is
    returned. [read] writes through a pointer: beyond the buffer that is undefined. *)
Definition read_packet_data (file : fstream) (record_header : PcapRecordHeader) (buffer : bytes)
    : result (fstream * bytes * Z) :=
  assert_that (incl_len record_header =? orig_len record_header);;
  let '(file, got) := file_read file (incl_len record_header) in
  if len buffer <? len got then out_of_bounds
  else
    let buffer := got ++ drop (length got) buffer in
    _ ← span_first buffer (incl_len record_header);
    Ok (file, buffer, incl_len record_header).

(** Seconds since the epoch, as [to_time_t] of [to_sys_time] truncates them. *)
Definition to_time_t (s u : Z) : Z := s + u / 1000000.

(** [time_str.back()] and the erasure of a line break. *)
Fixpoint chop_newline (s : string) : string :=
  match s with
  | EmptyString => EmptyString
  | String c EmptyString => if bool_decide (c = Ascii.ascii_of_nat 10) then EmptyString else s
  | String c s => String c (chop_newline s)
  end.

Definition time_string (t : Z) : result string :=
  match ctime t with
  | EmptyString => out_of_bounds
  | s => Ok (chop_newline s)
  end.

(** The line printed for a record, if any; [rest] follows the payload in the buffer. *)
Definition process_record (record_header : PcapRecordHeader) (record_payload rest : bytes) (record_index : Z)
    : result (option string) :=
  ether_frame ← read_ether_frame record_payload;
  record_payload ← Span.advance record_payload ether_serialized_size;
  if negb (ether_type ether_frame =? IPv4) then Ok None
  else
    ip_header ← read_ipv4_header record_payload;
    record_payload ← Span.advance record_payload (ipv4_serialized_size ip_header);
    if negb (protocol ip_header =? UDP) then Ok None
    else
      udp_header ← read_udp_header record_payload;
      record_payload ← Span.advance record_payload udp_serialized_size;
      let source := from_u32 (source_ip ip_header) (source_port udp_header) in
      let destination := from_u32 (destination_ip ip_header) (destination_port udp_header) in
      time_str ← time_string (to_time_t (ts_sec record_header) (ts_usec record_header));
      let is_neptun_packet := (port source =? 7778) || (port source =? 7779) in
      neptun_structure ←
        (if is_neptun_packet then format_neptun_payload rest record_payload else Ok "<not neptun packet>");
      Ok (Some (to_string record_index +:+ ": " +:+ time_str +:+ " UDP " +:+ address_string source +:+ " > "
            +:+ address_string destination +:+ " length " +:+ to_string (udp_length udp_header)
            +:+ " neptun_payload=" +:+ neptun_structure)).

(** One turn of the loop of [process_pcap_file]: what is left of the file, the buffer, the
    count and the line it prints. The last record of a file has no payload. *)
Definition record_turn (file : fstream) (is_reverse : bool) (buffer : bytes) (count : Z)
    : result (fstream * bytes * Z * list string) :=
  '(file, record_header) ← read_record_header file is_reverse;
  '(file, buffer, n) ← read_packet_data file record_header buffer;
  if n =? 0 then Ok (file, buffer, count, [])
  else
    line ← process_record record_header (ztake n buffer) (zdrop n buffer) (count + 1);
    Ok (file, buffer, count + 1, option_list line).

(** The loop: the lines printed and the count. Every turn takes a record header off the
    file or meets its end, so the number of unread bytes and two are enough fuel
    ([record_loop_ends]). *)
Fixpoint record_loop (fuel : nat) (file : fstream) (is_reverse : bool) (buffer : bytes) (count : Z)
    : result (list string * Z) :=
  if eof file then Ok ([], count)
  else
    match fuel with
    | O => out_of_bounds
    | S fuel =>
        '(file, buffer, count, lines) ← record_turn file is_reverse buffer count;
        '(more, total) ← record_loop fuel file is_reverse buffer count;
        Ok (lines ++ more, total)
    end.

(** The runs of the loop, without fuel: [record_run k file is_reverse buffer count r] when it
    leaves with [r], at the end of the file or with a fault, after [k] turns. *)
Inductive record_run (is_reverse : bool) : nat → fstream → bytes → Z → result (list string * Z) → Prop :=
  | run_end file buffer count :
      eof file = true → record_run is_reverse 0 file buffer count (Ok ([], count))
  | run_fault file buffer count e :
      eof file = false → record_turn file is_reverse buffer count = Fault e →
      record_run is_reverse 1 file buffer count (Fault e)
  | run_turn k file buffer count file' buffer' count' lines r :
      eof file = false → record_turn file is_reverse buffer count = Ok (file', buffer', count', lines) →
      record_run is_reverse k file' buffer' count' r →
      record_run is_reverse (S k) file buffer count ('(more, total) ← r; Ok (lines ++ more, total)).

Definition process_pcap_file (contents : bytes) : result (list string) :=
  '(file, global_header, is_reverse) ← read_global_header (mkFstream contents false false);
  let record_data_buffer := replicate (Z.to_nat (snaplen global_header)) 0 in
  '(lines, count) ← record_loop (2 + length (unread file)) file is_reverse record_data_buffer 0;
  Ok (lines ++ ["Processed " +:+ to_string count +:+ " records."]).

(** [main]: the exit code and the lines on [std::cout] and [std::cerr]; [contents] are the
    files that can be opened. *)
Definition main (argv : list string) (contents : string → option bytes)
    : result (Z * list string * list string) :=
  match argv with
  | [_; filename] =>
      match contents filename with
      | None => Ok (-1, [], ["Couldn't open the pcap file: " +:+ filename])
      | Some file => lines ← process_pcap_file file; Ok (0, lines, [])
      end
  | _ =>
      Ok (-1, ["Usage: <filename>";
               "To capture UDP packet data run: [sudo tcpdump -i lo udp -w ./test_data/lo-neptun-example.pcap]"], [])
  end.
End Tool.

(** The two [operator<<]. *)
Definition show_global_header (h : PcapGlobalHeader) : string :=
  "PcapGlobalHeader(" +:+ "magic_number=" +:+ to_string (magic_number h) +:+ ", version_major="
  +:+ to_string (version_major h) +:+ ", version_minor=" +:+ to_string (version_minor h) +:+ ", thiszone="
  +:+ to_string (thiszone h) +:+ ", sigfigs=" +:+ to_string (sigfigs h) +:+ ", snaplen=" +:+ to_string (snaplen h)
  +:+ ", network=" +:+ to_string (network h) +:+ ")".

Definition show_record_header (h : PcapRecordHeader) : string :=
  "PcapRecordHeader(" +:+ "ts_sec=" +:+ to_string (ts_sec h) +:+ ", ts_usec=" +:+ to_string (ts_usec h)
  +:+ ", incl_len=" +:+ to_string (incl_len h) +:+ ", orig_len=" +:+ to_string (orig_len h) +:+ ")".

(** ** Bit fields *)

(** Fields of given widths, the first one in the highest bits. *)
Fixpoint pack (acc : Z) (fields : list (Z * Z)) : Z :=
  match fields with
  | [] => acc
  | (w, v) :: fields => pack (acc * 2 ^ w + v) fields
  end.

Definition total_width (fields : list (Z * Z)) : Z := foldr (λ f n, f.1 + n) 0 fields.

Definition field_ok (f : Z * Z) : Prop := 0 ≤ f.1 ∧ in_u f.1 f.2.

Lemma total_width_nonneg fields : Forall field_ok fields → 0 ≤ total_width fields.
Proof. induction 1 as [|[w v] fields [Hw _] _ IH]; unfold total_width in *; simpl in *; lia. Qed.

Lemma total_width_app f1 f2 : total_width (f1 ++ f2) = total_width f1 + total_width f2.
Proof. induction f1 as [|[w v] f1 IH]; unfold total_width in *; simpl in *; lia. Qed.

Lemma pack_app acc f1 f2 : pack acc (f1 ++ f2) = pack (pack acc f1) f2.
Proof. revert acc. induction f1 as [|[w v] f1 IH]; intros acc; [done|]. apply IH. Qed.

Lemma pack_shift acc fields : Forall field_ok fields → Z.shiftr (pack acc fields) (total_width fields) = acc.
Proof.
  intros Hok. revert acc. induction Hok as [|[w v] fields [Hw Hv] Hok IH]; intros acc.
  { by rewrite Z.shiftr_0_r. }
  cbn [pack]. cbn in Hw, Hv. pose proof (total_width_nonneg _ Hok). change (total_width ((w, v) :: fields)) with (w + total_width fields).
  rewrite (Z.add_comm w), <-Z.shiftr_shiftr by lia. rewrite IH, Z.shiftr_div_pow2 by lia.
  assert (0 < 2 ^ w) by (apply Z.pow_pos_nonneg; lia). unfold in_u in Hv.
  rewrite Z.div_add_l, Z.div_small by lia. lia.
Qed.

Lemma pack_range acc n fields :
  0 ≤ n → in_u n acc → Forall field_ok fields → in_u (n + total_width fields) (pack acc fields).
Proof.
  intros Hn Ha Hok. revert acc n Hn Ha. induction Hok as [|[w v] fields [Hw Hv] Hok IH]; intros acc n Hn Ha.
  { cbn. by rewrite Z.add_0_r. }
  cbn [pack]. cbn in Hw, Hv. change (total_width ((w, v) :: fields)) with (w + total_width fields).
  rewrite Z.add_assoc. apply IH; [lia|]. unfold in_u in *. rewrite Z.pow_add_r by lia. nia.
Qed.

Lemma be_decode_cons x l : is_bytes l → be_decode (x :: l) = x * 2 ^ (8 * len l) + be_decode l.
Proof. intros Hl. cbn [be_decode]. apply lor_shiftl_add; [lia|]. by apply be_decode_range. Qed.

Lemma be_decode_app a b :
  is_bytes a → is_bytes b → be_decode (a ++ b) = be_decode a * 2 ^ (8 * len b) + be_decode b.
Proof.
  intros Ha Hb. induction Ha as [|x a Hx Ha IH]; [done|].
  cbn [app]. rewrite !be_decode_cons by (done || by apply Forall_app). rewrite IH.
  replace (8 * len (a ++ b)) with (8 * len a + 8 * len b) by list_lia. rewrite Z.pow_add_r by lia. lia.
Qed.

(** The bits [lo .. hi) of a buffer that starts with packed fields. *)
Lemma read_bits_field w fields1 width v fields2 rest :
  let fields := fields1 ++ (width, v) :: fields2 in
  Forall field_ok fields → is_bytes rest → 8 ≤ w → total_width fields = 160 →
  width ≤ w → total_width fields1 + width < 2 ^ w →
  read_bits w (total_width fields1) (total_width fields1 + width) (be_encode 20 (pack 0 fields) ++ rest) = Ok v.
Proof.
  intros fields Hok Hrest Hw Hsum Hwidth Hhi.
  pose proof Hok as (Hok1 & [[Hn Hv] Hok2]%Forall_cons)%Forall_app. cbn in Hn, Hv.
  pose proof (total_width_nonneg _ Hok1). pose proof (total_width_nonneg _ Hok2).
  assert (total_width fields = total_width fields1 + (width + total_width fields2)) as Hs by (apply total_width_app).
  assert (in_u 160 (pack 0 fields)) as Hrange.
  { rewrite <-Hsum, <-(Z.add_0_l (total_width fields)). apply pack_range; [lia| |done]. done. }
  assert (is_bytes (be_encode 20 (pack 0 fields))) as Hb by apply be_encode_bytes.
  rewrite read_bits_Ok; try list_lia; [|by apply Forall_app]. f_equal.
  rewrite be_decode_app, be_decode_encode_small by done.
  replace (8 * len (be_encode 20 (pack 0 fields) ++ rest) - (total_width fields1 + width))
    with (8 * len rest + total_width fields2) by list_lia.
  rewrite <-Z.shiftr_shiftr by lia. pose proof (be_decode_range _ Hrest) as Hr. unfold in_u in Hr.
  rewrite (Z.shiftr_div_pow2 _ (8 * len rest)), Z.div_add_l, Z.div_small, Z.add_0_r by lia.
  unfold fields. rewrite (pack_app _ fields1). cbn [pack]. rewrite pack_shift by done.
  replace (total_width fields1 + width - total_width fields1) with width by lia.
  unfold wrap. rewrite Z.add_comm, Z.mod_add by (apply Z.pow_nonzero; lia). by apply Z.mod_small.
Qed.

(** ** The IPv4 header *)

(** The fields of the 20 bytes every header has, with their widths (RFC 791). *)
Definition ipv4_fields (h : Ipv4Header) : list (Z * Z) :=
  [(4, version h); (4, ihl h); (6, dscp h); (2, ecn h); (16, total_length h);
   (16, identification h); (3, flags h); (13, fragment_offset h); (8, time_to_live h);
   (8, protocol h); (16, header_checksum h); (32, source_ip h); (32, destination_ip h)].

Definition ipv4_bytes (h : Ipv4Header) : bytes := be_encode 20 (pack 0 (ipv4_fields h)).

(** Rewriting with it keeps the kernel from unfolding [read_bits] to compare two binds. *)
Lemma Ok_bind {A B} (a : A) (f : A → result B) : Ok a ≫= f = f a.
Proof. done. Qed.

Lemma ipv4_field h rest buf w lo hi k n v :
  buf = ipv4_bytes h ++ rest → Forall field_ok (ipv4_fields h) → is_bytes rest → ipv4_fields h !! k = Some (n, v) →
  lo = total_width (take k (ipv4_fields h)) → hi = lo + n → 8 ≤ w → n ≤ w → hi < 2 ^ w →
  read_bits w lo hi buf = Ok v.
Proof.
  intros -> Hok Hrest Hk -> -> Hw Hn Hhi. unfold ipv4_bytes.
  assert (total_width (ipv4_fields h) = 160) as Hsum by reflexivity.
  revert Hok Hsum. rewrite <-(take_drop_middle _ _ _ Hk) at 1 2 5. intros Hok Hsum.
  exact (read_bits_field _ _ _ _ _ _ Hok Hrest Hw Hsum Hn Hhi).
Qed.

(** Reads the next field. *)
Ltac next_field h rest buf k :=
  match goal with |- mbind _ (read_bits ?w ?lo ?hi _) = _ =>
    erewrite (ipv4_field h rest buf w lo hi k)
  end; [rewrite Ok_bind | done | done | done | reflexivity | reflexivity | reflexivity | lia | lia | lia].

(** Reading the 20 bytes that carry the fields of an IPv4 header at their RFC 791
    widths gives every field back, whatever follows; a version other than 4 is thrown. *)
Theorem ipv4_roundtrip h rest :
  Forall field_ok (ipv4_fields h) → is_bytes rest → options h = replicate 36 0 →
  read_ipv4_header (ipv4_bytes h ++ rest)
  = if version h =? 4 then Ok h else Fault (Thrown "Not IPv4").
Proof.
  intros Hok Hrest Hopt. remember (ipv4_bytes h ++ rest) as buf eqn:Hbuf. unfold read_ipv4_header.
  next_field h rest buf 0%nat. destruct (Z.eqb_spec (version h) 4); [|done]. cbn [negb].
  next_field h rest buf 1%nat. next_field h rest buf 2%nat. next_field h rest buf 3%nat.
  next_field h rest buf 4%nat. next_field h rest buf 5%nat. next_field h rest buf 6%nat.
  next_field h rest buf 7%nat. next_field h rest buf 8%nat. next_field h rest buf 9%nat.
  next_field h rest buf 10%nat. next_field h rest buf 11%nat. next_field h rest buf 12%nat.
  rewrite <-Hopt. by destruct h.
Qed.

Definition small_ip : Ipv4Header :=
  mkIpv4Header 4 5 0 0 28 1 2 0 64 UDP 0xbeef 167772161 167772162 (replicate 36 0).

Lemma ipv4_roundtrip_witness : read_ipv4_header (ipv4_bytes small_ip ++ [1; 2; 3]) = Ok small_ip.
Proof.
  apply (ipv4_roundtrip small_ip [1; 2; 3]); [|by repeat constructor|done].
  repeat constructor; vm_compute; congruence.
Defined.

(** The source MAC address that is read is the destination's: whatever two frames
    have there, the frames read are the same (main.cc fills it from the wrong array). *)
Theorem ether_frame_source_lost destination source type rest :
  length destination = 6%nat → length source = 6%nat → in_u 16 type →
  len rest < 2 ^ 32 →
  read_ether_frame (destination ++ source ++ be_encode 2 type ++ rest)
  = Ok (mkEthernetFrame destination destination type).
Proof.
  intros Hd Hs Ht Hr. unfold read_ether_frame. set (frame := destination ++ _).
  assert (len frame < 2 ^ 64) by (unfold frame; rewrite !length_app, length_be_encode; lia).
  assert (read_byte_array frame 0 6 = Ok destination) as ->
    by (apply (read_byte_array_app []); [done | by rewrite Hd | done]).
  rewrite Ok_bind. assert (copy_mac 6 0 destination = Ok destination) as ->.
  { clear -Hd. do 7 (destruct destination as [|? destination]; try done). }
  assert (read_byte_array frame 6 6 = Ok source) as ->
    by (apply read_byte_array_app; [by rewrite Hd | by rewrite Hs | done]).
  cbn [mbind result_bind]. unfold frame. rewrite app_assoc, read_u16_app by (rewrite length_app; lia).
  by rewrite wrap_small.
Qed.

Lemma ether_frame_source_lost_witness :
  read_ether_frame ([1; 2; 3; 4; 5; 6] ++ [7; 8; 9; 10; 11; 12] ++ be_encode 2 IPv4 ++ [])
  = Ok (mkEthernetFrame [1; 2; 3; 4; 5; 6] [1; 2; 3; 4; 5; 6] IPv4).
Proof. by apply ether_frame_source_lost. Defined.

(** ** The loop over the records *)

Section Records.
Context `{Platform, ByteOrder} (ctime : Z → string).

(** A failed stream has met its end: so are the streams [file_read] leaves. *)
Definition stream_ok (file : fstream) : Prop := fail file = true → eof file = true.

(** The turns that are left at most. *)
Definition turns (file : fstream) : nat := if eof file then 0 else S (length (unread file)).

Lemma file_read_turns file n file' got :
  stream_ok file → 0 < n → eof file = false → file_read file n = (file', got) →
  stream_ok file' ∧ (turns file' < turns file)%nat.
Proof.
  intros Hok Hn He. unfold file_read, turns, stream_ok in *. rewrite He in *.
  destruct (fail file); [by specialize (Hok eq_refl)|]. cbn [orb]. intros [= <- <-]. cbn [eof fail unread].
  destruct (Z.ltb_spec (len (ztake n (unread file))) n) as [Hlt|Hge]; [split; [done|]; lia|].
  rewrite length_take in Hge. rewrite length_drop. split; [done|lia].
Qed.

Lemma file_read_turns_le file n file' got :
  stream_ok file → file_read file n = (file', got) → stream_ok file' ∧ (turns file' ≤ turns file)%nat.
Proof.
  intros Hok. unfold file_read, turns, stream_ok in *.
  destruct (eof file) eqn:He; cbn [orb].
  { intros [= <- <-]. by cbn. }
  destruct (fail file); [by specialize (Hok eq_refl)|]. intros [= <- <-]. cbn [eof fail unread].
  rewrite length_drop. split; [done|]. case_match; lia.
Qed.

(** Each turn leaves fewer. *)
Lemma turn_decreases file is_reverse buffer count file' buffer' count' lines :
  stream_ok file → eof file = false →
  record_turn ctime file is_reverse buffer count = Ok (file', buffer', count', lines) →
  stream_ok file' ∧ (turns file' < turns file)%nat.
Proof.
  intros Hok He. unfold record_turn. rewrite bind_Ok. intros ([f1 h] & Hh & Hr).
  apply bind_Ok in Hr as ([[f2 b2] n] & Hp & Hr).
  assert (f2 = file') as ->.
  { case_match; [by injection Hr|]. by apply bind_Ok in Hr as (? & _ & [= -> _ _ _]). }
  clear Hr. unfold read_record_header in Hh. destruct (file_read file 16) as [f got] eqn:Hf.
  apply bind_Ok in Hh as (h' & _ & [= -> ->]). assert (0 < 16) as H16 by lia.
  destruct (file_read_turns _ _ _ _ Hok H16 He Hf) as [Hok1 Ht1].
  unfold read_packet_data in Hp. apply bind_Ok in Hp as (_ & _ & Hp).
  destruct (file_read f1 (incl_len h)) as [f' got'] eqn:Hf'.
  destruct (file_read_turns_le _ _ _ _ Hok1 Hf') as [Hok2 Ht2].
  case_match; [done|]. apply bind_Ok in Hp as (_ & _ & [= <- _ _]). split; [done|lia].
Qed.

(** C40: the loop over the records ends. On any file, with any buffer and count, some
    number of turns, at most one more than the bytes that are left, leads to the end of
    the file or to a fault, and any fuel that covers the turns left gives what that run
    gives. *)
Theorem record_loop_ends fuel file is_reverse buffer count :
  stream_ok file → (turns file ≤ fuel)%nat →
  ∃ k, (k ≤ turns file)%nat ∧
    record_run ctime is_reverse k file buffer count (record_loop ctime fuel file is_reverse buffer count).
Proof.
  revert file buffer count. induction fuel as [|fuel IH]; intros file buffer count Hok Hfuel.
  { assert (eof file = true) as He by (unfold turns in Hfuel; case_match; [done|lia]).
    exists 0%nat. cbn [record_loop]. rewrite He. split; [lia|by constructor]. }
  cbn [record_loop]. destruct (eof file) eqn:He; [exists 0%nat; split; [lia|by constructor]|].
  destruct (record_turn ctime file is_reverse buffer count) as [[[[file' buffer'] count'] lines]|e] eqn:Ht;
    cbn [mbind result_bind].
  - destruct (turn_decreases _ _ _ _ _ _ _ _ Hok He Ht) as [Hok' Hlt].
    destruct (IH file' buffer' count' Hok') as (k & Hk & Hrun); [lia|]. exists (S k).
    split; [lia|]. by eapply run_turn.
  - exists 1%nat. split; [unfold turns; rewrite He; lia|by apply run_fault].
Qed.

(** A run has one result. *)
Lemma record_run_functional is_reverse k1 k2 file buffer count r1 r2 :
  record_run ctime is_reverse k1 file buffer count r1 → record_run ctime is_reverse k2 file buffer count r2 → k1 = k2 ∧ r1 = r2.
Proof.
  intros Hrun. revert k2 r2. induction Hrun as [| |k file buffer count file' buffer' count' lines r He Ht Hrun IH];
    intros k2 r2; inversion 1; subst; try congruence; [by split|split; congruence|].
  match goal with Ht' : record_turn _ _ _ _ _ = _ |- _ => rewrite Ht in Ht'; injection Ht' as <- <- <- <- end.
  match goal with Hr : record_run _ _ _ _ _ _ _ |- _ => by destruct (IH _ _ Hr) as [-> ->] end.
Qed.

(** ** Capture files *)

(** A record of a capture file as its bytes. *)
Record capture := mkCapture { cap_header : bytes; cap_data : bytes }.

Definition capture_bytes (r : capture) : bytes := cap_header r ++ cap_data r.

Definition capture_record (r : capture) : PcapRecordHeader :=
  mkPcapRecordHeader (load32 (cap_header r) 0) (load32 (cap_header r) 4)
    (load32 (cap_header r) 8) (load32 (cap_header r) 12).

(** A record that is complete and not longer than the file's limit. *)
Definition capture_ok (limit : Z) (r : capture) : Prop :=
  length (cap_header r) = 16%nat ∧ incl_len (capture_record r) = len (cap_data r) ∧
  orig_len (capture_record r) = len (cap_data r) ∧ 0 < len (cap_data r) ≤ limit.

Lemma file_read_app data tail n :
  n = len data → file_read (mkFstream (data ++ tail) false false) n = (mkFstream tail false false, data).
Proof.
  intros ->. unfold file_read. cbn [eof fail unread orb].
  rewrite Nat2Z.id, take_app_length, drop_app_length. by rewrite Z.ltb_irrefl.
Qed.

(** One record of the file: the next turn has the rest of it. *)
Lemma read_capture r tail buffer :
  capture_ok (len buffer) r →
  read_record_header (mkFstream (capture_bytes r ++ tail) false false) false
  = Ok (mkFstream (cap_data r ++ tail) false false, capture_record r) ∧
  read_packet_data (mkFstream (cap_data r ++ tail) false false) (capture_record r) buffer
  = Ok (mkFstream tail false false, cap_data r ++ drop (length (cap_data r)) buffer, len (cap_data r)).
Proof.
  intros (Hh & Hi & Ho & Hd). split.
  - unfold read_record_header, capture_bytes. rewrite <-app_assoc, file_read_app by (by rewrite Hh).
    rewrite Hh. cbn [Nat.sub drop replicate]. by rewrite app_nil_r.
  - unfold read_packet_data. rewrite Hi, Ho, file_read_app by done.
    rewrite assert_that_true by lia. cbn [mbind result_bind].
    destruct (Z.ltb_spec (len buffer) (len (cap_data r))); [lia|].
    by rewrite span_first_Ok by list_lia.
Qed.

(** The end of the file: a header of zeroes, and no packet. *)
Lemma read_end buffer :
  htonl 0 = 0 →
  ∃ h, read_record_header (mkFstream [] false false) false = Ok (mkFstream [] true true, h) ∧
  read_packet_data (mkFstream [] true true) h buffer = Ok (mkFstream [] true true, buffer, 0).
Proof.
  intros Hz. exists (mkPcapRecordHeader 0 0 0 0). split.
  - rewrite <-Hz at 1 2 3 4. reflexivity.
  - unfold read_packet_data. cbn [incl_len orig_len]. rewrite assert_that_true by done.
    cbn [mbind result_bind file_read eof fail unread orb length drop app].
    destruct (Z.ltb_spec (len buffer) (Z.of_nat 0)); [lia|]. by rewrite span_first_Ok by lia.
Qed.

(** The lines of a list of records, [line i r] being what the [i]-th gives. *)
Definition record_lines (line : Z → capture → option string) (first : Z) (rs : list capture) : list string :=
  mjoin (imap (λ i r, option_list (line (first + Z.of_nat i) r)) rs).

Lemma record_lines_cons line first r rs :
  record_lines line first (r :: rs) = option_list (line first r) ++ record_lines line (first + 1) rs.
Proof.
  unfold record_lines. cbn [imap mjoin list_join]. rewrite Z.add_0_r. do 2 f_equal.
  apply imap_ext. intros i x _. cbn. do 2 f_equal. lia.
Qed.

Lemma record_loop_captures line rs : ∀ fuel buffer count,
  htonl 0 = 0 → Forall (capture_ok (len buffer)) rs →
  (∀ i r rest, r ∈ rs → process_record ctime (capture_record r) (cap_data r) rest i = Ok (line i r)) →
  (S (length rs) ≤ fuel)%nat →
  record_loop ctime fuel (mkFstream (mjoin (capture_bytes <$> rs)) false false) false buffer count
  = Ok (record_lines line (count + 1) rs, count + len rs).
Proof.
  induction rs as [|r rs IH]; intros [|fuel] buffer count Hz Hok Hline Hfuel; cbn [length] in Hfuel; try lia.
  - cbn [record_loop eof fmap list_fmap mjoin list_join]. unfold record_turn.
    destruct (read_end buffer Hz) as (h & -> & E2).
    cbn [mbind result_bind]. rewrite E2. cbn [mbind result_bind Z.eqb].
    destruct fuel; cbn [record_loop eof mbind result_bind]; by rewrite Z.add_0_r.
  - apply Forall_cons in Hok as [Hr Hok]. cbn [record_loop eof].
    change (mjoin (capture_bytes <$> r :: rs)) with (capture_bytes r ++ mjoin (capture_bytes <$> rs)).
    destruct (read_capture r (mjoin (capture_bytes <$> rs)) buffer Hr) as [E1 E2].
    unfold record_turn. rewrite E1. cbn [mbind result_bind]. rewrite E2. cbn [mbind result_bind].
    destruct Hr as (_ & _ & _ & Hd). destruct (Z.eqb_spec (len (cap_data r)) 0); [lia|].
    rewrite Nat2Z.id, take_app_length, drop_app_length, Hline by (by left). cbn [mbind result_bind].
    rewrite IH; [|done| | |lia].
    + cbn [mbind result_bind]. rewrite record_lines_cons. do 2 f_equal. cbn [length]. lia.
    + replace (len (cap_data r ++ _)) with (len buffer) by list_lia. done.
    + intros i r' rest' Hin. apply Hline. by right.
Qed.

Lemma captures_length limit rs :
  Forall (capture_ok limit) rs → (length rs ≤ length (mjoin (capture_bytes <$> rs)))%nat.
Proof.
  induction 1 as [|r rs (Hh & _) _ IH]; [done|].
  change (mjoin (capture_bytes <$> r :: rs)) with (capture_bytes r ++ mjoin (capture_bytes <$> rs)).
  unfold capture_bytes at 1. rewrite !length_app, Hh. cbn [length]. lia.
Qed.

(** C32: a capture file in the byte order of the host, whose records are complete, not
    empty and within the file's limit, and such that [process_record] returns on each,
    gives the line of each record in turn, numbered from one, and their count. *)
Theorem pcap_lines global line rs :
  htonl 0 = 0 → length global = 24%nat → load32 global 0 ≠ 0xd4c3b2a1 → 0 ≤ load32 global 16 →
  Forall (capture_ok (load32 global 16)) rs →
  (∀ i r rest, r ∈ rs → process_record ctime (capture_record r) (cap_data r) rest i = Ok (line i r)) →
  process_pcap_file ctime (global ++ mjoin (capture_bytes <$> rs))
  = Ok (record_lines line 1 rs ++ ["Processed " +:+ to_string (len rs) +:+ " records."]).
Proof.
  intros Hz Hg Hmagic Hsnap Hok Hline. unfold process_pcap_file, read_global_header.
  rewrite file_read_app by (by rewrite Hg). rewrite Hg. cbn [Z.of_nat Z.ltb].
  cbn [magic_number snaplen]. destruct (Z.eqb_spec (load32 global 0) 0xd4c3b2a1); [done|].
  change (Z.of_nat 24 <? 24) with false. cbn [mbind result_bind unread snaplen].
  rewrite (record_loop_captures line); [done|done| |done|].
  - by rewrite length_replicate, Z2Nat.id.
  - pose proof (captures_length _ _ Hok). lia.
Qed.
End Records.

(** A file of two records: an ARP packet, and a datagram from 10.0.0.1:53. *)
Definition small_capture : list capture :=
  let record_header n := [0; 0; 0; 0; 0; 0; 0; 0; n; 0; 0; 0; n; 0; 0; 0] in
  let frame type payload := replicate 12 7 ++ be_encode 2 type ++ payload in
  [mkCapture (record_header 14) (frame 0x0806 []);
   mkCapture (record_header 42) (frame IPv4 (ipv4_bytes small_ip ++ be_encode 2 53 ++ be_encode 2 9999
     ++ be_encode 2 8 ++ be_encode 2 0))].

Definition small_header : bytes :=
  [0xd4; 0xc3; 0xb2; 0xa1; 2; 0; 4; 0; 0; 0; 0; 0; 0; 0; 0; 0; 0; 1; 0; 0; 1; 0; 0; 0].

Lemma pcap_lines_witness :
  @process_pcap_file standard little_endian (λ _, "Thu Jan 1 1970") 
    (small_header ++ mjoin (capture_bytes <$> small_capture))
  = Ok ["2: Thu Jan 1 1970 UDP 10.0.0.1:53 > 10.0.0.2:9999 length 8 neptun_payload=<not neptun packet>";
        "Processed 2 records."].
Proof.
  pose (line i r := match @process_record standard little_endian (λ _, "Thu Jan 1 1970")
    (@capture_record little_endian r) (cap_data r) [] i with Ok l => l | Fault _ => None end).
  rewrite (@pcap_lines standard little_endian (λ _, "Thu Jan 1 1970") small_header line small_capture).
  - vm_compute. reflexivity.
  - reflexivity.
  - reflexivity.
  - vm_compute. congruence.
  - vm_compute. congruence.
  - repeat constructor; vm_compute; congruence.
  - intros i r rest Hr. unfold small_capture in Hr.
    repeat (apply elem_of_cons in Hr as [->|Hr]; [reflexivity|]). by apply elem_of_nil in Hr.
Defined.

Lemma record_loop_ends_witness :
  let file := mkFstream (mjoin (capture_bytes <$> small_capture)) false false in
  turns file = 89%nat ∧ ∃ k, (k ≤ turns file)%nat ∧
    @record_run standard little_endian (λ _, "") false k file (replicate 256 0) 0
      (@record_loop standard little_endian (λ _, "") 300 file false (replicate 256 0) 0).
Proof.
  intros file. split; [by vm_compute|]. apply (@record_loop_ends standard little_endian (λ _, "")); [done|vm_compute; lia].
Defined.
