(* ===== verification/Example.v ===== *)
(** * Example: the example programs (neptun/example.cc and neptun/example_udp.cc)

    The callbacks that number and print messages and the loops of both [main]
    functions. A loop takes the readings of the system clock, in nanoseconds, as a
    list: it runs as long as there are readings. Sleeping is not modelled. *)
From Stdlib Require Import ZArith Lia Ascii Floats.SpecFloat.
From stdpp Require Import prelude strings pretty.
From S2P Require Import Prelude Span IoBuffer FlipBuffer Messages ReliableStream PacketDeliveryManager ConnectionManager UnreliableStream Ticker Metrics IpAddress OrderedMap Network Neptun.
Open Scope Z_scope.

(** The bytes of a string, and back. *)
Definition string_bytes (s : string) : bytes := (λ c, Z.of_N (N_of_ascii c)) <$> String.list_ascii_of_string s.

Definition span_to_string (data : bytes) : string :=
  String.string_of_list_ascii ((λ b, ascii_of_N (Z.to_N b)) <$> data).

(** ** The callbacks *)

Definition reliable_text (seq_num : Z) : string := "Reliable " +:+ to_string seq_num.
Definition unreliable_text (seq_num : Z) : string := "Unreliable " +:+ to_string seq_num.

(** The lambdas handed to [send_reliable_to] and [send_unreliable_to]: what they
    leave in the span, the span they return and the captured number. *)
Definition write_numbered (text : Z → string) (seq_num : Z) (buffer : bytes) : result (written * Z) :=
  let s := string_bytes (text seq_num) in
  let serialized_size := 2 + len s in
  if len buffer <? serialized_size then Ok (mkWritten buffer 0 0, seq_num)
  else
    '(buffer, count) ← write_string s buffer 0;
    view ← span_first buffer count;
    Ok (mkWritten buffer 0 (len view), u32 (seq_num + 1)).

(** As the streams take it. [write_numbered] does not fault ([write_numbered_Ok]). *)
Definition numbered_writer (text : Z → string) (seq_num : Z) : WriteToBufferFn := λ buffer,
  match write_numbered text seq_num buffer with Ok (w, _) => w | Fault _ => mkWritten buffer 0 0 end.

(** The lambda [print_string]: the number of characters read so far. *)
Definition print_string (chars_read : Z) (buffer : bytes) : result Z :=
  s ← read_string buffer 0;
  Ok (usize (chars_read + len s)).

Fixpoint print_strings (chars_read : Z) (buffers : list bytes) : result Z :=
  match buffers with
  | [] => Ok chars_read
  | b :: buffers => chars_read ← print_string chars_read b; print_strings chars_read buffers
  end.

(** ** example.cc *)

Definition kNumReliableMsgsPerBatch : nat := 10.
Definition kNumUnreliableMsgsPerBatch : nat := 10.

(** [time_point_cast<milliseconds>], back in nanoseconds. *)
Definition to_milliseconds (now : Z) : Z := 1000000 * Z.quot now 1000000.

Section Example.
Context `{Platform} `{ByteOrder} {N : Type} `{Network N}.

(** [OS_NETWORK_METRICS] *)
Context (network_metrics : N → Metrics).

(** The span a send hands to the callback. *)
Definition handed_span (reliable : bool) (n : Neptun) (ip : IpAddress) : result bytes :=
  match find (m_peers n) ip with
  | Some peer =>
      if reliable then offered (reliable_stream peer)
      else FlipBuffer.remaining (UnreliableStream.m_buffer (unreliable_stream peer))
  | None => Ok []
  end.

(** The body of the loops over a batch. *)
Definition send_numbered (reliable : bool) (n : Neptun) (peer_ip : IpAddress) (seq_num now : Z)
    : result (Neptun * Z) :=
  let text := if reliable then reliable_text else unreliable_text in
  let callback := numbered_writer text seq_num in
  n' ← (if reliable then send_reliable_to n peer_ip callback now
        else send_unreliable_to n peer_ip callback now);
  span ← handed_span reliable n peer_ip;
  '(_, seq_num) ← write_numbered text seq_num span;
  Ok (n', seq_num).

Fixpoint send_batch (count : nat) (reliable : bool) (n : Neptun) (peer_ip : IpAddress) (seq_num now : Z)
    : result (Neptun * Z) :=
  match count with
  | O => Ok (n, seq_num)
  | S count =>
      '(n, seq_num) ← send_numbered reliable n peer_ip seq_num now;
      send_batch count reliable n peer_ip seq_num now
  end.

(** The metrics printed: the change of every counter per second. *)
Definition rate_metrics {Key} `{MetricKey Key} (name : string) (current last : Metrics) (duration : Z)
    : result DoubleMetrics :=
  for_each_key foreach_key (λ rate key,
    a ← value current key;
    b ← value last key;
    let delta := to_double (usize (a - b)) in
    let seconds := to_double (Z.quot duration 1000000000) in
    double_inc rate key (double_div delta seconds)) (double_create Key name).

(** What is on the console of the loop. *)
Definition table : Type := string * list (string * spec_float * string).

(** The locals of [main] in the loop. *)
Record Program := mkProgram {
  network : N;
  neptun : Neptun;
  reliable_ticker : Ticker;
  unreliable_ticker : Ticker;
  print_metrics_ticker : Ticker;
  reliable_msg_seq_num : Z;
  unreliable_msg_seq_num : Z;
  chars_read : Z;
  last_metrics : Metrics;
  last_network_metrics : Metrics;
  last_print_metrics_time : Z;
  console : list table;
}.

(** The block under [print_metrics_ticker.tick(now)]. *)
Definition print_metrics (p : Program) (n : Neptun) (now : Z) : result (list table) :=
  duration ← i64 (now - last_print_metrics_time p);
  neptun_rate ← rate_metrics (Key := NeptunMetricKey) "Neptun Rate /s" (m_metrics n) (last_metrics p) duration;
  network_rate ← rate_metrics (Key := NetworkMetricKey) "Network Rate /s"
    (network_metrics (network p)) (last_network_metrics p) duration;
  t1 ← double_table NeptunMetricKey neptun_rate;
  t2 ← double_table NetworkMetricKey network_rate;
  Ok [t1; t2].

(** The body of [while (true)] at one reading of the clock. *)
Definition loop_body (peer_ip : IpAddress) (p : Program) (reading : Z) : result Program :=
  let now := to_milliseconds reading in
  '(reliable_ticker, ticked) ← Ticker.tick (reliable_ticker p) now;
  '(n, reliable_seq) ←
    (if ticked : bool then
       send_batch kNumReliableMsgsPerBatch true (neptun p) peer_ip (reliable_msg_seq_num p) now
     else Ok (neptun p, reliable_msg_seq_num p));
  '(unreliable_ticker, ticked) ← Ticker.tick (unreliable_ticker p) now;
  '(n, unreliable_seq) ←
    (if ticked : bool then
       send_batch kNumUnreliableMsgsPerBatch false n peer_ip (unreliable_msg_seq_num p) now
     else Ok (n, unreliable_msg_seq_num p));
  '(print_metrics_ticker, ticked) ← Ticker.tick (print_metrics_ticker p) now;
  '(printed, last_metrics, last_network_metrics, last_print_metrics_time) ←
    (if ticked : bool then
       printed ← print_metrics p n now;
       Ok (printed, m_metrics n, network_metrics (network p), now)
     else Ok ([], last_metrics p, last_network_metrics p, last_print_metrics_time p));
  '(network, n, on_reliable, on_unreliable) ← Neptun.tick (network p) n now;
  chars_read ← print_strings (chars_read p) (on_reliable ++ on_unreliable);
  Ok (mkProgram network n reliable_ticker unreliable_ticker print_metrics_ticker reliable_seq unreliable_seq
        chars_read last_metrics last_network_metrics last_print_metrics_time (console p ++ printed)).

Fixpoint loop (peer_ip : IpAddress) (p : Program) (readings : list Z) : result Program :=
  match readings with
  | [] => Ok p
  | reading :: readings => p ← loop_body peer_ip p reading; loop peer_ip p readings
  end.

(** [while (!neptun.is_connected(peer_ip))], with the readings it leaves; [None] when they
    run out. *)
Fixpoint connect_loop (peer_ip : IpAddress) (network : N) (n : Neptun) (readings : list Z)
    : result (option (N * Neptun * list Z)) :=
  if is_connected n peer_ip then Ok (Some (network, n, readings))
  else
    match readings with
    | [] => Ok None
    | now :: readings =>
        '(network, n, _, _) ← Neptun.tick network n now;
        connect_loop peer_ip network n readings
    end.

(** The state in which the loop starts, with the readings of its three tickers. *)
Definition start_program (network : N) (n : Neptun) (now1 now2 now3 : Z) : Program :=
  mkProgram network n (Ticker.create now1 (Some 0)) (Ticker.create now2 (Some 30000000))
    (Ticker.create now3 (Some 5000000000)) 0 0 0 (Metrics.create NeptunMetricKey "Neptun Rate")
    (Metrics.create NetworkMetricKey "Network Rate") 0 [].

(** How far [main] has got when the readings run out. *)
Inductive outcome :=
  | Exited (code : Z) (printed : string)
  | Waiting
  | Looping (p : Program).

Definition main (argv : list string) (network : N) (readings : list Z) : result outcome :=
  match argv with
  | [_; ip; port; peer_ip; peer_port] =>
      port ← stoi port;
      ip ← from_ipv4 ip port;
      peer_port ← stoi peer_port;
      peer_ip ← from_ipv4 peer_ip peer_port;
      '(network, n) ← Neptun.create network ip (mkConfig 5 (mkLimit 120 1400 120 1400)) kDefaultPacketTimeout;
      match readings with
      | [] => Ok Waiting
      | now :: readings =>
          let n := Neptun.connect n peer_ip now in
          connected ← connect_loop peer_ip network n readings;
          match connected with
          | Some (network, n, now1 :: now2 :: now3 :: readings) =>
              p ← loop peer_ip (start_program network n now1 now2 now3) readings;
              Ok (Looping p)
          | _ => Ok Waiting
          end
      end
  | _ => Ok (Exited (-1) "Usage: <ip> <port> <peer_ip> <peer_port>")
  end.
End Example.

(** ** example_udp.cc *)

Section ExampleUdp.
Context `{ByteOrder} {N : Type} `{Network N}.

Definition ping_note (packet_id : Z) : string := "Hey there, I'm a UDP packet #: " +:+ to_string packet_id.

(** A [Ping] as both lines print it. *)
Definition show_ping (buffer : bytes) : result string :=
  timestamp ← Ping.timestamp buffer;
  note ← Ping.note buffer;
  Ok ("Ping(timestamp = " +:+ to_string timestamp +:+ ", note = " +:+ span_to_string note).

(** The body of [while (true)] at one reading of the clock: the buffer and the number
    of the next packet, and the lines printed. *)
Definition ping_turn (network : N) (udp : UdpSocket.UdpSocket) (peer_ip : IpAddress) (buffer : bytes)
    (packet_id reading : Z) : result (N * bytes * Z * list string) :=
  let timestamp := Z.quot reading 1000000 in
  let note := string_bytes (ping_note packet_id) in
  '(buffer, written_data) ← Ping.write buffer (wrap 64 timestamp) note;
  '(network, _) ← UdpSocket.send_to network udp peer_ip written_data;
  sent_ping ← show_ping written_data;
  '(network, buffer, packet_info) ← UdpSocket.read network udp buffer;
  received ←
    (match packet_info with
     | Some (sender, size) =>
         read_ping ← show_ping (ztake size buffer);
         Ok ["Read [" +:+ address_string sender +:+ "]: " +:+ read_ping]
     | None => Ok []
     end);
  Ok (network, buffer, wrap 64 (packet_id + 1),
      ("Timestamp: " +:+ to_string timestamp) :: ("Send: " +:+ sent_ping) :: received).

Fixpoint ping_loop (network : N) (udp : UdpSocket.UdpSocket) (peer_ip : IpAddress) (buffer : bytes)
    (packet_id : Z) (readings : list Z) : result (list string) :=
  match readings with
  | [] => Ok []
  | reading :: readings =>
      '(network, buffer, packet_id, lines) ← ping_turn network udp peer_ip buffer packet_id reading;
      more ← ping_loop network udp peer_ip buffer packet_id readings;
      Ok (lines ++ more)
  end.

(** [main]: the exit code, when it comes to that, and the lines printed. *)
Definition main_udp (argv : list string) (network : N) (readings : list Z) : result (option Z * list string) :=
  match argv with
  | [_; ip; port; peer_ip; peer_port] =>
      port ← stoi port;
      ip ← from_ipv4 ip port;
      peer_port ← stoi peer_port;
      peer_ip ← from_ipv4 peer_ip peer_port;
      '(network, udp) ← UdpSocket.bind ip network;
      lines ← ping_loop network udp peer_ip (replicate (Z.to_nat 1600) 0) 0 readings;
      Ok (None, lines)
  | _ => Ok (Some (-1), ["Usage: <ip> <port> <peer_ip> <peer_port>"])
  end.
End ExampleUdp.

(** ** Strings *)

Lemma string_bytes_range s : is_bytes (string_bytes s).
Proof.
  unfold string_bytes. apply Forall_fmap, Forall_true. intros c. pose proof (N_ascii_bounded c). unfold in_u. simpl. lia.
Qed.

Lemma length_string_bytes s : length (string_bytes s) = String.length s.
Proof. unfold string_bytes. rewrite length_fmap. by induction s as [|c s IH]; [|simpl; rewrite IH]. Qed.

Lemma span_to_string_bytes s : span_to_string (string_bytes s) = s.
Proof.
  unfold span_to_string, string_bytes. rewrite <-list_fmap_compose.
  induction s as [|c s IH]; [done|]. cbn in *. by rewrite N2Z.id, ascii_N_embedding, IH.
Qed.

(** A decimal number is no longer than a binary one. *)
Lemma pretty_go_length k : ∀ x s, (x < 2 ^ N.of_nat k)%N → (String.length (pretty_N_go x s) ≤ String.length s + k)%nat.
Proof.
  induction k as [|k IH]; intros x s Hx.
  { assert (x = 0)%N as -> by (change (2 ^ N.of_nat 0)%N with 1%N in Hx; lia). rewrite pretty_N_go_0. lia. }
  destruct (decide (x = 0)%N) as [->|Hne]; [rewrite pretty_N_go_0; lia|]. rewrite pretty_N_go_step by lia.
  rewrite Nat2N.inj_succ, N.pow_succ_r' in Hx.
  assert (x `div` 10 < 2 ^ N.of_nat k)%N as Hd by (apply N.Div0.div_lt_upper_bound; lia).
  pose proof (IH _ (String (pretty_N_char (x `mod` 10)) s) Hd) as Hl. simpl in Hl. lia.
Qed.

Lemma to_string_length n : in_u 32 n → (String.length (to_string n) ≤ 32)%nat.
Proof.
  intros Hn. unfold to_string, in_u in *. destruct n as [|p|p]; [cbn; lia| |lia].
  change (pretty (Z.pos p)) with (pretty_N_go (N.pos p) "").
  etrans; [apply (pretty_go_length 32); lia|]. simpl. lia.
Qed.

(** ** Pings *)

(** A [Ping] is printed with the last 32 bits of its timestamp, which [read_u64]
    returns. *)
Lemma show_ping_encode timestamp note :
  len (string_bytes note) < 2 ^ 16 →
  show_ping (Ping.encode timestamp (string_bytes note))
  = Ok ("Ping(timestamp = " +:+ to_string (u32 timestamp) +:+ ", note = " +:+ note).
Proof.
  intros Hn. unfold show_ping. rewrite Ping.timestamp_encode. cbn [mbind result_bind].
  rewrite Ping.note_encode by done. cbn [mbind result_bind]. by rewrite span_to_string_bytes.
Qed.

Lemma ping_note_length packet_id : in_u 32 packet_id → len (string_bytes (ping_note packet_id)) ≤ 63.
Proof.
  intros Hi. rewrite length_string_bytes. pose proof (to_string_length packet_id Hi).
  change (String.length (ping_note packet_id)) with (31 + String.length (to_string packet_id))%nat. lia.
Qed.

(** A turn in which nothing has arrived sends one ping and prints it. *)
Lemma ping_turn_sends `{ByteOrder} {N} `{Network N} (network network1 network2 : N) udp peer_ip buffer packet_id
    reading count buffer' :
  73 ≤ len buffer → in_u 32 packet_id → 0 ≤ reading →
  let ping := Ping.encode (wrap 64 (Z.quot reading 1000000)) (string_bytes (ping_note packet_id)) in
  UdpSocket.send_to network udp peer_ip ping = Ok (network1, count) →
  UdpSocket.read network1 udp (ping ++ drop (length ping) buffer) = Ok (network2, buffer', None) →
  ping_turn network udp peer_ip buffer packet_id reading
  = Ok (network2, buffer', packet_id + 1,
        ["Timestamp: " +:+ to_string (Z.quot reading 1000000);
         "Send: Ping(timestamp = " +:+ to_string (u32 (Z.quot reading 1000000)) +:+ ", note = " +:+ ping_note packet_id]).
Proof.
  intros Hb Hi Hr ping Hs Hread. unfold ping_turn. cbv zeta.
  pose proof (ping_note_length packet_id Hi) as Hn.
  rewrite Ping.ping_write_Ok by (apply string_bytes_range || lia). cbn [mbind result_bind].
  fold ping. rewrite Hs. cbn [mbind result_bind].
  pose proof (show_ping_encode (wrap 64 (Z.quot reading 1000000)) (ping_note packet_id) ltac:(lia)) as Hshow.
  fold ping in Hshow. rewrite Hshow. cbn [mbind result_bind].
  assert (10 + len (string_bytes (ping_note packet_id)) = len ping) as -> by (unfold ping, Ping.encode; list_lia).
  rewrite Nat2Z.id, Hread. cbn [mbind result_bind].
  rewrite (wrap_small 64 (packet_id + 1)) by (unfold in_u in *; lia).
  replace (u32 (wrap 64 (Z.quot reading 1000000))) with (u32 (Z.quot reading 1000000)); [done|].
  unfold wrap. change (2 ^ 64) with (2 ^ 32 * 2 ^ 32). rewrite Z.rem_mul_r, Z.mul_comm, Z.mod_add, Z.mod_mod by lia. done.
Qed.

(** ** Messages written and printed *)

Section Messages.
Context (text : Z → string).

Definition numbered_message (seq_num : Z) : bytes :=
  be_encode 2 (len (string_bytes (text seq_num))) ++ string_bytes (text seq_num).

Lemma length_numbered_message seq_num : len (numbered_message seq_num) = 2 + len (string_bytes (text seq_num)).
Proof using Type. unfold numbered_message. list_lia. Qed.

(** The callback does not fault: the message is written if there is room for it. *)
Lemma write_numbered_Ok seq_num buffer :
  write_numbered text seq_num buffer
  = if len buffer <? len (numbered_message seq_num) then Ok (mkWritten buffer 0 0, seq_num)
    else Ok (mkWritten (numbered_message seq_num ++ drop (length (numbered_message seq_num)) buffer) 0
               (len (numbered_message seq_num)), u32 (seq_num + 1)).
Proof using Type.
  unfold write_numbered. pose proof (length_numbered_message seq_num) as Hl. rewrite Hl.
  destruct (Z.ltb_spec (len buffer) (2 + len (string_bytes (text seq_num)))) as [|Hfit]; [done|].
  pose proof (write_string_app (string_bytes (text seq_num)) [] buffer 0 eq_refl (string_bytes_range _) Hfit) as Hw.
  rewrite !app_nil_l in Hw. rewrite Hw. cbn [mbind result_bind].
  rewrite app_assoc. fold (numbered_message seq_num).
  rewrite span_first_Ok by list_lia. cbn [mbind result_bind].
  rewrite <-Hl, Nat2Z.id, take_app_length. done.
Qed.

#[export] Instance numbered_writer_ok seq_num : WriterOk (numbered_writer text seq_num).
Proof using Type.
  split; intros b; unfold numbered_writer; rewrite write_numbered_Ok;
    destruct (Z.ltb_spec (len b) (len (numbered_message seq_num))); simpl; list_lia.
Qed.

(** What a stream takes: the message or, under flow control, nothing. *)
Lemma numbered_sent seq_num buffer :
  ∃ w seq_num', write_numbered text seq_num buffer = Ok (w, seq_num') ∧ numbered_writer text seq_num buffer = w ∧
    ((seq_num' = seq_num ∧ sent_by w = []) ∨
     (seq_num' = u32 (seq_num + 1) ∧ sent_by w = [numbered_message seq_num])).
Proof using Type.
  unfold numbered_writer. rewrite write_numbered_Ok. pose proof (length_numbered_message seq_num).
  destruct (_ <? _); do 2 eexists; (split; [done|]); (split; [done|]); [by left|right]. split; [done|].
  unfold sent_by, payload_of. cbn [w_size w_buffer]. rewrite (proj2 (Z.eqb_neq _ _)) by lia.
  by rewrite Nat2Z.id, take_app_length.
Qed.

Lemma print_numbered chars seq_num :
  len (string_bytes (text seq_num)) < 2 ^ 16 →
  print_string chars (numbered_message seq_num) = Ok (usize (chars + len (string_bytes (text seq_num)))).
Proof using Type.
  intros Hl. unfold print_string, numbered_message.
  pose proof (read_string_app (string_bytes (text seq_num)) [] [] 0 eq_refl) as Hr.
  rewrite app_nil_l, app_nil_r in Hr. by rewrite Hr.
Qed.
End Messages.

(** ** Batches *)

Section Batch.
Context `{ByteOrder}.

Lemma send_reliable_numbered n ip p first seq_num now :
  find (m_peers n) ip = Some p → is_peer_connected (connection_manager p) = true →
  ReliableStream.inv (reliable_stream p) first →
  ∃ n' p' seq_num', send_numbered true n ip seq_num now = Ok (n', seq_num') ∧
    find (m_peers n') ip = Some p' ∧ is_peer_connected (connection_manager p') = true ∧
    ReliableStream.inv (reliable_stream p') first ∧
    ((seq_num' = seq_num ∧ outstanding (reliable_stream p') = outstanding (reliable_stream p)) ∨
     (seq_num' = u32 (seq_num + 1) ∧
      outstanding (reliable_stream p') = outstanding (reliable_stream p) ++ [numbered_message reliable_text seq_num])).
Proof.
  intros Hf Hc Hr.
  destruct (ReliableStream.rs_send_Ok _ first (numbered_writer reliable_text seq_num) Hr _)
    as (space & s & Hsp & Hs & _ & Hr' & Hout & _).
  destruct (numbered_sent reliable_text seq_num space) as (w & seq' & Hw & Hwr & Hcase).
  unfold send_numbered, send_reliable_to, is_connected, find_or_create_peer, handed_span. cbv zeta.
  rewrite Hf, Hc. cbn [assert_that mbind result_bind]. rewrite Hs. cbn [mbind result_bind].
  rewrite Hsp. cbn [mbind result_bind]. rewrite Hw. cbn [mbind result_bind].
  exists (set_peer n ip (with_reliable p s)), (with_reliable p s), seq'. split; [done|].
  split; [cbn; rewrite find_update by (by rewrite Hf); by rewrite same_key_refl|].
  split; [done|]. split; [done|]. cbn [reliable_stream with_reliable]. rewrite Hout, Hwr.
  destruct Hcase as [[-> ->]|[-> ->]]; [left|right]; by rewrite ?app_nil_r.
Qed.

Lemma send_batch_reliable count : ∀ n ip p first seq_num now,
  find (m_peers n) ip = Some p → is_peer_connected (connection_manager p) = true →
  ReliableStream.inv (reliable_stream p) first → 0 ≤ seq_num → seq_num + Z.of_nat count < 2 ^ 32 →
  ∃ n' p' k, (k ≤ count)%nat ∧
    send_batch count true n ip seq_num now = Ok (n', seq_num + Z.of_nat k) ∧
    find (m_peers n') ip = Some p' ∧ is_peer_connected (connection_manager p') = true ∧
    ReliableStream.inv (reliable_stream p') first ∧
    outstanding (reliable_stream p')
    = outstanding (reliable_stream p) ++ (numbered_message reliable_text <$> seqZ seq_num (Z.of_nat k)).
Proof.
  induction count as [|count IH]; intros n ip p first seq_num now Hf Hc Hr H0 Hb; cbn [send_batch].
  { exists n, p, 0%nat. cbn. by rewrite Z.add_0_r, app_nil_r. }
  destruct (send_reliable_numbered n ip p first seq_num now Hf Hc Hr)
    as (n1 & p1 & seq1 & -> & Hf1 & Hc1 & Hr1 & [[-> Ho1]|[-> Ho1]]); cbn [mbind result_bind].
  - destruct (IH n1 ip p1 first seq_num now Hf1 Hc1 Hr1 H0 ltac:(lia)) as (n' & p' & k & Hk & Hs & Hrest).
    exists n', p', k. split; [lia|]. split; [done|]. by rewrite <-Ho1.
  - rewrite wrap_small by (unfold in_u; lia).
    destruct (IH n1 ip p1 first (seq_num + 1) now Hf1 Hc1 Hr1 ltac:(lia) ltac:(lia)) as (n' & p' & k & Hk & Hs & Hf' & Hc' & Hr' & Ho').
    exists n', p', (S k). split; [lia|]. split; [by replace (seq_num + Z.of_nat (S k)) with (seq_num + 1 + Z.of_nat k) by lia|].
    split_and!; try done.
    rewrite Ho', Ho1, <-app_assoc. f_equal. rewrite (seqZ_cons seq_num) by lia.
    replace (Z.succ seq_num) with (seq_num + 1) by lia. by replace (Z.pred (Z.of_nat (S k))) with (Z.of_nat k) by lia.
Qed.

Lemma reliable_printed i chars :
  in_u 32 i → read_string (numbered_message reliable_text i) 0 = Ok (string_bytes (reliable_text i)) ∧
  print_string chars (numbered_message reliable_text i)
  = Ok (usize (chars + Z.of_nat (String.length (reliable_text i)))).
Proof.
  intros Hi. assert (len (string_bytes (reliable_text i)) < 2 ^ 16) as Hl.
  { rewrite length_string_bytes. pose proof (to_string_length i Hi).
    change (String.length (reliable_text i)) with (9 + String.length (to_string i))%nat. lia. }
  rewrite <-length_string_bytes. split; [|by apply print_numbered].
  pose proof (read_string_app (string_bytes (reliable_text i)) [] [] 0 eq_refl Hl) as Hr.
  by rewrite app_nil_l, app_nil_r in Hr.
Qed.

(** A batch of the example program is a run of consecutive numbers. Whatever the
    peer's stream holds, [send_batch] returns; the messages it adds, behind the ones
    the stream still holds, carry the numbers from the captured one on; the ones
    that found no room are the last ones, and their numbers are used again. The
    peer's [print_string] accepts each of them and counts its characters. *)
Theorem batch_is_consecutive count n ip p first seq_num now :
  find (m_peers n) ip = Some p → is_peer_connected (connection_manager p) = true →
  ReliableStream.inv (reliable_stream p) first → 0 ≤ seq_num → seq_num + Z.of_nat count < 2 ^ 32 →
  ∃ n' p' k, (k ≤ count)%nat ∧
    send_batch count true n ip seq_num now = Ok (n', seq_num + Z.of_nat k) ∧
    find (m_peers n') ip = Some p' ∧ ReliableStream.inv (reliable_stream p') first ∧
    outstanding (reliable_stream p')
    = outstanding (reliable_stream p) ++ (numbered_message reliable_text <$> seqZ seq_num (Z.of_nat k)) ∧
    ∀ m chars, m ∈ numbered_message reliable_text <$> seqZ seq_num (Z.of_nat k) →
      ∃ i, seq_num ≤ i < seq_num + Z.of_nat k ∧ read_string m 0 = Ok (string_bytes (reliable_text i)) ∧
        print_string chars m = Ok (usize (chars + Z.of_nat (String.length (reliable_text i)))).
Proof.
  intros Hf Hc Hr H0 Hb. destruct (send_batch_reliable count n ip p first seq_num now Hf Hc Hr H0 Hb)
    as (n' & p' & k & Hk & Hs & Hf' & _ & Hr' & Ho).
  exists n', p', k. split_and!; try done. intros m chars (i & -> & Hi%elem_of_seqZ)%list_elem_of_fmap.
  exists i. split; [lia|]. apply reliable_printed. unfold in_u. lia.
Qed.
End Batch.

(** ** The ticker of the reliable messages *)

Section Zero.
Context `{Platform} `{ByteOrder} {N : Type} `{Network N} (network_metrics : N → Metrics).

(** The ticker after readings of the clock below [started]. *)
Definition not_yet (started : Z) (t : Ticker) : Prop :=
  ∃ last, 0 ≤ last ≤ started ∧ t = at_time last 0 (last - started).

Lemma not_yet_tick started t now t' b :
  not_yet started t → 0 ≤ now → Ticker.tick t now = Ok (t', b) → b = false ∧ now < started ∧ not_yet started t'.
Proof using Type.
  intros (last & Hlast & ->) Hnow Ht. unfold Ticker.tick, calc_elapsed_time in Ht. cbn [at_time m_last_known_now] in Ht.
  apply Prelude.bind_Ok in Ht as (e & He & Ht). apply Prelude.bind_Ok in He as (d & Hd & [= <-]).
  apply i64_inv in Hd as [-> _]. cbn [at_time m_tick_interval m_time_since_last_tick] in Ht.
  apply Prelude.bind_Ok in Ht as (time & Htime & Ht). apply i64_inv in Htime as [-> _].
  destruct (Z.leb_spec 0 (last - started + (now - last))) as [|Hlt]; [discriminate Ht|].
  injection Ht as <- <-. split; [done|]. split; [lia|]. exists now. split; [lia|].
  unfold at_time. f_equal. lia.
Qed.

Lemma not_yet_fault started t now :
  not_yet started t → started ≤ now < 2 ^ 62 → Ticker.tick t now = Fault (Undefined DivByZero).
Proof using Type.
  intros (last & Hlast & ->) Hnow. unfold Ticker.tick, calc_elapsed_time. cbn [at_time m_last_known_now].
  rewrite i64_Ok by (unfold in_i64; lia). cbn [mbind result_bind at_time m_tick_interval m_time_since_last_tick].
  rewrite i64_Ok by (unfold in_i64; lia). cbn [mbind result_bind].
  by rewrite (proj2 (Z.leb_le 0 _)) by lia.
Qed.

Lemma to_milliseconds_nonneg reading : 0 ≤ reading → 0 ≤ to_milliseconds reading.
Proof using Type. intros Hr. unfold to_milliseconds. pose proof (Z.quot_pos reading 1000000 Hr ltac:(lia)). lia. Qed.

Lemma not_yet_body started peer_ip p reading p' :
  not_yet started (reliable_ticker p) → 0 ≤ reading → loop_body network_metrics peer_ip p reading = Ok p' →
  to_milliseconds reading < started ∧ not_yet started (reliable_ticker p') ∧
  reliable_msg_seq_num p' = reliable_msg_seq_num p.
Proof using Type.
  intros Hn Hr Hb. unfold loop_body in Hb. apply Prelude.bind_Ok in Hb as ([t b] & Ht & Hb).
  destruct (not_yet_tick _ _ _ _ _ Hn (to_milliseconds_nonneg _ Hr) Ht) as (-> & Hlt & Hn'). cbn [mbind result_bind] in Hb.
  apply Prelude.bind_Ok in Hb as ([t2 b2] & _ & Hb). apply Prelude.bind_Ok in Hb as ([n2 seq2] & _ & Hb).
  apply Prelude.bind_Ok in Hb as ([t3 b3] & _ & Hb). apply Prelude.bind_Ok in Hb as ([[[pr m] nm] tm] & _ & Hb).
  apply Prelude.bind_Ok in Hb as ([[[net n3] rel] unrel] & _ & Hb). apply Prelude.bind_Ok in Hb as (chars & _ & Hb).
  injection Hb as <-. done.
Qed.

Lemma not_yet_loop started peer_ip readings : ∀ p p',
  not_yet started (reliable_ticker p) → Forall (λ r, 0 ≤ r) readings →
  loop network_metrics peer_ip p readings = Ok p' →
  Forall (λ r, to_milliseconds r < started) readings ∧ not_yet started (reliable_ticker p') ∧
  reliable_msg_seq_num p' = reliable_msg_seq_num p.
Proof using Type.
  induction readings as [|r readings IH]; intros p p' Hn Hr Hl; cbn [loop] in Hl; [by injection Hl as <-|].
  apply Forall_cons in Hr as [Hr Hrs]. apply Prelude.bind_Ok in Hl as (p1 & Hb & Hl).
  destruct (not_yet_body _ _ _ _ _ Hn Hr Hb) as (Hlt & Hn1 & Hseq).
  destruct (IH p1 p' Hn1 Hrs Hl) as (Hall & Hn' & Hseq'). split; [by constructor|]. by rewrite Hseq', Hseq.
Qed.

(** C37: the example program divides by zero as soon as its loop starts to run. Its
    ticker for reliable messages has an interval of 0: the first reading of the clock
    (in whole milliseconds) that is not before the ticker's creation is a remainder
    by zero. Until then no reliable message is sent, and the loop can only get through
    readings that round down to before the creation. *)
Theorem example_divides_by_zero peer_ip network n now1 now2 now3 readings p :
  0 ≤ now1 → Forall (λ r, 0 ≤ r) readings →
  loop network_metrics peer_ip (start_program network n now1 now2 now3) readings = Ok p →
  Forall (λ r, to_milliseconds r < now1) readings ∧ reliable_msg_seq_num p = 0 ∧
  ∀ reading, now1 ≤ to_milliseconds reading < 2 ^ 62 →
    loop_body network_metrics peer_ip p reading = Fault (Undefined DivByZero).
Proof using Type.
  intros Hnow1 Hr Hl. assert (not_yet now1 (reliable_ticker (start_program network n now1 now2 now3))) as Hn.
  { exists now1. split; [lia|]. cbn. by rewrite Z.sub_diag. }
  destruct (not_yet_loop now1 peer_ip readings _ _ Hn Hr Hl) as (Hall & Hn' & Hseq).
  split; [done|]. split; [by rewrite Hseq|]. intros reading Hreading.
  unfold loop_body. cbv zeta. rewrite (not_yet_fault now1 _ _ Hn' Hreading). reflexivity.
Qed.
End Zero.

(** ** Instances *)

#[local] Existing Instances little_endian FakeNetwork.fake_network standard.

Definition example_peer : IpAddress := from_u32 2 2.

(** An endpoint with a connected peer, and its network. *)
Definition example_endpoint : Neptun :=
  mkNeptun [(example_peer, sample_peer)] (UdpSocket.mkUdpSocket 0 (from_u32 1 1)) (replicate 1600 0) 5000
    (mkConfig 5 (mkLimit 120 1400 120 1400)) (Metrics.create NeptunMetricKey "m").

Definition example_network : FakeNetwork.FakeNetwork :=
  FakeNetwork.mkFakeNetwork 1400 1 false [(from_u32 1 1, 0)] [] [].

(** The loop gets through a reading of the millisecond before its start. *)
Lemma example_early_reading :
  is_ok (loop (λ _, Metrics.create NetworkMetricKey "n") example_peer
           (start_program example_network example_endpoint 1000900 1000901 1000902) [999999]) = true.
Proof. vm_compute. reflexivity. Qed.

Lemma example_divides_by_zero_witness :
  ∃ p, reliable_msg_seq_num p = 0 ∧
    loop_body (λ _, Metrics.create NetworkMetricKey "n") example_peer p 2000000 = Fault (Undefined DivByZero).
Proof.
  pose proof example_early_reading as Hok.
  destruct (loop (λ _, Metrics.create NetworkMetricKey "n") example_peer
              (start_program example_network example_endpoint 1000900 1000901 1000902) [999999]) as [p|] eqn:Hl;
    [|discriminate Hok].
  exists p.
  destruct (example_divides_by_zero (λ _, Metrics.create NetworkMetricKey "n") example_peer example_network
    example_endpoint 1000900 1000901 1000902 [999999] p ltac:(lia) ltac:(repeat constructor; lia) Hl)
    as (_ & Hseq & Hdiv).
  exact (conj Hseq (Hdiv 2000000 ltac:(vm_compute; split; [discriminate|reflexivity]))).
Defined.

Lemma batch_is_consecutive_witness :
  ∃ n' p' k, (k ≤ 10)%nat ∧
    send_batch 10 true example_endpoint example_peer 98 0 = Ok (n', 98 + Z.of_nat k) ∧
    find (m_peers n') example_peer = Some p' ∧ ReliableStream.inv (reliable_stream p') 1 ∧
    outstanding (reliable_stream p')
    = outstanding (reliable_stream sample_peer) ++ (numbered_message reliable_text <$> seqZ 98 (Z.of_nat k)) ∧
    ∀ m chars, m ∈ numbered_message reliable_text <$> seqZ 98 (Z.of_nat k) →
      ∃ i, 98 ≤ i < 98 + Z.of_nat k ∧ read_string m 0 = Ok (string_bytes (reliable_text i)) ∧
        print_string chars m = Ok (usize (chars + Z.of_nat (String.length (reliable_text i)))).
Proof.
  apply (batch_is_consecutive 10 example_endpoint example_peer sample_peer 1 98 0); try done.
  apply sample_peer_inv.
Defined.
