(* ===== verification/Scenarios.v ===== *)
(** * Scenarios: the repository's end-to-end tests, run on the model

    The set-up of neptun/neptun_test.cc: a server and a client of one [FakeNetwork].
    The tests depend on a standard library that survives [pop] of an empty queue,
    which is the platform [tolerant]. The results are closed computations. *)
From Stdlib Require Import ZArith.
From stdpp Require Import prelude strings.
From S2P Require Import Prelude Span IoBuffer FlipBuffer Messages ReliableStream PacketDeliveryManager ConnectionManager UnreliableStream Ticker Metrics IpAddress OrderedMap Network Neptun.
Open Scope Z_scope.
#[local] Existing Instance little_endian.
#[local] Existing Instance FakeNetwork.fake_network.

Definition server_ip : IpAddress := from_u32 3232235530 1000.
Definition client_ip : IpAddress := from_u32 3232235531 2000.

Example server_ip_eq : from_ipv4 "192.168.0.10" 1000 = Ok server_ip.
Proof. vm_compute. reflexivity. Qed.

Record World := mkWorld { network : FakeNetwork.FakeNetwork; server : Neptun; client : Neptun }.

Definition start (server_cfg client_cfg : ConnectionManagerConfig) : result World :=
  '(n, s) ← Neptun.create (FakeNetwork.create FakeNetwork.kReasonableMtu) server_ip server_cfg kDefaultPacketTimeout;
  '(n, c) ← Neptun.create n client_ip client_cfg kDefaultPacketTimeout;
  Ok (mkWorld n s c).

Definition with_network (w : World) (n : FakeNetwork.FakeNetwork) : World := mkWorld n (server w) (client w).

Section Ticks.
Context `{Platform}.

Definition tick_server (w : World) (now : Z) : result (World * list bytes * list bytes) :=
  '(n, s, reliable, unreliable) ← Neptun.tick (network w) (server w) now;
  Ok (mkWorld n s (client w), reliable, unreliable).

Definition tick_client (w : World) (now : Z) : result (World * list bytes * list bytes) :=
  '(n, c, reliable, unreliable) ← Neptun.tick (network w) (client w) now;
  Ok (mkWorld n (server w) c, reliable, unreliable).

Definition ms : Z := 1000000.

(** The function [connect] of the tests. *)
Definition connect (w : World) : result World :=
  let w := mkWorld (network w) (server w) (Neptun.connect (client w) server_ip 0) in
  '(w, _, _) ← tick_client w 0;
  '(w, _, _) ← tick_server w 0;
  '(w, _, _) ← tick_client w 0;
  '(w, _, _) ← tick_server w 0;
  '(w, _, _) ← tick_client w (100 * ms);
  '(w, _, _) ← tick_server w (100 * ms);
  Ok w.

Definition connected (server_cfg client_cfg : ConnectionManagerConfig) : result World :=
  w ← start server_cfg client_cfg; connect w.

(** Both sides tick [n] times, from [now] on. *)
Fixpoint tick_both (n : nat) (now step : Z) (w : World) : result World :=
  match n with
  | O => Ok w
  | S n =>
      '(w, _, _) ← tick_client w now;
      '(w, _, _) ← tick_server w now;
      tick_both n (now + step) step w
  end.

(** Both sides send the reliable messages [i], [i + 1], ... of two bytes. *)
Fixpoint send_both (n : nat) (i now : Z) (w : World) : result World :=
  match n with
  | O => Ok w
  | S n =>
      let message := write_message (be_encode 2 i) in
      c ← send_reliable_to (client w) server_ip message now;
      s ← send_reliable_to (server w) client_ip message now;
      send_both n (i + 1) now (mkWorld (network w) s c)
  end.
End Ticks.

Definition config : ConnectionManagerConfig := mkConfig 5 (mkLimit 0 1400 0 800).
Definition server_config : ConnectionManagerConfig := mkConfig 0 (mkLimit 120 1400 90 1400).
Definition client_config : ConnectionManagerConfig := mkConfig 0 (mkLimit 60 800 30 400).

(** ConnectionHandshake *)
Example connection_handshake :
  (w ← @connected tolerant config config;
   Ok (is_connected (server w) client_ip, is_connected (client w) server_ip)) = Ok (true, true).
Proof. vm_compute. reflexivity. Qed.

(** By the standard's preconditions the same calls have undefined behaviour: the last
    field of a LetsConnect is read one byte behind the packet. *)
Example connection_handshake_standard : @connected standard config config = Fault (Undefined OutOfBounds).
Proof. vm_compute. reflexivity. Qed.

(** PacketRateLimit: 1000 ticks in a second. The numbers are the test's. *)
Example packet_rate_limit_test :
  (w ← @connected tolerant server_config client_config;
   w ← @tick_both tolerant 1000 (1000 * ms) ms (with_network w (FakeNetwork.clear_stats (network w)));
   let s := FakeNetwork.stats (network w) server_ip in
   let c := FakeNetwork.stats (network w) client_ip in
   Ok (FakeNetwork.num_sent_packets s, FakeNetwork.num_read_packets c,
       FakeNetwork.num_read_packets s, FakeNetwork.num_sent_packets c)) = Ok (60, 61, 30, 30).
Proof. vm_compute. reflexivity. Qed.

(** PacketSizeLimit: 1000 messages are waiting, each side writes one packet. *)
Example packet_size_limit_test :
  (w ← @connected tolerant server_config client_config;
   w ← @send_both 1000 0 (1000 * ms) (with_network w (FakeNetwork.clear_stats (network w)));
   '(w, _, _) ← @tick_client tolerant w (1000 * ms);
   '(w, _, _) ← @tick_server tolerant w (1000 * ms);
   '(w, _, _) ← @tick_client tolerant (with_network w (FakeNetwork.drop_packets (network w) true)) (1000 * ms);
   let s := FakeNetwork.stats (network w) server_ip in
   let c := FakeNetwork.stats (network w) client_ip in
   Ok (FakeNetwork.num_sent_bytes s, FakeNetwork.num_read_bytes c,
       FakeNetwork.num_read_bytes s, FakeNetwork.num_sent_bytes c)) = Ok (766, 778, 398, 398).
Proof. vm_compute. reflexivity. Qed.

(** The peers the handshake of [config] with itself leaves. The server has read the
    client's limit of 1400 bytes as 1280, its low byte lying behind the packet. *)
Definition client_at_server : Peer :=
  mkPeer (mkTicker (Some (100 * ms)) None 0)
    (mkPacketDeliveryManager 5000 3 3 [] [mkInFlightPacket 2 (100 * ms)])
    (mkConnectionManager config [] 0 false false true (Some (mkLimit 0 1280 0 800)))
    (ReliableStream.create ReliableStream.kDefaultCapacity) (UnreliableStream.create UnreliableStream.kDefaultCapacity).

Definition server_at_client : Peer :=
  mkPeer (mkTicker (Some (100 * ms)) None 0)
    (mkPacketDeliveryManager 5000 3 2 [] [mkInFlightPacket 2 (100 * ms)])
    (mkConnectionManager config [] 0 false true true (Some (mkLimit 0 1400 0 800)))
    (ReliableStream.create ReliableStream.kDefaultCapacity) (UnreliableStream.create UnreliableStream.kDefaultCapacity).

Example peers_after_handshake :
  (w ← @connected tolerant config config; Ok (m_peers (server w), m_peers (client w)))
  = Ok ([(client_ip, client_at_server)], [(server_ip, server_at_client)]).
Proof. vm_compute. reflexivity. Qed.
