(* ===== verification/NeptunTest.v ===== *)
(** * NeptunTest: the messages of neptun/neptun_test.cc

    The tests that send messages, as scripts over the server and the client of
    [Scenarios], with the results the tests expect. [common/fake_clock.h] is their clock. *)
From Stdlib Require Import ZArith.
From stdpp Require Import prelude strings.
From S2P Require Import Prelude Span IoBuffer FlipBuffer Messages ReliableStream PacketDeliveryManager ConnectionManager UnreliableStream Ticker Metrics IpAddress OrderedMap Network Neptun Example Scenarios.
Open Scope Z_scope.
#[local] Existing Instance little_endian.
#[local] Existing Instance FakeNetwork.fake_network.
#[local] Existing Instance tolerant.

Module FakeClock.
(** The constant [m_now], as nanoseconds since the epoch. *)
Definition m_now : Z := 0.
Definition now : Z := m_now.
End FakeClock.

Definition kNow : Z := FakeClock.now.
Definition seconds (n : Z) : Z := n * 1000 * ms.

(** A writer that leaves [text] as [IoBuffer::write_string] does. *)
Definition write_text (text : string) : WriteToBufferFn := λ buffer,
  match write_string (string_bytes text) buffer 0 with
  | Ok (buffer, count) => mkWritten buffer 0 count
  | Fault _ => mkWritten buffer 0 0
  end.

(** The lines of a test. *)
Inductive line :=
  | client_send_reliable (text : string)
  | client_send_unreliable (text : string)
  | client_tick (now : Z)
  | server_tick (now : Z)
  | drop_packets (should_drop_packets : bool).

(** The texts in the payloads that a tick hands to its callbacks. *)
Fixpoint texts (payloads : list bytes) : result (list string) :=
  match payloads with
  | [] => Ok []
  | payload :: payloads =>
      text ← read_string payload 0; rest ← texts payloads; Ok (span_to_string text :: rest)
  end.

(** What the callbacks of each tick get: reliable and unreliable texts. *)
Fixpoint play_test (w : World) (lines : list line) : result (list (list string * list string)) :=
  match lines with
  | [] => Ok []
  | l :: lines =>
      match l with
      | client_send_reliable text =>
          c ← send_reliable_to (client w) server_ip (write_text text) kNow;
          play_test (mkWorld (network w) (server w) c) lines
      | client_send_unreliable text =>
          c ← send_unreliable_to (client w) server_ip (write_text text) kNow;
          play_test (mkWorld (network w) (server w) c) lines
      | client_tick now =>
          '(w, rel, unrel) ← Scenarios.tick_client w now;
          rel ← texts rel; unrel ← texts unrel;
          rest ← play_test w lines; Ok ((rel, unrel) :: rest)
      | server_tick now =>
          '(w, rel, unrel) ← Scenarios.tick_server w now;
          rel ← texts rel; unrel ← texts unrel;
          rest ← play_test w lines; Ok ((rel, unrel) :: rest)
      | drop_packets b => play_test (with_network w (FakeNetwork.drop_packets (network w) b)) lines
      end
  end.

Definition test (lines : list line) : result (list (list string * list string)) :=
  w ← connected config config; play_test w lines.

Definition single : string := "this is test string".
Definition numbered (i : Z) : string := "this is test string " +:+ to_string i.
Definition send_numbered (i : Z) : line := client_send_reliable (numbered i).

(** ** The tests *)

Example read_and_write_single_reliable_message :
  test [client_send_reliable single; client_tick kNow; server_tick kNow] = Ok [([], []); ([single], [])].
Proof. vm_compute. reflexivity. Qed.

(** The first packet is lost. The client learns of it by the acknowledgement of the
    second, which is empty, and sends the message again. *)
Example read_and_write_single_reliable_message_drop_packets :
  test [client_send_reliable single; drop_packets true; client_tick kNow; server_tick kNow; drop_packets false;
        client_tick kNow; server_tick kNow; server_tick kNow; client_tick kNow; client_tick kNow; server_tick kNow]
  = Ok [([], []); ([], []); ([], []); ([], []); ([], []); ([], []); ([], []); ([single], [])].
Proof. vm_compute. reflexivity. Qed.

Example read_and_write_multiple_reliable_messages :
  test ((send_numbered <$> seqZ 0 10) ++ [client_tick kNow; server_tick kNow])
  = Ok [([], []); (numbered <$> seqZ 0 10, [])].
Proof. vm_compute. reflexivity. Qed.

(** The packet with the message times out after five seconds, which is the default. *)
Example timeouts :
  test [client_send_reliable single; drop_packets true; client_tick kNow; server_tick kNow; drop_packets false;
        client_tick (kNow + seconds 6); server_tick kNow]
  = Ok [([], []); ([], []); ([], []); ([single], [])].
Proof. vm_compute. reflexivity. Qed.

Example reliable_message_after_dropping_multiple_packets :
  test ([drop_packets true] ++ mjoin ((λ i, [send_numbered i; client_tick kNow]) <$> seqZ 0 5) ++
        [drop_packets false; send_numbered 5; client_tick kNow; server_tick kNow; client_tick kNow; server_tick kNow])
  = Ok (replicate 8 ([], []) ++ [(numbered <$> seqZ 0 6, [])]).
Proof. vm_compute. reflexivity. Qed.

Example unreliable_message :
  test [client_send_unreliable "unreliable value"; client_tick kNow; server_tick kNow]
  = Ok [([], []); ([], ["unreliable value"%string])].
Proof. vm_compute. reflexivity. Qed.

(** Unlike a reliable message it does not come back when its packet is lost. *)
Example unreliable_message_dropped :
  test [client_send_unreliable "unreliable value"; drop_packets true; client_tick kNow; server_tick kNow; drop_packets false;
        client_tick (kNow + seconds 6); server_tick kNow]
  = Ok [([], []); ([], []); ([], []); ([], [])].
Proof. vm_compute. reflexivity. Qed.
