(* ===== verification/Channel.v ===== *)
(** * Channel: two connected endpoints over an unreliable network

    The end-to-end contract of neptun/neptun.h. Two peers of each other send, write
    packets, read packets and expire packets in any order; the network keeps every
    payload and hands them over in any order, any number of times or never. Every
    step is the composition of stages in [Neptun::tick], [send_reliable_to] and
    [send_unreliable_to] for one peer. Lists of what the applications sent and got
    are kept on the side; the code does not look at them. *)
From Stdlib Require Import ZArith Lia Sorted.
From stdpp Require Import prelude strings.
From S2P Require Import Prelude Span IoBuffer FlipBuffer Messages ReliableStream PacketDeliveryManager ConnectionManager UnreliableStream Ticker Metrics IpAddress OrderedMap Network Neptun Scenarios.
Open Scope Z_scope.

Record Side := mkSide {
  peer : Peer;
  metrics : Metrics;
  sent : list bytes;                   (** reliable payloads handed over *)
  delivered : list bytes;              (** reliable payloads called back with *)
  unreliable_sent : list bytes;
  unreliable_delivered : list bytes;
  payloads : list bytes;               (** packets written, oldest first *)
}.

(** Nothing sent, delivered or written yet. *)
Definition start (p : Peer) (m : Metrics) : Side := mkSide p m [] [] [] [] [].

Definition with_peer (a : Side) (p : Peer) (m : Metrics) : Side :=
  mkSide p m (sent a) (delivered a) (unreliable_sent a) (unreliable_delivered a) (payloads a).

Inductive action :=
  | Send (write_to_buffer : WriteToBufferFn)
  | SendUnreliable (write_to_buffer : WriteToBufferFn)
  | Flush (buffer : bytes) (now : Z)       (** write a packet into the span [buffer] *)
  | Receive (i : nat) (rest : bytes)       (** the other side's packet [i]; [rest] follows it in the network buffer *)
  | Expire (now : Z).

(** One action of the side [a]; [other] is what the other side has written. *)
Definition act `{Platform} (cfg : ConnectionManagerConfig) (a : Side) (other : list bytes) (x : action)
    : result Side :=
  match x with
  | Send f =>
      space ← offered (reliable_stream (peer a));
      s ← ReliableStream.send (reliable_stream (peer a)) f;
      Ok (mkSide (with_reliable (peer a) s) (metrics a) (sent a ++ sent_by (f space)) (delivered a)
            (unreliable_sent a) (unreliable_delivered a) (payloads a))
  | SendUnreliable f =>
      space ← remaining (UnreliableStream.m_buffer (unreliable_stream (peer a)));
      u ← UnreliableStream.send (unreliable_stream (peer a)) f;
      Ok (mkSide (with_unreliable (peer a) u) (metrics a) (sent a) (delivered a)
            (unreliable_sent a ++ sent_by (f space)) (unreliable_delivered a) (payloads a))
  | Flush buffer now =>
      '(p, buffer, (n1, n2, n3, n4)) ← write_packet (peer a) buffer now;
      Ok (mkSide p (metrics a) (sent a) (delivered a) (unreliable_sent a) (unreliable_delivered a)
            (payloads a ++ [ztake (n1 + n2 + n3 + n4) buffer]))
  | Receive i rest =>
      match other !! i with
      | None => Ok a
      | Some payload =>
          '(p, m, on_reliable, on_unreliable) ← read_packet cfg (peer a) (metrics a) payload rest;
          Ok (mkSide p m (sent a) (delivered a ++ on_reliable)
                (unreliable_sent a) (unreliable_delivered a ++ on_unreliable) (payloads a))
      end
  | Expire now =>
      '(p, m) ← drop_peer (peer a) (metrics a) now;
      Ok (with_peer a p m)
  end.

(** The two sides; an action of [true] is one of the left side. *)
Fixpoint run `{Platform} (cfg_left cfg_right : ConnectionManagerConfig) (left right : Side)
    (xs : list (bool * action)) : result (Side * Side) :=
  match xs with
  | [] => Ok (left, right)
  | (true, x) :: xs =>
      left ← act cfg_left left (payloads right) x;
      run cfg_left cfg_right left right xs
  | (false, x) :: xs =>
      right ← act cfg_right right (payloads left) x;
      run cfg_left cfg_right left right xs
  end.

(** What the code relies on: writers that stay in their span, and spans for packets
    that hold a header and no more than the reliable stream can count. *)
Definition action_ok (x : action) : Prop :=
  match x with
  | Send f | SendUnreliable f => WriterOk f
  | Flush buffer _ => 12 ≤ len buffer ≤ 1793
  | Receive _ _ | Expire _ => True
  end.

(** ** Invariant *)

(** [acks]: the packets of the other side that this side has accepted. *)
Record packet_good (sent : list bytes) (acks : list Z) (k : packet) : Prop := {
  pg_handshake : pk_handshake k = [];
  pg_acks i : status_of (pk_ack k) (pk_mask k) i = ACK → i ∈ acks;
  pg_ack : in_u 32 (pk_ack k);
  pg_mask : in_u 32 (pk_mask k);
  pg_start : 0 ≤ pk_start k ≤ len sent;
  pg_reliable : pk_reliable k `prefix_of` zdrop (pk_start k) sent;
  pg_count : (length (pk_reliable k) < 256)%nat;
  pg_ok : ReliableStream.messages_ok (pk_reliable k);
  pg_unreliable_ok : UnreliableStream.messages_ok (pk_unreliable k);
  pg_size : len (packet_bytes k) ≤ 1793;
}.

(** Every message in flight is in its packet: [ids] are the packets of the messages
    [first], [first + 1], ..., and packet [base + n] is [pks !! n]. *)
Definition linked (base : Z) (pks : list packet) (first : Z) (ids : list Z) : Prop :=
  ∀ (j : nat) i, ids !! j = Some i → ∃ (n : nat) k, i = base + Z.of_nat n ∧ pks !! n = Some k ∧
    pk_start k ≤ first + Z.of_nat j < pk_start k + len (pk_reliable k).

(** The first messages in flight whose packets the other side has accepted it has
    been given: [n] messages it has been given, [acc] packets it has accepted. *)
Definition covered (first : Z) (ids : list Z) (acc : list Z) (n : Z) : Prop :=
  ∀ k : nat, (k ≤ length ids)%nat → Forall (λ i, i ∈ acc) (take k ids) → first + Z.of_nat k ≤ n.

Definition flight (s : ReliableStream) : list Z := packet_id <$> in_flight_messages s.

(** The sending half of a reliable stream. *)
Record stream_inv (base : Z) (pks : list packet) (acc : list Z) (n : Z) (sent : list bytes)
    (s : ReliableStream) (first : Z) : Prop := {
  st_inv : ReliableStream.inv s first;
  st_first : 0 ≤ first;
  st_outstanding : outstanding s = zdrop first sent;
  st_linked : linked base pks first (flight s);
  st_covered : covered first (flight s) acc n;
}.

(** A side as a sender: [acks] are the other side's packets it has accepted, [acc]
    its own packets the other side has accepted. *)
Record sender (a : Side) (base : Z) (pks : list packet) (acks acc : list Z) (n : Z)
    (resolved first leak : Z) : Prop := {
  sn_payloads : payloads a = packet_bytes <$> pks;
  sn_ids (i : nat) k : pks !! i = Some k → pk_id k = base + Z.of_nat i;
  sn_packets : Forall (packet_good (sent a) acks) pks;
  sn_pdm : PacketDeliveryManager.inv (packet_delivery_manager (peer a)) resolved (base + len pks);
  sn_stream : stream_inv base pks acc n (sent a) (reliable_stream (peer a)) first;
  sn_unreliable : UnreliableStream.inv (unreliable_stream (peer a)) leak;
  sn_idle : idle (connection_manager (peer a));
  sn_order : mjoin (pk_unreliable <$> pks) ++ UnreliableStream.pending (unreliable_stream (peer a))
             `sublist_of` unreliable_sent a;
  sn_base : 0 ≤ base;
}.

(** What is kept of one side. *)
Record half := mkHalf { h_base : Z; h_packets : list packet; h_accepted : list Z }.

Definition next_id (h : half) : Z := h_base h + len (h_packets h).

(** The unreliable messages in the packets before packet [next]. *)
Definition unreliable_before (h : half) (next : Z) : list bytes :=
  mjoin (pk_unreliable <$> ztake (next - h_base h) (h_packets h)).

(** Side [b] as the receiver of what [a] sends; [acc] are the packets of [a] it has
    accepted and [h] are the packets of [a]. *)
Record receiver (a b : Side) (acc : list Z) (h : half) : Prop := {
  rc_delivered : delivered b `prefix_of` sent a;
  rc_expected : m_next_expected_sequence_number (reliable_stream (peer b)) = u32 (len (delivered b));
  rc_acc : Forall (λ i, i < m_next_expected_packet_id (packet_delivery_manager (peer b))) acc;
  rc_pending i : i ∈ m_pending_acks (packet_delivery_manager (peer b)) → i ∈ acc;
  rc_next : m_next_expected_packet_id (packet_delivery_manager (peer b)) ≤ next_id h;
  rc_unreliable : unreliable_delivered b `sublist_of`
                  unreliable_before h (m_next_expected_packet_id (packet_delivery_manager (peer b)));
}.

(** The whole channel; [budget] bounds the actions to come, so that no number wraps. *)
Record channel (a b : Side) (ha hb : half) (budget : Z) : Prop := {
  ch_sender_a : ∃ resolved first leak, sender a (h_base ha) (h_packets ha) (h_accepted ha) (h_accepted hb)
                  (len (delivered b)) resolved first leak;
  ch_sender_b : ∃ resolved first leak, sender b (h_base hb) (h_packets hb) (h_accepted hb) (h_accepted ha)
                  (len (delivered a)) resolved first leak;
  ch_receiver_b : receiver a b (h_accepted hb) ha;
  ch_receiver_a : receiver b a (h_accepted ha) hb;
  ch_budget : 0 ≤ budget ∧ next_id ha + budget < 2 ^ 32 ∧ next_id hb + budget < 2 ^ 32 ∧
              len (sent a) + budget < 2 ^ 32 ∧ len (sent b) + budget < 2 ^ 32;
}.

Lemma channel_sym a b ha hb budget : channel a b ha hb budget → channel b a hb ha budget.
Proof. intros [? ? ? ? (? & ? & ? & ? & ?)]. by split. Qed.

(** ** Unreliable messages *)

Lemma unreliable_before_mono h next next' :
  next ≤ next' → unreliable_before h next `sublist_of` unreliable_before h next'.
Proof.
  intros Hn. unfold unreliable_before. set (i := Z.to_nat (next - h_base h)). set (j := Z.to_nat (next' - h_base h)).
  rewrite <-(take_drop i (take j (h_packets h))), take_take, (Nat.min_l i j), fmap_app, join_app by lia.
  by apply sublist_inserts_r.
Qed.

Lemma unreliable_before_app h acc k next :
  next ≤ next_id h → unreliable_before (mkHalf (h_base h) (h_packets h ++ [k]) acc) next = unreliable_before h next.
Proof. unfold next_id. intros Hn. unfold unreliable_before. cbn. by rewrite take_app_le by lia. Qed.

Lemma unreliable_before_step h (i : nat) k :
  h_packets h !! i = Some k →
  unreliable_before h (h_base h + Z.of_nat i + 1) = unreliable_before h (h_base h + Z.of_nat i) ++ pk_unreliable k.
Proof.
  intros Hk. unfold unreliable_before.
  replace (Z.to_nat (h_base h + Z.of_nat i + 1 - h_base h)) with (S i) by lia.
  replace (Z.to_nat (h_base h + Z.of_nat i - h_base h)) with i by lia.
  rewrite (take_S_r _ _ _ Hk), fmap_app, join_app. cbn. by rewrite app_nil_r.
Qed.

(** At most once and in order. *)
Lemma channel_unreliable a b ha hb budget :
  channel a b ha hb budget → unreliable_delivered b `sublist_of` unreliable_sent a.
Proof.
  intros [(r & first & leak & Hs) _ [_ _ _ _ _ Hu] _ _]. etrans; [exact Hu|]. etrans; [|apply (sn_order _ _ _ _ _ _ _ _ _ Hs)].
  apply sublist_inserts_r. unfold unreliable_before. rewrite <-(take_drop (Z.to_nat (m_next_expected_packet_id (packet_delivery_manager (peer b)) - h_base ha)) (h_packets ha)) at 2.
  rewrite fmap_app, join_app. by apply sublist_inserts_r.
Qed.

(** ** The stream of one side *)

Lemma linked_drop base pks first k ids :
  linked base pks first ids → linked base pks (first + Z.of_nat k) (drop k ids).
Proof.
  intros Hl j i Hj. rewrite lookup_drop in Hj. destruct (Hl _ _ Hj) as (n & x & ? & ? & ?).
  exists n, x. split_and!; try done; lia.
Qed.

Lemma linked_nil base pks first : linked base pks first [].
Proof. by intros j i ?. Qed.

Lemma linked_app base pks k first ids :
  linked base pks first ids → linked base (pks ++ [k]) first ids.
Proof.
  intros Hl j i Hj. destruct (Hl _ _ Hj) as (n & x & ? & ? & ?). exists n, x.
  split; [done|]. split; [by apply lookup_app_l_Some|lia].
Qed.

Lemma linked_behind base pks first ids : linked base pks first ids → Forall (λ i, i < base + len pks) ids.
Proof.
  intros Hl. apply Forall_lookup. intros j i Hj. destruct (Hl _ _ Hj) as (n & k & -> & Hn & _).
  apply lookup_lt_Some in Hn. lia.
Qed.

Lemma covered_drop first k ids acc n :
  (k ≤ length ids)%nat → Forall (λ i, i ∈ acc) (take k ids) →
  covered first ids acc n → covered (first + Z.of_nat k) (drop k ids) acc n.
Proof.
  intros Hk Hacc Hc m Hm Hall. rewrite length_drop in Hm.
  enough (first + Z.of_nat (k + m) ≤ n) by lia. apply Hc; [lia|].
  rewrite <-take_take_drop. by apply Forall_app.
Qed.

(** Nothing is released before the other side has been given it. *)
Lemma covered_first first ids acc n : covered first ids acc n → first ≤ n.
Proof. intros Hc. specialize (Hc 0%nat). rewrite take_0 in Hc. enough (first + 0 ≤ n) by lia. apply Hc; [lia|done]. Qed.

Lemma covered_nil first acc n : first ≤ n → covered first [] acc n.
Proof. intros Hn k Hk _. simpl in Hk. lia. Qed.

Lemma stream_inv_length base pks acc n sent s first :
  stream_inv base pks acc n sent s first →
  len (flight s) + len (pending_messages s) = Z.max 0 (len sent - first).
Proof.
  intros [_ ? Ho _ _]. apply (f_equal length) in Ho. unfold outstanding, messages, flight in *. list_lia.
Qed.

(** A delivery status that does not fail an assertion keeps the stream in order: an
    [ACK] is for a packet the other side has accepted. *)
Lemma stream_status base pks acc n sent s first i st s' :
  stream_inv base pks acc n sent s first → ReliableStream.on_packet_delivery_status s i st = Ok s' →
  (st = ACK → i ∈ acc) →
  ∃ first', stream_inv base pks acc n sent s' first' ∧
    m_next_expected_sequence_number s' = m_next_expected_sequence_number s.
Proof.
  intros [Hinv Hf Ho Hl Hc] Hs Hacc.
  destruct (on_status_inv _ _ _ _ _ Hinv Hs) as (acked & Hinv' & Hout & Hexp & _ & Hst).
  exists (first + len acked). split; [|done].
  assert (outstanding s' = zdrop (first + len acked) sent) as Ho'.
  { rewrite Hout, Ho, drop_drop. f_equal. lia. }
  destruct st.
  - destruct Hst as (Hq & Hid & _).
    assert (flight s = (packet_id <$> acked) ++ flight s') as Hfl by (unfold flight; by rewrite Hq, fmap_app).
    rewrite Hfl in Hl, Hc. replace (len acked) with (len (packet_id <$> acked)) by (by rewrite length_fmap).
    split; try done; [by rewrite length_fmap|lia|by rewrite length_fmap| |].
    + pose proof (linked_drop _ _ _ (length (packet_id <$> acked)) _ Hl) as H. by rewrite drop_app_length in H.
    + pose proof (covered_drop first (length (packet_id <$> acked)) ((packet_id <$> acked) ++ flight s') acc n) as H.
      rewrite drop_app_length, take_app_length in H. apply H; [list_lia| |done].
      apply Forall_fmap. eapply Forall_impl; [exact Hid|]. simpl. intros m ->. by apply Hacc.
  - destruct Hst as (-> & Hnil & _). apply covered_first in Hc. simpl in *.
    split; try done; [lia| |]; unfold flight; rewrite Hnil; [apply linked_nil|apply covered_nil; lia].
Qed.

Lemma stream_statuses `{Platform} base pks acc n sent sts : ∀ p m first p' m',
  stream_inv base pks acc n sent (reliable_stream p) first → idle (connection_manager p) →
  (∀ i, (i, ACK) ∈ sts → i ∈ acc) → process_delivery_statuses p m sts = Ok (p', m') →
  ∃ s first', p' = with_reliable p s ∧ stream_inv base pks acc n sent s first' ∧
    m_next_expected_sequence_number s = m_next_expected_sequence_number (reliable_stream p).
Proof.
  induction sts as [|[i st] sts IH]; intros p m first p' m' Hs Hidle Hacc Hp; cbn [process_delivery_statuses] in Hp.
  { inv_result. exists (reliable_stream p'), first. by destruct p'. }
  unfold process_delivery_status in Hp. rewrite status_idle in Hp by apply Hidle.
  cbn [mbind result_bind] in Hp. inv_result.
  eapply stream_status in Hp1 as (first1 & Hs1 & He1); [|done|intros ->; apply Hacc; set_solver].
  eapply IH in Hp as (s & first' & -> & Hs' & He'); [|done|done|intros; apply Hacc; set_solver].
  exists s, first'. split_and!; [by destruct p|done|by rewrite He'].
Qed.

(** Sending. *)
Lemma stream_send base pks acc n sent s first f :
  stream_inv base pks acc n sent s first → WriterOk f → 0 ≤ n ≤ len sent →
  ∃ space s', offered s = Ok space ∧ ReliableStream.send s f = Ok s' ∧
    stream_inv base pks acc n (sent ++ sent_by (f space)) s' first ∧
    m_next_expected_sequence_number s' = m_next_expected_sequence_number s.
Proof.
  intros [Hinv Hf Ho Hl Hc] Hw Hn.
  destruct (ReliableStream.rs_send_Ok s first f Hinv Hw) as (space & s' & Hsp & Hs & _ & Hinv' & Ho' & _ & Hids & _ & Hexp).
  exists space, s'. split_and!; try done. pose proof (covered_first _ _ _ _ Hc).
  split; try done; [|unfold flight; by rewrite Hids..].
  rewrite Ho', Ho, drop_app_le by lia. done.
Qed.

(** Writing a packet, number [base + length pks], that the other side cannot have
    accepted yet. *)
Lemma stream_write base pks acc n sent s first taken rest k :
  stream_inv base pks acc n sent s first → pending_messages s = taken ++ rest →
  Forall (λ i, i < base + len pks) acc →
  pk_start k = first + len (in_flight_messages s) → length (pk_reliable k) = length taken →
  stream_inv base (pks ++ [k]) acc n sent (ReliableStream.after_write s (base + len pks) taken rest) first.
Proof.
  intros [Hinv Hf Ho Hl Hc] Hp Hacc Hst Hlen.
  pose proof (linked_behind _ _ _ _ Hl) as Hb. unfold flight in *. rewrite Forall_fmap in Hb.
  destruct (inv_after_write s first (base + len pks) taken rest Hinv Hp) as [Hinv' Hout].
  { eapply Forall_impl; [exact Hb|]. simpl. lia. }
  split; [done|done|congruence| |]; unfold flight; cbn [in_flight_messages ReliableStream.after_write];
    rewrite fmap_app, <-list_fmap_compose.
  - intros j i [Hj|[Hge Hj]]%lookup_app_Some.
    + eapply linked_app in Hl. by apply (Hl j i).
    + apply list_lookup_fmap_Some in Hj as (m & -> & Hm). simpl in *. apply lookup_lt_Some in Hm.
      rewrite length_fmap in *. exists (length pks), k. rewrite Hst, Hlen. split_and!; [done| |lia|lia].
      by apply list_lookup_middle.
  - intros j Hj Hall. destruct (decide (j ≤ length (packet_id <$> in_flight_messages s))%nat) as [Hle|Hgt].
    + apply Hc; [done|]. by rewrite take_app_le in Hall.
    + rewrite take_app_ge in Hall by lia. apply Forall_app in Hall as [_ Hall].
      rewrite length_app in Hj. destruct taken as [|m taken]; [simpl in *; lia|].
      destruct (j - length _)%nat eqn:E in Hall; [lia|]. cbn in Hall. apply Forall_cons in Hall as [Hi _].
      eapply Forall_forall in Hacc; [|exact Hi]. simpl in Hacc. lia.
Qed.

(** ** Accepting a packet *)

Lemma sorted_le (l : list Z) (j k : nat) x y :
  StronglySorted Z.le l → (j ≤ k)%nat → l !! j = Some x → l !! k = Some y → x ≤ y.
Proof.
  intros Hs. revert j k. induction Hs as [|z l Hs IH Hz]; intros [|j] [|k] Hjk Hj Hk; try done; try lia.
  - simpl in *. simplify_eq. lia.
  - simpl in *. simplify_eq. eapply Forall_lookup in Hz; [|exact Hk]. done.
  - eapply (IH j k); [lia|done|done].
Qed.

Lemma length_accepted n a (ps : list bytes) :
  len (accepted n a ps) = if a <=? n then Z.max 0 (a + len ps - n) else 0.
Proof. unfold accepted. destruct (Z.leb_spec a n); [list_lia|done]. Qed.

(** The messages in flight with accepted packets stay covered when packet [i] is
    accepted: either none of those asked for is in it, or its first message is one
    the other side waits for or has been given. *)
Lemma covered_accept base pks first ids acc n (i : nat) k :
  linked base pks first ids → covered first ids acc n → StronglySorted Z.le ids →
  Forall (λ x, x < base + Z.of_nat i) acc → pks !! i = Some k →
  covered first ids (base + Z.of_nat i :: acc) (n + len (accepted n (pk_start k) (pk_reliable k))).
Proof.
  intros Hl Hc Hsort Hacc Hi. set (x := base + Z.of_nat i) in *.
  assert (∀ j : nat, ids !! j = Some x →
            pk_start k ≤ first + Z.of_nat j < pk_start k + len (pk_reliable k)) as Hx.
  { intros j Hj. destruct (Hl _ _ Hj) as (m & k' & Hm & Hk' & Hr). unfold x in Hm.
    assert (m = i) as -> by lia. congruence. }
  rewrite length_accepted. intros m Hm Hall.
  assert (Forall (λ i, i ∈ acc) (take m ids) ∨ pk_start k ≤ n) as [Hold|Hstart].
  { clear -Hc Hm Hall Hx. induction m as [|m IH]; [left; by rewrite take_0|].
    destruct (lookup_lt_is_Some_2 ids m) as [y Hy]; [lia|].
    rewrite (take_S_r _ _ _ Hy), Forall_app, Forall_singleton in *. destruct Hall as [Hall Hy'].
    destruct IH as [IH|]; [lia|done| |by right].
    apply elem_of_cons in Hy' as [->|Hy']; [|by left]. right.
    specialize (Hx _ Hy). specialize (Hc m ltac:(lia) IH). lia. }
  { specialize (Hc m Hm Hold). destruct (pk_start k <=? n); lia. }
  rewrite (proj2 (Z.leb_le _ _) Hstart). pose proof (covered_first _ _ _ _ Hc).
  destruct m as [|m]; [lia|]. destruct (lookup_lt_is_Some_2 ids m) as [y Hy]; [lia|].
  pose proof Hall as Hall'. rewrite (take_S_r _ _ _ Hy), Forall_app, Forall_singleton in Hall.
  destruct Hall as [_ [->|Hy']%elem_of_cons]; [specialize (Hx _ Hy); lia|].
  enough (Forall (λ i, i ∈ acc) (take (S m) ids)) as Hold by (specialize (Hc (S m) Hm Hold); lia).
  apply Forall_lookup. intros j z [Hz Hj]%lookup_take_Some.
  eapply Forall_lookup in Hall' as [Hzx|?]%elem_of_cons; [| |by rewrite lookup_take_lt]; [|done].
  assert (j ≤ m)%nat as Hjm by lia. pose proof (sorted_le _ _ _ _ _ Hsort Hjm Hz Hy).
  eapply Forall_forall in Hacc; [|exact Hy']. simpl in Hacc. lia.
Qed.

Lemma stream_accept base pks acc n sent s first (i : nat) k :
  stream_inv base pks acc n sent s first → Forall (λ x, x < base + Z.of_nat i) acc → pks !! i = Some k →
  stream_inv base pks (base + Z.of_nat i :: acc) (n + len (accepted n (pk_start k) (pk_reliable k))) sent s first.
Proof.
  intros [Hinv Hf Ho Hl Hc] Hacc Hi. split; try done.
  eapply covered_accept; try done. apply (ReliableStream.inv_sorted _ _ Hinv).
Qed.

(** What is delivered from a packet continues what has been delivered. *)
Lemma delivered_accept sent dl start ps :
  dl `prefix_of` sent → 0 ≤ start → ps `prefix_of` zdrop start sent →
  dl ++ accepted (len dl) start ps `prefix_of` sent.
Proof.
  intros [rest ->] Hs [tail Hps]. unfold accepted. destruct (Z.leb_spec start (len dl)) as [Hle|]; [|by exists rest; rewrite app_nil_r].
  rewrite drop_app_le in Hps by lia. apply prefix_app.
  apply (f_equal (drop (length dl - Z.to_nat start))) in Hps.
  rewrite drop_app_ge in Hps by list_lia. rewrite length_drop, Nat.sub_diag, drop_0 in Hps.
  rewrite Hps. replace (Z.to_nat (len dl - start)) with (length dl - Z.to_nat start)%nat by lia.
  destruct (decide (length dl - Z.to_nat start ≤ length ps)%nat).
  - rewrite drop_app_le by done. by eexists.
  - rewrite (drop_ge ps) by lia. apply prefix_nil.
Qed.

(** ** Reading a packet the other side has written *)

Definition body (k : packet) : bytes :=
  segment_of (pk_start k) (pk_reliable k) ++ UnreliableStream.encode_segment (pk_unreliable k).

(** It is for none of the managers that come before its own. *)
Lemma body_other k : len (body k) < Segment.kSerializedSize ∨
  ∃ t, Segment.manager_type (body k) = Ok t ∧ t ≠ CONNECTION_MANAGER ∧ (pk_reliable k = [] → t ≠ RELIABLE_STREAM).
Proof.
  unfold body, segment_of, UnreliableStream.encode_segment.
  destruct (pk_reliable k) as [|p ps]; [|right; rewrite <-!app_assoc, Segment.manager_type_encode; by eexists].
  destruct (pk_unreliable k) as [|u us]; [by left|right].
  rewrite app_nil_l, Segment.manager_type_encode. by eexists.
Qed.

Lemma reliable_read_body s next k :
  m_next_expected_sequence_number s = u32 next → len (body k) < 2 ^ 63 →
  (length (pk_reliable k) < 256)%nat → ReliableStream.messages_ok (pk_reliable k) →
  in_window next (pk_start k) (len (pk_reliable k)) →
  let news := accepted next (pk_start k) (pk_reliable k) in
  ReliableStream.read s (body k)
  = Ok (ReliableStream.with_expected s (u32 (next + len news)), news, Value (len (segment_of (pk_start k) (pk_reliable k)))).
Proof.
  intros Hn Hl Hc Hok Hw. destruct (pk_reliable k) as [|p ps] eqn:Hps.
  - assert (accepted next (pk_start k) [] = []) as -> by (unfold accepted; rewrite drop_nil; by destruct (_ <=? _)).
    cbv zeta. rewrite Z.add_0_r, <-Hn. rewrite ReliableStream.rs_read_other; [by destruct s|].
    destruct (body_other k) as [?|(t & ? & _ & Ht)]; [by left|right]. exists t. split; [done|by apply Ht].
  - unfold body in *. rewrite Hps in *. apply ReliableStream.rs_read_segment_Ok; try done. lia.
Qed.

Lemma unreliable_read_body us :
  UnreliableStream.messages_ok us → len (UnreliableStream.encode_segment us) < 2 ^ 63 →
  ∃ got n, UnreliableStream.read (UnreliableStream.encode_segment us) = Ok (got, Value n) ∧
    0 ≤ n ≤ len (UnreliableStream.encode_segment us) ∧ got `sublist_of` us.
Proof.
  intros Hok Hl. destruct us as [|u us]; [exists [], 0; simpl; by split_and!|].
  pose proof (UnreliableStream.us_read_segment_Ok (u :: us) [] ltac:(done) Hok) as Hr. rewrite app_nil_r in Hr.
  specialize (Hr Hl). cbv zeta in Hr.
  destruct (UnreliableStream.us_read_total (UnreliableStream.encode_segment (u :: us)) ltac:(lia))
    as (new & r & Hr' & _ & _ & Hn). rewrite Hr in Hr'. injection Hr' as <- <-.
  do 2 eexists. split; [exact Hr|]. split; [done|]. apply sublist_take.
Qed.

(** Behind the statuses everything of the packet is read. *)
Lemma read_segments_honest `{Platform} cfg p m sts p1 m1 next k tail :
  process_delivery_statuses p m sts = Ok (p1, m1) → idle (connection_manager p1) →
  m_next_expected_sequence_number (reliable_stream p1) = u32 next → len (body k) < 2 ^ 62 →
  (length (pk_reliable k) < 256)%nat → ReliableStream.messages_ok (pk_reliable k) →
  UnreliableStream.messages_ok (pk_unreliable k) →
  in_window next (pk_start k) (len (pk_reliable k)) →
  let news := accepted next (pk_start k) (pk_reliable k) in
  ∃ rate got, read_segments cfg p m sts (body k) tail
    = Ok (with_reliable (update_send_rate p1 rate)
            (ReliableStream.with_expected (reliable_stream p1) (u32 (next + len news))), m1, news, got) ∧
    got `sublist_of` pk_unreliable k.
Proof.
  intros Hst [_ _ Hpeer] Hn Hl Hc Hok Huok Hw. cbv zeta. unfold read_segments. rewrite Hst. cbn [mbind result_bind].
  rewrite ConnectionManager.cm_read_other.
  2:{ destruct (body_other k) as [?|(t & ? & ? & _)]; [by left|right]. by exists t. }
  cbn [mbind result_bind]. rewrite Span.advance_Ok by lia. cbn [mbind result_bind]. change (zdrop 0 ?l) with l.
  unfold is_peer_connected in Hpeer. unfold peer_limit.
  destruct (m_peer_bandwidth_limit (connection_manager p1)) as [l|]; [|done].
  set (rate := negotiated_rate _ _). replace (with_cm p1 (connection_manager p1)) with p1 by (by destruct p1).
  destruct (reliable_stream_update_send_rate p1 rate) as (_ & _ & -> & _).
  rewrite (reliable_read_body _ next) by (done || lia). cbn [mbind result_bind].
  assert (len (body k) = len (segment_of (pk_start k) (pk_reliable k))
            + len (UnreliableStream.encode_segment (pk_unreliable k))) as Hlen by (unfold body; list_lia).
  rewrite Span.advance_Ok by lia. cbn [mbind result_bind]. unfold body. rewrite Nat2Z.id, drop_app_length.
  destruct (unreliable_read_body (pk_unreliable k) Huok ltac:(lia)) as (got & n & -> & Hgn & Hgot).
  cbn [mbind result_bind]. rewrite Span.advance_Ok by lia. cbn [mbind result_bind].
  by exists rate, got.
Qed.

(** A whole packet: old ones only have their acknowledgements looked at. *)
Lemma read_packet_honest `{Platform} cfg p m resolved next_id next k rest (news := accepted next (pk_start k) (pk_reliable k)) sent acks :
  PacketDeliveryManager.inv (packet_delivery_manager p) resolved next_id → next_id ≤ 2 ^ 32 →
  packet_good sent acks k → 0 ≤ pk_id k < 2 ^ 32 - 1 → 0 ≤ next < 2 ^ 32 → len sent < 2 ^ 32 →
  idle (connection_manager p) → m_next_expected_sequence_number (reliable_stream p) = u32 next →
  ∃ q1 q2 pdm, m_in_flight_packets (packet_delivery_manager p) = q1 ++ q2 ∧
    PacketDeliveryManager.inv pdm (resolved + len q1) next_id ∧ m_in_flight_packets pdm = q2 ∧
    id <$> q1 = seqZ resolved (len q1) ∧ PacketDeliveryManager.m_packet_timeout pdm = PacketDeliveryManager.m_packet_timeout (packet_delivery_manager p) ∧
    m_next_expected_packet_id pdm = Z.max (m_next_expected_packet_id (packet_delivery_manager p)) (pk_id k + 1) ∧
    if m_next_expected_packet_id (packet_delivery_manager p) <=? pk_id k then
      m_pending_acks pdm = m_pending_acks (packet_delivery_manager p) ++ [pk_id k] ∧
      read_packet cfg p m (packet_bytes k) rest
      = read_segments cfg (with_pdm p pdm) m (statuses_of (pk_ack k) (pk_mask k) q1) (body k) (beyond rest)
    else
      m_pending_acks pdm = m_pending_acks (packet_delivery_manager p) ∧
      read_packet cfg p m (packet_bytes k) rest = Ok (with_pdm p pdm, m, [], []).
Proof.
  intros Hpdm Hid32 [] Hid Hnext Hsent Hidle Hexp.
  set (hdr := PacketHeader.encode (pk_id k) (pk_ack k) (pk_mask k)).
  assert (packet_bytes k = hdr ++ body k) as Hb by (unfold packet_bytes, body; by rewrite pg_handshake0).
  pose proof (PacketHeader.packet_header_length_encode (pk_id k) (pk_ack k) (pk_mask k)) as Hhdr. fold hdr in Hhdr.
  pose proof (PacketHeader.id_encode (pk_id k) (pk_ack k) (pk_mask k) (body k ++ beyond rest)) as Hi.
  pose proof (PacketHeader.ack_sequence_number_encode (pk_id k) (pk_ack k) (pk_mask k) (body k ++ beyond rest)) as Ha.
  pose proof (PacketHeader.ack_bitmask_encode (pk_id k) (pk_ack k) (pk_mask k) (body k ++ beyond rest)) as Hm.
  fold hdr in Hi, Ha, Hm. rewrite wrap_small in Hi, Ha, Hm by (done || (unfold in_u; lia)).
  destruct (process_read_Ok _ resolved next_id (hdr ++ body k ++ beyond rest) Hpdm Hid32)
    as (hid & a & mask & q1 & q2 & pdm & Hi' & Ha' & Hm' & Hq & Hread & Hinv' & Hfl & Hids & Hto & Hx & Hpend);
    [unfold PacketHeader.kSerializedSize; list_lia|rewrite Hi; intros [= ?]; lia|].
  rewrite Hi in Hi'. rewrite Ha in Ha'. rewrite Hm in Hm'. injection Hi' as <-. injection Ha' as <-. injection Hm' as <-.
  exists q1, q2, pdm. do 6 (split; [done|]).
  unfold read_packet. rewrite Hb, <-app_assoc, Hread. cbn [mbind result_bind].
  destruct (m_next_expected_packet_id (packet_delivery_manager p) <=? pk_id k); (split; [by rewrite Hpend, ?app_nil_r|]).
  - change (PacketHeader.kSerializedSize =? 0) with false. cbv iota.
    rewrite Hb, length_app in pg_size0.
    rewrite Span.advance_Ok by (rewrite length_app; unfold PacketHeader.kSerializedSize; lia).
    cbn [mbind result_bind]. by rewrite drop_reassoc by (rewrite Hhdr; done).
  - done.
Qed.

(** ** Every action keeps the channel *)

Lemma packet_good_mono sent acks sent' acks' k :
  packet_good sent acks k → sent `prefix_of` sent' → (∀ i, i ∈ acks → i ∈ acks') → packet_good sent' acks' k.
Proof.
  intros [? Hacks ? ? Hstart Hrel ? ? ? ?] [more ->] Hacks'. split; try done; [auto|list_lia|].
  destruct Hrel as [tail Ht]. rewrite drop_app_le by lia. rewrite Ht, <-app_assoc. by eexists.
Qed.

Lemma stream_inv_expected base pks acc n sent s first seq :
  stream_inv base pks acc n sent s first → stream_inv base pks acc n sent (ReliableStream.with_expected s seq) first.
Proof. intros [[] ? ? ? ?]. by split. Qed.

Lemma with_reliable_stream p s : reliable_stream (with_reliable p s) = s.
Proof. done. Qed.

Section Steps.
Context `{Platform} (cfg : ConnectionManagerConfig) (a b : Side) (ha hb : half) (budget : Z).
Context (Hch : channel a b ha hb (budget + 1)) (Hbudget : 0 ≤ budget).

(** The bounds the budget gives. *)
Lemma bounds :
  next_id ha < 2 ^ 32 ∧ next_id hb < 2 ^ 32 ∧ len (sent a) < 2 ^ 32 ∧ len (sent b) < 2 ^ 32 ∧
  0 ≤ len (delivered a) ≤ len (sent b) ∧ 0 ≤ len (delivered b) ≤ len (sent a).
Proof using Hch Hbudget.
  destruct Hch as [_ _ [Hda _ _ _ _ _] [Hdb _ _ _ _ _] Hb].
  apply prefix_length in Hda, Hdb. lia.
Qed.

(** What [read] and the callbacks see is the same side afterwards. *)
Lemma channel_with_peer p m :
  (∃ resolved first leak, sender (with_peer a p m) (h_base ha) (h_packets ha) (h_accepted ha)
     (h_accepted hb) (len (delivered b)) resolved first leak) →
  m_next_expected_sequence_number (reliable_stream p)
  = m_next_expected_sequence_number (reliable_stream (peer a)) →
  m_next_expected_packet_id (packet_delivery_manager p)
  = m_next_expected_packet_id (packet_delivery_manager (peer a)) →
  m_pending_acks (packet_delivery_manager p) = m_pending_acks (packet_delivery_manager (peer a)) →
  channel (with_peer a p m) b ha hb budget.
Proof using Hch Hbudget.
  intros Hs He Hn Hp. destruct Hch as [_ Hsb Hrb [Hd Hx Ha Hpend Hnext Hu] Hb].
  split; [done|done| | |cbn; lia].
  - by destruct Hrb.
  - split; cbn; rewrite ?He, ?Hn, ?Hp; done.
Qed.

Lemma act_send f a' :
  WriterOk f → act cfg a (payloads b) (Send f) = Ok a' → channel a' b ha hb budget.
Proof using Hch Hbudget.
  intros Hf Hact. pose proof bounds as (_ & _ & _ & _ & _ & Hdb). cbn [act] in Hact.
  destruct Hch as [(r & first & leak & [Hp Hids Hpk Hpdm Hst Hu Hidle Hpend Hbase]) Hsb Hrb Hra Hb].
  destruct (stream_send _ _ _ _ _ _ _ f Hst Hf Hdb) as (space & s' & Hsp & Hs & Hst' & He).
  rewrite Hsp, Hs in Hact. cbn [mbind result_bind] in Hact. injection Hact as <-.
  assert (len (sent_by (f space)) ≤ 1) by (unfold sent_by; destruct (_ =? _); simpl; lia).
  split; cbn; [|done| | |].
  - exists r, first, leak. split; cbn; try done. eapply Forall_impl; [exact Hpk|].
    intros k Hk. eapply packet_good_mono; [exact Hk|by eexists|done].
  - destruct Hrb. split; cbn; try done. by apply prefix_app_r.
  - destruct Hra. split; cbn; try done. by rewrite He.
  - list_lia.
Qed.

Lemma act_send_unreliable f a' :
  WriterOk f → act cfg a (payloads b) (SendUnreliable f) = Ok a' → channel a' b ha hb budget.
Proof using Hch Hbudget.
  intros Hf Hact. cbn [act] in Hact.
  destruct Hch as [(r & first & leak & [Hp Hids Hpk Hpdm Hst Hu Hidle Hpend Hbase]) Hsb Hrb Hra Hb].
  destruct (UnreliableStream.us_send_Ok _ _ f Hu Hf) as (u & Hs & Hu' & Hpend' & _).
  rewrite (FlipBuffer.remaining_Ok _ (UnreliableStream.inv_wf _ _ Hu)), Hs in Hact. cbn [mbind result_bind] in Hact.
  injection Hact as <-. split; cbn; [|done| | |lia].
  - exists r, first, leak. split; cbn; try done.
    rewrite Hpend', (app_assoc (mjoin _)). apply sublist_app; [exact Hpend|].
    unfold sent_by. by destruct (_ =? _).
  - by destruct Hrb.
  - by destruct Hra.
Qed.

Lemma act_expire now a' :
  act cfg a (payloads b) (Expire now) = Ok a' → channel a' b ha hb budget.
Proof using Hch Hbudget.
  intros Hact. cbn [act] in Hact. unfold drop_peer, drop_old_packets in Hact. inv_result.
  destruct Hch as [(r & first & leak & [Hp Hids Hpk Hpdm Hst Hu Hidle Hpend Hbase]) Hsb Hrb Hra Hb].
  match goal with H : PacketDeliveryManager.drop_loop _ _ _ _ = Ok _ |- _ =>
    apply drop_loop_inv in H as (q1 & Hq & ->) end.
  destruct (inv_pop _ _ _ _ _ Hpdm Hq) as [Hpdm' _].
  match goal with H : process_delivery_statuses _ _ _ = Ok _ |- _ =>
    eapply stream_statuses in H as (s & first' & -> & Hst' & He); [|exact Hst|exact Hidle|] end.
  2:{ intros i (? & ? & _)%list_elem_of_fmap. done. }
  apply channel_with_peer; try done. eexists _, first', leak. by split.
Qed.

Lemma channel_peer_ok : ∃ resolved first leak,
  sender a (h_base ha) (h_packets ha) (h_accepted ha) (h_accepted hb) (len (delivered b)) resolved first leak ∧
  peer_ok (peer a) resolved (next_id ha) first leak.
Proof using Hch.
  destruct Hch as [(r & first & leak & Hs) _ _ [_ Hx _ _ _ _] _]. exists r, first, leak. split; [done|].
  destruct Hs as [Hp Hids Hpk Hpdm Hst Hu Hidle Hpend Hbase]. split; try done.
  - apply (st_inv _ _ _ _ _ _ _ Hst).
  - rewrite Hx. apply wrap_range. lia.
  - pose proof (linked_behind _ _ _ _ (st_linked _ _ _ _ _ _ _ Hst)) as Hl. unfold flight in Hl.
    by rewrite Forall_fmap in Hl.
Qed.

(** A packet just written is a good one. *)
Lemma written_good size p' r first leak k :
  sender a (h_base ha) (h_packets ha) (h_accepted ha) (h_accepted hb) (len (delivered b)) r first leak →
  packet_of size (peer a) p' (next_id ha) first k → len (packet_bytes k) ≤ 1793 →
  packet_good (sent a) (h_accepted ha) k.
Proof using Hch Hbudget.
  intros [_ _ _ _ Hst _ Hidle Hpend _] [_ Hack Hmask Hacked _ _ Hhs Hstart (taken & rest & Hpm & _ & Hrel) Hcount Hrok
    (lost & Hlost) _ Huok _ _] Hsize. pose proof bounds as (_ & _ & _ & _ & _ & Hdb).
  destruct Hhs as [Hhs _]; [rewrite (idle_num _ Hidle); lia|].
  destruct Hch as [_ _ _ [_ _ _ Hpa _ _] _]. pose proof (covered_first _ _ _ _ (st_covered _ _ _ _ _ _ _ Hst)).
  pose proof (stream_inv_length _ _ _ _ _ _ _ Hst) as Hlen. unfold flight in Hlen. rewrite length_fmap in Hlen.
  destruct Hst as [_ Hf0 Ho _ _]. split; try done.
  - intros i Hi. by apply Hpa, Hacked.
  - lia.
  - rewrite Hrel, Hstart. set (fl := in_flight_messages (reliable_stream (peer a))) in *.
    replace (Z.to_nat (first + len fl)) with (Z.to_nat first + length fl)%nat by lia.
    rewrite <-drop_drop, <-Ho. unfold outstanding, messages. rewrite fmap_app, drop_reassoc by (by rewrite !length_fmap).
    rewrite Hpm, fmap_app. by eexists.
Qed.

Lemma act_flush buffer now a' :
  12 ≤ len buffer ≤ 1793 → act cfg a (payloads b) (Flush buffer now) = Ok a' →
  ∃ k first, channel a' b (mkHalf (h_base ha) (h_packets ha ++ [k]) (h_accepted ha)) hb budget ∧
    packet_of (len buffer) (peer a) (peer a') (next_id ha) first k ∧
    pk_handshake k = [] ∧ sent a' = sent a.
Proof using Hch Hbudget.
  intros Hbuf Hact. cbn [act] in Hact. pose proof bounds as (Hna & _ & _ & _ & _ & Hdb).
  destruct channel_peer_ok as (r & first & leak & [Hp Hids Hpk Hpdm Hst Hu Hidle Hpend Hbase] & Hok).
  destruct (write_packet_Ok _ _ _ _ _ buffer now Hok Hna) as (p' & buffer' & n2 & n3 & n4 & k & leak' & Hw & Hl &
    ? & ? & ? & Hfit & Hbytes & Hk & Hok' & _ & _ & _); [left; rewrite (idle_num _ Hidle); lia|done|].
  rewrite Hw in Hact. cbn [mbind result_bind] in Hact. injection Hact as <-. exists k, first.
  assert (packet_good (sent a) (h_accepted ha) k) as Hgood.
  { apply (written_good (len buffer) p' r first leak); [by split|done|]. rewrite <-Hbytes. list_lia. }
  assert (pk_handshake k = []) as Hhs0 by (apply (po_handshake _ _ _ _ _ _ Hk); rewrite (idle_num _ Hidle); lia).
  split; [|by split_and!].
  destruct Hk as [Hid _ _ _ Hpa Hnext Hhs Hstart (taken & rest & Hpm & Hrs & Hrel) _ _ _ Hkept _ _ _].
  destruct Hhs as [_ Hcm]; [rewrite (idle_num _ Hidle); lia|]. destruct Hch as [_ Hsb Hrb Hra Hb].
  assert (Forall (λ i, i < next_id ha) (h_accepted hb)) as Hacc.
  { destruct Hrb as [_ _ Hacc _ Hle _]. eapply Forall_impl; [exact Hacc|]. simpl. lia. }
  split; cbn [h_base h_packets h_accepted]; [|done| | |].
  - exists r, first, leak'. split; cbn; try done.
    + by rewrite fmap_app, Hp, Hbytes.
    + intros i x [Hx|[Hge Hx]]%lookup_app_Some; [by apply Hids|].
      apply list_lookup_singleton_Some in Hx as [Hi <-]. rewrite Hid. unfold next_id. lia.
    + apply Forall_app. split; [done|]. by apply Forall_singleton.
    + destruct Hok' as [Hpdm' _ _ _ _]. replace (h_base ha + len (h_packets ha ++ [k])) with (next_id ha + 1)
        by (unfold next_id; list_lia). done.
    + rewrite Hrs. apply stream_write; [done|done|done|done|by rewrite Hrel, length_fmap].
    + by destruct Hok'.
    + by rewrite Hcm.
    + rewrite fmap_app, join_app. cbn. rewrite app_nil_r, <-app_assoc. etrans; [|exact Hpend]. by apply sublist_app.
  - destruct Hrb. split; cbn; try done; [unfold next_id in *; cbn; list_lia|]. by rewrite unreliable_before_app.
  - destruct Hra as [Hd Hx Ha Hpend' Hn Hud]. split; cbn; rewrite ?Hnext; try done.
    + by rewrite Hrs.
    + intros i Hi. by apply Hpend', Hpa.
  - unfold next_id in *. cbn. list_lia.
Qed.

(** What the other side has written at index [i]. *)
Lemma payload_packet (i : nat) payload :
  payloads b !! i = Some payload →
  ∃ k, h_packets hb !! i = Some k ∧ payload = packet_bytes k ∧ pk_id k = h_base hb + Z.of_nat i ∧
    packet_good (sent b) (h_accepted hb) k ∧ 0 ≤ pk_id k < next_id hb.
Proof using Hch.
  intros Hi. destruct Hch as [_ (r & first & leak & [Hp Hids Hpk _ _ _ _ _ Hbase]) _ _ _].
  rewrite Hp in Hi. apply list_lookup_fmap_Some in Hi as (k & -> & Hk). exists k.
  pose proof (lookup_lt_Some _ _ _ Hk). split_and!; try done; [by apply Hids| |..].
  - by eapply Forall_lookup in Hpk.
  - rewrite (Hids _ _ Hk). lia.
  - rewrite (Hids _ _ Hk). unfold next_id. lia.
Qed.

(** The reading side after an accepted packet. *)
Lemma receive_accepted (i : nat) k p m got r first leak
    (news := accepted (len (delivered a)) (pk_start k) (pk_reliable k)) :
  h_packets hb !! i = Some k → pk_id k = h_base hb + Z.of_nat i →
  packet_good (sent b) (h_accepted hb) k → 0 ≤ pk_id k < next_id hb →
  m_next_expected_packet_id (packet_delivery_manager (peer a)) ≤ pk_id k →
  let a' := mkSide p m (sent a) (delivered a ++ news) (unreliable_sent a) (unreliable_delivered a ++ got) (payloads a) in
  sender a' (h_base ha) (h_packets ha) (pk_id k :: h_accepted ha) (h_accepted hb) (len (delivered b)) r first leak →
  got `sublist_of` pk_unreliable k →
  m_next_expected_sequence_number (reliable_stream p) = u32 (len (delivered a) + len news) →
  m_next_expected_packet_id (packet_delivery_manager p) = pk_id k + 1 →
  m_pending_acks (packet_delivery_manager p) = m_pending_acks (packet_delivery_manager (peer a)) ++ [pk_id k] →
  channel a' b (mkHalf (h_base ha) (h_packets ha) (pk_id k :: h_accepted ha)) hb budget.
Proof using Hch Hbudget.
  intros Hi Hid [_ _ _ _ Hstart Hrel _ _ _ _] Hrange Hfresh a' Hsa Hgot Hx Hnext Hpend.
  destruct Hch as [_ (rb & fb & lb & [Hp Hids Hpk Hpdm Hst Hu Hidle Hpendb Hbase]) Hrb [Hd Hxa Hacc Hpa Hn Hud] Hb].
  assert (Forall (λ x, x < pk_id k) (h_accepted ha)) as Hold.
  { eapply Forall_impl; [exact Hacc|]. simpl. lia. }
  split; cbn [h_base h_packets h_accepted]; [by eexists _, _, _| | | |unfold next_id in *; cbn; lia].
  - exists rb, fb, lb. split; try done. cbn. rewrite Hid in *. rewrite length_app, Nat2Z.inj_add.
    by apply stream_accept.
  - by destruct Hrb.
  - split; cbn.
    + apply delivered_accept; [done|lia|done].
    + rewrite Hx. f_equal. list_lia.
    + rewrite Hnext. constructor; [lia|]. eapply Forall_impl; [exact Hold|]. simpl. lia.
    + intros x. rewrite Hpend. set_solver.
    + lia.
    + rewrite Hnext, Hid, (unreliable_before_step _ _ _ Hi). apply sublist_app; [|done]. etrans; [exact Hud|].
      apply unreliable_before_mono. lia.
Qed.

Lemma act_receive (i : nat) rest a' :
  act cfg a (payloads b) (Receive i rest) = Ok a' → ∃ acc, channel a' b (mkHalf (h_base ha) (h_packets ha) acc) hb budget.
Proof using Hch Hbudget.
  intros Hact. cbn [act] in Hact. destruct (payloads b !! i) as [payload|] eqn:Hpl.
  2:{ injection Hact as <-. exists (h_accepted ha). destruct ha, Hch. split; try done. cbn in *. lia. }
  destruct (payload_packet _ _ Hpl) as (k & Hi & -> & Hid & Hgood & Hrange).
  pose proof bounds as (Hna & Hnb & Hsa & Hsb & Hda & Hdb).
  pose proof Hch as [(r & first & leak & Hs) _ _ [_ Hx _ _ _ _] _]. pose proof Hs as [Hp Hids Hpk Hpdm Hst Hu Hidle Hpend Hbase].
  destruct (read_packet_honest cfg (peer a) (metrics a) r (next_id ha) (len (delivered a)) k rest
    (sent b) (h_accepted hb) Hpdm) as (q1 & q2 & pdm & Hq & Hpdm' & _ & _ & _ & Hnext & Hread);
    [lia|done|lia|lia|lia|done|done|].
  destruct (Z.leb_spec (m_next_expected_packet_id (packet_delivery_manager (peer a))) (pk_id k)) as [Hfresh|Hstale].
  2:{ destruct Hread as [Hpa Hread]. rewrite Hread in Hact. cbn [mbind result_bind] in Hact. injection Hact as <-. exists (h_accepted ha).
      rewrite !app_nil_r. replace (mkHalf _ _ _) with ha by (by destruct ha).
      apply (channel_with_peer (with_pdm (peer a) pdm) (metrics a)); [|done|cbn; lia|done].
      eexists _, first, leak. by split. }
  destruct Hread as [Hpa Hread]. rewrite Hread in Hact. inv_result. exists (pk_id k :: h_accepted ha).
  pose proof Hgood as [_ Hacks _ _ Hstart Hrel Hcount Hok Huok Hsize].
  match goal with H : read_segments _ _ _ _ _ _ = Ok _ |- _ => pose proof H as Hseg end.
  unfold read_segments in Hseg. apply Prelude.bind_Ok in Hseg as ([p1 m1] & Hst1 & _).
  pose proof Hst1 as Hst2. eapply stream_statuses in Hst2 as (s & first' & -> & Hst' & He); [|exact Hst|exact Hidle|].
  2:{ intros x (y & [= -> Hy] & _)%list_elem_of_fmap. by apply Hacks. }
  destruct (read_segments_honest cfg _ _ _ _ _ (len (delivered a)) k (beyond rest) Hst1 Hidle) as (rate & got & Hseg & Hgot);
    try done; [by rewrite with_reliable_stream, He| | |].
  { unfold packet_bytes in Hsize. unfold body. list_lia. }
  { apply prefix_length in Hrel. split; list_lia. }
  rewrite Hseg in Hact0. injection Hact0 as <- <- <- <-.
  destruct (reliable_stream_update_send_rate (with_reliable (with_pdm (peer a) pdm) s) rate) as (E1 & E2 & E3 & E4).
  eapply receive_accepted; try done; cbn; rewrite ?E1; cbn; [|lia|done].
  split; cbn; rewrite ?E1, ?E2, ?E4; try done.
  - eapply Forall_impl; [exact Hpk|]. intros x Hx'. eapply packet_good_mono; [exact Hx'|done|set_solver].
  - by apply stream_inv_expected.
Qed.
End Steps.

(** ** Runs *)

(** Two peers of each other after the handshake: nothing sent yet, and the next
    packet of one is new to the other. *)
Record established (p q : Peer) : Prop := {
  es_pdm : ∃ resolved, PacketDeliveryManager.inv (packet_delivery_manager p) resolved
                         (m_next_outgoing_packet_id (packet_delivery_manager p));
  es_next : m_next_expected_packet_id (packet_delivery_manager q)
            ≤ m_next_outgoing_packet_id (packet_delivery_manager p);
  es_idle : idle (connection_manager p);
  es_reliable : reliable_stream p = ReliableStream.create ReliableStream.kDefaultCapacity;
  es_unreliable : unreliable_stream p = UnreliableStream.create UnreliableStream.kDefaultCapacity;
}.

Definition half_of (p : Peer) : half :=
  mkHalf (m_next_outgoing_packet_id (packet_delivery_manager p)) [] (m_pending_acks (packet_delivery_manager p)).

Lemma sender_start p q m acks :
  established p q → ∃ resolved first leak,
    sender (start p m) (h_base (half_of p)) (h_packets (half_of p)) acks
      (m_pending_acks (packet_delivery_manager q)) 0 resolved first leak.
Proof.
  intros [[r Hpdm] Hn Hi Hr Hu]. exists r, 0, 0.
  split; cbn; rewrite ?Hr, ?Hu, ?Z.add_0_r; try done.
  - split; [by apply ReliableStream.rs_inv_create|done|done|apply linked_nil|apply covered_nil; lia].
  - pose proof (si_resolved _ _ _ (PacketDeliveryManager.inv_sent _ _ _ Hpdm)). lia.
Qed.

Lemma receiver_start p q mp mq :
  established p q → established q p → receiver (start p mp) (start q mq) (h_accepted (half_of q)) (half_of p).
Proof.
  intros [_ Hn _ _ _] [[r Hpdm] _ _ Hr _]. split; cbn; rewrite ?Hr; try done.
  - pose proof (PacketDeliveryManager.inv_acks _ _ _ Hpdm) as Ha. eapply Forall_impl; [exact Ha|]. simpl. lia.
  - unfold next_id. cbn. lia.
  - apply sublist_nil_l.
Qed.

Lemma channel_start p q mp mq budget :
  established p q → established q p → 0 ≤ budget < 2 ^ 32 →
  m_next_outgoing_packet_id (packet_delivery_manager p) + budget < 2 ^ 32 →
  m_next_outgoing_packet_id (packet_delivery_manager q) + budget < 2 ^ 32 →
  channel (start p mp) (start q mq) (half_of p) (half_of q) budget.
Proof.
  intros Hp Hq Hb Hbp Hbq. split.
  - by apply sender_start.
  - by apply sender_start.
  - by apply receiver_start.
  - by apply receiver_start.
  - unfold next_id. cbn. lia.
Qed.

Lemma act_channel `{Platform} cfg a b ha hb budget x a' :
  channel a b ha hb (budget + 1) → 0 ≤ budget → action_ok x → act cfg a (payloads b) x = Ok a' →
  ∃ ha', h_base ha' = h_base ha ∧ channel a' b ha' hb budget.
Proof.
  intros Hch Hb Hok Hact. destruct x as [f|f|buffer now|i rest|now].
  - exists ha. split; [done|]. by eapply act_send.
  - exists ha. split; [done|]. by eapply act_send_unreliable.
  - eapply act_flush in Hact as (k & first & Hk & _); [by eexists (mkHalf _ _ _)|done..].
  - eapply act_receive in Hact as [acc Hk]; [by eexists (mkHalf _ _ _)|done..].
  - exists ha. split; [done|]. by eapply act_expire.
Qed.

Lemma run_channel `{Platform} cfgl cfgr xs : ∀ l r hl hr budget l' r',
  channel l r hl hr (budget + len xs) → 0 ≤ budget → Forall (λ x, action_ok x.2) xs →
  run cfgl cfgr l r xs = Ok (l', r') → ∃ hl' hr', channel l' r' hl' hr' budget.
Proof.
  induction xs as [|[[] x] xs IH]; intros l r hl hr budget l' r' Hch Hb Hok Hrun; cbn [run] in Hrun.
  { injection Hrun as <- <-. rewrite Z.add_0_r in Hch. by eexists _, _. }
  all: apply Forall_cons in Hok as [Hx Hok]; apply Prelude.bind_Ok in Hrun as (s & Hact & Hrun).
  all: replace (budget + len (_ :: xs)) with (budget + len xs + 1) in Hch by (simpl; lia).
  - eapply act_channel in Hact as (h & _ & Hch'); [|done|lia|done]. by eapply IH.
  - apply channel_sym in Hch. eapply act_channel in Hact as (h & _ & Hch'); [|done|lia|done].
    apply channel_sym in Hch'. by eapply IH.
Qed.

Lemma run_app `{Platform} cfgl cfgr xs ys : ∀ l r l1 r1,
  run cfgl cfgr l r xs = Ok (l1, r1) → run cfgl cfgr l r (xs ++ ys) = run cfgl cfgr l1 r1 ys.
Proof.
  induction xs as [|[[] x] xs IH]; intros l r l1 r1 Hr; cbn [run app] in *; [by injection Hr as <- <-|..].
  all: apply Prelude.bind_Ok in Hr as (s & -> & Hr); by apply IH.
Qed.

(** The same run seen from the other side. *)
Definition flip_sides (xs : list (bool * action)) : list (bool * action) := (λ x, (negb x.1, x.2)) <$> xs.

Lemma run_flip_sides `{Platform} cfgl cfgr xs : ∀ l r l' r',
  run cfgl cfgr l r xs = Ok (l', r') → run cfgr cfgl r l (flip_sides xs) = Ok (r', l').
Proof.
  induction xs as [|[[] x] xs IH]; intros l r l' r' Hr; cbn in *; [by injection Hr as <- <-|..].
  all: apply Prelude.bind_Ok in Hr as (s & -> & Hr); by apply IH.
Qed.

(** What the users of a reliable stream rely on: [b] has been given a prefix of what
    [a] has sent, every message once and in order, and what it has not been given
    [a] still holds, at the end of its outstanding messages. *)
Definition exactly_once (a b : Side) : Prop :=
  ∃ held kept, sent a = delivered b ++ kept ∧ outstanding (reliable_stream (peer a)) = held ++ kept ∧
    held `suffix_of` delivered b.

Lemma channel_exactly_once a b ha hb budget : channel a b ha hb budget → exactly_once a b.
Proof.
  intros [(r & first & leak & Hs) _ [[kept Hd] _ _ _ _ _] _ _].
  destruct (sn_stream _ _ _ _ _ _ _ _ _ Hs) as [_ Hf Ho _ Hc]. apply covered_first in Hc.
  exists (zdrop first (delivered b)), kept. split; [done|]. split; [rewrite Ho, Hd, drop_app_le by lia; done|].
  exists (ztake first (delivered b)). by rewrite take_drop.
Qed.

(** ** No fault when packets stay in order *)

(** The first packet still in flight. *)
Definition oldest (m : PacketDeliveryManager) : Z :=
  m_next_outgoing_packet_id m - len (m_in_flight_packets m).

Lemma oldest_resolved m resolved sent :
  PacketDeliveryManager.inv m resolved sent → sent < 2 ^ 32 → oldest m = resolved.
Proof.
  intros [[Hr Hids Hn] _ _ _] Hs. apply (f_equal length) in Hids.
  rewrite length_fmap, length_seqZ in Hids. unfold oldest. rewrite Hn, wrap_small by (unfold in_u; lia). lia.
Qed.

Definition sane_time (t : Z) : Prop := 0 ≤ t < 2 ^ 62.

Definition time_ok (x : action) : Prop :=
  match x with Flush _ now | Expire now => sane_time now | _ => True end.

(** Nothing is in flight in a packet that has got its status, and times do not overflow. *)
Record live (a : Side) : Prop := {
  lv_coupled : Forall (λ i, oldest (packet_delivery_manager (peer a)) ≤ i) (flight (reliable_stream (peer a)));
  lv_timeout : sane_time (PacketDeliveryManager.m_packet_timeout (packet_delivery_manager (peer a)) * 1000000);
  lv_times : Forall (λ p, sane_time (time_dispatched p)) (m_in_flight_packets (packet_delivery_manager (peer a)));
  lv_metrics : wf NeptunMetricKey (metrics a);
}.

Lemma live_times a : live a → times_ok (packet_delivery_manager (peer a)).
Proof.
  intros [_ Ht Hq _]. unfold sane_time in *. split; [unfold in_i64; lia|].
  eapply Forall_impl; [exact Hq|]. unfold in_i64. simpl. lia.
Qed.

Lemma write_packet_frame p buffer now p' buffer' sizes :
  write_packet p buffer now = Ok (p', buffer', sizes) →
  m_in_flight_packets (packet_delivery_manager p') = m_in_flight_packets (packet_delivery_manager p)
    ++ [mkInFlightPacket (m_next_outgoing_packet_id (packet_delivery_manager p)) now] ∧
  PacketDeliveryManager.m_packet_timeout (packet_delivery_manager p')
  = PacketDeliveryManager.m_packet_timeout (packet_delivery_manager p).
Proof.
  unfold write_packet. intros H. apply Prelude.bind_Ok in H as ([[m b] n] & Hw & H).
  apply PacketDeliveryManager.pdm_write_frame in Hw as (Hq & _ & Ht). inv_result. done.
Qed.

Section Total.
Context `{Platform} (cfg : ConnectionManagerConfig) (a b : Side) (ha hb : half) (budget : Z).
Context (Hch : channel a b ha hb (budget + 1)) (Hbudget : 0 ≤ budget) (Hlive : live a).

Lemma send_total f :
  WriterOk f → ∃ a', act cfg a (payloads b) (Send f) = Ok a' ∧ live a' ∧
    packet_delivery_manager (peer a') = packet_delivery_manager (peer a).
Proof using Hch Hbudget Hlive.
  intros Hf. destruct Hch as [(r & first & leak & Hs) _ _ _ _], Hlive.
  destruct (ReliableStream.rs_send_Ok _ first f (st_inv _ _ _ _ _ _ _ (sn_stream _ _ _ _ _ _ _ _ _ Hs)) Hf)
    as (space & s' & Hsp & Hsend & _ & _ & _ & _ & Hids & _).
  eexists. cbn [act]. rewrite Hsp, Hsend. cbn [mbind result_bind]. split; [done|]. split; [|done].
  split; try done. cbn. unfold flight in *. by rewrite Hids.
Qed.

Lemma send_unreliable_total f :
  WriterOk f → ∃ a', act cfg a (payloads b) (SendUnreliable f) = Ok a' ∧ live a' ∧
    packet_delivery_manager (peer a') = packet_delivery_manager (peer a).
Proof using Hch Hlive.
  intros Hf. destruct Hch as [(r & first & leak & [_ _ _ _ _ Hu _ _ _]) _ _ _ _], Hlive.
  destruct (UnreliableStream.us_send_Ok _ _ f Hu Hf) as (u & Hs & _).
  eexists. cbn [act]. rewrite (FlipBuffer.remaining_Ok _ (UnreliableStream.inv_wf _ _ Hu)), Hs.
  cbn [mbind result_bind]. split; [done|]. by split.
Qed.

Lemma flush_total buffer now :
  12 ≤ len buffer ≤ 1793 → sane_time now →
  ∃ a', act cfg a (payloads b) (Flush buffer now) = Ok a' ∧ live a' ∧
    m_next_expected_packet_id (packet_delivery_manager (peer a'))
    = m_next_expected_packet_id (packet_delivery_manager (peer a)).
Proof using Hch Hbudget Hlive.
  intros Hbuf Hnow. destruct (channel_peer_ok a b ha hb budget Hch) as (r & first & leak & Hs & Hok).
  pose proof (ch_budget _ _ _ _ _ Hch) as Hb.
  destruct (write_packet_Ok _ _ _ _ _ buffer now Hok ltac:(lia)) as (p' & buffer' & n2 & n3 & n4 & k & leak' & Hw &
    _ & _ & _ & _ & _ & _ & Hk & Hok' & _);
    [left; rewrite (idle_num _ (sn_idle _ _ _ _ _ _ _ _ _ Hs)); lia|done|].
  eexists. cbn [act]. rewrite Hw. cbn [mbind result_bind]. split; [done|].
  split; [|by apply (po_next _ _ _ _ _ _ Hk)]. destruct Hlive as [Hc Ht Hq Hm].
  destruct (write_packet_frame _ _ _ _ _ _ Hw) as [Hq' Ht'].
  split; cbn; rewrite ?Hq', ?Ht'; try done.
  - rewrite (oldest_resolved _ _ _ (ok_pdm _ _ _ _ _ Hok')) by lia.
    rewrite (oldest_resolved _ _ _ (ok_pdm _ _ _ _ _ Hok)) in Hc by lia.
    unfold flight in *. rewrite Forall_fmap in *. eapply packet_coupled; [exact Hk| |exact Hc].
    apply (si_resolved _ _ _ (PacketDeliveryManager.inv_sent _ _ _ (ok_pdm _ _ _ _ _ Hok))).
  - apply Forall_app. split; [done|]. by apply Forall_singleton.
Qed.

(** Statuses of the next packets, however they come about. *)
Lemma statuses_total pdm q1 q2 sts metrics r first :
  PacketDeliveryManager.inv (packet_delivery_manager (peer a)) r (next_id ha) →
  m_in_flight_packets (packet_delivery_manager (peer a)) = q1 ++ q2 →
  m_in_flight_packets pdm = q2 →
  PacketDeliveryManager.inv pdm (r + len q1) (next_id ha) →
  sts.*1 = seqZ r (len q1) → len sts = len q1 →
  ReliableStream.inv (reliable_stream (peer a)) first → idle (connection_manager (peer a)) →
  PacketDeliveryManager.m_packet_timeout pdm
  = PacketDeliveryManager.m_packet_timeout (packet_delivery_manager (peer a)) →
  wf NeptunMetricKey metrics →
  ∃ p m, process_delivery_statuses (with_pdm (peer a) pdm) metrics sts = Ok (p, m) ∧
    packet_delivery_manager p = pdm ∧ live (with_peer a p m).
Proof using Hch Hbudget Hlive.
  intros Hpdm Hq Hq2 Hpdm' Hids Hlen Hrel Hidle Hto Hwf. destruct Hlive as [Hc Ht Htimes _].
  pose proof (ch_budget _ _ _ _ _ Hch) as Hb. rewrite (oldest_resolved _ _ _ Hpdm) in Hc by lia.
  unfold flight in Hc. rewrite Forall_fmap in Hc.
  destruct (statuses_Ok sts (with_pdm (peer a) pdm) metrics r first) as (c & s & m & k & -> & _ & _ & _ & Hc' & _ & _ & _ & _ & Hwf');
    try done; [by rewrite Hlen|by left; destruct Hidle|].
  eexists _, m. split; [done|]. split; [done|]. split; cbn.
  - rewrite (oldest_resolved _ _ _ Hpdm') by lia. unfold flight. rewrite Forall_fmap, <-Hlen. done.
  - by rewrite Hto.
  - rewrite Hq2. rewrite Hq in Htimes. by apply Forall_app in Htimes as [_ ?].
  - done.
Qed.

Lemma expire_total now :
  ∃ a', act cfg a (payloads b) (Expire now) = Ok a' ∧ live a' ∧
    m_next_expected_packet_id (packet_delivery_manager (peer a'))
    = m_next_expected_packet_id (packet_delivery_manager (peer a)).
Proof using Hch Hbudget Hlive.
  destruct (ch_sender_a _ _ _ _ _ Hch) as (r & first & leak & [_ _ _ Hpdm Hst _ Hidle _ _]).
  destruct (drop_old_packets_Ok _ now (live_times _ Hlive)) as (q1 & q2 & Hq & Hd & _).
  destruct (inv_pop _ _ _ _ _ Hpdm Hq) as [Hpdm' Hids].
  cbn [act]. unfold drop_peer. rewrite Hd. cbn [mbind result_bind].
  destruct (statuses_total (with_in_flight (packet_delivery_manager (peer a)) q2) q1 q2
    ((λ p, (id p, DROP)) <$> q1) (metrics a) r first) as (p & m & -> & Hp & Hl); try done.
  - by rewrite <-list_fmap_compose.
  - by rewrite length_fmap.
  - apply (st_inv _ _ _ _ _ _ _ Hst).
  - apply (lv_metrics _ Hlive).
  - cbn [mbind result_bind]. eexists. split; [done|]. split; [done|]. cbn. by rewrite Hp.
Qed.

Lemma receive_total (i : nat) rest :
  m_next_expected_packet_id (packet_delivery_manager (peer a)) ≤ h_base hb + Z.of_nat i →
  ∃ a', act cfg a (payloads b) (Receive i rest) = Ok a' ∧ live a' ∧
    m_next_expected_packet_id (packet_delivery_manager (peer a')) ≤ h_base hb + Z.of_nat (S i).
Proof using Hch Hbudget Hlive.
  intros Hfresh. cbn [act]. destruct (payloads b !! i) as [payload|] eqn:Hpl.
  2:{ exists a. split; [done|]. split; [done|lia]. }
  destruct (payload_packet a b ha hb budget Hch _ _ Hpl) as (k & Hi & -> & Hid & Hgood & Hrange).
  pose proof (bounds a b ha hb budget Hch Hbudget) as (Hna & Hnb & Hsa & Hsb & Hda & Hdb).
  pose proof Hch as [(r & first & leak & [_ _ _ Hpdm Hst _ Hidle _ _]) _ _ [_ Hx _ _ _ _] _].
  destruct (read_packet_honest cfg (peer a) (metrics a) r (next_id ha) (len (delivered a)) k rest
    (sent b) (h_accepted hb) Hpdm) as (q1 & q2 & pdm & Hq & Hpdm' & Hq2 & Hids & Hto & Hnext & Hread);
    [lia|done|lia|lia|lia|done|done|].
  rewrite (proj2 (Z.leb_le _ _)) in Hread by lia. destruct Hread as [_ ->].
  destruct (statuses_total pdm q1 q2 (statuses_of (pk_ack k) (pk_mask k) q1) (metrics a) r first)
    as (p1 & m1 & Hst1 & Hp1 & Hl); try done.
  { by rewrite fst_statuses_of. }
  { unfold statuses_of. by rewrite length_fmap. }
  { apply (st_inv _ _ _ _ _ _ _ Hst). }
  { apply (lv_metrics _ Hlive). }
  destruct Hgood as [_ Hacks _ _ Hstart Hrel Hcount Hok Huok Hsize].
  pose proof Hst1 as Hst2. eapply stream_statuses in Hst2 as (s & first' & -> & Hst' & He); [|exact Hst|exact Hidle|].
  2:{ intros x (y & [= -> Hy] & _)%list_elem_of_fmap. by apply Hacks. }
  destruct (read_segments_honest cfg _ _ _ _ _ (len (delivered a)) k (beyond rest) Hst1 Hidle) as (rate & got & -> & _);
    try done; [by rewrite with_reliable_stream, He| | |].
  { unfold packet_bytes in Hsize. unfold body. list_lia. }
  { apply prefix_length in Hrel. split; list_lia. }
  cbn [mbind result_bind]. eexists. split; [done|].
  destruct (reliable_stream_update_send_rate (with_reliable (with_pdm (peer a) pdm) s) rate) as (E1 & _).
  split; [|cbn; rewrite E1; cbn; lia]. destruct Hl. split; cbn in *; rewrite ?E1; done.
Qed.
End Total.

(** No packet of one side overtakes another or comes twice: [nl] and [nr] are the
    first packets the left and the right side have not been offered yet. *)
Fixpoint in_order (nl nr : nat) (xs : list (bool * action)) : Prop :=
  match xs with
  | [] => True
  | (true, Receive i _) :: xs => (nl ≤ i)%nat ∧ in_order (S i) nr xs
  | (false, Receive i _) :: xs => (nr ≤ i)%nat ∧ in_order nl (S i) xs
  | _ :: xs => in_order nl nr xs
  end.

(** What the side has accepted comes before packet [n] of the other. *)
Definition expects (a : Side) (hb : half) (n : nat) : Prop :=
  m_next_expected_packet_id (packet_delivery_manager (peer a)) ≤ h_base hb + Z.of_nat n.

Definition next_index (n : nat) (x : action) : nat := match x with Receive i _ => S i | _ => n end.

Lemma act_total `{Platform} cfg a b ha hb budget x n :
  channel a b ha hb (budget + 1) → 0 ≤ budget → live a → action_ok x → time_ok x → expects a hb n →
  match x with Receive i _ => (n ≤ i)%nat | _ => True end →
  ∃ a', act cfg a (payloads b) x = Ok a' ∧ live a' ∧ expects a' hb (next_index n x).
Proof.
  intros Hch Hb Hl Hok Ht Hn Hi. unfold expects in *. destruct x as [f|f|buffer now|i rest|now]; cbn [next_index].
  - destruct (send_total cfg a b ha hb budget Hch Hb Hl f Hok) as (a' & H1 & H2 & H3). exists a'. by rewrite H3.
  - destruct (send_unreliable_total cfg a b ha hb budget Hch Hl f Hok) as (a' & H1 & H2 & H3). exists a'. by rewrite H3.
  - destruct (flush_total cfg a b ha hb budget Hch Hb Hl buffer now Hok Ht) as (a' & H1 & H2 & H3). exists a'. by rewrite H3.
  - destruct (receive_total cfg a b ha hb budget Hch Hb Hl i rest ltac:(lia)) as (a' & H1 & H2 & H3). by exists a'.
  - destruct (expire_total cfg a b ha hb budget Hch Hb Hl now) as (a' & H1 & H2 & H3). exists a'. by rewrite H3.
Qed.

Lemma in_order_cons side x xs nl nr :
  in_order nl nr ((side, x) :: xs) →
  match x with Receive i _ => ((if side then nl else nr) ≤ i)%nat | _ => True end ∧
  in_order (if side then next_index nl x else nl) (if side then nr else next_index nr x) xs.
Proof. by destruct side, x. Qed.

Lemma run_total `{Platform} cfgl cfgr xs : ∀ l r hl hr budget nl nr,
  channel l r hl hr (budget + len xs) → 0 ≤ budget → live l → live r → expects l hr nl → expects r hl nr →
  Forall (λ x, action_ok x.2) xs → Forall (λ x, time_ok x.2) xs → in_order nl nr xs →
  ∃ l' r', run cfgl cfgr l r xs = Ok (l', r') ∧ live l' ∧ live r'.
Proof.
  induction xs as [|[side x] xs IH]; intros l r hl hr budget nl nr Hch Hb Hl Hr Hel Her Hok Ht Hio; cbn [run].
  { by exists l, r. }
  apply Forall_cons in Hok as [Hx Hok]. apply Forall_cons in Ht as [Htx Ht]. cbn in Hx, Htx.
  apply in_order_cons in Hio as [Hi Hio].
  replace (budget + len ((side, x) :: xs)) with (budget + len xs + 1) in Hch by (simpl; lia).
  destruct side; [|apply channel_sym in Hch].
  - destruct (act_total cfgl l r hl hr _ x nl Hch ltac:(lia) Hl Hx Htx Hel Hi) as (l' & Hact & Hl' & Hel').
    destruct (act_channel _ _ _ _ _ _ _ _ Hch ltac:(lia) Hx Hact) as (hl' & Hbase & Hch').
    rewrite Hact. cbn [mbind result_bind].
    eapply (IH _ _ _ _ budget); try done. unfold expects. by rewrite Hbase.
  - destruct (act_total cfgr r l hr hl _ x nr Hch ltac:(lia) Hr Hx Htx Her Hi) as (r' & Hact & Hr' & Her').
    destruct (act_channel _ _ _ _ _ _ _ _ Hch ltac:(lia) Hx Hact) as (hr' & Hbase & Hch').
    rewrite Hact. cbn [mbind result_bind]. apply channel_sym in Hch'.
    eapply (IH _ _ _ _ budget); try done. unfold expects. by rewrite Hbase.
Qed.

Lemma live_start p q m :
  established p q → m_next_outgoing_packet_id (packet_delivery_manager p) < 2 ^ 32 →
  sane_time (PacketDeliveryManager.m_packet_timeout (packet_delivery_manager p) * 1000000) →
  Forall (λ x, sane_time (time_dispatched x)) (m_in_flight_packets (packet_delivery_manager p)) →
  wf NeptunMetricKey m → live (start p m).
Proof. intros [_ _ _ Hr _] _ Ht Hq Hm. split; cbn; try done. by rewrite Hr. Qed.

(** ** Properties *)

(** C1: reliable messages arrive exactly once and in order. Two connected endpoints
    send, write packets, read packets and expire packets in any order, and the
    network loses, duplicates, delays and reorders packets as it likes: when no
    call has failed, each side has been given a prefix of what the other has sent,
    every message it has not been given is still held by the sender, and the
    unreliable messages it has been given are some of those sent, each at most once
    and in the order of their sending. *)
Theorem exactly_once_delivery `{Platform} cfgl cfgr p q mp mq xs l r :
  established p q → established q p →
  m_next_outgoing_packet_id (packet_delivery_manager p) + len xs < 2 ^ 32 →
  m_next_outgoing_packet_id (packet_delivery_manager q) + len xs < 2 ^ 32 →
  Forall (λ x, action_ok x.2) xs →
  run cfgl cfgr (start p mp) (start q mq) xs = Ok (l, r) →
  exactly_once l r ∧ exactly_once r l ∧
  unreliable_delivered r `sublist_of` unreliable_sent l ∧
  unreliable_delivered l `sublist_of` unreliable_sent r.
Proof.
  intros Hp Hq Hbp Hbq Hok Hrun.
  assert (0 ≤ m_next_outgoing_packet_id (packet_delivery_manager p)) as Hpos.
  { destruct Hp as [[x Hinv] _ _ _ _]. pose proof (si_resolved _ _ _ (PacketDeliveryManager.inv_sent _ _ _ Hinv)). lia. }
  assert (channel (start p mp) (start q mq) (half_of p) (half_of q) (0 + len xs)) as Hch
    by (apply channel_start; (done || lia)).
  destruct (run_channel cfgl cfgr xs _ _ _ _ 0 _ _ Hch ltac:(lia) Hok Hrun) as (hl & hr & Hch').
  split; [by eapply channel_exactly_once|]. split; [by eapply channel_exactly_once, channel_sym|].
  split; [by eapply channel_unreliable|by eapply channel_unreliable, channel_sym].
Qed.

(** C5: a network that loses packets but neither reorders nor duplicates them cannot
    make an endpoint fail: every run of sending, writing, reading and expiring
    returns, and so delivers exactly once. *)
Theorem in_order_network_total `{Platform} cfgl cfgr p q mp mq xs :
  established p q → established q p →
  m_next_outgoing_packet_id (packet_delivery_manager p) + len xs < 2 ^ 32 →
  m_next_outgoing_packet_id (packet_delivery_manager q) + len xs < 2 ^ 32 →
  live (start p mp) → live (start q mq) →
  Forall (λ x, action_ok x.2) xs → Forall (λ x, time_ok x.2) xs → in_order 0 0 xs →
  ∃ l r, run cfgl cfgr (start p mp) (start q mq) xs = Ok (l, r) ∧ exactly_once l r ∧ exactly_once r l.
Proof.
  intros Hp Hq Hbp Hbq Hlp Hlq Hok Ht Hio.
  assert (0 ≤ m_next_outgoing_packet_id (packet_delivery_manager p)) as Hpos.
  { destruct Hp as [[x Hinv] _ _ _ _]. pose proof (si_resolved _ _ _ (PacketDeliveryManager.inv_sent _ _ _ Hinv)). lia. }
  assert (channel (start p mp) (start q mq) (half_of p) (half_of q) (0 + len xs)) as Hch
    by (apply channel_start; (done || lia)).
  destruct (run_total cfgl cfgr xs _ _ _ _ 0 0 0 Hch ltac:(lia) Hlp Hlq) as (l & r & Hrun & _); try done.
  { unfold expects. cbn. rewrite Z.add_0_r. apply Hq. }
  { unfold expects. cbn. rewrite Z.add_0_r. apply Hp. }
  destruct (run_channel cfgl cfgr xs _ _ _ _ 0 _ _ Hch ltac:(lia) Hok Hrun) as (hl & hr & Hch').
  exists l, r. split; [done|]. split; [by eapply channel_exactly_once|by eapply channel_exactly_once, channel_sym].
Qed.

(** The peers of the handshake are established. *)
Lemma client_established : established server_at_client client_at_server.
Proof.
  split; try done. exists 2. split; [split; done|done|constructor|constructor].
Qed.

Lemma server_established : established client_at_server server_at_client.
Proof.
  split; try done. exists 2. split; [split; done|done|constructor|constructor].
Qed.

(** The client's first packet is lost and its second comes twice, the server's
    acknowledgement reaches the client after that. *)
Definition lossy_actions : list (bool * action) :=
  [(true, Send (write_message [1; 2; 3])); (true, Flush (replicate 60 0) 7);
   (true, Send (write_message [4])); (true, SendUnreliable (write_message [9])); (true, Flush (replicate 60 0) 8);
   (false, Receive 1 []); (false, Receive 1 []); (false, Send (write_message [5; 6])); (false, Flush (replicate 60 0) 9);
   (true, Receive 0 [7]); (true, Flush (replicate 60 0) 10); (false, Receive 2 [])].

Lemma lossy_ok : Forall (λ x, action_ok x.2) lossy_actions.
Proof.
  unfold lossy_actions. repeat (apply Forall_cons; split); cbn [action_ok snd];
    first [apply write_message_ok | apply Forall_nil_2 | exact I | split; vm_compute; discriminate].
Qed.

Definition no_metrics : Metrics := Metrics.create NeptunMetricKey "Neptun metrics".

Lemma exactly_once_delivery_witness :
  ∃ l r, @run standard config config (start server_at_client no_metrics) (start client_at_server no_metrics) lossy_actions = Ok (l, r) ∧
    delivered r = [[1; 2; 3]; [4]] ∧ delivered l = [[5; 6]] ∧ unreliable_delivered r = [[9]] ∧
    exactly_once l r ∧ exactly_once r l ∧
    unreliable_delivered r `sublist_of` unreliable_sent l ∧
    unreliable_delivered l `sublist_of` unreliable_sent r.
Proof.
  destruct (@run standard config config (start server_at_client no_metrics) (start client_at_server no_metrics) lossy_actions)
    as [[l r]|] eqn:Hrun; [|by vm_compute in Hrun].
  exists l, r. split; [done|].
  split; [vm_compute in Hrun; by injection Hrun as <- <-|]. split; [vm_compute in Hrun; by injection Hrun as <- <-|].
  split; [vm_compute in Hrun; by injection Hrun as <- <-|].
  apply (@exactly_once_delivery standard config config server_at_client client_at_server no_metrics no_metrics
    lossy_actions l r client_established server_established); [done|done|exact lossy_ok|exact Hrun].
Defined.

Lemma client_live : live (start server_at_client no_metrics).
Proof. apply (live_start _ _ _ client_established); [done|done|by repeat constructor|done]. Qed.

Lemma server_live : live (start client_at_server no_metrics).
Proof. apply (live_start _ _ _ server_established); [done|done|by repeat constructor|done]. Qed.

(** The same without the packet that comes twice. *)
Definition in_order_actions : list (bool * action) := take 6 lossy_actions ++ drop 7 lossy_actions.

Lemma in_order_network_total_witness :
  ∃ l r, @run standard config config (start server_at_client no_metrics) (start client_at_server no_metrics) in_order_actions = Ok (l, r) ∧
    exactly_once l r ∧ exactly_once r l.
Proof.
  apply (@in_order_network_total standard config config server_at_client client_at_server no_metrics no_metrics
    in_order_actions client_established server_established); [done|done| | | | |].
  - exact client_live.
  - exact server_live.
  - pose proof lossy_ok as Hok. unfold in_order_actions. apply Forall_app. split; [by apply Forall_take|by apply Forall_drop].
  - by repeat constructor.
  - cbn. lia.
Defined.
