(* ===== verification/Progress.v ===== *)
(** * Progress: what is sent is delivered once the network lets packets through

    [Channel] says that nothing is delivered twice or out of order; here it is
    that everything is delivered. A turn is a packet from left to right and one
    back, both read. After enough turns the right side has got whatever the
    left side had sent, however the network behaved before. *)
From Stdlib Require Import ZArith Lia Sorted.
From stdpp Require Import prelude strings.
From S2P Require Import Prelude Span IoBuffer FlipBuffer Messages ReliableStream PacketDeliveryManager ConnectionManager UnreliableStream Ticker Metrics IpAddress OrderedMap Network Neptun Scenarios Channel.
Open Scope Z_scope.

(** The spans and times of a turn, and what lies behind the packets in the buffers they are read from. *)
Record turn := mkTurn {
  left_buffer : bytes; left_now : Z; left_behind : bytes;
  right_buffer : bytes; right_now : Z; right_behind : bytes;
}.

Definition turn_ok (t : turn) : Prop :=
  12 ≤ len (left_buffer t) ≤ 1793 ∧ sane_time (left_now t) ∧
  12 ≤ len (right_buffer t) ≤ 1793 ∧ sane_time (right_now t).

(** The left side's packet is its [nl]-th, the right side's its [nr]-th. *)
Definition turn_actions (nl nr : nat) (t : turn) : list (bool * action) :=
  [(true, Flush (left_buffer t) (left_now t)); (false, Receive nl (left_behind t));
   (false, Flush (right_buffer t) (right_now t)); (true, Receive nr (right_behind t))].

Fixpoint turns (nl nr : nat) (ts : list turn) : list (bool * action) :=
  match ts with
  | [] => []
  | t :: ts => turn_actions nl nr t ++ turns (S nl) (S nr) ts
  end.

(** The message fits into the left side's packet of the turn. *)
Definition fits (t : turn) (x : bytes) : Prop :=
  PacketHeader.kSerializedSize + Segment.kSerializedSize + ReliableMessage.serialized_size (len x) ≤ len (left_buffer t).

(** ** What an action leaves alone *)

Lemma read_segments_frame `{Platform} cfg p m sts buffer tail p' m' rel unrel :
  read_segments cfg p m sts buffer tail = Ok (p', m', rel, unrel) →
  ∃ p1 m1 x, process_delivery_statuses p m sts = Ok (p1, m1) ∧
    packet_delivery_manager p' = packet_delivery_manager p1 ∧
    reliable_stream p' = ReliableStream.with_expected (reliable_stream p1) x.
Proof.
  unfold read_segments. intros Hr. apply Prelude.bind_Ok in Hr as ([p1 m1] & Hs & Hr). exists p1, m1.
  assert (∀ s, s = ReliableStream.with_expected s (m_next_expected_sequence_number s)) as Hsame by (by intros []).
  apply Prelude.bind_Ok in Hr as ([c r] & _ & Hr).
  destruct r; [|inv_result; eexists; split; [done|by split; [|apply Hsame]]].
  apply Prelude.bind_Ok in Hr as (b1 & _ & Hr).
  destruct (peer_limit c) as [l|]; [|inv_result; eexists; split; [done|by split; [|apply Hsame]]].
  set (rate := negotiated_rate _ _) in *.
  destruct (reliable_stream_update_send_rate (with_cm p1 c) rate) as (E1 & _ & E3 & _).
  apply Prelude.bind_Ok in Hr as ([[s got] r] & Hread & Hr). rewrite E3 in Hread.
  assert (∃ x, s = ReliableStream.with_expected (reliable_stream p1) x) as [x Hx].
  { unfold ReliableStream.read in Hread. destruct (len b1 <? _); [inv_result; by eexists; apply Hsame|].
    apply Prelude.bind_Ok in Hread as (t & _ & Hread). destruct (negb _); [inv_result; by eexists; apply Hsame|].
    apply Prelude.bind_Ok in Hread as (count & _ & Hread). apply Prelude.bind_Ok in Hread as ([[seq d] r'] & _ & [= <- _ _]).
    by exists seq. }
  exists x. split; [done|].
  assert (packet_delivery_manager p' = packet_delivery_manager (with_reliable (update_send_rate (with_cm p1 c) rate) s) ∧
          reliable_stream p' = s) as [-> ->]; [|split; [exact E1|done]].
  destruct r; [|by inv_result]. apply Prelude.bind_Ok in Hr as (b2 & _ & Hr).
  apply Prelude.bind_Ok in Hr as ([ugot r] & _ & Hr). destruct r; [|by inv_result].
  by apply Prelude.bind_Ok in Hr as (b3 & _ & [= <- <- <- <-]).
Qed.

Lemma process_statuses_pdm `{Platform} sts : ∀ p m p' m',
  process_delivery_statuses p m sts = Ok (p', m') → packet_delivery_manager p' = packet_delivery_manager p.
Proof.
  induction sts as [|[i st] sts IH]; intros p m p' m' Hs; cbn [process_delivery_statuses] in Hs; [by inv_result|].
  apply Prelude.bind_Ok in Hs as ([p1 m1] & H1 & Hs). unfold process_delivery_status in H1. inv_result.
  by rewrite (IH _ _ _ _ Hs).
Qed.

Lemma act_sent `{Platform} cfg a other i rest a' :
  act cfg a other (Receive i rest) = Ok a' → sent a' = sent a ∧ payloads a' = payloads a.
Proof. cbn [act]. intros Ha. destruct (other !! i); by inv_result. Qed.

Lemma flush_payloads `{Platform} cfg a other buffer now a' :
  act cfg a other (Flush buffer now) = Ok a' →
  length (payloads a') = S (length (payloads a)) ∧
  m_in_flight_packets (packet_delivery_manager (peer a')) = m_in_flight_packets (packet_delivery_manager (peer a))
    ++ [mkInFlightPacket (m_next_outgoing_packet_id (packet_delivery_manager (peer a))) now].
Proof.
  cbn [act]. intros Ha. apply Prelude.bind_Ok in Ha as ([[p b] [[[n1 n2] n3] n4]] & Hw & [= <-]).
  destruct (write_packet_frame _ _ _ _ _ _ Hw) as [Hq _]. split; [cbn; rewrite length_app; simpl; lia|done].
Qed.

(** The last flush was received: its packets are those of the other side. *)
Lemma length_packets a b ha hb budget :
  channel a b ha hb budget → length (h_packets ha) = length (payloads a).
Proof. intros [(? & ? & ? & [Hp _ _ _ _ _ _ _ _]) _ _ _ _]. by rewrite Hp, length_fmap. Qed.

(** ** Reading an acknowledgement *)

Section Receive.
Context `{Platform} (cfg : ConnectionManagerConfig) (a b : Side) (ha hb : half) (budget : Z).
Context (Hch : channel a b ha hb (budget + 1)) (Hbudget : 0 ≤ budget).

(** What the packet's acknowledgements do: the packets [q1] get their statuses, the
    rest [q2] is newer than everything acknowledged. *)
Record acknowledged (a' : Side) (k : packet) (q1 q2 : list InFlightPacket) : Prop := {
  ak_split : m_in_flight_packets (packet_delivery_manager (peer a)) = q1 ++ q2;
  ak_left : m_in_flight_packets (packet_delivery_manager (peer a')) = q2;
  ak_newer n : (∀ i, status_of (pk_ack k) (pk_mask k) i = ACK ↔ i ∈ [n]) → in_u 32 n → Forall (λ p, n < id p) q2;
  ak_pending : m_pending_acks (packet_delivery_manager (peer a'))
               = m_pending_acks (packet_delivery_manager (peer a)) ++ [pk_id k];
  ak_statuses : ∃ pdm p1 m1 x, process_delivery_statuses (with_pdm (peer a) pdm) (metrics a)
                    (statuses_of (pk_ack k) (pk_mask k) q1) = Ok (p1, m1) ∧
                  reliable_stream (peer a') = ReliableStream.with_expected (reliable_stream p1) x;
}.

Lemma receive_acknowledged (i : nat) rest a' k :
  act cfg a (payloads b) (Receive i rest) = Ok a' → h_packets hb !! i = Some k →
  m_next_expected_packet_id (packet_delivery_manager (peer a)) ≤ pk_id k →
  ∃ q1 q2, acknowledged a' k q1 q2.
Proof using Hch Hbudget.
  intros Ha Hk Hfresh. pose proof Hch as [(r & first & leak & [_ _ _ Hpdm _ _ _ _ _]) (rb & fb & lb & [Hpb Hids _ _ _ _ _ _ _]) _ _ _].
  assert (payloads b !! i = Some (packet_bytes k)) as Hpl by (by rewrite Hpb, list_lookup_fmap, Hk).
  destruct (payload_packet a b ha hb budget Hch _ _ Hpl) as (k' & Hk' & _ & Hid & [Hhs _ Ha32 Hm32 _ _ _ _ _ Hsize] & Hrange).
  rewrite Hk in Hk'. injection Hk' as <-. destruct (bounds a b ha hb budget Hch Hbudget) as (Hna & Hnb & _).
  cbn [act] in Ha. rewrite Hpl in Ha. apply Prelude.bind_Ok in Ha as ([[[p m] rel] unrel] & Hread & [= <-]).
  unfold read_packet in Hread. apply Prelude.bind_Ok in Hread as ([pdm [[count sts] j]] & Hpr & Hread).
  set (hdr := PacketHeader.encode (pk_id k) (pk_ack k) (pk_mask k)).
  set (tail := body k ++ beyond rest).
  assert (packet_bytes k ++ beyond rest = hdr ++ tail) as Hb.
  { unfold packet_bytes, tail, body, hdr. by rewrite Hhs, <-!app_assoc. }
  rewrite Hb in Hpr.
  pose proof (PacketHeader.packet_header_length_encode (pk_id k) (pk_ack k) (pk_mask k)) as Hhdr. fold hdr in Hhdr.
  pose proof (PacketHeader.id_encode (pk_id k) (pk_ack k) (pk_mask k) tail) as Hi.
  pose proof (PacketHeader.ack_sequence_number_encode (pk_id k) (pk_ack k) (pk_mask k) tail) as Has.
  pose proof (PacketHeader.ack_bitmask_encode (pk_id k) (pk_ack k) (pk_mask k) tail) as Hm.
  fold hdr in Hi, Has, Hm. rewrite wrap_small in Hi, Has, Hm by (done || (unfold in_u; lia)).
  destruct (process_read_Ok _ r (next_id ha) (hdr ++ tail) Hpdm)
    as (hid & a0 & mask & q1 & q2 & pdm' & Hi' & Ha' & Hm' & Hq & Hpr' & _ & Hfl & _ & _ & _ & Hack);
    [lia|unfold PacketHeader.kSerializedSize; list_lia|rewrite Hi; intros [= ?]; lia|].
  rewrite Hi in Hi'. rewrite Has in Ha'. rewrite Hm in Hm'. injection Hi' as <-. injection Ha' as <-. injection Hm' as <-.
  rewrite (proj2 (Z.leb_le _ _) Hfresh) in Hpr', Hack. pose proof Hpr as Hpr2. rewrite Hpr' in Hpr2. injection Hpr2 as <- <- <- <-.
  change (PacketHeader.kSerializedSize =? 0) with false in Hread. cbv iota in Hread.
  apply Prelude.bind_Ok in Hread as (buf & _ & Hread).
  destruct (read_segments_frame _ _ _ _ _ _ _ _ _ _ Hread) as (p1 & m1 & x & Hst & Ep & Es).
  destruct (process_acks_Ok _ (pk_ack k) (pk_mask k) Ha32 Hm32 (sent_inv_range _ _ _ (PacketDeliveryManager.inv_sent _ _ _ Hpdm) ltac:(unfold next_id in Hna; lia)))
    as (r1 & r2 & Hr & Hacks & Hz & Hnz).
  assert (r2 = q2) as ->.
  { unfold process_read in Hpr'. rewrite Has, Hm, Hi in Hpr'. cbn [mbind result_bind] in Hpr'. rewrite Hacks in Hpr'.
    cbn [mbind result_bind] in Hpr'. apply Prelude.bind_Ok in Hpr' as ([m2 n] & Hh & [= <- _ _]).
    destruct (process_packet_header_frame _ _ _ _ Hh) as [Hfr _]. by rewrite Hfr in Hfl. }
  rewrite Hq in Hr. apply app_inv_tail in Hr as <-.
  pose proof (process_statuses_pdm _ _ _ _ _ Hst) as Ep1. cbn in Ep1.
  exists q1, q2. split; cbn; [done|by rewrite Ep, Ep1| |by rewrite Ep, Ep1, Hack|by exists pdm', p1, m1, x].
  intros n Hn Hin. assert (pk_mask k ≠ 0) as Hne.
  { intros E0. pose proof (proj2 (Hn n) (proj2 (list_elem_of_singleton n n) eq_refl)) as Hst0. by rewrite E0, status_zero_mask in Hst0. }
  destruct (highest_acked _ _ [n] Ha32 Hm32 Hne (proj2 (Forall_singleton _ _) Hin) Hn) as (Hwrap & _ & Hle).
  destruct (Hnz Hne) as [_ Hq2]. rewrite Hwrap in Hq2.
  pose proof (in_flight_sorted _ _ _ _ _ _ (PacketDeliveryManager.inv_sent _ _ _ Hpdm) Hq Hq2) as Hall.
  specialize (Hle n (proj2 (list_elem_of_singleton n n) eq_refl)). eapply Forall_impl; [exact Hall|]. simpl. lia.
Qed.
End Receive.

(** ** Statuses *)

(** Whatever the statuses of the packets [q1], messages only leave at the front. *)
Lemma statuses_outstanding `{Platform} a b ha hb budget q1 q2 a_mask mask pdm p1 m1 :
  channel a b ha hb budget → 0 ≤ budget → live a →
  m_in_flight_packets (packet_delivery_manager (peer a)) = q1 ++ q2 →
  process_delivery_statuses (with_pdm (peer a) pdm) (metrics a) (statuses_of a_mask mask q1) = Ok (p1, m1) →
  ∃ j, outstanding (reliable_stream p1) = drop j (outstanding (reliable_stream (peer a))).
Proof.
  intros Hch Hb [Hc _ _ Hm] Hq Hst. pose proof (ch_budget _ _ _ _ _ Hch) as Hbud.
  destruct (ch_sender_a _ _ _ _ _ Hch) as (r & first & leak & [_ _ _ Hpdm Hs _ Hidle _ _]).
  destruct (inv_pop _ _ _ _ _ Hpdm Hq) as [_ Hids]. unfold next_id in Hbud.
  rewrite (oldest_resolved _ _ _ Hpdm) in Hc by lia. unfold flight in Hc. rewrite Forall_fmap in Hc.
  destruct (statuses_Ok (statuses_of a_mask mask q1) (with_pdm (peer a) pdm) (metrics a) r first)
    as (c & s & m & k & Hst' & _ & Ho & _); try done.
  { rewrite fst_statuses_of. unfold statuses_of. by rewrite length_fmap. }
  { apply (st_inv _ _ _ _ _ _ _ Hs). }
  { left. apply Hidle. }
  rewrite Hst in Hst'. injection Hst' as -> _. by exists k.
Qed.

(** The acknowledgement of the packet that everything in flight is in. *)
Lemma ack_releases `{Platform} p m n p1 m1 first :
  ReliableStream.inv (reliable_stream p) first → in_flight_messages (reliable_stream p) ≠ [] →
  Forall (λ x, packet_id x = n) (in_flight_messages (reliable_stream p)) →
  process_delivery_statuses p m [(n, ACK)] = Ok (p1, m1) →
  ∃ j, (1 ≤ j)%nat ∧ outstanding (reliable_stream p1) = drop j (outstanding (reliable_stream p)).
Proof.
  intros Hinv Hne Hall Hst. cbn [process_delivery_statuses] in Hst.
  apply Prelude.bind_Ok in Hst as ([p2 m2] & Hst & [= <- <-]). unfold process_delivery_status in Hst.
  apply Prelude.bind_Ok in Hst as (c & _ & Hst). apply Prelude.bind_Ok in Hst as (s & Hs & Hst). inv_result.
  destruct (on_status_inv _ _ _ _ _ Hinv Hs) as (acked & _ & Ho & _ & Hgt & Hq & _). cbn.
  exists (length acked). split; [|done]. destruct acked as [|x acked]; [|simpl; lia]. cbn in Hq.
  rewrite <-Hq in Hgt. destruct (in_flight_messages (reliable_stream p)) as [|x q]; [done|].
  apply Forall_cons in Hall as [Hx _], Hgt as [Hx' _]. lia.
Qed.

(** Nothing is in flight when every packet has its status. *)
Lemma settled_flight a b ha hb budget :
  channel a b ha hb budget → 0 ≤ budget → live a →
  m_in_flight_packets (packet_delivery_manager (peer a)) = [] → in_flight_messages (reliable_stream (peer a)) = [].
Proof.
  intros Hch Hb [Hc _ _ _] Hq. pose proof (ch_budget _ _ _ _ _ Hch) as Hbud.
  destruct (ch_sender_a _ _ _ _ _ Hch) as (r & first & leak & [_ _ _ Hpdm Hs _ _ _ _]). unfold next_id in Hbud.
  destruct (PacketDeliveryManager.inv_sent _ _ _ Hpdm) as [Hr _ Hn]. rewrite wrap_small in Hn by (unfold in_u; lia).
  unfold oldest in Hc. rewrite Hq, Hn, Z.sub_0_r in Hc.
  pose proof (linked_behind _ _ _ _ (st_linked _ _ _ _ _ _ _ Hs)) as Hl. unfold flight in *.
  destruct (in_flight_messages _) as [|x q]; [done|].
  apply Forall_cons in Hc as [Hc _], Hl as [Hl _]. lia.
Qed.

(** Writing a packet only moves messages from pending to in flight. *)
Lemma packet_outstanding size p p' next first k :
  packet_of size p p' next first k → outstanding (reliable_stream p') = outstanding (reliable_stream p).
Proof.
  intros Hk. destruct (po_reliable _ _ _ _ _ _ Hk) as (taken & rest & Hp & Hs & _).
  rewrite Hs. unfold outstanding. by rewrite (messages_after_write _ _ _ _ Hp).
Qed.

(** A packet takes the first message when it fits. *)
Lemma first_taken size start ps all x :
  longest size start ps all → head all = Some x → Segment.kSerializedSize + ReliableMessage.serialized_size (len x) ≤ size →
  ps ≠ [].
Proof.
  intros Hl Hx Hfit ->. destruct all as [|y all]; [done|]. injection Hx as ->. unfold longest in Hl. cbn in Hl. lia.
Qed.

(** ** A turn *)

(** What a turn comes to, from [(l, r)] to [(l', r')]. *)
Record turned (t : turn) (l r l' r' : Side) : Prop := {
  tu_sent : sent l' = sent l;
  tu_payloads_left : length (payloads l') = S (length (payloads l));
  tu_payloads_right : length (payloads r') = S (length (payloads r));
  tu_live_left : live l';
  tu_live_right : live r';
  tu_acks : m_pending_acks (packet_delivery_manager (peer r')) = [];
  tu_settled : m_in_flight_packets (packet_delivery_manager (peer l')) = [];
  tu_progress : ∃ j, outstanding (reliable_stream (peer l')) = drop j (outstanding (reliable_stream (peer l))) ∧
    (m_in_flight_packets (packet_delivery_manager (peer l)) = [] →
     ∀ x, head (outstanding (reliable_stream (peer l))) = Some x → fits t x → (1 ≤ j)%nat);
}.

Section Turn.
Context `{Platform} (cfgl cfgr : ConnectionManagerConfig).

Lemma write_next cfg a b ha hb budget buffer now :
  channel a b ha hb (budget + 1) → 0 ≤ budget → live a → 12 ≤ len buffer ≤ 1793 → sane_time now →
  ∃ a' k first, act cfg a (payloads b) (Flush buffer now) = Ok a' ∧ live a' ∧
    channel a' b (mkHalf (h_base ha) (h_packets ha ++ [k]) (h_accepted ha)) hb budget ∧
    packet_of (len buffer) (peer a) (peer a') (next_id ha) first k ∧ sent a' = sent a ∧
    (pk_handshake k = [] ∧ m_next_outgoing_packet_id (packet_delivery_manager (peer a)) = next_id ha).
Proof.
  intros Hch Hb Hl Hbuf Hnow.
  destruct (flush_total cfg a b ha hb budget Hch Hb Hl buffer now Hbuf Hnow) as (a' & Hact & Hl' & _).
  destruct (act_flush cfg a b ha hb budget Hch Hb _ _ _ Hbuf Hact) as (k & first & Hch' & Hk & Hhs & Hs).
  exists a', k, first. split_and!; try done.
  destruct (ch_sender_a _ _ _ _ _ Hch) as (r & f & leak & [_ _ _ Hpdm _ _ _ _ _]). pose proof (ch_budget _ _ _ _ _ Hch).
  pose proof (PacketDeliveryManager.inv_sent _ _ _ Hpdm) as [Hr _ Hn].
  unfold next_id in *. by rewrite Hn, wrap_small by (unfold in_u; lia).
Qed.

(** A side reads the packet the other one has just written. *)
Lemma read_newest cfg a b ha hb k budget rest :
  channel a b ha (mkHalf (h_base hb) (h_packets hb ++ [k]) (h_accepted hb)) (budget + 1) → 0 ≤ budget → live a →
  pk_id k = next_id hb → m_next_expected_packet_id (packet_delivery_manager (peer a)) ≤ next_id hb →
  ∃ a' q1 q2 acc, act cfg a (payloads b) (Receive (length (h_packets hb)) rest) = Ok a' ∧ live a' ∧
    channel a' b (mkHalf (h_base ha) (h_packets ha) acc) (mkHalf (h_base hb) (h_packets hb ++ [k]) (h_accepted hb)) budget ∧
    acknowledged a a' k q1 q2 ∧ sent a' = sent a ∧ payloads a' = payloads a.
Proof.
  intros Hch Hb Hl Hid He. set (hb' := mkHalf _ _ _) in *.
  destruct (receive_total cfg a b ha hb' budget Hch Hb Hl (length (h_packets hb)) rest He) as (a' & Hact & Hl' & _).
  destruct (act_receive cfg a b ha hb' budget Hch Hb _ _ _ Hact) as (acc & Hch').
  destruct (receive_acknowledged cfg a b ha hb' budget Hch Hb _ _ _ k Hact) as (q1 & q2 & Hack);
    [by apply list_lookup_middle|lia|].
  destruct (act_sent _ _ _ _ _ _ Hact). by exists a', q1, q2, acc.
Qed.

(** The part of a turn that the progress of the left side rests on: its packet [k] out of
    [l], giving [l1], and its reading of the right side's packet [k2], which acknowledges [k]. *)
Lemma turn_outstanding l r l1 l' hl hr budget k k2 first q1 q2 t :
  channel l r hl hr (budget + 1) → 0 ≤ budget → live l → live l1 →
  channel l1 r (mkHalf (h_base hl) (h_packets hl ++ [k]) (h_accepted hl)) hr budget →
  packet_of (len (left_buffer t)) (peer l) (peer l1) (next_id hl) first k → pk_handshake k = [] →
  m_in_flight_packets (packet_delivery_manager (peer l1))
  = m_in_flight_packets (packet_delivery_manager (peer l)) ++ [mkInFlightPacket (next_id hl) (left_now t)] →
  acknowledged l1 l' k2 q1 q2 → (∀ i, status_of (pk_ack k2) (pk_mask k2) i = ACK ↔ i ∈ [next_id hl]) →
  q2 = [] ∧
  ∃ j, outstanding (reliable_stream (peer l')) = drop j (outstanding (reliable_stream (peer l))) ∧
    (m_in_flight_packets (packet_delivery_manager (peer l)) = [] →
     ∀ x, head (outstanding (reliable_stream (peer l))) = Some x → fits t x → (1 ≤ j)%nat).
Proof.
  intros Hch Hb Hl Hl1 Hch1 Hk Hhs Hq [Hsplit Hleft Hnewer Hpend (pdm & p1 & m1 & x & Hst & Hx)] Hack.
  pose proof (ch_budget _ _ _ _ _ Hch) as Hbud.
  assert (in_u 32 (next_id hl)) as Hin.
  { destruct (ch_sender_a _ _ _ _ _ Hch) as (r0 & f & leak & [_ _ _ Hpdm _ _ _ _ _]).
    destruct (PacketDeliveryManager.inv_sent _ _ _ Hpdm) as [Hr _ _]. unfold in_u, next_id in *. lia. }
  specialize (Hnewer _ Hack Hin).
  assert (q2 = []) as ->.
  { destruct q2 as [|y q2]; [done|]. apply Forall_cons in Hnewer as [Hy _].
    destruct (ch_sender_a _ _ _ _ _ Hch1) as (r0 & f & leak & [_ _ _ Hpdm _ _ _ _ _]).
    assert (id y ∈ (id <$> m_in_flight_packets (packet_delivery_manager (peer l1)))) as Hyin.
    { apply list_elem_of_fmap. exists y. split; [done|]. rewrite Hsplit. set_solver. }
    rewrite (si_ids _ _ _ (PacketDeliveryManager.inv_sent _ _ _ Hpdm)) in Hyin. apply elem_of_seqZ in Hyin.
    cbn in Hyin. rewrite length_app in Hyin. unfold next_id in Hy. simpl in Hyin. lia. }
  split; [done|].
  pose proof (packet_outstanding _ _ _ _ _ _ Hk) as Ho.
  destruct (po_reliable _ _ _ _ _ _ Hk) as (taken & rest & Hp & Hs & Hrel).
  rewrite Hx. change (outstanding (ReliableStream.with_expected ?s _)) with (outstanding s).
  destruct (decide (m_in_flight_packets (packet_delivery_manager (peer l)) = [])) as [Hnil|Hne].
  2:{ destruct (statuses_outstanding l1 r _ hr budget q1 [] _ _ pdm p1 m1 Hch1 Hb Hl1 Hsplit Hst) as [j Hj].
      exists j. rewrite Hj, Ho. done. }
  rewrite Hnil, app_nil_l in Hq. rewrite Hq, app_nil_r in Hsplit. subst q1.
  unfold statuses_of in Hst. cbn in Hst. rewrite (proj2 (Hack _)) in Hst by set_solver.
  pose proof (settled_flight l r hl hr (budget + 1) Hch ltac:(lia) Hl Hnil) as Hfl.
  destruct (ch_sender_a _ _ _ _ _ Hch1) as (r1 & f1 & leak1 & [_ _ _ _ Hst1 _ _ _ _]).
  destruct (decide (taken = [])) as [->|Htaken].
  - destruct (statuses_outstanding l1 r _ hr budget [mkInFlightPacket (next_id hl) (left_now t)] [] (pk_ack k2) (pk_mask k2)
      pdm p1 m1 Hch1 Hb Hl1) as [j Hj]; [by rewrite Hq| |].
    { unfold statuses_of. cbn. by rewrite (proj2 (Hack _)) by set_solver. }
    exists j. rewrite Hj, Ho. split; [done|]. intros _ y Hy Hfit. exfalso.
    pose proof (po_longest _ _ _ _ _ _ Hk) as Hlong. rewrite Hrel, Hhs in Hlong. unfold fits in Hfit.
    unfold PacketHeader.kSerializedSize in Hfit.
    apply (first_taken _ _ _ _ y) in Hlong; [done| |change (len []) with 0; lia].
    unfold outstanding, messages in Hy. by rewrite Hfl in Hy.
  - destruct (ack_releases (with_pdm (peer l1) pdm) (metrics l1) (next_id hl) p1 m1 f1) as (j & Hj1 & Hj); try done.
    + apply (st_inv _ _ _ _ _ _ _ Hst1).
    + cbn. rewrite Hs. cbn. rewrite Hfl. by destruct taken.
    + cbn. rewrite Hs. cbn. rewrite Hfl. by apply Forall_fmap, Forall_true.
    + exists j. rewrite Hj. cbn. by rewrite Ho.
Qed.

(** Every state with nothing left to acknowledge on the right side goes through a turn. *)
Lemma turn_runs l r hl hr budget t :
  channel l r hl hr (budget + 4) → 0 ≤ budget → live l → live r → turn_ok t →
  m_pending_acks (packet_delivery_manager (peer r)) = [] →
  ∃ l' r' hl' hr', run cfgl cfgr l r (turn_actions (length (payloads l)) (length (payloads r)) t) = Ok (l', r') ∧
    channel l' r' hl' hr' budget ∧ turned t l r l' r'.
Proof.
  intros Hch Hb Hl Hr (Hbl & Htl & Hbr & Htr) Hacks.
  replace (budget + 4) with ((budget + 3) + 1) in Hch by lia.
  pose proof (rc_next _ _ _ _ (ch_receiver_b _ _ _ _ _ Hch)) as Hnr.
  pose proof (rc_next _ _ _ _ (ch_receiver_a _ _ _ _ _ Hch)) as Hnl.
  rewrite <-(length_packets _ _ _ _ _ Hch), <-(length_packets _ _ _ _ _ (channel_sym _ _ _ _ _ Hch)).
  destruct (write_next cfgl l r hl hr (budget + 3) (left_buffer t) (left_now t) Hch ltac:(lia) Hl Hbl Htl)
    as (l1 & k & first & Ha1 & Hl1 & Hch1 & Hk & Hs1 & Hhs & Hout).
  destruct (flush_payloads _ _ _ _ _ _ Ha1) as [Hpl Hfl]. rewrite Hout in Hfl.
  replace (budget + 3) with ((budget + 2) + 1) in Hch1 by lia. pose proof (channel_sym _ _ _ _ _ Hch1) as Hch1s.
  destruct (read_newest cfgr r l1 hr hl k (budget + 2) (left_behind t) Hch1s ltac:(lia) Hr (po_id _ _ _ _ _ _ Hk) Hnr)
    as (r1 & p1 & p2 & acc1 & Ha2 & Hr1 & Hch2 & Hak1 & Hsr1 & Hpr1).
  replace (budget + 2) with ((budget + 1) + 1) in Hch2 by lia. set (hr1 := mkHalf _ _ acc1) in *.
  destruct (write_next cfgr r1 l1 hr1 _ (budget + 1) (right_buffer t) (right_now t) Hch2 ltac:(lia) Hr1 Hbr Htr)
    as (r2 & k2 & first2 & Ha3 & Hr2 & Hch3 & Hk2 & Hs3 & _).
  destruct (flush_payloads _ _ _ _ _ _ Ha3) as [Hpr2 _]. pose proof (channel_sym _ _ _ _ _ Hch3) as Hch3s.
  destruct (read_newest cfgl l1 r2 _ hr1 k2 budget (right_behind t) Hch3s Hb Hl1 (po_id _ _ _ _ _ _ Hk2))
    as (l2 & q1 & q2 & acc2 & Ha4 & Hl2 & Hch4 & Hak2 & Hsl2 & Hpl2).
  { rewrite (po_next _ _ _ _ _ _ Hk). exact Hnl. }
  destruct (po_acks _ _ _ _ _ _ Hk2) as (acked & Hacked & Hnz & Hstatus).
  rewrite (ak_pending _ _ _ _ _ Hak1), Hacks, (po_id _ _ _ _ _ _ Hk), app_nil_l in Hacked, Hnz.
  assert (acked = [next_id hl] ∧ m_pending_acks (packet_delivery_manager (peer r2)) = []) as [-> Hacks2].
  { destruct acked as [|x acked]; [by specialize (Hnz eq_refl)|]. injection Hacked as -> Hacked.
    symmetry in Hacked. by apply app_nil in Hacked as [-> ->]. }
  replace (budget + 3) with ((budget + 2) + 1) in Hch by lia.
  destruct (turn_outstanding l r l1 l2 hl hr (budget + 2) k k2 first q1 q2 t) as (-> & j & Ho & Hj); try done; try lia.
  { replace (budget + 2 + 1) with (budget + 3) by lia. destruct Hch as [? ? ? ? Hbud]. split; try done. lia. }
  { destruct Hch1 as [? ? ? ? Hbud]. split; try done. lia. }
  exists l2, r2. do 2 eexists. split; [|split; [exact Hch4|]].
  - unfold turn_actions. cbn [run]. rewrite Ha1. cbn [mbind result_bind]. rewrite Ha2. cbn [mbind result_bind].
    rewrite Ha3. cbn [mbind result_bind]. change (length (h_packets hr)) with (length (h_packets hr1)). by rewrite Ha4.
  - split; try done; try congruence; [by apply (ak_left _ _ _ _ _ Hak2)|by exists j].
Qed.

Lemma turns_run ts : ∀ l r hl hr budget,
  channel l r hl hr (budget + 4 * len ts) → 0 ≤ budget → live l → live r → Forall turn_ok ts →
  m_pending_acks (packet_delivery_manager (peer r)) = [] →
  (∀ t x, t ∈ ts → x ∈ outstanding (reliable_stream (peer l)) → fits t x) →
  ∃ l' r' hl' hr', run cfgl cfgr l r (turns (length (payloads l)) (length (payloads r)) ts) = Ok (l', r') ∧
    channel l' r' hl' hr' budget ∧ sent l' = sent l ∧
    let left_over s := length (outstanding (reliable_stream (peer s))) in
    (left_over l' ≤ left_over l - (length ts - 1))%nat ∧
    (m_in_flight_packets (packet_delivery_manager (peer l)) = [] → (left_over l' ≤ left_over l - length ts)%nat).
Proof.
  induction ts as [|t ts IH]; intros l r hl hr budget Hch Hb Hl Hr Hok Hacks Hfits; cbn [turns run].
  { exists l, r, hl, hr. rewrite Z.add_0_r in Hch. split_and!; try done; cbv zeta; simpl; lia. }
  apply Forall_cons in Hok as [Ht Hok].
  replace (budget + 4 * len (t :: ts)) with ((budget + 4 * len ts) + 4) in Hch by (simpl; lia).
  destruct (turn_runs l r hl hr _ t Hch ltac:(lia) Hl Hr Ht Hacks) as (l1 & r1 & hl1 & hr1 & Hrun & Hch1 & Hturn).
  destruct Hturn as [Es Epl Epr Hl1 Hr1 Hacks1 Hset (j & Ho & Hj)].
  destruct (IH l1 r1 hl1 hr1 budget Hch1 Hb Hl1 Hr1 Hok Hacks1) as (l' & r' & hl' & hr' & Hrun' & Hch' & Es' & _ & Hleft).
  { intros t' x Ht' Hx. apply Hfits; [set_solver|]. rewrite Ho in Hx. by eapply subseteq_drop. }
  exists l', r', hl', hr'. split; [rewrite (run_app _ _ _ _ _ _ _ _ Hrun), <-Epl, <-Epr; exact Hrun'|].
  split; [done|]. split; [congruence|]. cbv zeta. specialize (Hleft Hset). cbv zeta in Hleft.
  rewrite Ho, length_drop in Hleft. split; [simpl; lia|]. intros Hnil. specialize (Hj Hnil).
  destruct (outstanding (reliable_stream (peer l))) as [|x o] eqn:Eo; [simpl in *; lia|].
  specialize (Hj x eq_refl (Hfits t x ltac:(set_solver) ltac:(set_solver))). simpl in *. lia.
Qed.
End Turn.

(** ** Properties *)

(** C6: everything sent is delivered. Two connected endpoints have done whatever they
    did over a network that may have lost any of their packets, the right side owes no
    acknowledgement, and every message the left side has not had acknowledged fits into
    its packets (a longer one blocks the stream). From then on the network lets packets
    through: after one turn more than there are such messages, the right side has been
    given every message the left side sent, once and in order, and the left side holds
    none any more. *)
Theorem lossless_turns_deliver `{Platform} cfgl cfgr p q mp mq xs l r ts :
  established p q → established q p →
  m_next_outgoing_packet_id (packet_delivery_manager p) + len xs + 4 * len ts < 2 ^ 32 →
  m_next_outgoing_packet_id (packet_delivery_manager q) + len xs + 4 * len ts < 2 ^ 32 →
  live (start p mp) → live (start q mq) →
  Forall (λ x, action_ok x.2) xs → Forall (λ x, time_ok x.2) xs → in_order 0 0 xs →
  run cfgl cfgr (start p mp) (start q mq) xs = Ok (l, r) →
  m_pending_acks (packet_delivery_manager (peer r)) = [] → Forall turn_ok ts →
  (∀ t x, t ∈ ts → x ∈ outstanding (reliable_stream (peer l)) → fits t x) →
  (length (outstanding (reliable_stream (peer l))) < length ts)%nat →
  ∃ l' r', run cfgl cfgr l r (turns (length (payloads l)) (length (payloads r)) ts) = Ok (l', r') ∧
    delivered r' = sent l ∧ sent l' = sent l ∧ outstanding (reliable_stream (peer l')) = [].
Proof.
  intros Hp Hq Hbp Hbq Hlp Hlq Hok Ht Hio Hrun Hacks Hts Hfits Hlen.
  assert (0 ≤ m_next_outgoing_packet_id (packet_delivery_manager p)) as Hpos.
  { destruct Hp as [[x Hinv] _ _ _ _]. pose proof (si_resolved _ _ _ (PacketDeliveryManager.inv_sent _ _ _ Hinv)). lia. }
  assert (channel (start p mp) (start q mq) (half_of p) (half_of q) (4 * len ts + len xs)) as Hch
    by (apply channel_start; (done || lia)).
  destruct (run_total cfgl cfgr xs _ _ _ _ (4 * len ts) 0 0 Hch ltac:(lia) Hlp Hlq) as (l0 & r0 & Hrun0 & Hl & Hr); try done.
  { unfold expects. cbn. rewrite Z.add_0_r. apply Hq. }
  { unfold expects. cbn. rewrite Z.add_0_r. apply Hp. }
  rewrite Hrun in Hrun0. injection Hrun0 as <- <-.
  destruct (run_channel cfgl cfgr xs _ _ _ _ (4 * len ts) _ _ Hch ltac:(lia) Hok Hrun) as (hl & hr & Hch1).
  destruct (turns_run cfgl cfgr ts l r hl hr 0) as (l' & r' & hl' & hr' & Hrun' & Hch' & Es & Hleft & _); try done.
  cbv zeta in Hleft. assert (outstanding (reliable_stream (peer l')) = []) as Ho by (apply nil_length_inv; lia).
  exists l', r'. split; [done|]. split; [|done].
  destruct (channel_exactly_once _ _ _ _ _ Hch') as (held & kept & E1 & E2 & _). rewrite Ho in E2.
  symmetry in E2. apply app_nil in E2 as [_ ->]. by rewrite app_nil_r, Es in E1.
Qed.

(** The left side's first packet is lost, its second arrives, the acknowledgement is lost. *)
Definition lossy_start : list (bool * action) :=
  [(true, Send (write_message [1; 2; 3])); (true, Flush (replicate 60 0) 7); (true, Send (write_message [4]));
   (true, Flush (replicate 60 0) 8); (false, Receive 1 []); (false, Flush (replicate 60 0) 9); (true, Send (write_message [5]))].

Lemma lossy_start_ok : Forall (λ x, action_ok x.2) lossy_start.
Proof.
  unfold lossy_start. repeat (apply Forall_cons; split); cbn [action_ok snd];
    first [apply write_message_ok | apply Forall_nil_2 | exact I | split; vm_compute; discriminate].
Qed.

Lemma lossy_start_times : Forall (λ x, time_ok x.2) lossy_start.
Proof. by repeat constructor. Qed.

Lemma lossy_start_in_order : in_order 0 0 lossy_start.
Proof. cbn. lia. Qed.

Definition four_turns : list turn :=
  (λ now, mkTurn (replicate 60 0) now [] (replicate 60 0) now [7]) <$> [10; 20; 30; 40].

Lemma four_turns_ok : Forall turn_ok four_turns.
Proof. repeat (apply Forall_cons; split; [split_and!; vm_compute; (done || congruence)|]). by apply Forall_nil_2. Qed.

Lemma lossless_turns_deliver_witness :
  ∃ l r l' r', @run standard config config (start server_at_client no_metrics) (start client_at_server no_metrics) lossy_start = Ok (l, r) ∧
    delivered r = [] ∧ outstanding (reliable_stream (peer l)) = [[1; 2; 3]; [4]; [5]] ∧
    @run standard config config l r (turns (length (payloads l)) (length (payloads r)) four_turns) = Ok (l', r') ∧
    delivered r' = sent l ∧ sent l = [[1; 2; 3]; [4]; [5]] ∧ outstanding (reliable_stream (peer l')) = [].
Proof.
  destruct (@run standard config config (start server_at_client no_metrics) (start client_at_server no_metrics) lossy_start)
    as [[l r]|] eqn:Hrun; [|by vm_compute in Hrun].
  assert (delivered r = [] ∧ outstanding (reliable_stream (peer l)) = [[1; 2; 3]; [4]; [5]] ∧ sent l = [[1; 2; 3]; [4]; [5]] ∧
    m_pending_acks (packet_delivery_manager (peer r)) = []) as (Hd & Ho & Hs & Ha)
    by (vm_compute in Hrun; by injection Hrun as <- <-).
  destruct (@lossless_turns_deliver standard config config server_at_client client_at_server no_metrics no_metrics
    lossy_start l r four_turns client_established server_established) as (l' & r' & Hrun' & Hd' & _ & Ho').
  - vm_compute. reflexivity.
  - vm_compute. reflexivity.
  - exact client_live.
  - exact server_live.
  - exact lossy_start_ok.
  - exact lossy_start_times.
  - exact lossy_start_in_order.
  - exact Hrun.
  - exact Ha.
  - exact four_turns_ok.
  - rewrite Ho. intros t x Ht Hx. apply list_elem_of_fmap in Ht as (now & -> & _). unfold fits. cbn [left_buffer].
    assert (len x ≤ 3) by (rewrite !elem_of_cons, elem_of_nil in Hx; destruct Hx as [->|[->|[->|[]]]]; simpl; lia).
    unfold PacketHeader.kSerializedSize, Segment.kSerializedSize, ReliableMessage.serialized_size. rewrite length_replicate. lia.
  - rewrite Ho. simpl. lia.
  - exists l, r, l', r'. exact (conj eq_refl (conj Hd (conj Ho (conj Hrun' (conj Hd' (conj Hs Ho')))))).
Defined.
