(* ===== verification/System.v ===== *)
(** * System: endpoints that share a network

    Any number of endpoints of neptun/neptun.h, driven through the class's public
    calls in any order, over any network that does not forge or change datagrams
    (the class [Datagrams]; [FakeNetwork] is one). What two of them do to each other
    is a run of [Channel], so its guarantees hold for the calls of the class. *)
From Stdlib Require Import ZArith Lia Sorted.
From stdpp Require Import prelude strings.
From S2P Require Import Prelude Span IoBuffer FlipBuffer Messages ReliableStream PacketDeliveryManager ConnectionManager UnreliableStream Ticker Metrics IpAddress OrderedMap Network Neptun Datagrams Scenarios Channel.
Open Scope Z_scope.

(** ** Peers up to their ticker

    Only [write] looks at the ticker, to decide whether a packet is due. *)
Definition stack (p : Peer) :=
  (packet_delivery_manager p, Neptun.connection_manager p, reliable_stream p, unreliable_stream p).

#[export] Instance peer_equiv : Equiv Peer := λ p q, stack p = stack q.

#[export] Instance peer_equivalence : Equivalence (≡@{Peer}).
Proof. split; unfold equiv, peer_equiv; congruence. Qed.

Lemma equiv_ticker p q : p ≡ q → ∃ t, q = with_ticker p t.
Proof. destruct p, q. intros [= -> -> -> ->]. by eexists. Qed.

#[export] Instance with_pdm_proper : Proper ((≡) ==> (=) ==> (≡)) with_pdm.
Proof. by intros p q [t ->]%equiv_ticker m ? <-. Qed.
#[export] Instance with_cm_proper : Proper ((≡) ==> (=) ==> (≡)) with_cm.
Proof. by intros p q [t ->]%equiv_ticker m ? <-. Qed.
#[export] Instance with_reliable_proper : Proper ((≡) ==> (=) ==> (≡)) with_reliable.
Proof. by intros p q [t ->]%equiv_ticker m ? <-. Qed.
#[export] Instance with_unreliable_proper : Proper ((≡) ==> (=) ==> (≡)) with_unreliable.
Proof. by intros p q [t ->]%equiv_ticker m ? <-. Qed.

Lemma with_ticker_same p t : with_ticker p t ≡ p.
Proof. done. Qed.

Lemma update_send_rate_same p rate : update_send_rate p rate ≡ p.
Proof. unfold update_send_rate. by destruct (rate =? 0). Qed.

#[export] Instance update_send_rate_proper : Proper ((≡) ==> (=) ==> (≡)) update_send_rate.
Proof. intros p q Hpq r ? <-. by rewrite !update_send_rate_same. Qed.

(** The operations on a peer do not depend on the ticker; neither do they depend on
    the metrics, which all peers of an endpoint share. *)
Lemma statuses_equiv `{Platform} sts : ∀ p q m n p' m',
  process_delivery_statuses p m sts = Ok (p', m') → p ≡ q → wf NeptunMetricKey n →
  ∃ q' n', process_delivery_statuses q n sts = Ok (q', n') ∧ p' ≡ q' ∧ wf NeptunMetricKey n'.
Proof.
  induction sts as [|[i st] sts IH]; intros p q m n p' m' Hp Hpq Hn; cbn [process_delivery_statuses] in *.
  { injection Hp as <- <-. by exists q, n. }
  apply Prelude.bind_Ok in Hp as ([p1 m1] & H1 & Hp). unfold process_delivery_status in H1 |- *.
  pose proof Hpq as [t ->]%equiv_ticker.
  change (Neptun.connection_manager (with_ticker p t)) with (Neptun.connection_manager p).
  change (reliable_stream (with_ticker p t)) with (reliable_stream p).
  apply Prelude.bind_Ok in H1 as (c & -> & H1). cbn [mbind result_bind].
  apply Prelude.bind_Ok in H1 as (s & -> & H1). inv_result. cbn [mbind result_bind].
  destruct (inc_Ok n (match st with ACK => PACKET_ACKS | DROP => PACKET_DROPS end) Hn) as (n1 & -> & Hn1).
  cbn [mbind result_bind]. eapply IH; [exact Hp|done|done].
Qed.

Lemma drop_peer_equiv `{Platform} p q m n now p' m' :
  drop_peer p m now = Ok (p', m') → p ≡ q → wf NeptunMetricKey n →
  ∃ q' n', drop_peer q n now = Ok (q', n') ∧ p' ≡ q' ∧ wf NeptunMetricKey n'.
Proof.
  unfold drop_peer. intros Hp Hpq Hn. pose proof Hpq as [t ->]%equiv_ticker.
  apply Prelude.bind_Ok in Hp as ([pdm sts] & Hd & Hp).
  change (packet_delivery_manager (with_ticker p t)) with (packet_delivery_manager p). rewrite Hd.
  cbn [mbind result_bind]. eapply statuses_equiv; [exact Hp|done|done].
Qed.

Lemma read_segments_equiv `{Platform} cfg p q m n sts buffer tail p' m' rel unrel :
  read_segments cfg p m sts buffer tail = Ok (p', m', rel, unrel) → p ≡ q → wf NeptunMetricKey n →
  ∃ q' n', read_segments cfg q n sts buffer tail = Ok (q', n', rel, unrel) ∧ p' ≡ q' ∧ wf NeptunMetricKey n'.
Proof.
  unfold read_segments. intros Hr Hpq Hn. apply Prelude.bind_Ok in Hr as ([p1 m1] & Hs & Hr).
  destruct (statuses_equiv _ _ _ _ _ _ _ Hs Hpq Hn) as (q1 & n1 & -> & H1 & Hn1). cbn [mbind result_bind].
  pose proof H1 as [t ->]%equiv_ticker.
  change (Neptun.connection_manager (with_ticker p1 t)) with (Neptun.connection_manager p1).
  apply Prelude.bind_Ok in Hr as ([c r] & -> & Hr). cbn [mbind result_bind].
  assert (with_cm p1 c ≡ with_cm (with_ticker p1 t) c) as H2 by done.
  destruct r as [count|e]; [|inv_result; by do 2 eexists].
  apply Prelude.bind_Ok in Hr as (b1 & -> & Hr). cbn [mbind result_bind].
  destruct (peer_limit c) as [l|]; [|inv_result; by do 2 eexists].
  set (rate := negotiated_rate _ _) in *.
  destruct (reliable_stream_update_send_rate (with_cm p1 c) rate) as (_ & _ & E1 & _).
  destruct (reliable_stream_update_send_rate (with_cm (with_ticker p1 t) c) rate) as (_ & _ & E2 & _).
  rewrite E1 in Hr. rewrite E2.
  apply Prelude.bind_Ok in Hr as ([[s got] r] & Hread & Hr).
  change (reliable_stream (with_cm (with_ticker p1 t) c)) with (reliable_stream (with_cm p1 c)). rewrite Hread.
  cbn [mbind result_bind].
  assert (with_reliable (update_send_rate (with_cm p1 c) rate) s
          ≡ with_reliable (update_send_rate (with_cm (with_ticker p1 t) c) rate) s) as H3 by (by do 2 f_equiv).
  destruct r as [count2|e]; [|inv_result; by do 2 eexists].
  apply Prelude.bind_Ok in Hr as (b2 & -> & Hr). cbn [mbind result_bind].
  apply Prelude.bind_Ok in Hr as ([ugot r] & -> & Hr). cbn [mbind result_bind].
  destruct r as [count3|e]; [|inv_result; by do 2 eexists].
  apply Prelude.bind_Ok in Hr as (b3 & -> & Hr). inv_result. by do 2 eexists.
Qed.

Lemma read_packet_equiv `{Platform} cfg p q m n buffer rest p' m' rel unrel :
  read_packet cfg p m buffer rest = Ok (p', m', rel, unrel) → p ≡ q → wf NeptunMetricKey n →
  ∃ q' n', read_packet cfg q n buffer rest = Ok (q', n', rel, unrel) ∧ p' ≡ q' ∧ wf NeptunMetricKey n'.
Proof.
  unfold read_packet. intros Hr Hpq Hn. pose proof Hpq as [t ->]%equiv_ticker.
  apply Prelude.bind_Ok in Hr as ([pdm [[count sts] i]] & Hp & Hr).
  change (packet_delivery_manager (with_ticker p t)) with (packet_delivery_manager p). rewrite Hp.
  cbn [mbind result_bind]. destruct (count =? 0); [inv_result; by do 2 eexists|].
  apply Prelude.bind_Ok in Hr as (b & -> & Hr). cbn [mbind result_bind].
  eapply read_segments_equiv; [exact Hr|done|done].
Qed.

Lemma write_packet_equiv p q buffer now p' buffer' sizes :
  write_packet p buffer now = Ok (p', buffer', sizes) → p ≡ q →
  ∃ q', write_packet q buffer now = Ok (q', buffer', sizes) ∧ p' ≡ q'.
Proof.
  intros Hw [t ->]%equiv_ticker. exists (with_ticker p' t). split; [|done].
  unfold write_packet in *. cbn [packet_delivery_manager Neptun.connection_manager reliable_stream
    unreliable_stream send_packet_ticker with_ticker].
  apply Prelude.bind_Ok in Hw as ([[pdm b] n1] & -> & Hw). cbn [mbind result_bind].
  apply Prelude.bind_Ok in Hw as (view & -> & Hw). cbn [mbind result_bind].
  apply Prelude.bind_Ok in Hw as (i & -> & Hw). cbn [mbind result_bind].
  apply Prelude.bind_Ok in Hw as ([b1 [[[[[c s] u] n2] n3] n4]] & -> & Hw). cbn [mbind result_bind].
  by injection Hw as <- <- <-.
Qed.

(** ** One endpoint

    What a call of the class does to the peer [b] of an endpoint that is bound to
    [a], and to the network below. *)
Section Endpoint.
Context `{Platform} {N : Type} `{HN : DatagramsOk N}.

(** The contents of the datagrams from [a] to [b], oldest first. *)
Definition between (a b : IpAddress) (h : list datagram) : list bytes :=
  content <$> filter (λ d, same_key (from d) a && same_key (to d) b = true) h.

Lemma between_app a b h1 h2 : between a b (h1 ++ h2) = between a b h1 ++ between a b h2.
Proof. unfold between. by rewrite filter_app, fmap_app. Qed.

Lemma between_nil a b h :
  Forall (λ d, same_key (from d) a && same_key (to d) b = false) h → between a b h = [].
Proof.
  induction 1 as [|d h Hd _ IH]; [done|]. unfold between in *. rewrite filter_cons_False; [done|]. by rewrite Hd.
Qed.

Lemma between_elem a b h d :
  d ∈ h → same_key (from d) a = true → same_key (to d) b = true →
  ∃ i : nat, between a b h !! i = Some (content d).
Proof.
  intros Hd Hf Ht. apply list_elem_of_lookup_1. apply list_elem_of_fmap. exists d. split; [done|].
  apply list_elem_of_filter. by rewrite Hf, Ht.
Qed.

(** What all calls keep: the socket and the limits of the endpoint. *)
Definition frame (n n' : Neptun) : Prop :=
  m_udp_socket n' = m_udp_socket n ∧ m_connection_manager_config n' = m_connection_manager_config n.

(** ... and, of the network, the addresses of the sockets. *)
Definition same_sockets (network network' : N) : Prop :=
  ∀ x, socket_address network' x = socket_address network x.

Lemma drop_loop_find now : ∀ peers metrics peers' metrics',
  Neptun.drop_loop peers metrics now = Ok (peers', metrics') →
  peers'.*1 = peers.*1 ∧
  ∀ b p, find peers b = Some p → ∃ m m' p', drop_peer p m now = Ok (p', m') ∧ find peers' b = Some p'.
Proof.
  induction peers as [|[k q] peers IH]; intros metrics peers' metrics' Hd; cbn [Neptun.drop_loop] in Hd; inv_result; [done|].
  destruct (IH _ _ _ Hd1) as [Hk Hf]. split; [by rewrite !fmap_cons, Hk|].
  intros b x. cbn [find]. destruct (same_key b k); [intros [= ->]; by do 3 eexists|]. apply Hf.
Qed.

(** The sender of the packet the next [read] gets. *)
Definition incoming (network : N) (n : Neptun) : option IpAddress :=
  match (network_buffer ← span_range (m_network_buffer n) 0 kJustAboveMtu;
         UdpSocket.read network (m_udp_socket n) network_buffer) with
  | Ok (_, _, Some (sender, _)) => Some sender
  | _ => None
  end.

(** What [read] does to the peer [p] of the address [b]. *)
Definition reads (h : list datagram) (cfg : ConnectionManagerConfig) (a b : IpAddress) (sender : option IpAddress)
    (p p' : Peer) (rel unrel : list bytes) : Prop :=
  match sender with
  | None => p' = p ∧ rel = [] ∧ unrel = []
  | Some s =>
      if same_key s b then
        ∃ d, d ∈ h ∧ from d = s ∧ same_key (to d) a = true ∧
          (len (content d) ≤ kJustBelowMtu →
           ∃ m m' rest, read_packet cfg p m (content d) rest = Ok (p', m', rel, unrel))
      else p' = p
  end.

Lemma find_other (peers : map IpAddress Peer) k v b :
  same_key k b = false → find (update peers k v) b = find peers b.
Proof.
  intros Hk. rewrite same_key_sym in Hk. destruct (find peers k) as [q|] eqn:Hf.
  - rewrite find_update by (by rewrite Hf). by rewrite Hk.
  - f_equal. clear Hk. induction peers as [|[k' q] peers IH]; [done|]. simpl in *.
    destruct (same_key k k'); [done|]. by rewrite IH.
Qed.

Lemma find_same (peers : map IpAddress Peer) k k' : same_key k k' = true → find peers k = find peers k'.
Proof. apply FakeNetwork.find_same_key. Qed.

Lemma find_or_create_find n i k now n' q :
  find_or_create_peer n i k now = (n', q) → ordered (m_peers n) →
  frame n n' ∧ m_network_buffer n' = m_network_buffer n ∧ ordered (m_peers n') ∧ find (m_peers n') k = Some q ∧
  (∀ x p, find (m_peers n) x = Some p → find (m_peers n') x = Some p).
Proof.
  unfold find_or_create_peer. intros Hc Hord. destruct (find (m_peers n) k) as [p|] eqn:Hf.
  { injection Hc as <- <-. by split_and!. }
  injection Hc as <- <-. split_and!; try done.
  - cbn. by apply ordered_insert.
  - cbn. rewrite find_insert by done. by rewrite same_key_refl.
  - intros x p Hx. cbn. rewrite find_insert by done. destruct (same_key x k) eqn:Hk; [|done].
    by rewrite (find_same _ _ _ Hk), Hf in Hx.
Qed.

Lemma find_set_peer n k p b :
  find (m_peers n) k ≠ None → find (m_peers (set_peer n k p)) b = if same_key b k then Some p else find (m_peers n) b.
Proof. intros Hk. cbn. by apply find_update. Qed.

Lemma read_find network h n now network' n' rel unrel a :
  in_transit network h → socket_address network (UdpSocket.m_fd (m_udp_socket n)) = Some a →
  ordered (m_peers n) → Neptun.read network n now = Ok (network', n', rel, unrel) →
  in_transit network' h ∧ same_sockets network network' ∧ frame n n' ∧ ordered (m_peers n') ∧
  ∀ b p, find (m_peers n) b = Some p → ∃ p', find (m_peers n') b = Some p' ∧
    reads h (m_connection_manager_config n) a b (incoming network n) p p' rel unrel.
Proof.
  intros Hh Ha Hord Hr. unfold Neptun.read in Hr. unfold incoming.
  apply Prelude.bind_Ok in Hr as (buffer & Hb & Hr). rewrite Hb. cbn [mbind result_bind].
  apply span_range_inv in Hb as (_ & _ & Hlen & ->). rewrite Z.sub_0_r in *. change (zdrop 0 ?l) with l in *.
  apply Prelude.bind_Ok in Hr as ([[net1 buffer'] info] & Hread & Hr). rewrite Hread. unfold UdpSocket.read in Hread.
  assert (len (ztake kJustAboveMtu (m_network_buffer n)) = kJustAboveMtu) as Hl 
    by (rewrite length_take; unfold kJustAboveMtu in *; lia).
  destruct (read_datagram _ _ _ _ _ _ _ _ Hh Ha Hl Hread) as (Hh' & Hsock & Hd).
  destruct info as [[sender size]|]; [|injection Hr as <- <- <- <-; by split_and!; try done; intros; eexists].
  destruct (Hd sender size eq_refl) as (d & Hin & Hfrom & Hto & Hcontent).
  set (n1 := with_network_buffer n _) in Hr.
  destruct (find_or_create_peer n1 0 sender now) as [n2 q] eqn:Hq.
  apply Prelude.bind_Ok in Hr as ([[[q' m'] rel'] unrel'] & Hp & Hr). injection Hr as <- <- <- <-.
  destruct (find_or_create_find _ _ _ _ _ _ Hq Hord) as (Hfr & Hbuf & Hord2 & Hq2 & Hkeep).
  split_and!; try done; [by apply ordered_update|]. intros b p Hf.
  cbn [m_peers with_metrics]. rewrite find_set_peer by (by rewrite Hq2). unfold reads. rewrite same_key_sym.
  destruct (same_key sender b) eqn:Hs; [|by exists p; split; [apply Hkeep|]].
  exists q'. split; [done|]. exists d. split_and!; try done. intros Hlc. destruct (Hcontent Hlc) as [Hsize Hc].
  rewrite (find_same _ _ _ Hs), (Hkeep _ _ Hf) in Hq2. injection Hq2 as <-.
  destruct Hfr as [_ Hcfg]. rewrite Hcfg, Hbuf in Hp. cbn [n1 m_network_buffer with_network_buffer] in Hp.
  rewrite take_app_le, Hc in Hp by lia. by do 3 eexists.
Qed.

(** What [write] does to the peer [p] of the address [b]: nothing but ask its ticker,
    or one packet to [b]; [h'] is what the call sends. *)
Definition writes (a b : IpAddress) (p p' : Peer) (now : Z) (h' : list datagram) : Prop :=
  (p' ≡ p ∧ between a b h' = []) ∨
  ∃ t buffer b' rest n1 n2 n3 n4, write_packet (with_ticker p t) buffer now = Ok (p', b', (n1, n2, n3, n4)) ∧
    len buffer ≤ kJustBelowMtu ∧ between a b h' = [ztake (n1 + n2 + n3 + n4) (b' ++ rest)].

Lemma between_one a b ip payload :
  same_key ip b = true → between a b [mkDatagram a ip payload] = [payload].
Proof. intros Hs. unfold between. rewrite filter_cons_True; [done|]. cbn. by rewrite same_key_refl, Hs. Qed.

Lemma write_peer_find network h n now ip p network' n' p' a :
  in_transit network h → socket_address network (UdpSocket.m_fd (m_udp_socket n)) = Some a →
  write_peer network n now ip p = Ok (network', n', p') →
  ∃ h', in_transit network' (h ++ h') ∧ same_sockets network network' ∧ frame n n' ∧
    Forall (λ d, from d = a ∧ to d = ip) h' ∧ ∀ b, same_key ip b = true → writes a b p p' now h'.
Proof.
  intros Hh Ha Hw. unfold write_peer in Hw. apply Prelude.bind_Ok in Hw as ([t ticked] & _ & Hw).
  destruct (ticked || _).
  2:{ injection Hw as <- <- <-. exists []. rewrite app_nil_r. split_and!; try done. intros b _. by left. }
  unfold write_to_peer in Hw. apply Prelude.bind_Ok in Hw as (buffer & Hb & Hw).
  apply Prelude.bind_Ok in Hw as ([[q b'] [[[n1 n2] n3] n4]] & Hwp & Hw).
  apply Prelude.bind_Ok in Hw as (payload & Hpl & Hw).
  apply Prelude.bind_Ok in Hw as ([net1 count] & Hs & Hw).
  apply Prelude.bind_Ok in Hw as (? & _ & Hw). injection Hw as <- <- <-.
  apply span_range_inv in Hb as (_ & Hsize & Hl & ->). apply span_range_inv in Hpl as (_ & _ & _ & ->).
  rewrite Z.sub_0_r in *. change (zdrop 0 ?l) with l in *.
  destruct (send_datagram _ _ _ _ _ _ _ _ Hh Ha Hs) as [Hh' Hsock].
  eexists. split; [exact Hh'|]. split_and!; try done; [by apply Forall_singleton|].
  intros b Hb. right. exists t. do 7 eexists. split; [exact Hwp|]. split.
  - rewrite length_take. unfold kJustBelowMtu in *. lia.
  - by apply between_one.
Qed.

Lemma write_loop_find now a : ∀ peers network h n network' n' peers',
  in_transit network h → socket_address network (UdpSocket.m_fd (m_udp_socket n)) = Some a →
  ordered peers → Neptun.write_loop network n now peers = Ok (network', n', peers') →
  ∃ h', in_transit network' (h ++ h') ∧ same_sockets network network' ∧ frame n n' ∧ peers'.*1 = peers.*1 ∧
    Forall (λ d, from d = a ∧ to d ∈ peers.*1) h' ∧
    ∀ b p, find peers b = Some p → ∃ p', find peers' b = Some p' ∧ writes a b p p' now h'.
Proof.
  induction peers as [|[ip p] peers IH]; intros network h n network' n' peers' Hh Ha Hord Hw; cbn [Neptun.write_loop] in Hw.
  { injection Hw as <- <- <-. exists []. rewrite app_nil_r. by split_and!. }
  apply Prelude.bind_Ok in Hw as ([[net1 n1] p1] & H1' & Hw).
  apply Prelude.bind_Ok in Hw as ([[net2 n2] peers2] & H2' & Hw). injection Hw as <- <- <-.
  destruct (write_peer_find _ _ _ _ _ _ _ _ _ _ Hh Ha H1') as (h1 & Hh1 & Hs1 & [Hf1 Hc1] & Hall1 & Hw1).
  unfold ordered in Hord. rewrite fmap_cons in Hord. apply StronglySorted_inv in Hord as [Hord Hlt]. cbn in Hlt.
  destruct (IH net1 (h ++ h1) n1 net2 n2 peers2 Hh1) as (h2 & Hh2 & Hs2 & [Hf2 Hc2] & Hk2 & Hall2 & Hw2);
    [by rewrite Hf1, Hs1|done|done|].
  rewrite <-app_assoc in Hh2. exists (h1 ++ h2). split; [done|]. split; [intros x; by rewrite Hs2|].
  split; [split; congruence|]. split; [by rewrite !fmap_cons, Hk2|]. split.
  { apply Forall_app. split; (eapply Forall_impl; [eassumption|]); simpl; intros d [? ?]; set_solver. }
  intros b q Hq. cbn [find] in *. rewrite same_key_sym in Hq |- *. destruct (same_key ip b) eqn:Hs.
  - injection Hq as <-. exists p1. split; [done|].
    assert (between a b h2 = []) as Hnil.
    { apply between_nil. eapply Forall_impl; [exact Hall2|]. simpl. intros d [-> Hd].
      eapply Forall_forall in Hlt; [|exact Hd]. apply andb_false_iff. right. apply not_true_iff_false. intros Hsame.
      rewrite same_key_sym in Hsame. pose proof (same_key_trans _ _ _ Hs Hsame) as Hx.
      by rewrite key_lt_not_same in Hx. }
    unfold writes. rewrite between_app, Hnil, app_nil_r. by apply Hw1.
  - destruct (Hw2 _ _ Hq) as (q' & Hq' & Hwr). exists q'. split; [done|].
    unfold writes. rewrite between_app, (between_nil a b h1); [done|].
    eapply Forall_impl; [exact Hall1|]. simpl. intros d [_ ->]. by rewrite Hs, andb_false_r.
Qed.

(** A whole [tick]. *)
Lemma tick_find network h n now network' n' rel unrel a :
  in_transit network h → socket_address network (UdpSocket.m_fd (m_udp_socket n)) = Some a →
  ordered (m_peers n) →
  Neptun.tick network n now = Ok (network', n', rel, unrel) →
  ∃ h', in_transit network' (h ++ h') ∧ same_sockets network network' ∧ frame n n' ∧ ordered (m_peers n') ∧
    Forall (λ d, from d = a) h' ∧
    ∀ b p, find (m_peers n) b = Some p → ∃ m m' p1 p2 p', drop_peer p m now = Ok (p1, m') ∧
      reads h (m_connection_manager_config n) a b (incoming network n) p1 p2 rel unrel ∧
      writes a b p2 p' now h' ∧ find (m_peers n') b = Some p'.
Proof.
  intros Hh Ha Hord Ht. unfold Neptun.tick in Ht.
  apply Prelude.bind_Ok in Ht as ([peers metrics] & Hd & Ht).
  destruct (drop_loop_find _ _ _ _ _ Hd) as (Hkeys & Hdrop).
  apply Prelude.bind_Ok in Ht as ([[[net1 n1] rel1] unrel1] & Hr & Ht).
  apply Prelude.bind_Ok in Ht as ([net2 n2] & Hw & Ht). injection Ht as <- <- <- <-.
  eapply read_find in Hr as (Hh1 & Hs1 & [Hf1s Hf1c] & Hord1 & Hreads); [|done|done|].
  2:{ cbn. unfold ordered. by rewrite Hkeys. }
  unfold Neptun.write in Hw. apply Prelude.bind_Ok in Hw as ([[net3 n3] peers3] & Hw & Hw'). injection Hw' as <- <-.
  eapply write_loop_find in Hw as (h' & Hh3 & Hs3 & [Hf3s Hf3c] & Hk3 & Hall & Hwr); [|exact Hh1| |exact Hord1].
  2:{ rewrite Hf1s, Hs1. exact Ha. }
  exists h'. split; [done|]. split; [intros x; by rewrite Hs3|]. split; [split; cbn in *; congruence|].
  split; [cbn; unfold ordered; rewrite Hk3; exact Hord1|].
  split; [eapply Forall_impl; [exact Hall|]; by simpl; intros d [? _]|].
  intros b p Hf. destruct (Hdrop _ _ Hf) as (m & m' & p1 & Hp1 & Hf1).
  destruct (Hreads _ _ Hf1) as (p2 & Hf2 & Hrd). destruct (Hwr _ _ Hf2) as (p' & Hf' & Hwrites).
  exists m, m', p1, p2, p'. by split_and!.
Qed.
End Endpoint.

(** ** Systems *)

Section System.
Context `{Platform} {N : Type} `{HN : DatagramsOk N}.

(** Endpoints over one network, by number. *)
Record System := mkSystem { network : N; nodes : list Neptun }.

(** The public calls of the class, and other programs on the network, which send
    what they like from their own sockets. *)
Inductive call :=
  | Connect (i : nat) (ip : IpAddress) (now : Z)
  | SendReliable (i : nat) (ip : IpAddress) (write_to_buffer : WriteToBufferFn) (now : Z)
  | SendUnreliable (i : nat) (ip : IpAddress) (write_to_buffer : WriteToBufferFn) (now : Z)
  | Tick (i : nat) (now : Z)
  | Foreign (fd : Z) (ip : IpAddress) (payload : bytes).

(** What the applications see: messages they hand over and messages they get. *)
Inductive event :=
  | Sent (i : nat) (reliable : bool) (ip : IpAddress) (message : bytes)
  | Delivered (i : nat) (reliable : bool) (ip : IpAddress) (message : bytes).

(** The message a writer leaves in the space it is offered. *)
Definition handed_over (n : Neptun) (ip : IpAddress) (reliable : bool) (f : WriteToBufferFn) : list bytes :=
  match find (m_peers n) ip with
  | Some p =>
      match (if reliable then offered (reliable_stream p)
             else FlipBuffer.remaining (UnreliableStream.m_buffer (unreliable_stream p))) with
      | Ok space => sent_by (f space)
      | Fault _ => []
      end
  | None => []
  end.

Definition exec (s : System) (c : call) : result (System * list event) :=
  match c with
  | Connect i ip now =>
      match nodes s !! i with
      | None => Ok (s, [])
      | Some n => Ok (mkSystem (network s) (<[i := Neptun.connect n ip now]> (nodes s)), [])
      end
  | SendReliable i ip f now =>
      match nodes s !! i with
      | None => Ok (s, [])
      | Some n =>
          n' ← send_reliable_to n ip f now;
          Ok (mkSystem (network s) (<[i := n']> (nodes s)), Sent i true ip <$> handed_over n ip true f)
      end
  | SendUnreliable i ip f now =>
      match nodes s !! i with
      | None => Ok (s, [])
      | Some n =>
          n' ← send_unreliable_to n ip f now;
          Ok (mkSystem (network s) (<[i := n']> (nodes s)), Sent i false ip <$> handed_over n ip false f)
      end
  | Tick i now =>
      match nodes s !! i with
      | None => Ok (s, [])
      | Some n =>
          '(network', n', rel, unrel) ← Neptun.tick (network s) n now;
          Ok (mkSystem network' (<[i := n']> (nodes s)),
              match incoming (network s) n with
              | Some ip => (Delivered i true ip <$> rel) ++ (Delivered i false ip <$> unrel)
              | None => []
              end)
      end
  | Foreign fd ip payload =>
      '(network', _) ← send_to (network s) fd ip payload;
      Ok (mkSystem network' (nodes s), [])
  end.

Fixpoint exec_all (s : System) (cs : list call) : result (System * list event) :=
  match cs with
  | [] => Ok (s, [])
  | c :: cs =>
      '(s, es) ← exec s c;
      '(s, es') ← exec_all s cs;
      Ok (s, es ++ es')
  end.

(** The messages node [i] handed over for [ip], and those it got from [ip], in order. *)
Definition sent_to (i : nat) (reliable : bool) (ip : IpAddress) (es : list event) : list bytes :=
  omap (λ e, match e with
    | Sent i' k to m => if bool_decide (i' = i) && bool_decide (k = reliable) && same_key to ip then Some m else None
    | Delivered _ _ _ _ => None
    end) es.

Definition got_from (i : nat) (reliable : bool) (ip : IpAddress) (es : list event) : list bytes :=
  omap (λ e, match e with
    | Delivered i' k from m => if bool_decide (i' = i) && bool_decide (k = reliable) && same_key from ip then Some m else None
    | Sent _ _ _ _ => None
    end) es.

(** Node [i] is bound to [a] and keeps the peer [p] for the address [b]. *)
Record node (s : System) (i : nat) (cfg : ConnectionManagerConfig) (a b : IpAddress) (n : Neptun) (p : Peer) : Prop := {
  nd_node : nodes s !! i = Some n;
  nd_config : m_connection_manager_config n = cfg;
  nd_address : socket_address (network s) (UdpSocket.m_fd (m_udp_socket n)) = Some a;
  nd_ordered : ordered (m_peers n);
  nd_peer : find (m_peers n) b = Some p;
}.

(** What the theorem asks of the calls: writers keep their contract, the two endpoints
    do not start a handshake again, and other programs use other addresses. *)
Definition call_ok (s : System) (i j : nat) (a b : IpAddress) (c : call) : Prop :=
  match c with
  | Connect k ip _ => (k = i → same_key ip b = false) ∧ (k = j → same_key ip a = false)
  | SendReliable _ _ f _ | SendUnreliable _ _ f _ => WriterOk f
  | Tick _ _ => True
  | Foreign fd _ _ => ∃ x, socket_address (network s) fd = Some x ∧ same_key x a = false ∧ same_key x b = false
  end.
End System.
Arguments System : clear implicits.

Section Events.
Context `{ByteOrder}.
Implicit Types (es : list event).

Lemma sent_to_app i k b es es' : sent_to i k b (es ++ es') = sent_to i k b es ++ sent_to i k b es'.
Proof. apply omap_app. Qed.
Lemma got_from_app i k b es es' : got_from i k b (es ++ es') = got_from i k b es ++ got_from i k b es'.
Proof. apply omap_app. Qed.

Lemma sent_to_delivered i k b i' k' ip ms : sent_to i k b (Delivered i' k' ip <$> ms) = [].
Proof. unfold sent_to. induction ms; [done|]. done. Qed.
Lemma got_from_sent i k b i' k' ip ms : got_from i k b (Sent i' k' ip <$> ms) = [].
Proof. unfold got_from. induction ms; [done|]. done. Qed.

Lemma sent_to_sent i k b i' k' ip ms :
  sent_to i k b (Sent i' k' ip <$> ms)
  = if bool_decide (i' = i) && bool_decide (k' = k) && same_key ip b then ms else [].
Proof.
  unfold sent_to. induction ms as [|m ms IH]; cbn; [by destruct (_ && _)|].
  destruct (_ && _); [by f_equal|done].
Qed.
Lemma got_from_delivered i k b i' k' ip ms :
  got_from i k b (Delivered i' k' ip <$> ms)
  = if bool_decide (i' = i) && bool_decide (k' = k) && same_key ip b then ms else [].
Proof.
  unfold got_from. induction ms as [|m ms IH]; cbn; [by destruct (_ && _)|].
  destruct (_ && _); [by f_equal|done].
Qed.
End Events.

Ltac event_lists :=
  repeat rewrite ?sent_to_app, ?got_from_app, ?sent_to_delivered, ?got_from_sent, ?sent_to_sent,
    ?got_from_delivered, ?app_nil_r.

(** ** Simulation by the channel *)

Section Simulation.
Context `{Platform} {N : Type} `{HN : DatagramsOk N}.

(** The side [l] of a channel is what node [i] keeps for [b]. *)
Record mirrors (s : System N) (h : list datagram) (es : list event) (i : nat) (cfg : ConnectionManagerConfig)
    (a b : IpAddress) (l : Side) : Prop := {
  mi_node : ∃ n p, node s i cfg a b n p ∧ p ≡ peer l;
  mi_sent : sent l = sent_to i true b es;
  mi_delivered : delivered l = got_from i true b es;
  mi_unreliable_sent : unreliable_sent l = sent_to i false b es;
  mi_unreliable_delivered : unreliable_delivered l = got_from i false b es;
  mi_payloads : payloads l = between a b h;
  mi_small : Forall (λ x, len x ≤ kJustBelowMtu) (payloads l);
  mi_metrics : wf NeptunMetricKey (metrics l);
}.

(** The messages of a read that are for the peer of [b]. *)
Definition heard (sender : option IpAddress) (b : IpAddress) (ms : list bytes) : list bytes :=
  match sender with Some s => if same_key s b then ms else [] | None => [] end.

Section Acts.
Context (cfg cfgr : ConnectionManagerConfig) (l r : Side) (p : Peer).
Context (Hp : p ≡ peer l) (Hwf : wf NeptunMetricKey (metrics l)).
Context (Hsmall : Forall (λ x, len x ≤ kJustBelowMtu) (payloads l)).

Lemma expire_act m now p' m' :
  drop_peer p m now = Ok (p', m') →
  ∃ q n, act cfg l (payloads r) (Expire now) = Ok (with_peer l q n) ∧ p' ≡ q ∧ wf NeptunMetricKey n.
Proof using Hp Hwf.
  intros Hd. destruct (drop_peer_equiv _ _ _ _ _ _ _ Hd Hp Hwf) as (q & n & Hq & He & Hn).
  exists q, n. cbn [act]. by rewrite Hq.
Qed.

Lemma receive_act h a b sender p' rel unrel :
  payloads r = between b a h → Forall (λ x, len x ≤ kJustBelowMtu) (payloads r) →
  reads h cfg a b sender p p' rel unrel →
  ∃ xs q n, (length xs ≤ 1)%nat ∧ Forall (λ x, action_ok x.2) xs ∧
    run cfg cfgr l r xs = Ok (mkSide q n (sent l) (delivered l ++ heard sender b rel) (unreliable_sent l)
      (unreliable_delivered l ++ heard sender b unrel) (payloads l), r) ∧ p' ≡ q ∧ wf NeptunMetricKey n.
Proof using Hp Hwf Hsmall.
  intros Hpl Hsm Hr. unfold reads, heard in *.
  assert (∀ p', p' = p → ∃ xs q n, (length xs ≤ 1)%nat ∧ Forall (λ x, action_ok x.2) xs ∧
    run cfg cfgr l r xs = Ok (mkSide q n (sent l) (delivered l ++ []) (unreliable_sent l)
      (unreliable_delivered l ++ []) (payloads l), r) ∧ p' ≡ q ∧ wf NeptunMetricKey n) as Hnone.
  { intros ? ->. exists [], (peer l), (metrics l). rewrite !app_nil_r. destruct l. by split_and!; simpl; [lia| | | |]. }
  destruct sender as [s|]; [|by apply Hnone; destruct Hr].
  destruct (same_key s b) eqn:Hs; [|by apply Hnone].
  destruct Hr as (d & Hin & Hfrom & Hto & Hread). subst s.
  destruct (between_elem b a h d Hin Hs Hto) as [i Hi]. rewrite <-Hpl in Hi.
  pose proof (proj1 (Forall_lookup _ _) Hsm _ _ Hi) as Hl. destruct (Hread Hl) as (m & m' & rest & Hrp).
  destruct (read_packet_equiv _ _ _ _ _ _ _ _ _ _ _ Hrp Hp Hwf) as (q & n & Hq & He & Hn).
  exists [(true, Receive i rest)], q, n. split; [done|]. split; [by repeat constructor|].
  cbn [run act]. rewrite Hi, Hq. by split_and!.
Qed.

Lemma flush_act hl hr budget a b p' now h' :
  channel l r hl hr (budget + 1) → 0 ≤ budget → writes a b p p' now h' →
  ∃ xs q, (length xs ≤ 1)%nat ∧ Forall (λ x, action_ok x.2) xs ∧
    run cfg cfgr l r xs = Ok (mkSide q (metrics l) (sent l) (delivered l) (unreliable_sent l)
      (unreliable_delivered l) (payloads l ++ between a b h'), r) ∧ p' ≡ q ∧
    Forall (λ x, len x ≤ kJustBelowMtu) (payloads l ++ between a b h').
Proof using Hp Hwf Hsmall.
  intros Hch Hb [[He ->]|(t & buffer & b' & rest & n1 & n2 & n3 & n4 & Hw & Hl & ->)].
  { exists [], (peer l). rewrite app_nil_r. split; [simpl; lia|]. split; [done|]. split; [by destruct l|].
    split; [by transitivity p|done]. }
  pose proof (write_packet_size _ _ _ _ Hw) as Hsize. unfold kJustBelowMtu in *.
  assert (with_ticker p t ≡ peer l) as Hpt by done.
  destruct (write_packet_equiv _ _ _ _ _ _ _ Hw Hpt) as (q & Hq & He).
  destruct (channel_peer_ok l r hl hr budget Hch) as (resolved & first & leak & Hs & Hok).
  pose proof (ch_budget _ _ _ _ _ Hch) as Hbud.
  destruct (write_packet_Ok _ _ _ _ _ buffer now Hok ltac:(lia)) as (q' & b1 & k2 & k3 & k4 & k & leak' & Hw' & Hlen & ? & ? & ? & Hfit & _);
    [left; rewrite (idle_num _ (sn_idle _ _ _ _ _ _ _ _ _ Hs)); lia|lia|].
  rewrite Hq in Hw'. injection Hw' as <- <- -> -> -> ->.
  exists [(true, Flush buffer now)], q. split; [done|]. split; [repeat constructor; cbn; lia|].
  rewrite take_app_le by lia. cbn [run act]. rewrite Hq. split; [done|]. split; [done|].
  apply Forall_app. split; [done|]. apply Forall_singleton. rewrite length_take. lia.
Qed.
End Acts.

(** The acts of a [tick], in its order. *)
Lemma tick_acts cfg cfgr l r hl hr budget p h a b sender m now p1 m' p2 rel unrel p' h' :
  channel l r hl hr (budget + 3) → 0 ≤ budget → p ≡ peer l → wf NeptunMetricKey (metrics l) →
  Forall (λ x, len x ≤ kJustBelowMtu) (payloads l) →
  payloads r = between b a h → Forall (λ x, len x ≤ kJustBelowMtu) (payloads r) →
  drop_peer p m now = Ok (p1, m') → reads h cfg a b sender p1 p2 rel unrel → writes a b p2 p' now h' →
  ∃ xs q n, (length xs ≤ 3)%nat ∧ Forall (λ x, action_ok x.2) xs ∧
    run cfg cfgr l r xs = Ok (mkSide q n (sent l) (delivered l ++ heard sender b rel) (unreliable_sent l)
      (unreliable_delivered l ++ heard sender b unrel) (payloads l ++ between a b h'), r) ∧ p' ≡ q ∧
    Forall (λ x, len x ≤ kJustBelowMtu) (payloads l ++ between a b h') ∧ wf NeptunMetricKey n.
Proof.
  intros Hch Hb Hp Hwf Hsm Hpl Hsmr Hd Hr Hw.
  destruct (expire_act cfg l r p Hp Hwf m now p1 m' Hd) as (q1 & n1 & Ha1 & He1 & Hn1).
  set (l1 := with_peer l q1 n1) in *.
  destruct (receive_act cfg cfgr l1 r p1 He1 Hn1 Hsm h a b sender p2 rel unrel Hpl Hsmr Hr)
    as (xs & q2 & n2 & Hxs & Hok & Hrun2 & He2 & Hn2).
  set (l2 := mkSide q2 n2 _ _ _ _ _) in *.
  set (all := (true, Expire now) :: xs).
  assert (run cfg cfgr l r all = Ok (l2, r)) as Hrun by (unfold all; cbn [run]; by rewrite Ha1).
  assert (Forall (λ x, action_ok x.2) all) as Hokall by (by constructor).
  assert (length all ≤ 2)%nat as Hlen by (simpl; lia).
  replace (budget + 3) with ((budget + 3 - len all) + len all) in Hch by lia.
  destruct (run_channel cfg cfgr all _ _ _ _ (budget + 3 - len all) _ _ Hch ltac:(lia) Hokall Hrun) as (hl2 & hr2 & Hch2).
  replace (budget + 3 - len all) with ((budget + 2 - len all) + 1) in Hch2 by lia.
  destruct (flush_act cfg cfgr l2 r p2 He2 Hn2 Hsm _ _ _ a b p' now h' Hch2 ltac:(lia) Hw)
    as (ys & q3 & Hys & Hoky & Hrun3 & He3 & Hsm3).
  exists (all ++ ys), q3, n2. split; [rewrite length_app; lia|]. split; [by apply Forall_app|].
  split; [by rewrite (run_app _ _ _ _ _ _ _ _ Hrun), Hrun3|]. by split_and!.
Qed.

(** ** Calls of one of the two endpoints *)

(** The messages node [i] hears at [from], as events. *)
Lemma tick_events i b sender rel unrel k :
  let es := match sender with
    | Some ip => (Delivered i true ip <$> rel) ++ (Delivered i false ip <$> unrel)
    | None => []
    end in
  sent_to i k b es = [] ∧ got_from i k b es = heard sender b (if k : bool then rel else unrel).
Proof.
  destruct sender as [ip|]; cbv zeta; [|done]. event_lists. split; [done|].
  rewrite !(bool_decide_eq_true_2 (i = i)) by done. unfold heard.
  destruct k; cbn; by destruct (same_key ip b); rewrite ?app_nil_r.
Qed.

(** A send that returns is an act of the channel on the peer it is for. *)
Lemma send_inv (reliable : bool) n ip f now n' :
  (if reliable then send_reliable_to n ip f now else send_unreliable_to n ip f now) = Ok n' →
  ∃ p q, find (m_peers n) ip = Some p ∧ n' = set_peer n ip q ∧ send_packet_ticker q = send_packet_ticker p ∧
    ∀ cfg l other, p ≡ peer l →
      let new := handed_over n ip reliable f in
      ∃ q', act cfg l other (if reliable then Send f else Channel.SendUnreliable f)
            = Ok (mkSide q' (metrics l) (sent l ++ if reliable then new else []) (delivered l)
                    (unreliable_sent l ++ if reliable then [] else new) (unreliable_delivered l) (payloads l)) ∧ q ≡ q'.
Proof.
  intros Hs. unfold handed_over.
  destruct reliable; unfold send_reliable_to, send_unreliable_to, is_connected in Hs;
    apply Prelude.bind_Ok in Hs as (_ & Hc%assert_that_Ok & Hs); unfold find_or_create_peer in Hs;
    destruct (find (m_peers n) ip) as [p|]; try done; apply Prelude.bind_Ok in Hs as (s' & Hsend & Hs);
    injection Hs as <-; eexists p, _; (split; [done|]); (split; [done|]); (split; [done|]);
    intros cfg l other Hpl; cbn [act]; pose proof Hpl as [= _ _ Er Eu].
  - rewrite Er in *. assert (∃ space, offered (reliable_stream (peer l)) = Ok space) as [space Hsp].
    { unfold offered. unfold ReliableStream.send in Hsend.
      apply Prelude.bind_Ok in Hsend as (s1 & -> & Hsend). apply Prelude.bind_Ok in Hsend as (space & Hsp & _).
      by exists space. }
    rewrite Hsp, Hsend. cbn [mbind result_bind]. eexists. rewrite app_nil_r. split; [done|]. by f_equiv.
  - rewrite Eu in *. assert (∃ space, FlipBuffer.remaining (UnreliableStream.m_buffer (unreliable_stream (peer l))) = Ok space)
      as [space Hsp].
    { unfold UnreliableStream.send in Hsend. apply Prelude.bind_Ok in Hsend as (space & Hsp & _). by exists space. }
    rewrite Hsp, Hsend. cbn [mbind result_bind]. eexists. rewrite app_nil_r. split; [done|]. by f_equiv.
Qed.

Context (i j : nat) (a b : IpAddress) (cfgl cfgr : ConnectionManagerConfig) (Hij : i ≠ j) (Hab : same_key a b = false).

(** A call of another node does not touch what node [j] keeps. *)
Lemma mirrors_frame s s' h h' es es' l :
  mirrors s h es j cfgr b a l → nodes s' !! j = nodes s !! j → same_sockets (network s) (network s') →
  between b a h' = [] → (∀ k, sent_to j k a es' = [] ∧ got_from j k a es' = []) →
  mirrors s' (h ++ h') (es ++ es') j cfgr b a l.
Proof using Type.
  intros [(n & p & [] & He) Hs Hd Hus Hud Hpl Hsm Hm] Hn Hsock Hh Hes. split; try done.
  - exists n, p. split; [|done]. split; try done; [by rewrite Hn|by rewrite Hsock].
  - event_lists. destruct (Hes true) as [-> _]. by rewrite app_nil_r.
  - event_lists. destruct (Hes true) as [_ ->]. by rewrite app_nil_r.
  - event_lists. destruct (Hes false) as [-> _]. by rewrite app_nil_r.
  - event_lists. destruct (Hes false) as [_ ->]. by rewrite app_nil_r.
  - by rewrite between_app, Hh, app_nil_r.
Qed.

(** Events of node [i] are not events of node [j]. *)
Definition events_of (k : nat) (es : list event) : Prop :=
  Forall (λ e, match e with Sent x _ _ _ | Delivered x _ _ _ => x = k end) es.

Lemma events_of_other k es rel : events_of i es → sent_to j rel k es = [] ∧ got_from j rel k es = [].
Proof using Hij.
  induction 1 as [|e es He _ [IH1 IH2]]; [done|]. unfold sent_to, got_from in *.
  destruct e; subst; cbn; rewrite bool_decide_eq_false_2 by done; cbn; done.
Qed.

Lemma events_of_fmap k (f : bytes → event) ms :
  (∀ m, match f m with Sent x _ _ _ | Delivered x _ _ _ => x = k end) → events_of k (f <$> ms).
Proof using Type. intros Hf. apply Forall_fmap, Forall_true. exact Hf. Qed.

(** What a call does that is simulated by acts of the left side. *)
Definition simulated (s s' : System N) (h : list datagram) (es es' : list event) (l r : Side) : Prop :=
  ∃ xs l' h', (length xs ≤ 3)%nat ∧ Forall (λ x, action_ok x.2) xs ∧ run cfgl cfgr l r xs = Ok (l', r) ∧
    in_transit (network s') (h ++ h') ∧ same_sockets (network s) (network s') ∧
    mirrors s' (h ++ h') (es ++ es') i cfgl a b l' ∧ mirrors s' (h ++ h') (es ++ es') j cfgr b a r.

Context (s : System N) (h : list datagram) (es : list event) (l r : Side) (hl hr : half) (budget : Z).
Context (Hch : channel l r hl hr (budget + 3)) (Hbudget : 0 ≤ budget) (Hh : in_transit (network s) h).
Context (Hl : mirrors s h es i cfgl a b l) (Hr : mirrors s h es j cfgr b a r).

Lemma tick_simulated now s' es' : exec s (Tick i now) = Ok (s', es') → simulated s s' h es es' l r.
Proof using All.
  intros He. cbn [exec] in He. pose proof Hl as [(n & p & [Hn Hc Ha Hord Hf] & Hp) Hs Hd Hus Hud Hpl Hsm Hwf].
  rewrite Hn in He. apply Prelude.bind_Ok in He as ([[[net' n'] rel] unrel] & Ht & He). injection He as <- <-.
  destruct (tick_find _ _ _ _ _ _ _ _ _ Hh Ha Hord Ht) as (h' & Hh' & Hsock & [Hf1 Hf2] & Hord' & Hfrom & Hpeers).
  destruct (Hpeers _ _ Hf) as (m & m' & p1 & p2 & p' & Hdrop & Hreads & Hwrites & Hf').
  rewrite Hc in Hreads.
  destruct (tick_acts cfgl cfgr l r hl hr budget p h a b (incoming (network s) n) m now p1 m' p2 rel unrel p' h'
    Hch Hbudget Hp Hwf Hsm (mi_payloads _ _ _ _ _ _ _ _ Hr) (mi_small _ _ _ _ _ _ _ _ Hr) Hdrop Hreads Hwrites)
    as (xs & q & k & Hxs & Hok & Hrun & He & Hsm' & Hwf').
  exists xs, (mkSide q k (sent l) (delivered l ++ heard (incoming (network s) n) b rel) (unreliable_sent l)
    (unreliable_delivered l ++ heard (incoming (network s) n) b unrel) (payloads l ++ between a b h')), h'.
  split_and!; try done.
  - destruct (tick_events i b (incoming (network s) n) rel unrel true) as [Es Ed].
    destruct (tick_events i b (incoming (network s) n) rel unrel false) as [Eus Eud].
    split; cbn [peer metrics sent delivered unreliable_sent unreliable_delivered payloads]; try done.
    + exists n', p'. split; [|done]. split; cbn; [|congruence|by rewrite Hf1, Hsock|done|done].
      apply list_lookup_insert_eq. by eapply lookup_lt_Some.
    + by rewrite sent_to_app, Es, app_nil_r.
    + by rewrite got_from_app, Ed, Hd.
    + by rewrite sent_to_app, Eus, app_nil_r.
    + by rewrite got_from_app, Eud, Hud.
    + by rewrite between_app, Hpl.
  - eapply mirrors_frame; [exact Hr|by apply list_lookup_insert_ne|done| |].
    + apply between_nil. eapply Forall_impl; [exact Hfrom|]. simpl. intros d ->. by rewrite Hab.
    + intros k'. apply events_of_other. destruct (incoming _ _); [|by constructor].
      apply Forall_app. split; by apply events_of_fmap.
Qed.

(** Node [i] gets a new state, the network is left alone. *)
Lemma update_mirrors n n' es' xs l' :
  nodes s !! i = Some n → frame n n' → ordered (m_peers n') → events_of i es' →
  (length xs ≤ 3)%nat → Forall (λ x, action_ok x.2) xs → run cfgl cfgr l r xs = Ok (l', r) →
  (∃ p, find (m_peers n') b = Some p ∧ p ≡ peer l') →
  sent l' = sent l ++ sent_to i true b es' → unreliable_sent l' = unreliable_sent l ++ sent_to i false b es' →
  delivered l' = delivered l ++ got_from i true b es' →
  unreliable_delivered l' = unreliable_delivered l ++ got_from i false b es' →
  payloads l' = payloads l → metrics l' = metrics l →
  simulated s (mkSystem (network s) (<[i := n']> (nodes s))) h es es' l r.
Proof using All.
  intros Hn [Hf1 Hf2] Hord Hev Hxs Hok Hrun (p & Hp & He) Es Eus Ed Eud Epl Em.
  exists xs, l', []. rewrite app_nil_r. split_and!; try done.
  - destruct Hl as [(n0 & p0 & [Hn0 Hc Ha _ _] & _) Hs Hd Hus Hud Hpl Hsm Hm]. rewrite Hn in Hn0. injection Hn0 as <-.
    split; rewrite ?sent_to_app, ?got_from_app; try congruence.
    exists n', p. split; [|done]. split; cbn; try congruence. apply list_lookup_insert_eq. by eapply lookup_lt_Some.
  - pose proof (mirrors_frame s (mkSystem (network s) (<[i:=n']> (nodes s))) h [] es es' r Hr) as Hm.
    rewrite app_nil_r in Hm. apply Hm; [by apply list_lookup_insert_ne|done|done|].
    intros k. by apply events_of_other.
Qed.

Lemma send_simulated (reliable : bool) n ip f now n' :
  nodes s !! i = Some n → WriterOk f →
  (if reliable then send_reliable_to n ip f now else send_unreliable_to n ip f now) = Ok n' →
  simulated s (mkSystem (network s) (<[i := n']> (nodes s))) h es (Sent i reliable ip <$> handed_over n ip reliable f) l r.
Proof using All.
  intros Hn Hf Hsend. pose proof Hl as [(n0 & p0 & [Hn0 Hc Ha Hord Hp0] & Hpl) _ _ _ _ _ _ _].
  rewrite Hn in Hn0. injection Hn0 as <-.
  destruct (send_inv _ _ _ _ _ _ Hsend) as (p & q & Hp & -> & _ & Hact).
  assert (frame n (set_peer n ip q) ∧ ordered (m_peers (set_peer n ip q))) as [Hfr Hord']
    by (split; [done|by apply ordered_update]).
  assert (events_of i (Sent i reliable ip <$> handed_over n ip reliable f)) as Hev by (by apply events_of_fmap).
  pose proof (find_set_peer n ip q b ltac:(by rewrite Hp)) as Hfind. rewrite same_key_sym in Hfind.
  destruct (same_key ip b) eqn:Hs.
  - rewrite (find_same _ _ _ Hs), Hp0 in Hp. injection Hp as <-.
    destruct (Hact cfgl l (payloads r) Hpl) as (q' & Hq & He).
    set (l' := mkSide q' _ _ _ _ _ _) in Hq.
    eapply (update_mirrors _ _ _ [(true, if reliable then Send f else Channel.SendUnreliable f)] l'); try done; try (simpl; lia);
      [constructor; [by destruct reliable|done]|cbn [run]; by rewrite Hq|by exists q|..];
      unfold l'; cbn; event_lists; rewrite ?Hs, ?(bool_decide_eq_true_2 (i = i)) by done; by destruct reliable; rewrite ?app_nil_r.
  - eapply (update_mirrors _ _ _ [] l); try done; try (simpl; lia);
      [by exists p0; rewrite Hfind|..];
      event_lists; by rewrite ?Hs, ?andb_false_r, ?app_nil_r.
Qed.

Lemma connect_simulated n ip now :
  nodes s !! i = Some n → same_key ip b = false →
  simulated s (mkSystem (network s) (<[i := Neptun.connect n ip now]> (nodes s))) h es [] l r.
Proof using All.
  intros Hn Hs. pose proof Hl as [(n0 & p0 & [Hn0 Hc Ha Hord Hp0] & Hpl) _ _ _ _ _ _ _].
  rewrite Hn in Hn0. injection Hn0 as <-. unfold Neptun.connect.
  destruct (find_or_create_peer n 0 ip now) as [n1 q] eqn:Hcr.
  destruct (find_or_create_find _ _ _ _ _ _ Hcr Hord) as (Hfr & _ & Hord1 & Hq & Hkeep).
  eapply (update_mirrors _ _ _ [] l); try done; try (simpl; lia);
    [by apply ordered_update|by constructor| |by rewrite app_nil_r..].
  exists p0. split; [|done]. rewrite find_set_peer by (by rewrite Hq). rewrite same_key_sym, Hs. by apply Hkeep.
Qed.
End Simulation.

(** ** Whole runs *)

Section Whole.
Context `{Platform} {N : Type} `{HN : DatagramsOk N}.

(** Every node is bound, and nobody but nodes [i] and [j] has the addresses [a] and [b]. *)
Definition system_ok (s : System N) (i j : nat) (a b : IpAddress) : Prop :=
  ∀ k n, nodes s !! k = Some n → ordered (m_peers n) ∧
    ∃ x, socket_address (network s) (UdpSocket.m_fd (m_udp_socket n)) = Some x ∧
      (same_key x a = true → k = i) ∧ (same_key x b = true → k = j).

Definition caller (c : call) : option nat :=
  match c with
  | Connect i _ _ | SendReliable i _ _ _ | SendUnreliable i _ _ _ | Tick i _ => Some i
  | Foreign _ _ _ => None
  end.

Lemma system_ok_update s i j a b k n n' network' :
  system_ok s i j a b → nodes s !! k = Some n → frame n n' → ordered (m_peers n') →
  same_sockets (network s) network' → system_ok (mkSystem network' (<[k := n']> (nodes s))) i j a b.
Proof.
  intros Hok Hn [Hf _] Hord Hs k' m Hm. cbn in *. apply list_lookup_insert_Some in Hm as [(<- & <- & _)|[Hne Hm]].
  - split; [done|]. destruct (Hok _ _ Hn) as (_ & x & Hx & Hxa). exists x. by rewrite Hf, Hs.
  - destruct (Hok _ _ Hm) as (Ho & x & Hx & Hxa). split; [done|]. exists x. by rewrite Hs.
Qed.

(** What a call leaves alone. *)
Record outside (s s' : System N) (h h' : list datagram) (c : call) (es' : list event) (i j : nat) (a b : IpAddress) : Prop := {
  ou_ok : system_ok s' i j a b;
  ou_sockets : same_sockets (network s) (network s');
  ou_transit : in_transit (network s') (h ++ h');
  ou_nodes k : caller c ≠ Some k → nodes s' !! k = nodes s !! k;
  ou_events : ∀ k, caller c ≠ Some k → ∀ rel x, sent_to k rel x es' = [] ∧ got_from k rel x es' = [];
  ou_left : caller c ≠ Some i → between a b h' = [];
  ou_right : caller c ≠ Some j → between b a h' = [];
}.

Lemma from_between x a b h' :
  Forall (λ d, from d = x) h' → same_key x a = false → between a b h' = [].
Proof.
  intros Hf Hx. apply between_nil. eapply Forall_impl; [exact Hf|]. simpl. intros d ->. by rewrite Hx.
Qed.

(** A node's new state, for calls that leave the network alone. *)
Lemma outside_local s h c es' i j a b k n n' :
  system_ok s i j a b → in_transit (network s) h → caller c = Some k → nodes s !! k = Some n →
  frame n n' → ordered (m_peers n') → events_of k es' →
  outside s (mkSystem (network s) (<[k := n']> (nodes s))) h [] c es' i j a b.
Proof.
  intros Hok Hh Hc Hn Hf Hord Hev. split; try done.
  - by eapply system_ok_update.
  - by rewrite app_nil_r.
  - intros k' Hk'. cbn. apply list_lookup_insert_ne. congruence.
  - intros k' Hk' rel x. eapply events_of_other; [|exact Hev]. congruence.
Qed.

Lemma exec_outside s c s' es' h i j a b :
  exec s c = Ok (s', es') → system_ok s i j a b → in_transit (network s) h → call_ok s i j a b c →
  ∃ h', outside s s' h h' c es' i j a b.
Proof.
  intros He Hok Hh Hc.
  assert (es' = [] → s' = s → ∃ h', outside s s' h h' c es' i j a b) as Hnone.
  { intros -> ->. exists []. split; try done. by rewrite app_nil_r. }
  destruct c as [k ip now|k ip f now|k ip f now|k now|fd ip payload]; cbn [exec] in He.
  1-4: destruct (nodes s !! k) as [n|] eqn:Hn; [|injection He as <- <-; by apply Hnone].
  1-4: destruct (Hok _ _ Hn) as (Hord & x & Hx & Hxa & Hxb).
  - injection He as <- <-. exists []. unfold Neptun.connect.
    destruct (find_or_create_peer n 0 ip now) as [n1 q] eqn:Hcr.
    destruct (find_or_create_find _ _ _ _ _ _ Hcr Hord) as (Hfr & _ & Hord1 & _).
    eapply outside_local; try done; [by apply ordered_update|by constructor].
  - apply Prelude.bind_Ok in He as (n' & Hs & He). injection He as <- <-. exists [].
    destruct (send_inv true _ _ _ _ _ Hs) as (p & q & Hp & -> & _).
    eapply outside_local; try done; [by apply ordered_update|by apply events_of_fmap].
  - apply Prelude.bind_Ok in He as (n' & Hs & He). injection He as <- <-. exists [].
    destruct (send_inv false _ _ _ _ _ Hs) as (p & q & Hp & -> & _).
    eapply outside_local; try done; [by apply ordered_update|by apply events_of_fmap].
  - apply Prelude.bind_Ok in He as ([[[net' n'] rel] unrel] & Ht & He). injection He as <- <-.
    destruct (tick_find _ _ _ _ _ _ _ _ _ Hh Hx Hord Ht) as (h' & Hh' & Hsock & Hfr & Hord' & Hfrom & _).
    exists h'. split; try done.
    + by eapply system_ok_update.
    + intros k' Hk'. cbn in *. apply list_lookup_insert_ne. congruence.
    + intros k' Hk' r y. eapply (events_of_other k); [cbn in Hk'; congruence|].
      destruct (incoming _ _); [|by constructor]. apply Forall_app. split; by apply events_of_fmap.
    + intros Hi. eapply from_between; [exact Hfrom|]. apply not_true_iff_false. intros Hs%Hxa. cbn in Hi. congruence.
    + intros Hj. eapply from_between; [exact Hfrom|]. apply not_true_iff_false. intros Hs%Hxb. cbn in Hj. congruence.
  - apply Prelude.bind_Ok in He as ([net' size] & Hs & He). injection He as <- <-.
    destruct Hc as (x & Hx & Hxa & Hxb). destruct (send_datagram _ _ _ _ _ _ _ _ Hh Hx Hs) as [Hh' Hsock].
    eexists. split; [|done|exact Hh'|done|done|..].
    + intros k n Hn. destruct (Hok _ _ Hn) as (Ho & y & Hy & Hya). split; [done|]. exists y. cbn. by rewrite Hsock.
    + intros _. eapply from_between; [by apply Forall_singleton|done].
    + intros _. eapply from_between; [by apply Forall_singleton|done].
Qed.

(** A call of one of the two endpoints. *)
Lemma own_call_simulated i j a b cfgl cfgr s h es l r hl hr budget c s' es' :
  i ≠ j → same_key a b = false → channel l r hl hr (budget + 3) → 0 ≤ budget → in_transit (network s) h →
  mirrors s h es i cfgl a b l → mirrors s h es j cfgr b a r → caller c = Some i → call_ok s i j a b c →
  exec s c = Ok (s', es') → simulated i j a b cfgl cfgr s s' h es es' l r.
Proof.
  intros Hij Hab Hch Hb Hh Hl Hr Hcall Hc He.
  pose proof Hl as [(n & p & [Hn _ _ _ _] & _) _ _ _ _ _ _ _].
  destruct c as [k ip now|k ip f now|k ip f now|k now|fd ip payload]; cbn in Hcall; try done; injection Hcall as ->;
    [| | |by apply (tick_simulated i j a b cfgl cfgr Hij Hab s h es l r hl hr budget Hch Hb Hh Hl Hr now)]; cbn [exec] in He; rewrite Hn in He.
  - injection He as <- <-. apply (connect_simulated i j a b cfgl cfgr Hij Hab s h es l r hl hr budget Hch Hb Hh Hl Hr n ip now); [done|by apply Hc].
  - apply Prelude.bind_Ok in He as (n' & Hs & He). injection He as <- <-. 
    by apply (send_simulated i j a b cfgl cfgr Hij Hab s h es l r hl hr budget Hch Hb Hh Hl Hr true n ip f now n').
  - apply Prelude.bind_Ok in He as (n' & Hs & He). injection He as <- <-. 
    by apply (send_simulated i j a b cfgl cfgr Hij Hab s h es l r hl hr budget Hch Hb Hh Hl Hr false n ip f now n').
Qed.

(** The two endpoints and the channel between them. *)
Record paired (s : System N) (h : list datagram) (es : list event) (i j : nat) (a b : IpAddress)
    (cfgl cfgr : ConnectionManagerConfig) (l r : Side) : Prop := {
  pr_ok : system_ok s i j a b;
  pr_transit : in_transit (network s) h;
  pr_left : mirrors s h es i cfgl a b l;
  pr_right : mirrors s h es j cfgr b a r;
}.

Lemma call_ok_sym s i j a b c : call_ok s i j a b c → call_ok s j i b a c.
Proof. destruct c; try done; cbn; [tauto|]. intros (x & ? & ? & ?). by exists x. Qed.

Lemma exec_step i j a b cfgl cfgr s h es l r hl hr budget c s' es' :
  i ≠ j → same_key a b = false → channel l r hl hr (budget + 3) → 0 ≤ budget →
  paired s h es i j a b cfgl cfgr l r → call_ok s i j a b c → exec s c = Ok (s', es') →
  same_sockets (network s) (network s') ∧
  ∃ xs l' r' h', (length xs ≤ 3)%nat ∧ Forall (λ x, action_ok x.2) xs ∧ run cfgl cfgr l r xs = Ok (l', r') ∧
    paired s' (h ++ h') (es ++ es') i j a b cfgl cfgr l' r'.
Proof.
  intros Hij Hab Hch Hb [Hok Hh Hl Hr] Hc He.
  destruct (exec_outside _ _ _ _ _ _ _ _ _ He Hok Hh Hc) as (h' & [Hok' Hsock Hh' Hnodes Hev Hbl Hbr]).
  split; [done|]. destruct (decide (caller c = Some i)) as [Hi|Hi]; [|destruct (decide (caller c = Some j)) as [Hj|Hj]].
  - destruct (own_call_simulated i j a b cfgl cfgr s h es l r hl hr budget c s' es' Hij Hab Hch Hb Hh Hl Hr Hi Hc He)
      as (xs & l' & h1 & Hxs & Hokx & Hrun & Hh1 & _ & Hl' & Hr').
    by exists xs, l', r, h1.
  - apply channel_sym in Hch. rewrite same_key_sym in Hab. apply call_ok_sym in Hc.
    destruct (own_call_simulated j i b a cfgr cfgl s h es r l hr hl budget c s' es' ltac:(done) Hab Hch Hb Hh Hr Hl Hj Hc He)
      as (xs & r' & h1 & Hxs & Hokx & Hrun & Hh1 & _ & Hr' & Hl').
    exists (flip_sides xs), l, r', h1. split; [unfold flip_sides; by rewrite length_fmap|].
    split; [unfold flip_sides; by rewrite Forall_fmap|]. split; [by apply run_flip_sides|done].
  - exists [], l, r, h'. split_and!; try done; [simpl; lia|]. split; try done.
    + eapply mirrors_frame; [exact Hl|by apply Hnodes|done|by apply Hbl|]. intros k. by apply Hev.
    + eapply mirrors_frame; [exact Hr|by apply Hnodes|done|by apply Hbr|]. intros k. by apply Hev.
Qed.

Lemma call_ok_sockets s s' i j a b c :
  same_sockets (network s) (network s') → call_ok s i j a b c → call_ok s' i j a b c.
Proof. intros Hs. destruct c; try done. cbn. intros (x & Hx & ?). exists x. by rewrite Hs. Qed.

Lemma exec_all_simulated i j a b cfgl cfgr cs : ∀ s h es l r hl hr budget s' es',
  i ≠ j → same_key a b = false → channel l r hl hr (budget + 3 * len cs) → 0 ≤ budget →
  paired s h es i j a b cfgl cfgr l r → Forall (call_ok s i j a b) cs → exec_all s cs = Ok (s', es') →
  ∃ xs l' r' h', Forall (λ x, action_ok x.2) xs ∧ len xs ≤ 3 * len cs ∧ run cfgl cfgr l r xs = Ok (l', r') ∧
    paired s' (h ++ h') (es ++ es') i j a b cfgl cfgr l' r'.
Proof.
  induction cs as [|c cs IH]; intros s h es l r hl hr budget s' es' Hij Hab Hch Hb Hp Hc He; cbn [exec_all] in He.
  { injection He as <- <-. exists [], l, r, []. rewrite !app_nil_r. by split_and!. }
  apply Forall_cons in Hc as [Hc Hcs]. apply Prelude.bind_Ok in He as ([s1 es1] & H1' & He).
  apply Prelude.bind_Ok in He as ([s2 es2] & H2' & He). injection He as <- <-.
  rewrite length_cons in Hch |- *.
  destruct (exec_step i j a b cfgl cfgr s h es l r hl hr (budget + 3 * len cs) c s1 es1) as (Hsock & xs & l1 & r1 & h1 & Hxs & Hok & Hrun & Hp1);
    try done; [|lia|].
  { by replace (budget + 3 * len cs + 3) with (budget + 3 * Z.of_nat (S (length cs))) by lia. }
  replace (budget + 3 * Z.of_nat (S (length cs))) with ((budget + 3 * Z.of_nat (S (length cs)) - len xs) + len xs) in Hch by lia.
  destruct (run_channel cfgl cfgr xs _ _ _ _ _ _ _ Hch ltac:(lia) Hok Hrun) as (hl1 & hr1 & Hch1).
  replace (budget + 3 * Z.of_nat (S (length cs)) - len xs) with ((budget + 3 - len xs) + 3 * len cs) in Hch1 by lia.
  destruct (IH s1 (h ++ h1) (es ++ es1) l1 r1 hl1 hr1 (budget + 3 - len xs) s2 es2) as (ys & l2 & r2 & h2 & Hoky & Hys & Hrun2 & Hp2);
    try done; [lia| |].
  { eapply Forall_impl; [exact Hcs|]. intros c'. by apply call_ok_sockets. }
  exists (xs ++ ys), l2, r2, (h1 ++ h2). split; [by apply Forall_app|]. split; [rewrite length_app; lia|].
  split; [by rewrite (run_app _ _ _ _ _ _ _ _ Hrun)|]. by rewrite !app_assoc.
Qed.

(** Two connected nodes that have nothing of each other under way. *)
Record linked_up (s : System N) (i j : nat) (a b : IpAddress) (cfgl cfgr : ConnectionManagerConfig) (p q : Peer) : Prop := {
  lu_nodes : i ≠ j;
  lu_addresses : same_key a b = false;
  lu_ok : system_ok s i j a b;
  lu_left : ∃ n, node s i cfgl a b n p;
  lu_right : ∃ n, node s j cfgr b a n q;
  lu_transit : ∃ h, in_transit (network s) h ∧ between a b h = [] ∧ between b a h = [];
  lu_left_established : established p q;
  lu_right_established : established q p;
}.

Lemma linked_up_paired s i j a b cfgl cfgr p q :
  linked_up s i j a b cfgl cfgr p q →
  ∃ h, paired s h [] i j a b cfgl cfgr (start p no_metrics) (start q no_metrics).
Proof.
  intros [Hij Hab Hok [n Hn] [m Hm] (h & Hh & Hl & Hr) _ _].
  assert (wf NeptunMetricKey no_metrics) as Hwf by done.
  exists h. split; [done|done|split; cbn; try done; by do 2 eexists|split; cbn; try done; by do 2 eexists].
Qed.

(** What node [i] has handed over for [b] and node [j] has got from [a]. *)
Definition exactly_once_at (s : System N) (i j : nat) (a b : IpAddress) (es : list event) : Prop :=
  ∃ n p held kept, nodes s !! i = Some n ∧ find (m_peers n) b = Some p ∧
    sent_to i true b es = got_from j true a es ++ kept ∧
    outstanding (reliable_stream p) = held ++ kept ∧ held `suffix_of` got_from j true a es.

Lemma mirrors_exactly_once s h es i j cfgl cfgr a b l r :
  mirrors s h es i cfgl a b l → mirrors s h es j cfgr b a r → exactly_once l r →
  exactly_once_at s i j a b es.
Proof.
  intros [(n & p & [Hn _ _ _ Hp] & [t Hpl]%equiv_ticker) Hs _ _ _ _ _ _] [_ _ Hd _ _ _ _ _] (held & kept & E1 & E2 & E3).
  rewrite Hs, Hd in E1. rewrite Hd in E3. rewrite Hpl in E2. by exists n, p, held, kept.
Qed.

(** Every run of the calls of a system is, for two of its nodes, a run of [Channel]. *)
Lemma system_run cs s s' es i j a b cfgl cfgr p q :
  linked_up s i j a b cfgl cfgr p q →
  m_next_outgoing_packet_id (packet_delivery_manager p) + 3 * len cs < 2 ^ 32 →
  m_next_outgoing_packet_id (packet_delivery_manager q) + 3 * len cs < 2 ^ 32 →
  Forall (call_ok s i j a b) cs → exec_all s cs = Ok (s', es) →
  ∃ xs l r hl hr h, Forall (λ x, action_ok x.2) xs ∧ len xs ≤ 3 * len cs ∧
    run cfgl cfgr (start p no_metrics) (start q no_metrics) xs = Ok (l, r) ∧
    channel l r hl hr 0 ∧ paired s' h es i j a b cfgl cfgr l r.
Proof.
  intros Hlu Hbp Hbq Hcs He. destruct (linked_up_paired _ _ _ _ _ _ _ _ _ Hlu) as [h Hpair].
  destruct Hlu as [Hij Hab _ _ _ _ Hpq Hqp].
  assert (0 ≤ m_next_outgoing_packet_id (packet_delivery_manager p)) as Hpos.
  { destruct Hpq as [[x Hinv] _ _ _ _]. pose proof (si_resolved _ _ _ (PacketDeliveryManager.inv_sent _ _ _ Hinv)). lia. }
  assert (channel (start p no_metrics) (start q no_metrics) (half_of p) (half_of q) (0 + 3 * len cs)) as Hch
    by (apply channel_start; (done || lia)).
  destruct (exec_all_simulated i j a b cfgl cfgr cs s h [] _ _ _ _ 0 s' es Hij Hab Hch ltac:(lia) Hpair Hcs He)
    as (xs & l & r & h' & Hok & Hlen & Hrun & Hpair').
  replace (0 + 3 * len cs) with ((3 * len cs - len xs) + len xs) in Hch by lia.
  destruct (run_channel cfgl cfgr xs _ _ _ _ _ _ _ Hch ltac:(lia) Hok Hrun) as (hl & hr & Hch').
  exists xs, l, r, hl, hr, (h ++ h'). split_and!; try done. destruct Hch' as [? ? ? ? ?]. split; try done. lia.
Qed.

(** What a run of [Channel] says of the events. *)
Record in_order (i j : nat) (a b : IpAddress) (es : list event) : Prop := {
  io_reliable : got_from j true a es `prefix_of` sent_to i true b es;
  io_unreliable : got_from j false a es `sublist_of` sent_to i false b es;
}.

Lemma exactly_once_prefix s i j a b es : exactly_once_at s i j a b es → got_from j true a es `prefix_of` sent_to i true b es.
Proof. intros (n & p & held & kept & _ & _ & -> & _). by apply prefix_app_r. Qed.

Lemma paired_exactly_once s h es i j a b cfgl cfgr l r hl hr budget :
  paired s h es i j a b cfgl cfgr l r → channel l r hl hr budget →
  (exactly_once_at s i j a b es ∧ in_order i j a b es) ∧ (exactly_once_at s j i b a es ∧ in_order j i b a es).
Proof.
  assert (∀ i j a b cfgl cfgr l r hl hr, mirrors s h es i cfgl a b l → mirrors s h es j cfgr b a r → channel l r hl hr budget →
    exactly_once_at s i j a b es ∧ in_order i j a b es) as Hone.
  { clear. intros i j a b cfgl cfgr l r hl hr Hl Hr Hch.
    assert (exactly_once_at s i j a b es) as He by (eapply mirrors_exactly_once; [exact Hl|exact Hr|by eapply channel_exactly_once]).
    split; [done|]. split; [by eapply exactly_once_prefix|].
    rewrite <-(mi_unreliable_sent _ _ _ _ _ _ _ _ Hl), <-(mi_unreliable_delivered _ _ _ _ _ _ _ _ Hr). by eapply channel_unreliable. }
  intros [_ _ Hl Hr] Hch. split; [by eapply Hone|]. eapply Hone; [done|done|]. by apply channel_sym.
Qed.

(** C2: exactly once for the public calls. Two nodes of a system of any number of
    endpoints have just finished their handshake and nothing is under way between them.
    From there on every endpoint may connect, send and tick, except that the two do not
    call [connect] on each other again, and other programs may send from their own
    addresses, in any order; the network may lose, delay, duplicate and reorder datagrams,
    but forges none. When no call has failed, each of the two has got a prefix of the
    reliable messages the other has handed over, every other message is still held by its
    sender, and the unreliable messages got are some of those handed over, each at most
    once and in their order. *)
Theorem system_exactly_once cs s s' es i j a b cfgl cfgr p q :
  linked_up s i j a b cfgl cfgr p q →
  m_next_outgoing_packet_id (packet_delivery_manager p) + 3 * len cs < 2 ^ 32 →
  m_next_outgoing_packet_id (packet_delivery_manager q) + 3 * len cs < 2 ^ 32 →
  Forall (call_ok s i j a b) cs → exec_all s cs = Ok (s', es) →
  exactly_once_at s' i j a b es ∧ exactly_once_at s' j i b a es ∧
  got_from j false a es `sublist_of` sent_to i false b es ∧
  got_from i false b es `sublist_of` sent_to j false a es.
Proof.
  intros Hlu Hbp Hbq Hcs He.
  destruct (system_run cs s s' es i j a b cfgl cfgr p q Hlu Hbp Hbq Hcs He)
    as (xs & l & r & hl & hr & h & _ & _ & _ & Hch & Hpair).
  destruct (paired_exactly_once _ _ _ _ _ _ _ _ _ _ _ _ _ _ Hpair Hch) as [[Hl Il] [Hr Ir]].
  split; [done|]. split; [done|]. split; [apply Il|apply Ir].
Qed.

(** C3: the public calls refine the channel. Whatever the calls of a system do to two
    nodes that have just finished their handshake and do not connect to each other again,
    a run of at most three of the channel's actions per call does: the same peers up to
    their tickers, the same messages sent and got, and the channel's packets are the
    datagrams between the two addresses. *)
Theorem system_refines_channel cs s s' es i j a b cfgl cfgr p q :
  linked_up s i j a b cfgl cfgr p q →
  m_next_outgoing_packet_id (packet_delivery_manager p) + 3 * len cs < 2 ^ 32 →
  m_next_outgoing_packet_id (packet_delivery_manager q) + 3 * len cs < 2 ^ 32 →
  Forall (call_ok s i j a b) cs → exec_all s cs = Ok (s', es) →
  ∃ xs l r h, Forall (λ x, action_ok x.2) xs ∧ len xs ≤ 3 * len cs ∧
    run cfgl cfgr (start p no_metrics) (start q no_metrics) xs = Ok (l, r) ∧
    in_transit (network s') h ∧ mirrors s' h es i cfgl a b l ∧ mirrors s' h es j cfgr b a r.
Proof.
  intros Hlu Hbp Hbq Hcs He.
  destruct (system_run cs s s' es i j a b cfgl cfgr p q Hlu Hbp Hbq Hcs He)
    as (xs & l & r & hl & hr & h & Hok & Hlen & Hrun & _ & [_ Hh Hl Hr]).
  by exists xs, l, r, h.
Qed.
End Whole.

(** ** A run on the fake network *)

Section Witness.
#[local] Existing Instance little_endian.
#[local] Existing Instance FakeNetwork.fake_network.
#[local] Existing Instance tolerant.

Definition third_ip : IpAddress := from_u32 3232235532 3000.

(** The server and the client of the repository's tests after their handshake, all
    packets read, and a third endpoint. *)
Definition joined : result (System FakeNetwork.FakeNetwork) :=
  w ← connected config config;
  '(w, _, _) ← tick_client (with_network w (FakeNetwork.drop_packets (Scenarios.network w) true)) (200 * ms);
  '(n, third) ← Neptun.create (FakeNetwork.drop_packets (Scenarios.network w) false) third_ip config kDefaultPacketTimeout;
  Ok (mkSystem n [server w; client w; third]).

Definition quiet_client : Peer :=
  mkPeer (mkTicker (Some (200 * ms)) None 0)
    (mkPacketDeliveryManager 5000 4 3 [] [mkInFlightPacket 3 (200 * ms)])
    (mkConnectionManager config [] 0 false true true (Some (mkLimit 0 1400 0 800)))
    (ReliableStream.create ReliableStream.kDefaultCapacity) (UnreliableStream.create UnreliableStream.kDefaultCapacity).

Lemma quiet_established : established quiet_client client_at_server ∧ established client_at_server quiet_client.
Proof. split; split; try done; [exists 3|exists 2]; (split; [split; done|done|constructor|constructor]). Qed.

Lemma not_elem_of_nil_queue (m : map IpAddress (list FakeNetwork.PendingPacket)) ip k :
  Forall (λ q, q.2 = []) m → k ∉ default [] (find m ip).
Proof.
  intros Hm. induction Hm as [|[x q] m Hq _ IH]; [by apply not_elem_of_nil|]. cbn in *. subst q.
  case_match; [by apply not_elem_of_nil|done].
Qed.

Lemma joined_linked s : joined = Ok s → linked_up s 0 1 server_ip client_ip config config client_at_server quiet_client.
Proof.
  intros Hs. vm_compute in Hs. injection Hs as <-. split; [done|done| | | | | |].
  - intros [|[|[|k]]] n [= <-]; split; try (by repeat constructor); eexists; split_and!; try done; by intros.
  - eexists. split; [done|done|done|by repeat constructor|done].
  - eexists. split; [done|done|done|by repeat constructor|done].
  - exists []. split; [|done]. split; [done|]. intros ip k. unfold FakeNetwork.queue. cbn [FakeNetwork.m_buffers].
    intros Hk. exfalso. revert Hk. apply not_elem_of_nil_queue. by repeat constructor.
  - apply quiet_established.
  - apply quiet_established.
Qed.

Definition calls : list call :=
  [SendReliable 1 server_ip (write_message [1; 2; 3]) 300; SendUnreliable 0 client_ip (write_message [9]) 300;
   Connect 2 server_ip 300; Tick 1 (300 * ms); Tick 2 (300 * ms); Tick 0 (300 * ms);
   SendReliable 0 client_ip (write_message [4]) 300; Tick 0 (400 * ms); SendReliable 1 server_ip (write_message [5; 6]) 300;
   Tick 1 (400 * ms); Tick 1 (500 * ms); Tick 0 (500 * ms)].

Lemma calls_ok s : joined = Ok s → Forall (call_ok s 0 1 server_ip client_ip) calls.
Proof.
  intros _. unfold calls. repeat (apply Forall_cons; split); try apply Forall_nil_2; cbn [call_ok];
    first [apply write_message_ok|by split|done].
Qed.

Lemma system_exactly_once_witness :
  ∃ s s' es, joined = Ok s ∧ exec_all s calls = Ok (s', es) ∧
    got_from 0 true client_ip es = [[1; 2; 3]; [5; 6]] ∧ got_from 1 true server_ip es = [[4]] ∧
    exactly_once_at s' 0 1 server_ip client_ip es ∧ exactly_once_at s' 1 0 client_ip server_ip es.
Proof.
  destruct joined as [s|] eqn:Hs; [|by vm_compute in Hs].
  destruct (exec_all s calls) as [[s' es]|] eqn:He;
    [|exfalso; vm_compute in Hs; injection Hs as <-; by vm_compute in He].
  exists s, s', es. split; [done|]. split; [done|].
  split; [vm_compute in Hs; injection Hs as <-; vm_compute in He; by injection He as <- <-|].
  split; [vm_compute in Hs; injection Hs as <-; vm_compute in He; by injection He as <- <-|].
  destruct (system_exactly_once calls s s' es 0 1 server_ip client_ip config config client_at_server quiet_client
    (joined_linked s Hs) eq_refl eq_refl (calls_ok s Hs) He) as (Hl & Hr & _).
  exact (conj Hl Hr).
Defined.

Lemma system_refines_channel_witness :
  ∃ s s' es xs l r, joined = Ok s ∧ exec_all s calls = Ok (s', es) ∧
    run config config (start client_at_server no_metrics) (start quiet_client no_metrics) xs = Ok (l, r) ∧
    delivered l = got_from 0 true client_ip es ∧ delivered r = got_from 1 true server_ip es.
Proof.
  destruct joined as [s|] eqn:Hs; [|by vm_compute in Hs].
  destruct (exec_all s calls) as [[s' es]|] eqn:He;
    [|exfalso; vm_compute in Hs; injection Hs as <-; by vm_compute in He].
  destruct (system_refines_channel calls s s' es 0 1 server_ip client_ip config config client_at_server quiet_client
    (joined_linked s Hs) eq_refl eq_refl (calls_ok s Hs) He) as (xs & l & r & h & _ & _ & Hrun & _ & Hl & Hr).
  exists s, s', es, xs, l, r. exact (conj eq_refl (conj He (conj Hrun (conj (mi_delivered _ _ _ _ _ _ _ _ Hl) (mi_delivered _ _ _ _ _ _ _ _ Hr))))).
Defined.
End Witness.
