(* ===== verification/Ends.v ===== *)
(** * Ends: an endpoint with one peer on the fake network

    What the public calls of neptun/neptun.h do to an endpoint whose only peer is one
    side of a [Channel], over [FakeNetwork]: none of them fails, and each is a short
    run of the channel's actions. The relational side of this is in [System]; here the
    calls are shown to return, for clients ([Lossy], [Rounds]) that say when. *)
From Stdlib Require Import ZArith Lia Sorted.
From stdpp Require Import prelude strings.
From S2P Require Import Prelude Span IoBuffer FlipBuffer Messages ReliableStream PacketDeliveryManager ConnectionManager UnreliableStream Ticker Metrics IpAddress OrderedMap Network Neptun Datagrams Channel System.
Open Scope Z_scope.

(** ** Tickers that cannot overflow *)

(** [limited]: whether there may be an interval at all. The last tick, as far as the
    carried-over time tells it, lies in the range of [sane_time]. *)
Record ticker_ok (limited : bool) (t : Ticker) : Prop := {
  to_interval i : m_tick_interval t = Some i → 0 < i;
  to_free : limited = false → m_tick_interval t = None;
  to_last last : m_last_known_now t = Some last → sane_time last ∧ sane_time (last - m_time_since_last_tick t);
}.

Lemma tick_sane limited t now :
  ticker_ok limited t → sane_time now →
  ∃ t' b, Ticker.tick t now = Ok (t', b) ∧ ticker_ok limited t' ∧ (limited = false → b = true).
Proof.
  intros [Hi Hf Hl] Hnow.
  assert (∀ time, 0 ≤ now - time < 2 ^ 62 → ticker_ok limited (mkTicker (Some now) (m_tick_interval t) time)) as Hend.
  { intros time Ht. split; try done. cbn. by intros ? [= <-]. }
  unfold Ticker.tick, calc_elapsed_time. unfold sane_time in *.
  destruct (m_last_known_now t) as [last|]; [|do 2 eexists; split_and!; [done|apply Hend; lia|done]].
  destruct (Hl last eq_refl) as [Hs Hr]. rewrite i64_Ok by (unfold in_i64; lia). cbn [mbind result_bind].
  destruct (m_tick_interval t) as [i|]; [|do 2 eexists; split_and!; [done|apply Hend; lia|done]].
  specialize (Hi i eq_refl). rewrite i64_Ok by (unfold in_i64; lia). cbn [mbind result_bind].
  set (time := m_time_since_last_tick t + (now - last)).
  destruct (Z.leb_spec i time) as [Hge|]; [|do 2 eexists; split_and!; [done|apply Hend; lia|by intros ?%Hf]].
  unfold duration_rem. destruct (Z.eqb_spec i 0); [lia|]. destruct (Z.eqb_spec i (-1)); [lia|].
  rewrite andb_false_r. cbn [mbind result_bind].
  pose proof (Z.rem_bound_pos time i ltac:(lia) Hi). pose proof (Z.rem_le time i ltac:(lia) Hi).
  do 2 eexists. split_and!; [done|apply Hend; lia|done].
Qed.

Lemma update_send_rate_ticker limited p rate :
  0 ≤ rate < 256 → (limited = false → rate = 0) → ticker_ok limited (send_packet_ticker p) →
  ticker_ok limited (send_packet_ticker (update_send_rate p rate)).
Proof.
  intros Hr Hf [Hi Hn Hl]. unfold update_send_rate. destruct (Z.eqb_spec rate 0) as [|Hne]; [by split|].
  split; [|by intros ?%Hf|done]. cbn. intros ? [= <-]. apply Z.div_str_pos. lia.
Qed.

(** A ticker that was last asked at [last] and lets a packet out every [step] nanoseconds. *)
Record paced (step last : Z) (t : Ticker) : Prop := {
  pc_last : m_last_known_now t = Some last;
  pc_since : 0 ≤ m_time_since_last_tick t;
  pc_interval i : m_tick_interval t = Some i → i ≤ step;
}.

(** Asked again it stays paced, and one interval later it ticks. *)
Lemma tick_paced limited step last t now t' b :
  ticker_ok limited t → paced step last t → last ≤ now → Ticker.tick t now = Ok (t', b) →
  paced step now t' ∧ (last + step ≤ now → b = true).
Proof.
  intros [Hi _ Hs] [Hl Ht Hstep] Hle Htick.
  unfold Ticker.tick, calc_elapsed_time in Htick. rewrite Hl in Htick. cbn [mbind result_bind] in Htick.
  apply Prelude.bind_Ok in Htick as (e & He & Htick). apply Prelude.bind_Ok in He as (d & Hd & [= <-]).
  apply i64_inv in Hd as [-> _]. destruct (m_tick_interval t) as [i|] eqn:Ei; [|by injection Htick as <- <-].
  specialize (Hi i eq_refl). specialize (Hstep i eq_refl).
  apply Prelude.bind_Ok in Htick as (time & Hd & Htick). apply i64_inv in Hd as [-> _].
  destruct (Z.leb_spec i (m_time_since_last_tick t + (now - last))).
  - unfold duration_rem in Htick. destruct (Z.eqb_spec i 0); [lia|]. destruct (Z.eqb_spec i (-1)); [lia|].
    rewrite andb_false_r in Htick. cbn [mbind result_bind] in Htick. injection Htick as <- <-. split; [|done].
    split; [done| |by intros ? [= <-]]. apply Z.rem_nonneg; lia.
  - injection Htick as <- <-. split; [|lia]. split; [done|cbn; lia|by intros ? [= <-]].
Qed.

(** The time between two packets of an end of [cfg] with the manager [c]. *)
Definition pace (cfg : ConnectionManagerConfig) (c : ConnectionManager) : Z :=
  match peer_limit c with
  | Some l =>
      let rate := negotiated_rate (max_read_packet_rate l) (max_send_packet_rate (limit cfg)) in
      if rate =? 0 then 0 else 1000000000 / rate
  | None => 0
  end.

Lemma statuses_ticker `{Platform} sts : ∀ p m p' m',
  process_delivery_statuses p m sts = Ok (p', m') → send_packet_ticker p' = send_packet_ticker p.
Proof.
  induction sts as [|[i st] sts IH]; intros p m p' m' Hs; cbn [process_delivery_statuses] in Hs; [by inv_result|].
  apply Prelude.bind_Ok in Hs as ([p1 m1] & H1 & Hs). unfold process_delivery_status in H1. inv_result.
  by rewrite (IH _ _ _ _ Hs).
Qed.

(** Reading a packet may set the rate, nothing else. *)
Lemma read_packet_rate `{Platform} cfg p m buffer rest p' m' rel unrel :
  read_packet cfg p m buffer rest = Ok (p', m', rel, unrel) →
  send_packet_ticker p' = send_packet_ticker p ∨
  ∃ l, peer_limit (Neptun.connection_manager p') = Some l ∧
    send_packet_ticker p' = send_packet_ticker (update_send_rate p (negotiated_rate (max_read_packet_rate l) (max_send_packet_rate (limit cfg)))).
Proof.
  unfold read_packet. intros Hr.
  apply Prelude.bind_Ok in Hr as ([pdm [[count sts] i]] & _ & Hr). destruct (count =? 0); [inv_result; by left|].
  apply Prelude.bind_Ok in Hr as (b & _ & Hr). unfold read_segments in Hr.
  apply Prelude.bind_Ok in Hr as ([p1 m1] & Hs & Hr).
  pose proof (statuses_ticker _ _ _ _ _ Hs) as Ht. cbn in Ht.
  apply Prelude.bind_Ok in Hr as ([c r] & _ & Hr). destruct r; [|left; by inv_result].
  apply Prelude.bind_Ok in Hr as (b1 & _ & Hr). destruct (peer_limit c) as [l|] eqn:Hl; [|left; by inv_result].
  set (p2 := update_send_rate (with_cm p1 c) _) in Hr.
  assert (Neptun.connection_manager p2 = c) as Ec
    by (by destruct (reliable_stream_update_send_rate (with_cm p1 c) (negotiated_rate (max_read_packet_rate l) (max_send_packet_rate (limit cfg)))) as (_ & E & _ & _)).
  assert (send_packet_ticker p' = send_packet_ticker p2 ∧ Neptun.connection_manager p' = c) as [-> Ecm].
  { rewrite <-Ec. apply Prelude.bind_Ok in Hr as ([[s got] r] & _ & Hr). destruct r; [|by injection Hr as <- _ _ _].
    apply Prelude.bind_Ok in Hr as (b2 & _ & Hr). apply Prelude.bind_Ok in Hr as ([ugot r] & _ & Hr).
    destruct r; [|by injection Hr as <- _ _ _]. by apply Prelude.bind_Ok in Hr as (b3 & _ & [= <- _ _ _]). }
  right. exists l. rewrite Ecm. split; [done|]. unfold p2, update_send_rate. cbn. rewrite Ht. by destruct (_ =? 0).
Qed.

Lemma read_packet_ticker `{Platform} limited cfg p m buffer rest p' m' rel unrel :
  read_packet cfg p m buffer rest = Ok (p', m', rel, unrel) →
  (∀ l, peer_limit (Neptun.connection_manager p') = Some l →
    let rate := negotiated_rate (max_read_packet_rate l) (max_send_packet_rate (limit cfg)) in
    0 ≤ rate < 256 ∧ (limited = false → rate = 0)) →
  ticker_ok limited (send_packet_ticker p) → ticker_ok limited (send_packet_ticker p').
Proof.
  intros Hr Hlim Hok. destruct (read_packet_rate _ _ _ _ _ _ _ _ _ Hr) as [-> |(l & Hl & ->)]; [done|].
  destruct (Hlim l Hl). by apply update_send_rate_ticker.
Qed.

Lemma read_packet_paced `{Platform} cfg p m buffer rest p' m' rel unrel last :
  let step := pace cfg (Neptun.connection_manager p') in
  read_packet cfg p m buffer rest = Ok (p', m', rel, unrel) →
  paced step last (send_packet_ticker p) → paced step last (send_packet_ticker p').
Proof.
  intros step Hr [Hlast Hsince Hi]. destruct (read_packet_rate _ _ _ _ _ _ _ _ _ Hr) as [-> |(l & Hl & ->)]; [done|].
  unfold step, pace in *. rewrite Hl in *. cbv zeta in *. unfold update_send_rate. destruct (_ =? 0); [done|].
  split; [done|done|]. cbn. by intros ? [= <-].
Qed.

Lemma write_packet_ticker p buffer now p' buffer' sizes :
  write_packet p buffer now = Ok (p', buffer', sizes) → send_packet_ticker p' = send_packet_ticker p.
Proof.
  unfold write_packet. intros Hw. apply Prelude.bind_Ok in Hw as ([[pdm x1] x2] & _ & Hw).
  apply Prelude.bind_Ok in Hw as (view & _ & Hw). apply Prelude.bind_Ok in Hw as (j & _ & Hw).
  by apply Prelude.bind_Ok in Hw as ([y1 [[[[[c y2] u] m2] m3] m4]] & _ & [= <- _ _]).
Qed.

Section Managers.
Context `{Platform} (cfg : ConnectionManagerConfig) (a b : Side) (ha hb : half) (budget : Z).
Context (Hch : channel a b ha hb (budget + 1)) (Hbudget : 0 ≤ budget).

Lemma receive_manager (i : nat) rest a' :
  act cfg a (payloads b) (Receive i rest) = Ok a' →
  Neptun.connection_manager (peer a') = Neptun.connection_manager (peer a) ∧
  (m_in_flight_packets (packet_delivery_manager (peer a')) ⊆ m_in_flight_packets (packet_delivery_manager (peer a))) ∧
  PacketDeliveryManager.m_packet_timeout (packet_delivery_manager (peer a'))
  = PacketDeliveryManager.m_packet_timeout (packet_delivery_manager (peer a)).
Proof using Hch Hbudget.
  intros Hact. cbn [act] in Hact. destruct (payloads b !! i) as [payload|] eqn:Hpl; [|by injection Hact as <-].
  destruct (payload_packet a b ha hb budget Hch _ _ Hpl) as (k & Hi & -> & Hid & Hgood & Hrange).
  pose proof (bounds a b ha hb budget Hch Hbudget) as (Hna & Hnb & Hsa & Hsb & Hda & Hdb).
  pose proof Hch as [(r & first & leak & [_ _ _ Hpdm Hst _ Hidle _ _]) _ _ [_ Hx _ _ _ _] _].
  destruct (read_packet_honest cfg (peer a) (metrics a) r (next_id ha) (len (delivered a)) k rest
    (sent b) (h_accepted hb) Hpdm) as (q1 & q2 & pdm & Hq & Hpdm' & Hq2 & Hids & Hto & Hnext & Hread);
    [lia|done|lia|lia|lia|done|done|].
  assert (q2 ⊆ q1 ++ q2) as Hsub by (intros x Hin; apply elem_of_app; by right). rewrite <-Hq in Hsub.
  destruct (_ <=? _); destruct Hread as [_ Hread]; rewrite Hread in Hact; [|injection Hact as <-; cbn; by rewrite Hq2].
  inv_result. pose proof Hgood as [_ Hacks _ _ Hstart Hrel Hcount Hok Huok Hsize].
  match goal with H : read_segments _ _ _ _ _ _ = Ok _ |- _ => rename H into Hseg0; pose proof Hseg0 as Hseg end.
  unfold read_segments in Hseg. apply Prelude.bind_Ok in Hseg as ([p1 m1] & Hst1 & _).
  pose proof Hst1 as Hst2. eapply stream_statuses in Hst2 as (s & first' & -> & Hst' & He); [|exact Hst|exact Hidle|].
  2:{ intros x (y & [= -> Hy] & _)%list_elem_of_fmap. by apply Hacks. }
  destruct (read_segments_honest cfg _ _ _ _ _ (len (delivered a)) k (beyond rest) Hst1 Hidle) as (rate & got & Hseg & Hgot);
    try done; [by rewrite with_reliable_stream, He| | |].
  { unfold packet_bytes in Hsize. unfold body. list_lia. }
  { apply prefix_length in Hrel. split; list_lia. }
  rewrite Hseg in Hseg0. injection Hseg0 as <- <- <- <-.
  destruct (reliable_stream_update_send_rate (with_reliable (with_pdm (peer a) pdm) s) rate) as (E1 & E2 & E3 & E4).
  cbn. rewrite E1, E2. cbn. by split_and!.
Qed.

Lemma expire_manager now a' :
  act cfg a (payloads b) (Expire now) = Ok a' →
  Neptun.connection_manager (peer a') = Neptun.connection_manager (peer a) ∧
  sent a' = sent a ∧ delivered a' = delivered a ∧ unreliable_sent a' = unreliable_sent a ∧
  unreliable_delivered a' = unreliable_delivered a ∧ payloads a' = payloads a.
Proof using Hch.
  intros Hact. cbn [act] in Hact. unfold drop_peer, drop_old_packets in Hact. inv_result. split; [|done]. cbn.
  destruct Hch as [(r & first & leak & [_ _ _ _ Hst _ Hidle _ _]) _ _ _ _].
  match goal with H : PacketDeliveryManager.drop_loop _ _ _ _ = Ok _ |- _ =>
    apply drop_loop_inv in H as (q1 & Hq & ->) end.
  match goal with H : process_delivery_statuses _ _ _ = Ok _ |- _ =>
    eapply stream_statuses in H as (s & first' & -> & _ & _); [done|exact Hst|exact Hidle|] end.
  intros i (? & ? & _)%list_elem_of_fmap. done.
Qed.
End Managers.

(** ** An endpoint and its peer *)

(** What the limits of both sides, as the manager [c] has them, make of the packets. *)
Record limits_ok (limited : bool) (cfg : ConnectionManagerConfig) (c : ConnectionManager) (size : Z) : Prop := {
  lo_rate lim : peer_limit c = Some lim →
    let rate := negotiated_rate (max_read_packet_rate lim) (max_send_packet_rate (limit cfg)) in
    0 ≤ rate < 256 ∧ (limited = false → rate = 0);
  lo_size : match peer_limit c with
    | Some lim => Z.min kJustBelowMtu (Z.min (max_read_packet_size lim) (max_send_packet_size (limit cfg))) = size
    | None => Z.min kJustBelowMtu (max_send_packet_size (limit cfg)) = size
    end;
  lo_min : 22 ≤ size;
}.

Section Seat.
Context `{Platform} `{ByteOrder}.
Implicit Types (net : FakeNetwork.FakeNetwork).

(** The endpoint [n] is bound to [x] and has one peer, [y], which is the side [l] of a channel. *)
Record seat (limited : bool) net (n : Neptun) (x y : IpAddress) (size : Z) (l : Side) : Prop := {
  se_peer : ∃ p, m_peers n = [(y, p)] ∧ p ≡ peer l ∧ ticker_ok limited (send_packet_ticker p);
  se_socket : FakeNetwork.find_ip net (UdpSocket.m_fd (m_udp_socket n)) = Some x;
  se_buffer : len (m_network_buffer n) = kJustAboveMtu;
  se_metrics : wf NeptunMetricKey (m_metrics n);
  se_limits : limits_ok limited (m_connection_manager_config n) (Neptun.connection_manager (peer l)) size;
}.

(** With a rate limit: the ticker of the only peer is paced. *)
Definition rhythm (limited : bool) (n : Neptun) (step last : Z) : Prop :=
  limited = true → ∃ y p, m_peers n = [(y, p)] ∧ paced step last (send_packet_ticker p).

Definition mtu_ok net : Prop := kJustBelowMtu ≤ FakeNetwork.m_mtu net < 2 ^ 31.

Lemma equiv_manager p q : p ≡ q → Neptun.connection_manager p = Neptun.connection_manager q.
Proof. by intros [t ->]%equiv_ticker. Qed.

Lemma find_ip_bind net net' fd :
  FakeNetwork.m_bind net' = FakeNetwork.m_bind net → FakeNetwork.find_ip net' fd = FakeNetwork.find_ip net fd.
Proof. unfold FakeNetwork.find_ip. by intros ->. Qed.

Lemma seat_network limited net net' n x y size l :
  FakeNetwork.m_bind net' = FakeNetwork.m_bind net → seat limited net n x y size l → seat limited net' n x y size l.
Proof. intros Hb [? ? ? ? ?]. split; try done. by rewrite (find_ip_bind net). Qed.

Lemma size_limit_min limited cfg p size :
  limits_ok limited cfg (Neptun.connection_manager p) size → Z.min kJustBelowMtu (send_size_limit cfg p) = size.
Proof. intros [_ Hs _]. unfold send_size_limit. by destruct (peer_limit _). Qed.

Lemma size_range limited cfg c size : limits_ok limited cfg c size → 22 ≤ size ≤ 1400.
Proof. intros [_ Hs Hm]. unfold kJustBelowMtu in Hs. destruct (peer_limit c); lia. Qed.

(** What of the network an endpoint's call does not change. *)
Record same_network net net' : Prop := {
  sn_mtu : FakeNetwork.m_mtu net' = FakeNetwork.m_mtu net;
  sn_bind : FakeNetwork.m_bind net' = FakeNetwork.m_bind net;
  sn_drops : FakeNetwork.m_should_drop_packets net' = FakeNetwork.m_should_drop_packets net;
}.

#[export] Instance same_network_trans : PreOrder same_network.
Proof. split; [by split|]. intros x y z [] []. split; congruence. Qed.

Lemma read_same_network net fd buffer net' buffer' r :
  FakeNetwork.read_from_socket net fd buffer = Ok (net', buffer', r) → same_network net net'.
Proof.
  unfold FakeNetwork.read_from_socket. destruct (FakeNetwork.find_ip net fd); [|done].
  destruct (index _ _ _) as [? [|? ?]]; [by intros [= <- _ _]|].
  destruct (index _ _ _), (FakeNetwork.copy_loop _ _ _). intros Hr. by inv_result.
Qed.

Lemma send_same_network net fd ip payload net' size :
  FakeNetwork.send_to net fd ip payload = Ok (net', size) → same_network net net'.
Proof.
  unfold FakeNetwork.send_to. destruct (FakeNetwork.find_ip net fd); [|done].
  destruct (index _ _ _), (FakeNetwork.m_should_drop_packets net) eqn:Hd; [by intros [= <- _]|].
  destruct (index _ _ _). by intros [= <- _].
Qed.

Lemma mtu_ok_same net net' : same_network net net' → mtu_ok net → mtu_ok net'.
Proof. unfold mtu_ok. by intros [-> _ _]. Qed.

(** A packet that is sent arrives behind the others, or not at all. *)
Lemma fake_send net fd x ip payload :
  FakeNetwork.find_ip net fd = Some x → mtu_ok net → len payload ≤ kJustBelowMtu →
  ∃ net', FakeNetwork.send_to net fd ip payload = Ok (net', len payload) ∧ same_network net net' ∧
    ∀ k, FakeNetwork.queue net' k
         = if same_key k ip && negb (FakeNetwork.m_should_drop_packets net)
           then FakeNetwork.queue net k ++ [FakeNetwork.mkPacket x payload] else FakeNetwork.queue net k.
Proof.
  intros Hx [Hmtu Hm] Hlen. unfold kJustBelowMtu in *. destruct (FakeNetwork.m_should_drop_packets net) eqn:Hd.
  - unfold FakeNetwork.send_to. rewrite Hx. destruct (index _ _ _). rewrite Hd. eexists. split; [done|].
    split; [by split|]. intros k. by rewrite andb_false_r.
  - destruct (FakeNetwork.send_to_Ok net fd ip payload x Hx Hd ltac:(lia)) as (net' & Hs & _ & Hq).
    exists net'. split; [done|]. split; [by eapply send_same_network|]. intros k. rewrite andb_true_r, Hq.
    by rewrite take_ge by lia.
Qed.

(** A packet that is written goes out to [ip]. *)
Lemma write_to_peer_Ok net n now x ip p limit size p' b n1 n2 n3 n4 :
  FakeNetwork.find_ip net (UdpSocket.m_fd (m_udp_socket n)) = Some x → mtu_ok net →
  len (m_network_buffer n) = kJustAboveMtu → Z.min kJustBelowMtu limit = size →
  write_packet p (ztake size (m_network_buffer n)) now = Ok (p', b, (n1, n2, n3, n4)) →
  len b = size → 0 ≤ n1 + n2 + n3 + n4 ≤ size →
  ∃ net', write_to_peer net n now ip p limit
      = Ok (net', with_network_buffer n (b ++ zdrop size (m_network_buffer n)), p') ∧ same_network net net' ∧
    ∀ k, FakeNetwork.queue net' k
         = if same_key k ip && negb (FakeNetwork.m_should_drop_packets net)
           then FakeNetwork.queue net k ++ [FakeNetwork.mkPacket x (ztake (n1 + n2 + n3 + n4) b)]
           else FakeNetwork.queue net k.
Proof using Type.
  intros Ha Hmtu Hb Hsize Hw Hlen Hsum. unfold kJustAboveMtu in Hb. unfold kJustBelowMtu in Hsize.
  unfold write_to_peer, kJustBelowMtu. rewrite Hsize. rewrite span_range_Ok by lia. cbn [mbind result_bind].
  rewrite Z.sub_0_r. change (zdrop 0 ?l) with l. rewrite Hw. cbn [mbind result_bind].
  rewrite span_range_Ok by list_lia. cbn [mbind result_bind].
  rewrite Z.sub_0_r. change (zdrop 0 ?l) with l. rewrite take_app_le by lia.
  set (payload := ztake _ b).
  assert (len payload ≤ kJustBelowMtu) as Hpay by (unfold payload, kJustBelowMtu; rewrite length_take; lia).
  unfold UdpSocket.send_to. cbn [Network.send_to FakeNetwork.fake_network].
  destruct (fake_send net _ x ip payload Ha Hmtu Hpay) as (net' & -> & Hsame & Hq).
  cbn [mbind result_bind]. rewrite assert_that_true by (by apply Z.eqb_eq). by exists net'.
Qed.

(** What [read] does when nothing waits, and when a packet does. *)
Lemma read_fake_nothing net n now x :
  FakeNetwork.find_ip net (UdpSocket.m_fd (m_udp_socket n)) = Some x → len (m_network_buffer n) = kJustAboveMtu →
  FakeNetwork.queue net x = [] →
  ∃ net', Neptun.read net n now = Ok (net', n, [], []) ∧ incoming net n = None ∧ same_network net net' ∧
    ∀ k, FakeNetwork.queue net' k = FakeNetwork.queue net k.
Proof using Type.
  intros Ha Hb Hq. unfold Neptun.read, incoming. unfold kJustAboveMtu in *.
  rewrite span_range_Ok by lia. cbn [mbind result_bind]. unfold UdpSocket.read.
  cbn [Network.read_from_socket FakeNetwork.fake_network]. set (span := ztake (1600 - 0) _).
  destruct (FakeNetwork.read_from_socket_Ok net _ span x Ha) as (net' & buffer' & found & Hr & _ & Hcase).
  rewrite Hr. cbn [mbind result_bind]. pose proof (read_same_network _ _ _ _ _ _ Hr) as Hsame.
  rewrite Hq in Hcase. destruct Hcase as (-> & -> & Hq').
  assert (with_network_buffer n (span ++ zdrop 1600 (m_network_buffer n)) = n) as ->.
  { unfold span. change (zdrop 0 ?l) with l. change (1600 - 0) with 1600. rewrite take_drop. by destruct n. }
  by exists net'.
Qed.

Lemma read_fake_packet net n now x s payload rest_q n1 p p' m' rel unrel :
  FakeNetwork.find_ip net (UdpSocket.m_fd (m_udp_socket n)) = Some x → len (m_network_buffer n) = kJustAboveMtu →
  FakeNetwork.queue net x = FakeNetwork.mkPacket s payload :: rest_q → len payload ≤ kJustBelowMtu →
  find_or_create_peer (with_network_buffer n (payload ++ zdrop (len payload) (m_network_buffer n))) 0 s now = (n1, p) →
  read_packet (m_connection_manager_config n) p (m_metrics n) payload (zdrop (len payload) (m_network_buffer n))
  = Ok (p', m', rel, unrel) →
  ∃ net', Neptun.read net n now = Ok (net', with_metrics (set_peer n1 s p') m', rel, unrel) ∧
    incoming net n = Some s ∧ same_network net net' ∧
    ∀ k, FakeNetwork.queue net' k = if same_key k x then rest_q else FakeNetwork.queue net k.
Proof using Type.
  intros Ha Hb Hq Hlen Hfind Hread. unfold Neptun.read, incoming. unfold kJustAboveMtu, kJustBelowMtu in *.
  rewrite span_range_Ok by lia. cbn [mbind result_bind]. unfold UdpSocket.read.
  cbn [Network.read_from_socket FakeNetwork.fake_network]. set (span := ztake (1600 - 0) _).
  assert (span = m_network_buffer n) as Hspan by (unfold span; change (zdrop 0 ?l) with l; apply take_ge; lia).
  destruct (FakeNetwork.read_from_socket_Ok net _ span x Ha) as (net' & buffer' & info & Hr & _ & Hcase).
  rewrite Hr. cbn [mbind result_bind]. pose proof (read_same_network _ _ _ _ _ _ Hr) as Hsame.
  rewrite Hq in Hcase. cbn [FakeNetwork.payload FakeNetwork.sender] in Hcase.
  rewrite (take_ge payload) in Hcase by (rewrite Hspan; lia). destruct Hcase as (-> & -> & Hq').
  rewrite Hspan, (drop_ge (m_network_buffer n) (Z.to_nat 1600)) by lia. rewrite app_nil_r.
  assert (with_network_buffer n (payload ++ drop (length payload) (m_network_buffer n))
    = with_network_buffer n (payload ++ zdrop (len payload) (m_network_buffer n))) as -> by (by rewrite Nat2Z.id).
  rewrite Hfind. assert (m_connection_manager_config n1 = m_connection_manager_config n ∧ m_metrics n1 = m_metrics n ∧
    m_network_buffer n1 = payload ++ zdrop (len payload) (m_network_buffer n)) as (-> & -> & ->).
  { unfold find_or_create_peer in Hfind. destruct (find _ _); by injection Hfind as <- _. }
  rewrite !Nat2Z.id, take_app_length, drop_app_length in *. rewrite Hread. cbn [mbind result_bind]. by exists net'.
Qed.

(** ** The parts of a tick *)

Section Steps.
Context (limited : bool) (n : Neptun) (x y : IpAddress) (size : Z) (l r : Side) (hl hr : half) (budget : Z).
Context (Hch : channel l r hl hr (budget + 1)) (Hbudget : 0 ≤ budget) (Hlive : live l).
Let cfg := m_connection_manager_config n.

Lemma expire_seat net now :
  seat limited net n x y size l → sane_time now →
  ∃ peers m l', drop_loop (m_peers n) (m_metrics n) now = Ok (peers, m) ∧
    act cfg l (payloads r) (Expire now) = Ok l' ∧ seat limited net (with_metrics (with_peers n peers) m) x y size l' ∧
    ∀ step last, rhythm limited n step last → rhythm limited (with_metrics (with_peers n peers) m) step last.
Proof using Hch Hbudget Hlive.
  intros [(p & Hp & Hpl & Htick) Ha Hb Hm Hlim] Hnow.
  destruct (expire_total cfg l r hl hr budget Hch Hbudget Hlive now) as (l' & Hact & _ & _).
  destruct (expire_manager cfg l r hl hr budget Hch now l' Hact) as [Ecm _].
  pose proof Hact as Hact'. cbn [act] in Hact'. apply Prelude.bind_Ok in Hact' as ([q k] & Hd & [= <-]).
  destruct (drop_peer_equiv (peer l) p (metrics l) (m_metrics n) now _ _ Hd) as (p' & m' & Hd' & He & Hm'); [done|done|].
  rewrite Hp. cbn [drop_loop]. rewrite Hd'. cbn [mbind result_bind]. do 3 eexists. split; [done|]. split; [exact Hact|].
  unfold drop_peer in Hd'. apply Prelude.bind_Ok in Hd' as ([pdm sts] & _ & Hs). apply statuses_ticker in Hs. cbn in Hs.
  split; [split; try done; [|by rewrite Ecm]|].
  - exists p'. by rewrite Hs.
  - intros step last Hrh El. destruct (Hrh El) as (y' & q' & Eq & Hq'). rewrite Hp in Eq. injection Eq as <- <-.
    exists y, p'. by rewrite Hs.
Qed.

(** What a read finds: nothing, or the packet [i] of the other side. *)
Definition arrives (k : FakeNetwork.PendingPacket) (i : nat) : Prop :=
  same_key (FakeNetwork.sender k) y = true ∧ payloads r !! i = Some (FakeNetwork.payload k) ∧
  len (FakeNetwork.payload k) ≤ kJustBelowMtu.

Record read_result net net' (n' : Neptun) (l' : Side) : Prop := {
  rr_seat : seat limited net' n' x y size l';
  rr_network : same_network net net';
  rr_config : m_connection_manager_config n' = cfg;
  rr_manager : Neptun.connection_manager (peer l') = Neptun.connection_manager (peer l);
  rr_rhythm last : let step := pace cfg (Neptun.connection_manager (peer l)) in
    rhythm limited n step last → rhythm limited n' step last;
}.

Lemma read_nothing net now :
  seat limited net n x y size l → FakeNetwork.queue net x = [] →
  ∃ net' n', Neptun.read net n now = Ok (net', n', [], []) ∧ incoming net n = None ∧ read_result net net' n' l ∧
    ∀ k, FakeNetwork.queue net' k = FakeNetwork.queue net k.
Proof using Type.
  intros Hseat Hq. pose proof Hseat as [_ Ha Hb _ _].
  destruct (read_fake_nothing net n now x Ha Hb Hq) as (net' & Hr & Hin & Hsame & Hq').
  exists net', n. split; [done|]. split; [done|]. split; [|done]. split; try done. by eapply seat_network; [apply Hsame|].
Qed.

Lemma read_waiting net now (i : nat) packet rest_q :
  seat limited net n x y size l → expects l hr i →
  FakeNetwork.queue net x = packet :: rest_q → arrives packet i →
  ∃ net' n' rel unrel l' rest, Neptun.read net n now = Ok (net', n', rel, unrel) ∧
    incoming net n = Some (FakeNetwork.sender packet) ∧ act cfg l (payloads r) (Receive i rest) = Ok l' ∧
    delivered l' = delivered l ++ rel ∧ unreliable_delivered l' = unreliable_delivered l ++ unrel ∧
    read_result net net' n' l' ∧
    ∀ k, FakeNetwork.queue net' k = if same_key k x then rest_q else FakeNetwork.queue net k.
Proof using Hch Hbudget Hlive.
  intros [(p & Hp & Hpl & Htick) Ha Hb Hm Hlim] He Hq (Hs & Hpay & Hlen).
  destruct packet as [s payload]. cbn [FakeNetwork.sender FakeNetwork.payload] in *.
  set (rest := zdrop (len payload) (m_network_buffer n)).
  destruct (receive_total cfg l r hl hr budget Hch Hbudget Hlive i rest He) as (l' & Hact & _ & _).
  destruct (receive_manager cfg l r hl hr budget Hch Hbudget _ _ _ Hact) as (Ecm & _ & _).
  pose proof Hact as Hact'. cbn [act] in Hact'. rewrite Hpay in Hact'.
  apply Prelude.bind_Ok in Hact' as ([[[q m] rel] unrel] & Hrp & [= <-]).
  destruct (read_packet_equiv _ _ p _ (m_metrics n) _ _ _ _ _ _ Hrp) as (p' & m' & Hrp' & Heq & Hm'); [done|done|].
  set (n1 := with_network_buffer n (payload ++ rest)).
  destruct (read_fake_packet net n now x s payload rest_q n1 p p' m' rel unrel Ha Hb Hq Hlen) as (net' & Hr & Hin & Hsame & Hq').
  { unfold find_or_create_peer. fold rest n1. change (m_peers n1) with (m_peers n). rewrite Hp. cbn [find]. by rewrite Hs. }
  { exact Hrp'. }
  do 6 eexists. split; [done|]. split; [done|]. split; [exact Hact|]. split; [done|]. split; [done|]. split; [|done].
  unfold kJustAboveMtu in *. unfold kJustBelowMtu in Hlen.
  assert (Neptun.connection_manager p' = Neptun.connection_manager (peer l)) as Ep
    by (etrans; [symmetry; exact (equiv_manager _ _ Heq)|exact Ecm]).
  assert (m_peers (with_metrics (set_peer n1 s p') m') = [(y, p')]) as Hp' by (cbn; rewrite Hp; cbn [update]; by rewrite Hs).
  split; try done.
  - split; try done; [|by rewrite (find_ip_bind net) by apply Hsame|cbn; unfold rest, kJustAboveMtu; rewrite length_app, length_drop; lia|by rewrite Ecm].
    exists p'. split; [done|]. split; [done|]. eapply read_packet_ticker; [exact Hrp'| |done]. rewrite Ep. apply Hlim.
  - intros last step Hrh El. destruct (Hrh El) as (y' & q' & Eq & Hpc'). rewrite Hp in Eq. injection Eq as <- <-.
    exists y, p'. split; [done|]. unfold step in *. rewrite <-Ep in *. by eapply read_packet_paced.
Qed.

(** What the writing part does: a packet goes out, or the ticker does not allow it. *)
Inductive write_result net now (net' : FakeNetwork.FakeNetwork) : Side → list action → Prop :=
  | write_not : limited = true → net' = net → write_result net now net' l []
  | write_packet_out l' buffer payload :
      act cfg l (payloads r) (Flush buffer now) = Ok l' → len buffer = size →
      payloads l' = payloads l ++ [payload] → len payload ≤ kJustBelowMtu → same_network net net' →
      (∀ k, FakeNetwork.queue net' k
            = if same_key k y && negb (FakeNetwork.m_should_drop_packets net)
              then FakeNetwork.queue net k ++ [FakeNetwork.mkPacket x payload] else FakeNetwork.queue net k) →
      write_result net now net' l' [Flush buffer now].

Lemma flush_manager buffer now l' :
  12 ≤ len buffer ≤ 1793 → act cfg l (payloads r) (Flush buffer now) = Ok l' →
  Neptun.connection_manager (peer l') = Neptun.connection_manager (peer l).
Proof using Hch Hbudget.
  intros Hbuf Hact. destruct (act_flush cfg l r hl hr budget Hch Hbudget buffer now l' Hbuf Hact) as (k & first & _ & Hk & _ & _).
  destruct (channel_peer_ok l r hl hr budget Hch) as (resolved & first' & leak & Hs & Hok).
  apply (po_handshake _ _ _ _ _ _ Hk). rewrite (idle_num _ (sn_idle _ _ _ _ _ _ _ _ _ Hs)). lia.
Qed.

(** A packet of the stack goes out. *)
Lemma write_to_peer_seat net now p t :
  seat limited net n x y size l → mtu_ok net → sane_time now → p ≡ peer l →
  ∃ net' n' p' l' buffer payload,
    write_to_peer net n now y (with_ticker p t) (send_size_limit cfg p) = Ok (net', n', p') ∧
    send_packet_ticker p' = t ∧ p' ≡ peer l' ∧ len (m_network_buffer n') = kJustAboveMtu ∧
    (∃ b, n' = with_network_buffer n b) ∧
    write_result net now net' l' [Flush buffer now] ∧ payloads l' = payloads l ++ [payload].
Proof using Hch Hbudget Hlive.
  intros [_ Ha Hb Hm Hlim] Hmtu Hnow Hpl.
  pose proof (size_range _ _ _ _ Hlim) as Hsz.
  set (buffer := ztake size (m_network_buffer n)).
  assert (len buffer = size) as Hbuf by (unfold buffer; rewrite length_take; unfold kJustAboveMtu in Hb; lia).
  destruct (flush_total cfg l r hl hr budget Hch Hbudget Hlive buffer now ltac:(lia) Hnow) as (l' & Hact & _ & _).
  destruct (channel_peer_ok l r hl hr budget Hch) as (resolved & first & leak & Hs & Hok).
  pose proof (ch_budget _ _ _ _ _ Hch) as Hbd. pose proof (sn_idle _ _ _ _ _ _ _ _ _ Hs) as Hidle.
  destruct (write_packet_Ok _ _ _ _ _ buffer now Hok ltac:(lia)) as (q' & b1 & k2 & k3 & k4 & k' & leak' & Hw & Hlen & ? & ? & ? & Hfit & _);
    [left; rewrite (idle_num _ Hidle); lia|lia|].
  pose proof Hact as Hact'. cbn [act] in Hact'. rewrite Hw in Hact'. cbn [mbind result_bind] in Hact'. injection Hact' as <-.
  destruct (write_packet_equiv _ (with_ticker p t) _ _ _ _ _ Hw) as (p' & Hwp & Heq); [by symmetry|].
  pose proof (write_packet_ticker _ _ _ _ _ _ Hwp) as Ht. cbn in Ht.
  destruct (write_to_peer_Ok net n now x y (with_ticker p t) (send_size_limit cfg p) size p' b1 12 k2 k3 k4)
    as (net' & -> & Hsame & Hq); try done; try lia; [by apply (size_limit_min limited); rewrite (equiv_manager p (peer l) Hpl)|].
  eexists net', _, p', (mkSide q' _ _ _ _ _ _), buffer, _. split; [done|]. split; [done|]. split; [by symmetry|].
  split; [cbn; unfold kJustAboveMtu in *; rewrite length_app, length_drop; lia|].
  split; [by eexists|]. split; [|done]. eapply (write_packet_out net now net' _ buffer _); try done.
  rewrite length_take. unfold kJustBelowMtu. lia.
Qed.

Lemma write_seat net now :
  seat limited net n x y size l → mtu_ok net → sane_time now →
  ∃ net' n' l' wr, Neptun.write net n now = Ok (net', n') ∧ seat limited net' n' x y size l' ∧
    m_connection_manager_config n' = cfg ∧ write_result net now net' l' wr ∧
    Neptun.connection_manager (peer l') = Neptun.connection_manager (peer l) ∧
    ∀ step last, 0 ≤ step → rhythm limited n step last → (limited = true → last + step ≤ now) →
      (∃ buffer, wr = [Flush buffer now]) ∧ rhythm limited n' step now.
Proof using Hch Hbudget Hlive.
  intros Hseat Hmtu Hnow. pose proof Hseat as [(p & Hp & Hpl & Htick) Ha Hb Hm Hlim].
  pose proof (size_range _ _ _ _ Hlim) as Hsz.
  unfold Neptun.write. rewrite Hp. cbn [write_loop]. unfold write_peer.
  destruct (tick_sane limited _ now Htick Hnow) as (t & ticked & Et & Hok & Hfree). rewrite Et. cbn [mbind result_bind].
  assert (∀ step last, 0 ≤ step → rhythm limited n step last → (limited = true → last + step ≤ now) →
    ticked = true ∧ (limited = true → paced step now t)) as Hrh.
  { intros step last Hpos Hr Hdue. destruct limited; [|by rewrite Hfree]. destruct (Hr eq_refl) as (y' & q' & Eq & Hq').
    rewrite Hp in Eq. injection Eq as <- <-. specialize (Hdue eq_refl). assert (last ≤ now) as Hle by lia.
    destruct (tick_paced _ _ _ _ _ _ _ Htick Hq' Hle Et) as [Hpc ->]; [by split|done]. }
  destruct (ticked || negb (is_fully_connected (connection_manager (with_ticker p t)))) eqn:Hgo.
  - destruct (write_to_peer_seat net now p t Hseat Hmtu Hnow Hpl)
      as (net' & n' & p' & l' & buffer & payload & Hw & Ht & He & Hbuf & (b & ->) & Hres & _).
    fold cfg. rewrite Hw. cbn [mbind result_bind].
    assert (same_network net net' ∧ Neptun.connection_manager (peer l') = Neptun.connection_manager (peer l)) as [Hsame Ecm].
    { inversion_clear Hres as [|? ? ? Hact Hlen]. split; [done|]. eapply flush_manager; [|exact Hact]. lia. }
    do 4 eexists. split; [done|]. split; [|split; [done|split; [exact Hres|split; [done|]]]].
    + split; try done; [|by rewrite (find_ip_bind net) by apply Hsame|by rewrite Ecm].
      exists p'. by rewrite Ht.
    + intros step last Hpos Hr Hdue. destruct (Hrh step last Hpos Hr Hdue) as [_ Hpc]. split; [by eexists|].
      intros El. exists y, p'. rewrite Ht. by split; [|apply Hpc].
  - cbn [mbind result_bind]. destruct limited eqn:El.
    + exists net, (with_peers n [(y, with_ticker p t)]), l, []. split; [done|].
      split; [split; try done; by exists (with_ticker p t)|]. split; [done|]. split; [by constructor|]. split; [done|].
      intros step last Hpos Hr Hdue. by destruct (Hrh step last Hpos Hr Hdue) as [-> _].
    + by rewrite (Hfree eq_refl) in Hgo.
Qed.
End Steps.

(** ** A tick *)

Lemma channel_less l r hl hr budget budget' : channel l r hl hr budget → 0 ≤ budget' ≤ budget → channel l r hl hr budget'.
Proof. intros [? ? ? ? ?] Hb. split; try done. lia. Qed.

(** The packets of [r] that wait for [x], by their numbers: in order, and none before the
    [i]-th. *)
Record inbox net (x y : IpAddress) (r : Side) (i : nat) (js : list nat) : Prop := {
  ib_packets : Forall2 (arrives y r) (FakeNetwork.queue net x) js;
  ib_sorted : StronglySorted lt js;
  ib_from : Forall (le i) js;
}.

Definition after (i : nat) (js : list nat) : nat := match js with [] => i | j :: _ => S j end.

Lemma inbox_tail net net' x y r i js :
  inbox net x y r i js → FakeNetwork.queue net' x = tail (FakeNetwork.queue net x) → inbox net' x y r (after i js) (tail js).
Proof.
  intros [Hp Hs Hf] Hq. destruct Hp as [|k j ks js Hk Hp]; split; rewrite ?Hq; try done; by inversion_clear Hs.
Qed.

Lemma flush_sides cfg a other buffer now a' :
  act cfg a other (Flush buffer now) = Ok a' →
  delivered a' = delivered a ∧ sent a' = sent a ∧ unreliable_delivered a' = unreliable_delivered a ∧
  unreliable_sent a' = unreliable_sent a.
Proof. cbn [act]. intros Ha. by apply Prelude.bind_Ok in Ha as ([[p b] [[[n1 n2] n3] n4]] & _ & [= <-]). Qed.

Lemma receive_sides cfg a other (i : nat) rest a' :
  act cfg a other (Receive i rest) = Ok a' →
  sent a' = sent a ∧ payloads a' = payloads a ∧ unreliable_sent a' = unreliable_sent a.
Proof. cbn [act]. intros Ha. destruct (other !! i); by inv_result. Qed.

Lemma act_keeps cfg a b ha hb budget z (i : nat) a' :
  channel a b ha hb (budget + 1) → 0 ≤ budget → live a → action_ok z → time_ok z → expects a hb i →
  match z with Receive j _ => (i ≤ j)%nat | _ => True end →
  act cfg a (payloads b) z = Ok a' →
  live a' ∧ expects a' hb (next_index i z) ∧ ∃ ha', h_base ha' = h_base ha ∧ channel a' b ha' hb budget.
Proof.
  intros Hch Hb Hl Hok Ht He Hi Hact.
  destruct (act_total cfg a b ha hb budget z i Hch Hb Hl Hok Ht He Hi) as (a1 & Hact1 & Hl1 & He1).
  rewrite Hact in Hact1. injection Hact1 as <-. split; [done|]. split; [done|]. by eapply act_channel.
Qed.

(** The packets [ps] go out to [y]. *)
Definition goes_out net net' (x y : IpAddress) (ps : list bytes) : Prop :=
  FakeNetwork.queue net' y = FakeNetwork.queue net y ++
    if FakeNetwork.m_should_drop_packets net then [] else FakeNetwork.mkPacket x <$> ps.

(** From [l], a tick at [now] reads as [rcv] and writes as [wr]. *)
Record tick_result (limited : bool) net n x y size l r hl hr budget i js now net' n' rel unrel l' rcv wr : Prop := {
  tr_run cfgr : run (m_connection_manager_config n) cfgr l r (pair true <$> Expire now :: rcv ++ wr) = Ok (l', r);
  tr_read : match js with
    | [] => rcv = [] ∧ incoming net n = None
    | j :: _ => ∃ rest s, rcv = [Receive j rest] ∧ incoming net n = Some s ∧ same_key s y = true
    end;
  tr_wrote : wr = [] ∧ limited = true ∨ ∃ buffer, wr = [Flush buffer now] ∧ len buffer = size;
  tr_delivered : delivered l' = delivered l ++ heard (incoming net n) y rel;
  tr_unreliable : unreliable_delivered l' = unreliable_delivered l ++ heard (incoming net n) y unrel;
  tr_sent : sent l' = sent l ∧ unreliable_sent l' = unreliable_sent l;
  tr_queue_x : FakeNetwork.queue net' x = tail (FakeNetwork.queue net x);
  tr_payloads : ∃ ps, length ps = length wr ∧ payloads l' = payloads l ++ ps ∧
    Forall (λ p, len p ≤ kJustBelowMtu) ps ∧ goes_out net net' x y ps;
  tr_network : same_network net net';
  tr_config : m_connection_manager_config n' = m_connection_manager_config n;
  tr_seat : seat limited net' n' x y size l';
  tr_live : live l';
  tr_expects : expects l' hr (after i js);
  tr_channel : ∃ hl', h_base hl' = h_base hl ∧ channel l' r hl' hr budget;
  tr_manager : Neptun.connection_manager (peer l') = Neptun.connection_manager (peer l);
  tr_rhythm last : let step := pace (m_connection_manager_config n) (Neptun.connection_manager (peer l)) in
    rhythm limited n step last → (limited = true → last + step ≤ now) →
    (∃ buffer, wr = [Flush buffer now]) ∧ rhythm limited n' step now;
}.

Lemma pace_nonneg limited cfg c size : limits_ok limited cfg c size → 0 ≤ pace cfg c.
Proof.
  intros [Hr _ _]. unfold pace. destruct (peer_limit c) as [lim|]; [|done]. destruct (Hr lim eq_refl) as [Hrate _].
  cbv zeta. destruct (Z.eqb_spec (negotiated_rate (max_read_packet_rate lim) (max_send_packet_rate (limit cfg))) 0); [done|].
  apply Z.div_pos; lia.
Qed.

(** The reading half, whatever waits. *)
Lemma read_seat limited net n x y size l r hl hr budget i js now :
  channel l r hl hr (budget + 1) → 0 ≤ budget → live l → expects l hr i → seat limited net n x y size l →
  inbox net x y r i js →
  ∃ net' n' rel unrel l' rcv, Neptun.read net n now = Ok (net', n', rel, unrel) ∧
    (∀ cfgr, run (m_connection_manager_config n) cfgr l r (pair true <$> rcv) = Ok (l', r)) ∧
    match js with
    | [] => rcv = [] ∧ incoming net n = None
    | j :: _ => ∃ rest s, rcv = [Receive j rest] ∧ incoming net n = Some s ∧ same_key s y = true
    end ∧
    delivered l' = delivered l ++ heard (incoming net n) y rel ∧
    unreliable_delivered l' = unreliable_delivered l ++ heard (incoming net n) y unrel ∧
    sent l' = sent l ∧ unreliable_sent l' = unreliable_sent l ∧ payloads l' = payloads l ∧
    read_result limited n x y size l net net' n' l' ∧ live l' ∧ expects l' hr (after i js) ∧
    (∃ hl', h_base hl' = h_base hl ∧ channel l' r hl' hr budget) ∧
    ∀ k, FakeNetwork.queue net' k = if same_key k x then tail (FakeNetwork.queue net k) else FakeNetwork.queue net k.
Proof.
  intros Hch Hb Hl He Hseat [Hp _ Hf].
  destruct (FakeNetwork.queue net x) as [|k ks] eqn:Eq; inversion Hp as [|? j ? js' Hk Hp']; subst.
  - destruct (read_nothing limited n x y size l net now Hseat Eq) as (net' & n' & Hr & Hin & Hres & Hq).
    exists net', n', [], [], l, []. rewrite Hin. cbn [heard after]. rewrite !app_nil_r. split_and!; try done.
    + exists hl. split; [done|]. eapply channel_less; [exact Hch|lia].
    + intros z. rewrite Hq. destruct (same_key z x) eqn:Hz; [|done].
      unfold FakeNetwork.queue in *. by rewrite (FakeNetwork.find_same_key _ _ _ Hz), Eq.
  - apply Forall_cons in Hf as [Hj _]. assert (expects l hr j) as Hej by (unfold expects in *; lia).
    destruct (read_waiting limited n x y size l r hl hr budget Hch Hb Hl net now j k ks Hseat Hej Eq Hk)
      as (net' & n' & rel & unrel & l' & rest & Hr & Hin & Hact & Hd & Hu & Hres & Hq).
    destruct (act_keeps _ _ _ _ _ budget (Receive j rest) j _ Hch Hb Hl I I Hej (le_n j) Hact) as (Hl' & He' & Hch').
    destruct (receive_sides _ _ _ _ _ _ Hact) as (Hs & Hpl & Hus).
    destruct Hk as (Hk & _). exists net', n', rel, unrel, l', [Receive j rest].
    rewrite Hin. cbn [heard after]. rewrite Hk. split_and!; try done.
    + intros cfgr. cbn [fmap list_fmap run]. by rewrite Hact.
    + by exists rest, (FakeNetwork.sender k).
    + intros z. rewrite Hq. destruct (same_key z x) eqn:Hz; [|done].
      unfold FakeNetwork.queue in *. by rewrite (FakeNetwork.find_same_key _ _ _ Hz), Eq.
Qed.

(** A tick returns, and is a run of the channel. *)
Lemma tick_seat limited net n x y size l r hl hr budget i js now :
  channel l r hl hr (budget + 3) → 0 ≤ budget → live l → expects l hr i → seat limited net n x y size l →
  mtu_ok net → sane_time now → same_key y x = false → inbox net x y r i js →
  ∃ net' n' rel unrel l' rcv wr, Neptun.tick net n now = Ok (net', n', rel, unrel) ∧
    tick_result limited net n x y size l r hl hr budget i js now net' n' rel unrel l' rcv wr.
Proof.
  intros Hch Hb Hl He Hseat Hmtu Hnow Hyx Hin. set (cfg := m_connection_manager_config n).
  replace (budget + 3) with ((budget + 2) + 1) in Hch by lia.
  destruct (expire_seat limited n x y size l r hl hr (budget + 2) Hch ltac:(lia) Hl net now Hseat Hnow)
    as (peers & m & l1 & Hdrop & Hact1 & Hseat1 & Hrh1).
  destruct (expire_manager cfg l r hl hr (budget + 2) Hch now l1 Hact1) as (Em1 & Es1 & Ed1 & Eus1 & Eud1 & Ep1).
  destruct (act_keeps cfg _ _ _ _ (budget + 2) (Expire now) i _ Hch ltac:(lia) Hl I Hnow He I Hact1) as (Hl1 & He1 & hl1 & Hbase1 & Hch1).
  replace (budget + 2) with ((budget + 1) + 1) in Hch1 by lia.
  set (n1 := with_metrics (with_peers n peers) m) in *.
  destruct (read_seat limited net n1 x y size l1 r hl1 hr (budget + 1) i js now Hch1 ltac:(lia) Hl1 He1 Hseat1 Hin)
    as (net2 & n2 & rel & unrel & l2 & rcv & Hread & Hrun2 & Hrcv & Ed2 & Eud2 & Es2 & Eus2 & Ep2 & [Hseat2 Hnet2 Hcfg2 Em2 Hrh2] & Hl2 & He2 & (hl2 & Hbase2 & Hch2) & Hq2).
  destruct (write_seat limited n2 x y size l2 r hl2 hr budget Hch2 Hb Hl2 net2 now Hseat2 (mtu_ok_same _ _ Hnet2 Hmtu) Hnow)
    as (net3 & n3 & l3 & wr & Hwrite & Hseat3 & Hcfg3 & Hw & Em3 & Hrh3).
  change (m_connection_manager_config n1) with cfg in *. rewrite Hcfg2 in Hcfg3.
  exists net3, n3, rel, unrel, l3, rcv, wr.
  split; [unfold Neptun.tick; rewrite Hdrop; cbn [mbind result_bind]; fold n1; rewrite Hread; cbn [mbind result_bind]; by rewrite Hwrite|].
  change (incoming net n1) with (incoming net n) in *.
  assert (Hqx2 : FakeNetwork.queue net2 x = tail (FakeNetwork.queue net x)) by (by rewrite Hq2, same_key_refl).
  assert (Hqy2 : FakeNetwork.queue net2 y = FakeNetwork.queue net y) by (by rewrite Hq2, Hyx).
  assert (∀ last, rhythm limited n (pace cfg (Neptun.connection_manager (peer l))) last →
    (limited = true → last + pace cfg (Neptun.connection_manager (peer l)) ≤ now) →
    (∃ buffer, wr = [Flush buffer now]) ∧ rhythm limited n3 (pace cfg (Neptun.connection_manager (peer l))) now) as Hrh.
  { intros last Hr Hdue. apply (Hrh3 _ last); [eapply pace_nonneg, Hseat| |done].
    rewrite <-Em1. apply Hrh2. rewrite Em1. by apply Hrh1. }
  inversion Hw as [Hlim Enet|l' buffer payload Hact3 Hbuf Ep3 Hsm Hnet3 Hq3]; subst wr; subst l3.
  - subst net3. split; try done; try congruence; try (by left).
    + intros cfgr. cbn [fmap list_fmap run]. rewrite Hact1. cbn [mbind result_bind]. rewrite app_nil_r. apply Hrun2.
    + split; congruence.
    + exists []. unfold goes_out. cbn. rewrite !app_nil_r. split_and!; try done; [congruence|]. by destruct (FakeNetwork.m_should_drop_packets net); rewrite app_nil_r.
    + exists hl2. split; [congruence|]. eapply channel_less; [exact Hch2|lia].
  - pose proof (size_range _ _ _ _ (se_limits _ _ _ _ _ _ _ Hseat3)) as Hsz.
    rewrite Hcfg2 in Hact3. change (m_connection_manager_config n1) with cfg in Hact3.
    destruct (act_keeps cfg l2 r hl2 hr budget (Flush buffer now) _ _ Hch2 Hb Hl2 ltac:(cbn; lia) Hnow He2 I Hact3) as (Hl3 & He3 & hl3 & Hbase3 & Hch3).
    destruct (flush_sides _ _ _ _ _ _ Hact3) as (Ed3 & Es3 & Eud3 & Eus3).
    split; try done; try congruence.
    + intros cfgr. cbn [fmap list_fmap run]. rewrite Hact1. cbn [mbind result_bind].
      rewrite fmap_app, (run_app _ _ _ _ _ _ _ _ (Hrun2 cfgr)). cbn [fmap list_fmap run]. by rewrite Hact3.
    + right. by exists buffer.
    + split; congruence.
    + by rewrite Hq3, (same_key_sym x y), Hyx.
    + exists [payload]. split; [done|]. split; [congruence|]. split; [by apply Forall_singleton|].
      unfold goes_out. rewrite Hq3, same_key_refl, Hqy2, (sn_drops _ _ Hnet2). cbn.
      destruct (FakeNetwork.m_should_drop_packets net); cbn; [by rewrite app_nil_r|done].
    + by etrans.
    + exists hl3. split; [congruence|done].
Qed.
End Seat.
