(* ===== verification/Lossy.v ===== *)
(** * Lossy: two endpoints on a fake network that may drop packets

    Any sequence of public calls of two connected endpoints, while the network is told
    at any moment to drop packets or to let them through: every call returns, and what
    is delivered is what was sent, once and in order. [System] says the second for any
    network that forges nothing, when no call fails; here it is shown that none does. *)
From Stdlib Require Import ZArith Lia Sorted.
From stdpp Require Import prelude strings.
From S2P Require Import Prelude Span IoBuffer FlipBuffer Messages ReliableStream PacketDeliveryManager ConnectionManager UnreliableStream Ticker Metrics IpAddress OrderedMap Network Neptun Datagrams Scenarios Channel Progress System Ends.
Open Scope Z_scope.

(** What happens: a call of the class, or [FakeNetwork::drop_packets]. *)
Inductive move :=
  | Call (c : call)
  | Drops (should_drop_packets : bool).

Section Moves.
Context `{Platform} `{ByteOrder}.

Definition play (s : System FakeNetwork.FakeNetwork) (m : move)
    : result (System FakeNetwork.FakeNetwork * list event) :=
  match m with
  | Call c => exec s c
  | Drops d => Ok (mkSystem (FakeNetwork.drop_packets (network s) d) (nodes s), [])
  end.

Fixpoint play_all (s : System FakeNetwork.FakeNetwork) (ms : list move)
    : result (System FakeNetwork.FakeNetwork * list event) :=
  match ms with
  | [] => Ok (s, [])
  | m :: ms =>
      '(s, es) ← play s m;
      '(s, es') ← play_all s ms;
      Ok (s, es ++ es')
  end.

(** The calls of the endpoint [k], whose peer is [y]. *)
Definition call_of (k : nat) (y : IpAddress) (c : call) : Prop :=
  match c with
  | SendReliable i ip f _ | SendUnreliable i ip f _ => i = k ∧ same_key ip y = true ∧ WriterOk f
  | Tick i now => i = k ∧ sane_time now
  | Connect _ _ _ | Foreign _ _ _ => False
  end.

Definition move_ok (a b : IpAddress) (m : move) : Prop :=
  match m with
  | Call c => call_of 0 b c ∨ call_of 1 a c
  | Drops _ => True
  end.
End Moves.

Section Pair.
Context `{Platform} `{ByteOrder}.
#[local] Existing Instance FakeNetwork.fake_network.
Implicit Types (net : FakeNetwork.FakeNetwork).

(** What the application of endpoint [k] has seen is what the side [l] has. *)
Record said (k : nat) (y : IpAddress) (es : list event) (l : Side) : Prop := {
  sd_sent : sent l = sent_to k true y es;
  sd_got : delivered l = got_from k true y es;
  sd_unreliable_sent : unreliable_sent l = sent_to k false y es;
  sd_unreliable_got : unreliable_delivered l = got_from k false y es;
}.

(** The endpoint [k], the state [n] of which is the side [l]; the other side is [r], and
    its ids start at [base]. The packets [js] wait for it. *)
Record end_ok (limited : bool) net (k : nat) n cfg (x y : IpAddress) (size base : Z) (l r : Side) (js : list nat) (es : list event) : Prop := {
  eo_seat : seat limited net n x y size l;
  eo_config : m_connection_manager_config n = cfg;
  eo_live : live l;
  eo_inbox : ∃ i, (i ≤ length (payloads r))%nat ∧ expects l (mkHalf base [] []) i ∧ inbox net x y r i js;
  eo_acks : limited = false → m_pending_acks (packet_delivery_manager (peer l)) = [];
  eo_said : said k y es l;
}.

Lemma expects_base l h h' i : h_base h = h_base h' → expects l h i ↔ expects l h' i.
Proof. unfold expects. by intros ->. Qed.

(** The numbers of the packets [ps] of [r] that are not dropped. *)
Definition newest net (r : Side) (ps : list bytes) : list nat :=
  if FakeNetwork.m_should_drop_packets net then [] else seq (length (payloads r)) (length ps).

(** A packet to [x] goes behind the others that wait there. *)
Lemma inbox_more net net' x y r r' i js ps :
  inbox net x y r i js → (i ≤ length (payloads r))%nat → payloads r' = payloads r ++ ps → (length ps ≤ 1)%nat →
  Forall (λ p, len p ≤ kJustBelowMtu) ps → goes_out net net' y x ps → inbox net' x y r' i (js ++ newest net r ps).
Proof.
  intros [Hp Hs Hf] Hi Hr Hps Hsm Hq. unfold goes_out in Hq. unfold newest.
  assert (Forall2 (arrives y r') (FakeNetwork.queue net x) js) as Hp'.
  { eapply Forall2_impl; [exact Hp|]. intros k j (Hk & Hl & Hn). split; [done|]. split; [|done].
    rewrite Hr. by apply lookup_app_l_Some. }
  assert (Forall (λ j, (j < length (payloads r))%nat) js) as Hlt.
  { clear -Hp. induction Hp as [|k j ks js (_ & Hl & _) _ IH]; constructor; [by eapply lookup_lt_Some|done]. }
  destruct (FakeNetwork.m_should_drop_packets net); [|destruct ps as [|p [|]]]; try (simpl in Hps; lia).
  1,2: cbn; rewrite app_nil_r in *; split; rewrite ?Hq; done.
  cbn [length seq]. split.
  - rewrite Hq. apply Forall2_app; [done|]. repeat constructor; cbn.
    + apply same_key_refl. + rewrite Hr. by apply list_lookup_middle. + by inversion_clear Hsm.
  - clear -Hs Hlt. induction js as [|j js IH]; [by repeat constructor|]. inversion_clear Hs. inversion_clear Hlt.
    cbn. constructor; [by apply IH|]. apply Forall_app. split; [done|]. by apply Forall_singleton.
  - apply Forall_app. split; [done|]. by apply Forall_singleton.
Qed.

(** A side that acknowledges what it reads at once has nothing left to acknowledge. *)
Lemma flush_acks cfg l r hl hr budget buffer now l' :
  channel l r hl hr (budget + 1) → 0 ≤ budget → 12 ≤ len buffer ≤ 1793 → act cfg l (payloads r) (Flush buffer now) = Ok l' →
  (length (m_pending_acks (packet_delivery_manager (peer l))) ≤ 1)%nat → m_pending_acks (packet_delivery_manager (peer l')) = [].
Proof.
  intros Hch Hb Hbuf Hact Hlen. destruct (act_flush cfg l r hl hr budget Hch Hb buffer now l' Hbuf Hact) as (k & first & _ & Hk & _ & _).
  destruct (po_acks _ _ _ _ _ _ Hk) as (acked & Hacked & Hnz & _). rewrite Hacked, length_app in Hlen.
  destruct (m_pending_acks (packet_delivery_manager (peer l'))) as [|z zs]; [done|].
  destruct acked; [|simpl in Hlen; lia]. rewrite (Hnz eq_refl) in Hacked. done.
Qed.

Lemma expire_acks cfg l other now l' :
  act cfg l other (Expire now) = Ok l' →
  m_pending_acks (packet_delivery_manager (peer l')) = m_pending_acks (packet_delivery_manager (peer l)).
Proof.
  cbn [act]. unfold drop_peer, drop_old_packets. intros Ha. inv_result. cbn.
  match goal with H : process_delivery_statuses _ _ _ = Ok _ |- _ => by rewrite (process_statuses_pdm _ _ _ _ _ H) end.
Qed.

Lemma receive_acks cfg l r hl hr budget (i : nat) rest l' :
  channel l r hl hr (budget + 1) → 0 ≤ budget → expects l hr i → act cfg l (payloads r) (Receive i rest) = Ok l' →
  m_pending_acks (packet_delivery_manager (peer l)) = [] → (length (m_pending_acks (packet_delivery_manager (peer l'))) ≤ 1)%nat.
Proof.
  intros Hch Hb He Hact Hnil. destruct (payloads r !! i) as [payload|] eqn:Hpl.
  2:{ cbn [act] in Hact. rewrite Hpl in Hact. injection Hact as <-. rewrite Hnil. simpl. lia. }
  destruct (payload_packet l r hl hr budget Hch _ _ Hpl) as (k & Hk & _ & Hid & _).
  destruct (receive_acknowledged cfg l r hl hr budget Hch Hb i rest l' k Hact Hk) as (q1 & q2 & Hak); [unfold expects in He; lia|].
  rewrite (ak_pending _ _ _ _ _ Hak), Hnil. simpl. lia.
Qed.

Lemma tick_acks net n x y size l r hl hr budget i js now net' n' rel unrel l' rcv wr :
  channel l r hl hr (budget + 3) → 0 ≤ budget → live l → expects l hr i → Forall (le i) js → sane_time now →
  tick_result false net n x y size l r hl hr budget i js now net' n' rel unrel l' rcv wr →
  m_pending_acks (packet_delivery_manager (peer l)) = [] → m_pending_acks (packet_delivery_manager (peer l')) = [].
Proof.
  intros Hch Hb Hl He Hi Hnow Htr Hnil. set (cfg := m_connection_manager_config n).
  pose proof (size_range _ _ _ _ (se_limits _ _ _ _ _ _ _ (tr_seat _ _ _ _ _ _ _ _ _ _ _ _ _ _ _ _ _ _ _ _ _ Htr))) as Hsz.
  pose proof (tr_run _ _ _ _ _ _ _ _ _ _ _ _ _ _ _ _ _ _ _ _ _ Htr cfg) as Hrun. fold cfg in Hrun.
  destruct (tr_wrote _ _ _ _ _ _ _ _ _ _ _ _ _ _ _ _ _ _ _ _ _ Htr) as [[_ ?]|(buffer & -> & Hbuf)]; [done|].
  cbn [fmap list_fmap run] in Hrun. apply Prelude.bind_Ok in Hrun as (l1 & Hact1 & Hrun).
  replace (budget + 3) with ((budget + 2) + 1) in Hch by lia.
  destruct (act_keeps cfg _ _ _ _ (budget + 2) (Expire now) i _ Hch ltac:(lia) Hl I Hnow He I Hact1) as (Hl1 & He1 & hl1 & Hbase1 & Hch1).
  rewrite <-(expire_acks _ _ _ _ _ Hact1) in Hnil. replace (budget + 2) with ((budget + 1) + 1) in Hch1 by lia.
  assert (∃ l2 hl2, act cfg l2 (payloads r) (Flush buffer now) = Ok l' ∧ channel l2 r hl2 hr (budget + 1) ∧
    (length (m_pending_acks (packet_delivery_manager (peer l2))) ≤ 1)%nat) as (l2 & hl2 & Hact2 & Hch2 & Hlen).
  { pose proof (tr_read _ _ _ _ _ _ _ _ _ _ _ _ _ _ _ _ _ _ _ _ _ Htr) as Hread. destruct js as [|j js].
    - destruct Hread as [-> _]. cbn [app fmap list_fmap run] in Hrun. apply Prelude.bind_Ok in Hrun as (l3 & Hact3 & [= ->]).
      exists l1, hl1. split; [done|]. split; [by eapply channel_less; [exact Hch1|lia]|]. rewrite Hnil. simpl. lia.
    - destruct Hread as (rest & s & -> & _). cbn [app fmap list_fmap run] in Hrun.
      apply Prelude.bind_Ok in Hrun as (l2 & Hact2 & Hrun). apply Prelude.bind_Ok in Hrun as (l3 & Hact3 & [= ->]).
      apply Forall_cons in Hi as [Hij _]. cbn [next_index] in He1.
      assert (expects l1 hr j) as Hej by (unfold expects in *; lia).
      destruct (act_channel cfg l1 r hl1 hr (budget + 1) (Receive j rest) l2 Hch1 ltac:(lia) I Hact2) as (hl2 & _ & Hch2).
      exists l2, hl2. split; [done|]. split; [done|]. by eapply receive_acks; [exact Hch1|lia|exact Hej|exact Hact2|]. }
  eapply flush_acks; [exact Hch2|done| |exact Hact2|done]. lia.
Qed.

(** ** Both endpoints *)

Section Own.
Context (limited : bool) (k k' : nat) (cfg cfg' : ConnectionManagerConfig) (x y : IpAddress).
Context (size size' base base' : Z) (Hk : k ≠ k') (Hyx : same_key y x = false).

Record pair_ok net n m l r js js' es (budget : Z) : Prop := {
  pa_own : end_ok limited net k n cfg x y size base l r js es;
  pa_other : end_ok limited net k' m cfg' y x size' base' r l js' es;
  pa_mtu : mtu_ok net;
  pa_channel : ∃ hl hr, h_base hl = base' ∧ h_base hr = base ∧ channel l r hl hr budget;
}.

(** The endpoint [k] has done [es']. *)
Lemma said_own es es' l l' :
  said k y es l → sent l' = sent l ++ sent_to k true y es' → delivered l' = delivered l ++ got_from k true y es' →
  unreliable_sent l' = unreliable_sent l ++ sent_to k false y es' →
  unreliable_delivered l' = unreliable_delivered l ++ got_from k false y es' → said k y (es ++ es') l'.
Proof using Type. intros [Hs Hd Hus Hud] Es Ed Eus Eud. split; event_lists; congruence. Qed.

Lemma said_other es es' r : said k' x es r → events_of k es' → said k' x (es ++ es') r.
Proof using Hk.
  intros [Hs Hd Hus Hud] Hes. pose proof (λ rel, events_of_other k k' Hk x es' rel Hes) as Hno.
  destruct (Hno true), (Hno false). split; event_lists; rewrite ?Hs, ?Hd, ?Hus, ?Hud; symmetry;
    match goal with |- _ ++ ?z = _ => assert (z = []) as -> by done end; apply app_nil_r.
Qed.

Lemma tick_pair net n m l r js js' es budget now :
  pair_ok net n m l r js js' es (budget + 3) → 0 ≤ budget → sane_time now →
  ∃ net' n' rel unrel l' rcv wr, Neptun.tick net n now = Ok (net', n', rel, unrel) ∧
    (∃ hl hr i, channel l r hl hr (budget + 3) ∧ tick_result limited net n x y size l r hl hr budget i js now net' n' rel unrel l' rcv wr) ∧
    ∃ new, (FakeNetwork.m_should_drop_packets net = false → new = seq (length (payloads l)) (length wr)) ∧
    pair_ok net' n' m l' r (tail js) (js' ++ new) (es ++ match incoming net n with
      | Some ip => (Delivered k true ip <$> rel) ++ (Delivered k false ip <$> unrel)
      | None => [] end) budget.
Proof using Hk Hyx.
  intros [[Hseat Hcfg Hl (i & Hi & He & Hin) Hacks Hsaid] [Hseat' Hcfg' Hl' (i' & Hi' & He' & Hin') Hacks' Hsaid'] Hmtu
    (hl & hr & Hbl & Hbr & Hch)] Hb Hnow.
  assert (expects l hr i) as Hex by (by eapply (expects_base l hr (mkHalf base [] [])), He).
  destruct (tick_seat limited net n x y size l r hl hr budget i js now Hch Hb Hl Hex Hseat Hmtu Hnow Hyx Hin)
    as (net' & n' & rel & unrel & l' & rcv & wr & Htick & Htr).
  exists net', n', rel, unrel, l', rcv, wr. split; [done|].
  pose proof Htr as [Hrun Hread Hwrote Hd Hud [Hs Hus] Hqx (ps & Hps & Hpl & Hsm & Hout) Hnet Hcfg1 Hseat1 Hlive1 Hex1 (hl' & Hbl' & Hch')].
  split; [by exists hl, hr, i|]. exists (newest net l ps).
  split; [unfold newest; intros ->; by rewrite Hps|].
  assert (length ps ≤ 1)%nat as Hps1 by (destruct Hwrote as [[-> _]|(? & -> & _)]; simpl in Hps; lia).
  destruct (tick_events k y (incoming net n) rel unrel true) as [Et1 Et2].
  destruct (tick_events k y (incoming net n) rel unrel false) as [Eu1 Eu2].
  set (es' := match incoming net n with Some ip => _ | None => _ end) in *.
  assert (events_of k es') as Hes'.
  { unfold es'. destruct (incoming net n); [|by constructor]. apply Forall_app. by split; apply events_of_fmap. }
  split.
  - split; try done; [congruence| | |].
    + exists (after i js). split; [|split; [by eapply (expects_base l' hr (mkHalf base [] [])), Hex1|by eapply inbox_tail]].
      destruct js as [|j js]; [done|]. pose proof (ib_packets _ _ _ _ _ _ Hin) as Hpk. cbn.
      inversion Hpk as [|p j0 ps0 js0 (_ & Hlk & _)]; subst. apply lookup_lt_Some in Hlk. lia.
    + intros ->. eapply tick_acks; [exact Hch|done|done|exact Hex|apply Hin|exact Hnow|exact Htr|by apply Hacks].
    + eapply said_own; [exact Hsaid|rewrite Et1, app_nil_r; done|by rewrite Et2|rewrite Eu1, app_nil_r; done|by rewrite Eu2].
  - split; try done; [by eapply seat_network; [apply Hnet|]| |by apply said_other].
    exists i'. split; [rewrite Hpl, length_app; lia|]. split; [done|by eapply inbox_more].
  - by eapply mtu_ok_same.
  - exists hl', hr. split; [congruence|done].
Qed.

(** [send_reliable_to] and [send_unreliable_to]. *)
Lemma send_pair (reliable : bool) net n m l r js js' es budget ip f now :
  pair_ok net n m l r js js' es (budget + 1) → 0 ≤ budget → same_key ip y = true → WriterOk f →
  ∃ n' l', (if reliable then send_reliable_to n ip f now else send_unreliable_to n ip f now) = Ok n' ∧
    pair_ok net n' m l' r js js' (es ++ (Sent k reliable ip <$> handed_over n ip reliable f)) budget.
Proof using H Hk.
  intros [[Hseat Hcfg Hl (i & Hi & He & Hin) Hacks Hsaid] Hother Hmtu (hl & hr & Hbl & Hbr & Hch)] Hb Hip Hf.
  pose proof Hseat as [(p & Hp & Hpl & Htick) Hsock Hbuf Hm Hlim].
  set (a := if reliable then Send f else Channel.SendUnreliable f).
  assert (action_ok a ∧ time_ok a) as [Haok Hat] by (by destruct reliable).
  assert (expects l hr i) as Hex by (by eapply (expects_base l hr (mkHalf base [] [])), He).
  destruct (act_total cfg l r hl hr budget a i Hch Hb Hl Haok Hat Hex) as (l1 & Hact & _); [by destruct reliable|].
  assert (∃ n', (if reliable then send_reliable_to n ip f now else send_unreliable_to n ip f now) = Ok n') as [n' Hn'].
  { assert (is_connected n ip = true) as Hcon.
    { unfold is_connected. rewrite Hp. cbn [find]. rewrite Hip, (equiv_manager _ _ Hpl).
      destruct (ch_sender_a _ _ _ _ _ Hch) as (? & ? & ? & Hsn). apply (sn_idle _ _ _ _ _ _ _ _ _ Hsn). }
    pose proof Hpl as [= _ _ Er Eu].
    unfold send_reliable_to, send_unreliable_to, find_or_create_peer. rewrite Hcon, Hp. cbn [find].
    rewrite Hip. destruct reliable; cbn [a act] in Hact; apply Prelude.bind_Ok in Hact as (space & _ & Hact);
      apply Prelude.bind_Ok in Hact as (st & Hst & _); rewrite ?Er, ?Eu; cbn; rewrite Hst; by eexists. }
  exists n'. destruct (send_inv _ _ _ _ _ _ Hn') as (p1 & q & Hp1 & -> & Eq & Hshape).
  rewrite Hp in Hp1. cbn [find] in Hp1. rewrite Hip in Hp1. injection Hp1 as <-.
  destruct (Hshape cfg l (payloads r) Hpl) as (q' & Hq & Heq). fold a in Hq. set (l' := mkSide q' _ _ _ _ _ _) in Hq.
  destruct (act_keeps cfg l r hl hr budget a i l' Hch Hb Hl Haok Hat Hex) as (Hl' & Hex' & hl' & Hbase & Hch');
    [by destruct reliable|exact Hq|].
  assert (Neptun.connection_manager q' = Neptun.connection_manager (peer l) ∧
    packet_delivery_manager q' = packet_delivery_manager (peer l)) as [Ecm Epdm].
  { destruct reliable; cbn [a act] in Hq; inv_result; done. }
  exists l'. split; [done|].
  assert (∀ k2, sent_to k k2 y (Sent k reliable ip <$> handed_over n ip reliable f)
                = if bool_decide (reliable = k2) then handed_over n ip reliable f else []) as Hsent.
  { intros k2. rewrite sent_to_sent, Hip, (bool_decide_eq_true_2 (k = k)) by done. by destruct (bool_decide (reliable = k2)). }
  split; try done.
  - split; try done.
    + split; try done; [|by cbn; rewrite Ecm].
      exists q. cbn. rewrite Hp. cbn [update]. by rewrite Hip, Eq.
    + assert (next_index i a = i) as En by (by destruct reliable). rewrite En in Hex'.
      exists i. split_and!; [done| |done]. by eapply (expects_base l' hr (mkHalf base [] [])).
    + cbn. by rewrite Epdm.
    + eapply said_own; [exact Hsaid|..]; rewrite ?got_from_sent, ?Hsent, ?app_nil_r; by destruct reliable.
  - destruct Hother as [Hs' Hc' Hl2 (i' & Hi' & He' & Hin') Ha' Hsd']. split; try done.
    + exists i'. split_and!; [done|done|]. destruct Hin' as [Hp' ? ?]. split; done.
    + apply said_other; [done|]. by apply events_of_fmap.
  - exists hl', hr. split; [congruence|done].
Qed.

Lemma pair_less net n m l r js js' es budget budget' :
  pair_ok net n m l r js js' es budget → 0 ≤ budget' ≤ budget → pair_ok net n m l r js js' es budget'.
Proof using Type.
  intros [Ho Ho' Hm (hl & hr & Hbl & Hbr & Hch)] Hb. split; try done. exists hl, hr. split_and!; try done.
  by eapply channel_less.
Qed.

(** A call of the endpoint [k]. *)
Lemma call_pair ns net n m l r js js' es budget c :
  ns !! k = Some n → pair_ok net n m l r js js' es (budget + 3) → 0 ≤ budget → call_of k y c →
  ∃ net' n' l' js1 js1' es', exec (mkSystem net ns) c = Ok (mkSystem net' (<[k := n']> ns), es') ∧
    pair_ok net' n' m l' r js1 js1' (es ++ es') budget.
Proof using H Hk Hyx.
  intros Hn Hp Hb Hc. destruct c as [|j ip f now|j ip f now|j now|]; try done; unfold exec; cbn [nodes network].
  - destruct Hc as (-> & Hip & Hf). rewrite Hn. apply (pair_less _ _ _ _ _ _ _ _ _ (budget + 1)) in Hp; [|lia].
    destruct (send_pair true net n m l r js js' es budget ip f now Hp Hb Hip Hf) as (n' & l' & -> & Hp').
    exists net, n', l', js, js'. by eexists.
  - destruct Hc as (-> & Hip & Hf). rewrite Hn. apply (pair_less _ _ _ _ _ _ _ _ _ (budget + 1)) in Hp; [|lia].
    destruct (send_pair false net n m l r js js' es budget ip f now Hp Hb Hip Hf) as (n' & l' & -> & Hp').
    exists net, n', l', js, js'. by eexists.
  - destruct Hc as (-> & Hnow). rewrite Hn.
    destruct (tick_pair net n m l r js js' es budget now Hp Hb Hnow) as (net' & n' & rel & unrel & l' & rcv & wr & -> & _ & new & _ & Hp').
    exists net', n', l', (tail js), (js' ++ new). by eexists.
Qed.

(** [drop_packets] touches neither the queues nor the sockets. *)
Lemma drops_pair net n m l r js js' es budget d :
  pair_ok net n m l r js js' es budget → pair_ok (FakeNetwork.drop_packets net d) n m l r js js' es budget.
Proof using Type.
  intros [[Hs Hc Hl (i & Hi & He & [Hp ? ?]) Ha Hsd] [Hs' Hc' Hl' (i' & Hi' & He' & [Hp' ? ?]) Ha' Hsd'] Hm Hch].
  split; try done; split; try done; try (by eapply seat_network; [|done]); by repeat (eexists || split).
Qed.
End Own.

Lemma pair_sym limited k k' cfg cfg' x y size size' base base' net n m l r js js' es budget :
  pair_ok limited k k' cfg cfg' x y size size' base base' net n m l r js js' es budget →
  pair_ok limited k' k cfg' cfg y x size' size base' base net m n r l js' js es budget.
Proof.
  intros [Ho Ho' Hm (hl & hr & Hbl & Hbr & Hch)]. split; try done. exists hr, hl. split_and!; try done. by apply channel_sym.
Qed.

(** ** Runs *)

Section Runs.
Context (limited : bool) (a b : IpAddress) (Hab : same_key a b = false) (cfgl cfgr : ConnectionManagerConfig).
Context (sizel sizer basel baser : Z).
Let both := pair_ok limited 0 1 cfgl cfgr a b sizel sizer baser basel.

Lemma play_both net n m l r js js' es budget mv :
  both net n m l r js js' es (budget + 3) → 0 ≤ budget → move_ok a b mv →
  ∃ net' n' m' l' r' js1 js1' es', play (mkSystem net [n; m]) mv = Ok (mkSystem net' [n'; m'], es') ∧
    both net' n' m' l' r' js1 js1' (es ++ es') budget.
Proof using Hab.
  intros Hp Hb Hmv. destruct mv as [c|d]; cbn [play].
  - destruct Hmv as [Hc|Hc].
    + destruct (call_pair limited 0 1 cfgl cfgr a b sizel sizer baser basel ltac:(done) ltac:(by rewrite same_key_sym)
        [n; m] net n m l r js js' es budget c eq_refl Hp Hb Hc) as (net' & n' & l' & js1 & js1' & es' & Hex & Hp').
      by exists net', n', m, l', r, js1, js1', es'.
    + apply pair_sym in Hp.
      destruct (call_pair limited 1 0 cfgr cfgl b a sizer sizel basel baser ltac:(done) Hab
        [n; m] net m n r l js' js es budget c eq_refl Hp Hb Hc) as (net' & m' & r' & js1' & js1 & es' & Hex & Hp').
      exists net', n, m', l, r', js1, js1', es'. split; [done|]. by apply pair_sym.
  - do 8 eexists. split; [done|]. rewrite app_nil_r. apply drops_pair. eapply pair_less; [exact Hp|lia].
Qed.

Lemma play_all_both ms : ∀ net n m l r js js' es budget,
  both net n m l r js js' es (budget + 3 * len ms) → 0 ≤ budget → Forall (move_ok a b) ms →
  ∃ net' n' m' l' r' js1 js1' es', play_all (mkSystem net [n; m]) ms = Ok (mkSystem net' [n'; m'], es') ∧
    both net' n' m' l' r' js1 js1' (es ++ es') budget.
Proof using Hab.
  induction ms as [|mv ms IH]; intros net n m l r js js' es budget Hp Hb Hms; cbn [play_all].
  { do 8 eexists. split; [done|]. rewrite app_nil_r. eapply pair_less; [exact Hp|simpl; lia]. }
  apply Forall_cons in Hms as [Hmv Hms].
  replace (budget + 3 * len (mv :: ms)) with ((budget + 3 * len ms) + 3) in Hp by (simpl; lia).
  destruct (play_both net n m l r js js' es _ mv Hp ltac:(lia) Hmv) as (net1 & n1 & m1 & l1 & r1 & js1 & js1' & es1 & -> & Hp1).
  destruct (IH net1 n1 m1 l1 r1 js1 js1' _ budget Hp1 Hb Hms) as (net2 & n2 & m2 & l2 & r2 & js2 & js2' & es2 & Hex & Hp2).
  cbn [mbind result_bind]. rewrite Hex. rewrite <-app_assoc in Hp2. do 8 eexists. split; [done|exact Hp2].
Qed.
End Runs.

(** Two endpoints that have finished their handshake, with nothing under way. *)
Record ready (limited : bool) (a b : IpAddress) cfgl cfgr (sizel sizer : Z) net n m (p q : Peer) : Prop := {
  rd_left : seat limited net n a b sizel (start p no_metrics);
  rd_right : seat limited net m b a sizer (start q no_metrics);
  rd_config_left : m_connection_manager_config n = cfgl;
  rd_config_right : m_connection_manager_config m = cfgr;
  rd_left_established : established p q;
  rd_right_established : established q p;
  rd_left_live : live (start p no_metrics);
  rd_right_live : live (start q no_metrics);
  rd_acks : limited = false → m_pending_acks (packet_delivery_manager p) = [] ∧ m_pending_acks (packet_delivery_manager q) = [];
  rd_mtu : mtu_ok net;
  rd_queues : FakeNetwork.queue net a = [] ∧ FakeNetwork.queue net b = [];
}.

Definition next_packet (p : Peer) : Z := m_next_outgoing_packet_id (packet_delivery_manager p).

Lemma ready_pair limited a b cfgl cfgr sizel sizer net n m p q budget :
  ready limited a b cfgl cfgr sizel sizer net n m p q → 0 ≤ budget →
  next_packet p + budget < 2 ^ 32 → next_packet q + budget < 2 ^ 32 →
  pair_ok limited 0 1 cfgl cfgr a b sizel sizer (next_packet q) (next_packet p) net n m (start p no_metrics) (start q no_metrics) [] [] [] budget.
Proof.
  intros [Hsl Hsr Hcl Hcr Hpq Hqp Hll Hlr Hacks Hmtu [Hqa Hqb]] Hb Hbp Hbq.
  assert (0 ≤ next_packet p) as Hpos.
  { destruct Hpq as [[z Hinv] _ _ _ _]. pose proof (si_resolved _ _ _ (PacketDeliveryManager.inv_sent _ _ _ Hinv)). unfold next_packet. lia. }
  split; try done.
  - split; try done; [|by intros [? _]%Hacks]. exists 0%nat. split; [simpl; lia|].
    split; [unfold expects; cbn; rewrite Z.add_0_r; apply Hqp|]. split; rewrite ?Hqa; constructor.
  - split; try done; [|by intros [_ ?]%Hacks]. exists 0%nat. split; [simpl; lia|].
    split; [unfold expects; cbn; rewrite Z.add_0_r; apply Hpq|]. split; rewrite ?Hqb; constructor.
  - exists (half_of p), (half_of q). split; [done|]. split; [done|]. unfold next_packet in *. apply channel_start; (done || lia).
Qed.

(** What the system's events say of a pair. *)
Lemma pair_exactly_once limited (k k' : nat) cfg cfg' x y size size' base base' net n m l r js js' es budget ns :
  pair_ok limited k k' cfg cfg' x y size size' base base' net n m l r js js' es budget → ns !! k = Some n →
  exactly_once_at (mkSystem net ns) k k' x y es ∧ got_from k' false x es `sublist_of` sent_to k false y es.
Proof.
  intros [[[(p & Hp & Hpl & _) _ _ _ _] _ _ _ _ [Hs _ Hus _]] [_ _ _ _ _ [_ Hd _ Hud]] _ (hl & hr & _ & _ & Hch)] Hn.
  split.
  - destruct (channel_exactly_once _ _ _ _ _ Hch) as (held & kept & E1 & E2 & E3). rewrite Hs, Hd in E1. rewrite Hd in E3.
    exists n, p, held, kept. split; [done|]. split; [by rewrite Hp; cbn [find]; rewrite same_key_refl|].
    split; [done|]. split; [|done]. apply equiv_ticker in Hpl as [t Hpl]. by rewrite Hpl in E2.
  - rewrite <-Hud, <-Hus. by eapply channel_unreliable.
Qed.

(** C7: delivery over a network that loses packets whenever it likes. Two endpoints have
    finished their handshake over a [FakeNetwork]. From then on they may send and tick in
    any order and at any times, with or without rate limits, and the network is switched
    at any moment between dropping every packet and letting packets through. No call
    fails. Each end has got a prefix of the reliable messages of the other, whose sender
    still holds the others, and some of its unreliable messages, each at most once and
    in their order. *)
Theorem lossy_exactly_once limited a b cfgl cfgr sizel sizer net n m p q ms :
  same_key a b = false → ready limited a b cfgl cfgr sizel sizer net n m p q → Forall (move_ok a b) ms →
  next_packet p + 3 * len ms < 2 ^ 32 → next_packet q + 3 * len ms < 2 ^ 32 →
  ∃ s' es, play_all (mkSystem net [n; m]) ms = Ok (s', es) ∧
    exactly_once_at s' 0 1 a b es ∧ exactly_once_at s' 1 0 b a es ∧
    got_from 1 false a es `sublist_of` sent_to 0 false b es ∧
    got_from 0 false b es `sublist_of` sent_to 1 false a es.
Proof.
  intros Hab Hr Hms Hbp Hbq.
  destruct (play_all_both limited a b Hab cfgl cfgr sizel sizer (next_packet p) (next_packet q) ms net n m
    (start p no_metrics) (start q no_metrics) [] [] [] 0) as (net' & n' & m' & l & r & js & js' & es & Hplay & Hpair); [|done|done|].
  { apply ready_pair; (done || lia). }
  exists (mkSystem net' [n'; m']), es. split; [done|].
  destruct (pair_exactly_once _ _ _ _ _ _ _ _ _ _ _ _ _ _ _ _ _ _ _ _ [n'; m'] Hpair eq_refl).
  apply pair_sym in Hpair. destruct (pair_exactly_once _ _ _ _ _ _ _ _ _ _ _ _ _ _ _ _ _ _ _ _ [n'; m'] Hpair eq_refl).
  by split_and!.
Qed.
End Pair.

(** ** A run *)

Section Witness.
#[local] Existing Instance little_endian.
#[local] Existing Instance FakeNetwork.fake_network.
#[local] Existing Instance tolerant.

(** The server and the client of the repository's tests after their handshake; the last
    packet of the client was dropped. *)
Definition two_ends : result (FakeNetwork.FakeNetwork * Neptun * Neptun) :=
  w ← connected config config;
  '(w, _, _) ← tick_client (with_network w (FakeNetwork.drop_packets (Scenarios.network w) true)) (200 * ms);
  Ok (FakeNetwork.drop_packets (Scenarios.network w) false, server w, client w).

Lemma quiet_live : live (start quiet_client no_metrics).
Proof. by apply (live_start _ _ _ (proj1 quiet_established)); [done|done|by repeat constructor|done]. Qed.

Lemma two_ends_ready limited net n m :
  two_ends = Ok (net, n, m) →
  ready limited server_ip client_ip config config 800 800 net n m client_at_server quiet_client.
Proof.
  intros Hw. vm_compute in Hw. injection Hw as <- <- <-. destruct quiet_established. split; try done.
  - split; try done; [|by split; [intros lim [= <-]|..]]. eexists. split_and!; [done|done|]. by split; [..|intros ? [= <-]].
  - split; try done; [|by split; [intros lim [= <-]|..]]. eexists. split_and!; [done|done|]. by split; [..|intros ? [= <-]].
  - exact server_live.
  - exact quiet_live.
Qed.

Lemma ips_differ : same_key server_ip client_ip = false.
Proof. done. Qed.

(** The first packet of the server is lost, later ones of both. *)
Definition lossy_moves : list move :=
  [Call (SendReliable 0 client_ip (write_message [1; 2; 3]) (300 * ms)); Drops true; Call (Tick 0 (300 * ms));
   Call (SendUnreliable 1 server_ip (write_message [9]) (310 * ms)); Drops false; Call (Tick 1 (310 * ms));
   Call (SendReliable 0 client_ip (write_message [4]) (320 * ms)); Call (Tick 0 (320 * ms)); Drops true;
   Call (Tick 1 (330 * ms)); Call (Tick 0 (340 * ms)); Drops false;
   Call (SendReliable 0 client_ip (write_message [7]) (340 * ms))].

Lemma lossy_moves_ok : Forall (move_ok server_ip client_ip) lossy_moves.
Proof.
  unfold lossy_moves. rewrite !Forall_cons. split_and!; try apply Forall_nil_2; cbn [move_ok call_of]; try done;
    first [left; split; [reflexivity|first [split; [reflexivity|apply write_message_ok]|done]]
          |right; split; [reflexivity|first [split; [reflexivity|apply write_message_ok]|done]]].
Qed.

Lemma lossy_exactly_once_witness :
  ∃ net n m s' es, two_ends = Ok (net, n, m) ∧ play_all (mkSystem net [n; m]) lossy_moves = Ok (s', es) ∧
    exactly_once_at s' 0 1 server_ip client_ip es ∧
    sent_to 0 true client_ip es = [[1; 2; 3]; [4]; [7]] ∧ got_from 0 false client_ip es = [[9]].
Proof.
  destruct two_ends as [[[net n] m]|] eqn:Hw; [|by vm_compute in Hw].
  destruct (lossy_exactly_once true server_ip client_ip config config 800 800 net n m client_at_server quiet_client lossy_moves
    ips_differ (two_ends_ready true net n m Hw) lossy_moves_ok eq_refl eq_refl) as (s' & es & Hplay & Hl & _).
  exists net, n, m, s', es. split; [done|]. split; [exact Hplay|]. split; [exact Hl|].
  clear Hl. vm_compute in Hw. injection Hw as <- <- <-. vm_compute in Hplay. injection Hplay as _ <-. split; reflexivity.
Defined.
End Witness.
