(* ===== verification/Rounds.v ===== *)
(** * Rounds: two endpoints that tick in turn over the fake network

    [Progress] at the level of the public calls: whatever the network has dropped
    before, once it lets packets through everything handed to [send_reliable_to] is
    delivered after a bounded number of [tick]s of both ends. *)
From Stdlib Require Import ZArith Lia Sorted.
From stdpp Require Import prelude strings.
From S2P Require Import Prelude Span IoBuffer FlipBuffer Messages ReliableStream PacketDeliveryManager ConnectionManager UnreliableStream Ticker Metrics IpAddress OrderedMap Network Neptun Datagrams Scenarios Channel Progress System Ends Lossy.
Open Scope Z_scope.

(** ** Packets that have not timed out *)

(** The packets in flight are from [t0] on, and time out after [T] milliseconds. *)
Record recent (t0 T : Z) (p : Peer) : Prop := {
  rt_timeout : PacketDeliveryManager.m_packet_timeout (packet_delivery_manager p) = T;
  rt_times : Forall (λ q, t0 ≤ time_dispatched q) (m_in_flight_packets (packet_delivery_manager p));
}.

(** A moment at which an endpoint may tick: none of them has timed out. *)
Definition in_window (t0 T now : Z) : Prop := sane_time now ∧ t0 ≤ now < t0 + T * 1000000.

Lemma expire_recent `{Platform} cfg l other t0 T now :
  live l → recent t0 T (peer l) → in_window t0 T now → act cfg l other (Expire now) = Ok l.
Proof.
  intros Hl [HT Ht] [_ Hnow]. pose proof (live_times _ Hl) as Htimes.
  cbn [act]. unfold drop_peer. destruct (drop_old_packets_Ok _ now Htimes) as (q1 & q2 & Hq & -> & He & _).
  assert (q1 = []) as ->.
  { destruct q1 as [|x q1]; [done|]. apply Forall_cons in He as [He _]. rewrite Hq in Ht.
    apply Forall_cons in Ht as [Ht _]. unfold expired in He. lia. }
  cbn. rewrite app_nil_l in Hq. rewrite <-Hq. destruct l as [[? [] ? ? ?] ? ? ? ? ? ?]. done.
Qed.

Lemma receive_recent `{Platform} cfg a b ha hb budget t0 T (i : nat) rest a' :
  channel a b ha hb (budget + 1) → 0 ≤ budget → recent t0 T (peer a) →
  act cfg a (payloads b) (Receive i rest) = Ok a' → recent t0 T (peer a').
Proof.
  intros Hch Hb [HT Ht] Hact. destruct (receive_manager cfg a b ha hb budget Hch Hb _ _ _ Hact) as (_ & Hsub & HT').
  split; [congruence|]. apply Forall_forall. intros x Hx%Hsub. by eapply Forall_forall in Ht.
Qed.

Lemma flush_recent `{Platform} cfg a other t0 T buffer now a' :
  recent t0 T (peer a) → t0 ≤ now → act cfg a other (Flush buffer now) = Ok a' → recent t0 T (peer a').
Proof.
  intros [HT Ht] Hnow Hact. cbn [act] in Hact.
  apply Prelude.bind_Ok in Hact as ([[p b'] [[[n1 n2] n3] n4]] & Hw & [= <-]).
  destruct (write_packet_frame _ _ _ _ _ _ Hw) as [Hq HT']. split; cbn; [congruence|].
  rewrite Hq. apply Forall_app. split; [done|]. by apply Forall_singleton.
Qed.

(** With a rate limit: the next tick is one interval after the last one. *)
Definition on_time (limited : bool) (step last now : Z) : Prop := limited = true → last + step ≤ now.

(** ** A tick without timeouts *)

Section Fresh.
Context `{Platform} `{ByteOrder}.
#[local] Existing Instance FakeNetwork.fake_network.
Context (limited : bool) (k k' : nat) (cfg cfg' : ConnectionManagerConfig) (x y : IpAddress) (size size' base base' : Z).
Context (Hk : k ≠ k') (Hyx : same_key y x = false) (t0 T : Z).
Implicit Types (net : FakeNetwork.FakeNetwork).
Let pair_state := pair_ok limited k k' cfg cfg' x y size size' base base'.

(** What it reads. *)
Definition receives (js : list nat) (rest : bytes) : list action := match js with [] => [] | j :: _ => [Receive j rest] end.

Lemma fresh_tick net n m l r js js' es budget last now (step := pace cfg (Neptun.connection_manager (peer l))) :
  pair_state net n m l r js js' es (budget + 3) → 0 ≤ budget → in_window t0 T now → recent t0 T (peer l) →
  FakeNetwork.m_should_drop_packets net = false → rhythm limited n step last → on_time limited step last now →
  ∃ net' n' es' l' rest buffer, (∀ ns, ns !! k = Some n →
      exec (mkSystem net ns) (Tick k now) = Ok (mkSystem net' (<[k := n']> ns), es')) ∧
    run cfg cfg' l r (pair true <$> receives js rest ++ [Flush buffer now]) = Ok (l', r) ∧ len buffer = size ∧
    pair_state net' n' m l' r (tail js) (js' ++ [length (payloads l)]) (es ++ es') budget ∧
    FakeNetwork.m_should_drop_packets net' = false ∧ recent t0 T (peer l') ∧
    length (payloads l') = S (length (payloads l)) ∧ sent l' = sent l ∧
    rhythm limited n' step now ∧ Neptun.connection_manager (peer l') = Neptun.connection_manager (peer l).
Proof using Hk Hyx.
  intros Hp Hb Hnow Hrec Hkeep Hrh Hdue. pose proof Hp as [[_ Hcfg Hl _ _ _] _ _ _].
  destruct (tick_pair limited k k' cfg cfg' x y size size' base base' Hk Hyx net n m l r js js' es budget now Hp Hb (proj1 Hnow))
    as (net' & n' & rel & unrel & l' & rcv & wr & Htick & (hl & hr & i & Hch & Htr) & new & Hnew & Hp').
  pose proof Htr as [Hrun Hread Hwrote _ _ [Hs _] _ (ps & Hps & Hpl & _) Hnet _ _ _ _ _ Hm Hrh'].
  rewrite Hcfg in Hrh'. destruct (Hrh' last Hrh Hdue) as [Hwr Hrhn].
  destruct Hwrote as [[-> _]|(buffer & -> & Hbuf)]; [by destruct Hwr|]. rewrite Hcfg in Hrun. specialize (Hrun cfg').
  cbn [fmap list_fmap run] in Hrun. rewrite (expire_recent _ _ _ _ _ _ Hl Hrec Hnow) in Hrun. cbn [mbind result_bind] in Hrun.
  assert (∃ rest, rcv = receives js rest) as [rest ->].
  { destruct js; [destruct Hread as [-> _]; by exists []|destruct Hread as (rest & _ & -> & _); by exists rest]. }
  assert (recent t0 T (peer l')) as Hrec'.
  { clear -Hrun Hrec Hch Hb Hnow. destruct Hnow as [_ Hnow]. destruct js as [|j js]; cbn [receives app fmap list_fmap run] in Hrun.
    - apply Prelude.bind_Ok in Hrun as (l1 & Hact & [= ->]). eapply flush_recent; [exact Hrec| |exact Hact]. lia.
    - apply Prelude.bind_Ok in Hrun as (l1 & Hact1 & Hrun). apply Prelude.bind_Ok in Hrun as (l2 & Hact2 & [= ->]).
      replace (budget + 3) with ((budget + 2) + 1) in Hch by lia.
      eapply flush_recent; [|  |exact Hact2]; [eapply receive_recent; [exact Hch|lia|exact Hrec|exact Hact1]|lia]. }
  eexists net', n', _, l', rest, buffer. split; [intros ns Hns; unfold exec; cbn [nodes network]; rewrite Hns, Htick; done|].
  split; [done|]. split; [done|]. rewrite (Hnew Hkeep) in Hp'. split; [exact Hp'|].
  split; [by rewrite (sn_drops _ _ Hnet)|]. split; [done|]. split; [|done].
  rewrite Hpl, length_app, Hps. cbn. lia.
Qed.
End Fresh.

(** ** Rounds

    The left endpoint ticks, then the right one and the left one in turn. *)
Section Rounds.
Context `{Platform} `{ByteOrder}.
#[local] Existing Instance FakeNetwork.fake_network.
Context (a b : IpAddress) (Hab : same_key a b = false) (cfgl cfgr : ConnectionManagerConfig) (sizel sizer basel baser : Z).
Context (limited : bool) (stepl stepr : Z) (t0 T : Z).
Implicit Types (net : FakeNetwork.FakeNetwork).
Let both := pair_ok limited 0 1 cfgl cfgr a b sizel sizer baser basel.

Lemma turns_snoc ts : ∀ nl nr t,
  turns nl nr (ts ++ [t]) = turns nl nr ts ++ turn_actions (nl + length ts) (nr + length ts) t.
Proof.
  induction ts as [|t' ts IH]; intros nl nr t; cbn [turns app length].
  { by rewrite !Nat.add_0_r, app_nil_r. }
  rewrite IH, <-app_assoc. do 2 f_equal. by rewrite !Nat.add_succ_r.
Qed.

(** The tickers of both ends, which ticked last at these times. *)
Record beat (n m : Neptun) (l r : Side) (lastl lastr : Z) : Prop := {
  be_left : rhythm limited n stepl lastl;
  be_right : rhythm limited m stepr lastr;
  be_left_step : pace cfgl (Neptun.connection_manager (peer l)) = stepl;
  be_right_step : pace cfgr (Neptun.connection_manager (peer r)) = stepr;
}.

(** Nothing is on its way, nothing is dropped, nothing has timed out. *)
Record calm net n m l r es lastl lastr budget : Prop := {
  ca_pair : both net n m l r [] [] es budget;
  ca_keeps : FakeNetwork.m_should_drop_packets net = false;
  ca_left : recent t0 T (peer l);
  ca_right : recent t0 T (peer r);
  ca_beat : beat n m l r lastl lastr;
  ca_acks : m_pending_acks (packet_delivery_manager (peer r)) = [];
}.

(** After the left endpoint's tick that follows the turns [ts] from [(l0, r0)]: its last
    packet waits for the right one. *)
Record midway net n m (l0 r0 : Side) (ts : list turn) (l r : Side) es (lastl lastr budget : Z) : Prop := {
  mw_pair : both net n m l r [] [length (payloads l0) + length ts]%nat es budget;
  mw_keeps : FakeNetwork.m_should_drop_packets net = false;
  mw_left : recent t0 T (peer l);
  mw_right : recent t0 T (peer r);
  mw_beat : beat n m l r lastl lastr;
  mw_left_payloads : length (payloads l) = S (length (payloads l0) + length ts);
  mw_right_payloads : (length (payloads r) = length (payloads r0) + length ts)%nat;
  mw_run : ∃ l1 buffer now, run cfgl cfgr l0 r0 (turns (length (payloads l0)) (length (payloads r0)) ts) = Ok (l1, r) ∧
    act cfgl l1 (payloads r) (Flush buffer now) = Ok l ∧ len buffer = sizel ∧ in_window t0 T now;
  mw_turns : Forall turn_ok ts;
  mw_sizes : Forall (λ t, len (left_buffer t) = sizel) ts;
  mw_sent : sent l = sent l0;
}.

(** The first tick: there is nothing to read yet. *)
Lemma midway_start net n m l0 r0 es lastl lastr budget now :
  calm net n m l0 r0 es lastl lastr (budget + 3) → 0 ≤ budget → in_window t0 T now → on_time limited stepl lastl now →
  ∃ net' n' es' l, exec (mkSystem net [n; m]) (Tick 0 now) = Ok (mkSystem net' [n'; m], es') ∧
    midway net' n' m l0 r0 [] l r0 (es ++ es') now lastr budget.
Proof using Hab.
  intros [Hp Hkeep Hl Hr [Hrl Hrr Hsl Hsr] _] Hb Hnow Hdue. pose proof Hab as Hba. rewrite same_key_sym in Hba.
  rewrite <-Hsl in Hrl, Hdue.
  destruct (fresh_tick limited 0 1 cfgl cfgr a b sizel sizer baser basel ltac:(done) Hba t0 T net n m l0 r0 [] [] es budget lastl now Hp Hb Hnow Hl Hkeep Hrl Hdue)
    as (net' & n' & es' & l & rest & buffer & Hex & Hrun & Hbuf & Hp' & Hkeep' & Hl' & Hlen & Hs & Hrl' & Hml).
  rewrite Hsl in Hrl'.
  exists net', n', es', l. split; [apply (Hex [n; m] eq_refl)|].
  cbn [receives app fmap list_fmap run] in Hrun. apply Prelude.bind_Ok in Hrun as (l1 & Hact & [= ->]).
  split; cbn [length turns run]; rewrite ?Nat.add_0_r; try done; [|by exists l0, buffer, now].
  split; try done. by rewrite Hml.
Qed.

(** Both endpoints tick: one more turn. *)
Lemma midway_round net n m l0 r0 ts l r es lastl lastr budget t1 t2 :
  midway net n m l0 r0 ts l r es lastl lastr (budget + 6) → 0 ≤ budget → in_window t0 T t1 → in_window t0 T t2 →
  on_time limited stepr lastr t1 → on_time limited stepl lastl t2 →
  ∃ net' n' m' es' t l' r', exec_all (mkSystem net [n; m]) [Tick 1 t1; Tick 0 t2] = Ok (mkSystem net' [n'; m'], es') ∧
    midway net' n' m' l0 r0 (ts ++ [t]) l' r' (es ++ es') t2 t1 budget.
Proof using Hab.
  intros [Hp Hkeep Hl Hr [Hrl Hrr Hpacel Hpacer] Hpl Hpr (l1 & buffer & now & Hrun & Hact & Hbuf & Hnow) Hts Hsizes Hsent] Hb Ht1 Ht2 Hduer Hduel.
  pose proof Hab as Hba. rewrite same_key_sym in Hba. apply pair_sym in Hp. replace (budget + 6) with ((budget + 3) + 3) in Hp by lia.
  rewrite <-Hpacer in Hrr, Hduer. rewrite <-Hpacel in Hrl, Hduel.
  destruct (fresh_tick limited 1 0 cfgr cfgl b a sizer sizel basel baser ltac:(done) Hab t0 T net m n r l _ _ es (budget + 3) lastr t1 Hp ltac:(lia) Ht1 Hr Hkeep Hrr Hduer)
    as (net1 & m' & es1 & r' & rest & bufr & Hex1 & Hrunr & Hbufr & Hp1 & Hkeep1 & Hr' & Hlenr & _ & Hrr' & Hmr).
  apply pair_sym in Hp1. cbn [tail app] in Hp1.
  destruct (fresh_tick limited 0 1 cfgl cfgr a b sizel sizer baser basel ltac:(done) Hba t0 T net1 n m' l r' _ _ _ budget lastl t2 Hp1 Hb Ht2 Hl Hkeep1 Hrl Hduel)
    as (net2 & n' & es2 & l' & rest' & bufl & Hex2 & Hrunl & Hbufl & Hp2 & Hkeep2 & Hl' & Hlenl & Hsl & Hrl' & Hml).
  exists net2, n', m', (es1 ++ es2), (mkTurn buffer now rest bufr t1 rest'), l', r'.
  split.
  { cbn [exec_all]. rewrite (Hex1 [n; m] eq_refl). cbn [mbind result_bind]. change (<[1%nat := m']> [n; m]) with [n; m'].
    rewrite (Hex2 [n; m'] eq_refl). cbn [mbind result_bind]. change (<[0%nat := n']> [n; m']) with [n'; m']. by rewrite app_nil_r. }
  pose proof (size_range _ _ _ _ (se_limits _ _ _ _ _ _ _ (eo_seat _ _ _ _ _ _ _ _ _ _ _ _ _ (pa_own _ _ _ _ _ _ _ _ _ _ _ _ _ _ _ _ _ _ _ _ Hp2)))).
  pose proof (size_range _ _ _ _ (se_limits _ _ _ _ _ _ _ (eo_seat _ _ _ _ _ _ _ _ _ _ _ _ _ (pa_other _ _ _ _ _ _ _ _ _ _ _ _ _ _ _ _ _ _ _ _ Hp2)))).
  rewrite <-app_assoc in Hp2. cbn [tail app] in Hp2. rewrite Hpl in Hp2. rewrite Hpacer in Hrr'. rewrite Hpacel in Hrl'.
  split; rewrite ?length_app, ?Nat.add_1_r, ?Nat.add_succ_r; cbn [length]; try done; try congruence; try lia.
  - split; try done; congruence.
  - cbn [receives app fmap list_fmap run] in Hrunl, Hrunr. apply Prelude.bind_Ok in Hrunl as (l2 & Hrcv & Hrunl).
    apply Prelude.bind_Ok in Hrunl as (l3 & Hfl & [= ->]).
    exists l2, bufl, t2. split_and!; try done. rewrite turns_snoc, (run_app _ _ _ _ _ _ _ _ Hrun). unfold turn_actions.
    cbn [run left_buffer left_now left_behind right_buffer right_now right_behind]. rewrite Hact. cbn [mbind result_bind].
    apply Prelude.bind_Ok in Hrunr as (r2 & -> & Hrunr). cbn [mbind result_bind].
    apply Prelude.bind_Ok in Hrunr as (r3 & -> & [= ->]). cbn [mbind result_bind]. rewrite <-Hpr. by rewrite Hrcv.
  - apply Forall_app. split; [done|]. apply Forall_singleton. unfold turn_ok. cbn. destruct Hnow, Ht1. split_and!; lia || done.
  - apply Forall_app. split; [done|]. by apply Forall_singleton.
Qed.

(** ** The calls *)

Fixpoint rounds (ws : list (Z * Z)) : list call :=
  match ws with
  | [] => []
  | w :: ws => [Tick 1 w.1; Tick 0 w.2] ++ rounds ws
  end.

Lemma exec_all_app cs cs' : ∀ s : System FakeNetwork.FakeNetwork,
  exec_all s (cs ++ cs') = ('(s1, es) ← exec_all s cs; '(s2, es') ← exec_all s1 cs'; Ok (s2, es ++ es')).
Proof using Type.
  induction cs as [|c cs IH]; intros s; cbn [app exec_all mbind result_bind].
  { by destruct (exec_all s cs') as [[]|]. }
  destruct (exec s c) as [[s1 es]|]; [|done]. cbn [mbind result_bind]. rewrite IH.
  destruct (exec_all s1 cs) as [[s2 es2]|]; [|done]. cbn [mbind result_bind].
  destruct (exec_all s2 cs') as [[s3 es3]|]; [|done]. cbn. by rewrite app_assoc.
Qed.

(** From the last ticks at [lastl] and [lastr] on, the moments of the rounds: nothing has
    timed out, and the rates are kept to. *)
Fixpoint timely (lastl lastr : Z) (ws : list (Z * Z)) : Prop :=
  match ws with
  | [] => True
  | w :: ws =>
      (in_window t0 T w.1 ∧ on_time limited stepr lastr w.1) ∧ (in_window t0 T w.2 ∧ on_time limited stepl lastl w.2) ∧
      timely w.2 w.1 ws
  end.

Lemma rounds_run l0 r0 ws : ∀ net n m ts l r es lastl lastr budget,
  midway net n m l0 r0 ts l r es lastl lastr (budget + 6 * len ws) → 0 ≤ budget → timely lastl lastr ws →
  ∃ net' n' m' ts' l' r' es', exec_all (mkSystem net [n; m]) (rounds ws) = Ok (mkSystem net' [n'; m'], es') ∧
    (∃ lastl' lastr', midway net' n' m' l0 r0 (ts ++ ts') l' r' (es ++ es') lastl' lastr' budget) ∧ length ts' = length ws.
Proof using Hab.
  induction ws as [|w ws IH]; intros net n m ts l r es lastl lastr budget Hmid Hb Hws.
  { rewrite Z.add_0_r in Hmid. exists net, n, m, [], l, r, []. rewrite !app_nil_r. split; [done|]. by eauto. }
  destruct Hws as ([Hw1 Hd1] & [Hw2 Hd2] & Hws).
  replace (budget + 6 * len (w :: ws)) with ((budget + 6 * len ws) + 6) in Hmid by (simpl; lia).
  destruct (midway_round net n m l0 r0 ts l r es lastl lastr _ w.1 w.2 Hmid ltac:(lia) Hw1 Hw2 Hd1 Hd2)
    as (net1 & n1 & m1 & es1 & t & l1 & r1 & Hex1 & Hmid1).
  destruct (IH net1 n1 m1 (ts ++ [t]) l1 r1 _ _ _ budget Hmid1 Hb Hws)
    as (net' & n' & m' & ts' & l' & r' & es2 & Hex2 & (lastl' & lastr' & Hmid') & Hlen).
  rewrite <-!app_assoc in Hmid'. exists net', n', m', (t :: ts'), l', r', (es1 ++ es2). split; [|split; [by eauto|simpl; by rewrite Hlen]].
  cbn [rounds]. rewrite exec_all_app, Hex1. cbn [mbind result_bind]. by rewrite Hex2.
Qed.

(** The message fits into a packet of the left endpoint. *)
Definition message_fits (x : bytes) : Prop :=
  PacketHeader.kSerializedSize + Segment.kSerializedSize + ReliableMessage.serialized_size (len x) ≤ sizel.

(** After more turns than there are messages everything has arrived. *)
Lemma midway_delivers net n m l0 r0 hl0 hr0 ts l r es lastl lastr budget :
  channel l0 r0 hl0 hr0 (1 + 4 * len ts) → live l0 → live r0 →
  m_pending_acks (packet_delivery_manager (peer r0)) = [] → Forall message_fits (outstanding (reliable_stream (peer l0))) →
  (length (outstanding (reliable_stream (peer l0))) < length ts)%nat →
  midway net n m l0 r0 ts l r es lastl lastr budget →
  delivered r = sent l ∧ outstanding (reliable_stream (peer l)) = [].
Proof using Type.
  intros Hch Hl Hr Hacks Hfit Hlen [[Hown _ _ _] _ _ _ _ _ _ (l1 & buffer & now & Hrun & Hact & Hbuf & _) Hts Hsizes _].
  destruct (turns_run cfgl cfgr ts l0 r0 hl0 hr0 1 Hch ltac:(lia) Hl Hr Hts Hacks)
    as (l' & r' & hl & hr & Hrun' & Hch' & Es & Hleft & _).
  { intros t x Ht Hx. unfold fits. rewrite (proj1 (Forall_forall _ _) Hsizes t Ht). by apply (proj1 (Forall_forall _ _) Hfit). }
  rewrite Hrun in Hrun'. injection Hrun' as <- <-. cbv zeta in Hleft.
  assert (outstanding (reliable_stream (peer l1)) = []) as Ho by (apply nil_length_inv; lia).
  pose proof (size_range _ _ _ _ (se_limits _ _ _ _ _ _ _ (eo_seat _ _ _ _ _ _ _ _ _ _ _ _ _ Hown))) as Hsz.
  destruct (act_flush cfgl l1 r hl hr 0 Hch' ltac:(lia) buffer now l ltac:(lia) Hact) as (k & first & _ & Hk & _ & Hs).
  destruct (channel_exactly_once _ _ _ _ _ Hch') as (held & kept & E1 & E2 & _). rewrite Ho in E2.
  symmetry in E2. apply app_nil in E2 as [_ ->]. rewrite app_nil_r in E1.
  rewrite (packet_outstanding _ _ _ _ _ _ Hk), Hs. by rewrite E1.
Qed.

(** What is outstanding has been sent. *)
Lemma outstanding_sent l r hl hr budget x :
  channel l r hl hr budget → x ∈ outstanding (reliable_stream (peer l)) → x ∈ sent l.
Proof using Type.
  intros Hch Hx. destruct (channel_exactly_once _ _ _ _ _ Hch) as (held & kept & E1 & E2 & (more & E3)).
  rewrite E2 in Hx. rewrite E1, E3, !elem_of_app. apply elem_of_app in Hx. tauto.
Qed.

(** From a calm state on. *)
Lemma calm_rounds net n m l0 r0 es lastl lastr first ws :
  calm net n m l0 r0 es lastl lastr (6 * len ws + 4) → in_window t0 T first → on_time limited stepl lastl first →
  timely first lastr ws → Forall message_fits (sent l0) →
  (length (outstanding (reliable_stream (peer l0))) < length ws)%nat →
  ∃ net' n' m' l r es' budget, exec_all (mkSystem net [n; m]) (Tick 0 first :: rounds ws) = Ok (mkSystem net' [n'; m'], es') ∧
    both net' n' m' l r [] [length (payloads l0) + length ws]%nat (es ++ es') budget ∧ sent l = sent l0 ∧
    delivered r = sent l ∧ outstanding (reliable_stream (peer l)) = [].
Proof using Hab.
  intros Hcalm Hfirst Hdue Hws Hfits Hlen. pose proof Hcalm as [[[_ _ Hl _ _ _] [_ _ Hr _ _ _] _ (hl & hr & _ & _ & Hch)] _ _ _ _ Hacks].
  replace (6 * len ws + 4) with ((1 + 6 * len ws) + 3) in Hcalm by lia.
  destruct (midway_start net n m l0 r0 es lastl lastr _ first Hcalm ltac:(lia) Hfirst Hdue) as (net1 & n1 & es1 & l1 & Hex1 & Hmid1).
  destruct (rounds_run l0 r0 ws net1 n1 m [] l1 r0 _ _ _ 1 Hmid1 ltac:(lia) Hws)
    as (net2 & n2 & m2 & ts & l2 & r2 & es2 & Hex2 & (lastl' & lastr' & Hmid2) & Hts).
  cbn [app] in Hmid2. rewrite <-app_assoc in Hmid2.
  destruct (midway_delivers net2 n2 m2 l0 r0 hl hr ts l2 r2 (es ++ es1 ++ es2) lastl' lastr' 1 (channel_less _ _ _ _ _ (1 + 4 * len ts) Hch ltac:(lia)) Hl Hr Hacks)
    as [Hd Ho]; [|by rewrite Hts|exact Hmid2|].
  { apply Forall_forall. intros x Hx. eapply Forall_forall in Hfits; [done|by eapply outstanding_sent]. }
  exists net2, n2, m2, l2, r2, (es1 ++ es2), 1. split; [cbn [exec_all]; rewrite Hex1; cbn [mbind result_bind]; by rewrite Hex2|].
  rewrite <-Hts. split; [apply Hmid2|]. split; [apply Hmid2|done].
Qed.
End Rounds.

(** ** Delivery *)

Section Delivery.
Context `{Platform} `{ByteOrder}.
#[local] Existing Instance FakeNetwork.fake_network.

(** With rate limits, the peers [p] and [q] ticked last at [lastl] and [lastr], and owe each
    other no acknowledgement. *)
Record steady (cfgl cfgr : ConnectionManagerConfig) (p q : Peer) (lastl lastr : Z) : Prop := {
  sy_left : paced (pace cfgl (Neptun.connection_manager p)) lastl (send_packet_ticker p);
  sy_right : paced (pace cfgr (Neptun.connection_manager q)) lastr (send_packet_ticker q);
  sy_acks : m_pending_acks (packet_delivery_manager p) = [] ∧ m_pending_acks (packet_delivery_manager q) = [];
}.

(** Between the endpoints of [s], whose peers are [p] and [q], nothing is on its way, the
    network lets packets through, and packets in flight are not older than [t0]. *)
Record settled (limited : bool) (a b : IpAddress) cfgl cfgr (t0 T : Z) (s : System FakeNetwork.FakeNetwork)
    (p q : Peer) (lastl lastr : Z) : Prop := {
  st_left : ∃ n, nodes s !! 0%nat = Some n ∧ find (m_peers n) b = Some p;
  st_right : ∃ m, nodes s !! 1%nat = Some m ∧ find (m_peers m) a = Some q;
  st_queues : FakeNetwork.queue (network s) a = [] ∧ FakeNetwork.queue (network s) b = [];
  st_keeps : FakeNetwork.m_should_drop_packets (network s) = false;
  st_recent : recent t0 T p ∧ recent t0 T q;
  st_steady : limited = true → steady cfgl cfgr p q lastl lastr;
}.

(** When the left endpoint ticks first and the rounds then follow. *)
Definition schedule (limited : bool) cfgl cfgr (t0 T : Z) (p q : Peer) (lastl lastr first : Z) (ws : list (Z * Z)) : Prop :=
  let stepl := pace cfgl (Neptun.connection_manager p) in
  let stepr := pace cfgr (Neptun.connection_manager q) in
  in_window t0 T first ∧ on_time limited stepl lastl first ∧ timely limited stepl stepr t0 T first lastr ws.

Lemma recent_equiv t0 T p q : p ≡ q → recent t0 T p → recent t0 T q.
Proof. intros [t ->]%equiv_ticker. by intros [? ?]. Qed.

Lemma seat_find limited (net : FakeNetwork.FakeNetwork) n x y size l p :
  seat limited net n x y size l → find (m_peers n) y = Some p → m_peers n = [(y, p)] ∧ p ≡ peer l.
Proof. intros [(q & -> & Hq & _) _ _ _ _]. cbn [find]. rewrite same_key_refl. by intros [= <-]. Qed.

Lemma equiv_acks p q : p ≡ q → m_pending_acks (packet_delivery_manager p) = m_pending_acks (packet_delivery_manager q).
Proof. by intros [t ->]%equiv_ticker. Qed.

Lemma settled_calm limited a b cfgl cfgr sizel sizer basel baser t0 T net n m l r js js' es budget p q lastl lastr :
  pair_ok limited 0 1 cfgl cfgr a b sizel sizer basel baser net n m l r js js' es budget →
  settled limited a b cfgl cfgr t0 T (mkSystem net [n; m]) p q lastl lastr →
  calm a b cfgl cfgr sizel sizer baser basel limited (pace cfgl (Neptun.connection_manager p))
    (pace cfgr (Neptun.connection_manager q)) t0 T net n m l r es lastl lastr budget ∧ p ≡ peer l.
Proof.
  intros Hp [(? & [= <-] & Hfl) (? & [= <-] & Hfr) [Hqa Hqb] Hkeep [Hrl Hrr] Hst]. cbn in *.
  pose proof Hp as [[Hsl _ _ (i & _ & _ & [Hin _ _]) _ _] [Hsr _ _ (i' & _ & _ & [Hin' _ _]) Hacks _] _ _].
  rewrite Hqa in Hin. rewrite Hqb in Hin'. apply Forall2_nil_inv_l in Hin as ->, Hin' as ->.
  destruct (seat_find _ _ _ _ _ _ _ _ Hsl Hfl) as [Hn Hl]. destruct (seat_find _ _ _ _ _ _ _ _ Hsr Hfr) as [Hm Hr].
  split; [|done]. split; try done; try (by eapply recent_equiv).
  - split; [intros El; exists b, p; split; [done|by apply Hst]|intros El; exists a, q; split; [done|by apply Hst]| |];
      f_equal; symmetry; by apply equiv_manager.
  - destruct limited; [|by apply Hacks]. rewrite <-(equiv_acks _ _ Hr). by apply Hst.
Qed.

Lemma settled_rounds limited a b cfgl cfgr sizel sizer basel baser t0 T net n m l r js js' es p1 q1 lastl lastr first ws :
  same_key a b = false →
  pair_ok limited 0 1 cfgl cfgr a b sizel sizer basel baser net n m l r js js' es (6 * len ws + 4) →
  settled limited a b cfgl cfgr t0 T (mkSystem net [n; m]) p1 q1 lastl lastr → Forall (message_fits sizel) (sent_to 0 true b es) →
  schedule limited cfgl cfgr t0 T p1 q1 lastl lastr first ws →
  (length (outstanding (reliable_stream p1)) < length ws)%nat →
  ∃ s' es' n' p', exec_all (mkSystem net [n; m]) (Tick 0 first :: rounds ws) = Ok (s', es') ∧
    got_from 1 true a (es ++ es') = sent_to 0 true b es ∧
    nodes s' !! 0%nat = Some n' ∧ find (m_peers n') b = Some p' ∧ outstanding (reliable_stream p') = [].
Proof.
  intros Hab Hpair Hset Hfits (Hfirst & Hdue & Hws) Hlen.
  destruct (settled_calm _ _ _ _ _ _ _ _ _ _ _ _ _ _ _ _ _ _ _ _ _ _ _ _ Hpair Hset) as [Hcalm Hp1].
  pose proof (sd_sent _ _ _ _ (eo_said _ _ _ _ _ _ _ _ _ _ _ _ _ (pa_own _ _ _ _ _ _ _ _ _ _ _ _ _ _ _ _ _ _ _ _ Hpair))) as Hsent.
  destruct (calm_rounds a b Hab cfgl cfgr sizel sizer baser basel limited _ _ t0 T net n m l r es lastl lastr first ws Hcalm Hfirst Hdue Hws)
    as (net2 & n2 & m2 & l2 & r2 & es2 & budget & Hex & [Hown Hother _ _] & Hs2 & Hd2 & Ho2); [by rewrite Hsent| |].
  { apply equiv_ticker in Hp1 as [t Ep]. by rewrite Ep. }
  destruct (eo_seat _ _ _ _ _ _ _ _ _ _ _ _ _ Hown) as [(p' & Hp' & Heq & _) _ _ _ _].
  eexists _, es2, n2, p'. split; [exact Hex|]. split; [|split; [done|split]].
  - rewrite <-(sd_got _ _ _ _ (eo_said _ _ _ _ _ _ _ _ _ _ _ _ _ Hother)). congruence.
  - rewrite Hp'. cbn [find]. by rewrite same_key_refl.
  - apply equiv_ticker in Heq as [t Heq]. by rewrite Heq in Ho2.
Qed.

(** *** The numbers of the nodes

    Two endpoints may change places. *)

Definition other_node (i : nat) : nat := match i with 0%nat => 1%nat | 1%nat => 0%nat | _ => i end.

Definition swap_call (c : call) : call :=
  match c with
  | Connect i ip now => Connect (other_node i) ip now
  | SendReliable i ip f now => SendReliable (other_node i) ip f now
  | SendUnreliable i ip f now => SendUnreliable (other_node i) ip f now
  | Tick i now => Tick (other_node i) now
  | Foreign fd ip payload => Foreign fd ip payload
  end.

Definition swap_event (e : event) : event :=
  match e with
  | Sent i rel ip m => Sent (other_node i) rel ip m
  | Delivered i rel ip m => Delivered (other_node i) rel ip m
  end.

Definition swap_nodes (s : System FakeNetwork.FakeNetwork) : System FakeNetwork.FakeNetwork :=
  mkSystem (network s) (reverse (nodes s)).

Lemma lookup_swap s i : length (nodes s) = 2%nat → nodes (swap_nodes s) !! other_node i = nodes s !! i.
Proof. destruct s as [net [|n [|m [|]]]]; try done. by destruct i as [|[|i]]. Qed.

Lemma insert_swap s net' i n' :
  length (nodes s) = 2%nat →
  mkSystem net' (<[other_node i := n']> (nodes (swap_nodes s))) = swap_nodes (mkSystem net' (<[i := n']> (nodes s))).
Proof. destruct s as [net [|n [|m [|]]]]; try done. by destruct i as [|[|i]]. Qed.

Lemma exec_swap s c s' es :
  length (nodes s) = 2%nat → exec s c = Ok (s', es) →
  exec (swap_nodes s) (swap_call c) = Ok (swap_nodes s', swap_event <$> es) ∧ length (nodes s') = 2%nat.
Proof.
  intros Hlen Hex. destruct c as [i ip now|i ip f now|i ip f now|i now|fd ip payload]; unfold exec in *; cbn [swap_call];
    rewrite ?lookup_swap by done; try (destruct (nodes s !! i) as [n|]; [|by injection Hex as <- <-]).
  - injection Hex as <- <-. rewrite insert_swap by done. cbn [nodes]. by rewrite length_insert.
  - apply Prelude.bind_Ok in Hex as (n' & -> & [= <- <-]). cbn [mbind result_bind].
    rewrite insert_swap by done. cbn [nodes]. rewrite length_insert, <-list_fmap_compose. done.
  - apply Prelude.bind_Ok in Hex as (n' & -> & [= <- <-]). cbn [mbind result_bind].
    rewrite insert_swap by done. cbn [nodes]. rewrite length_insert, <-list_fmap_compose. done.
  - change (network (swap_nodes s)) with (network s).
    apply Prelude.bind_Ok in Hex as ([[[net' n'] rel] unrel] & -> & [= <- <-]). cbn [mbind result_bind].
    rewrite insert_swap by done. cbn [nodes]. rewrite length_insert. split; [|done]. do 2 f_equal.
    destruct (incoming _ _); [|done]. by rewrite fmap_app, <-!list_fmap_compose.
  - change (network (swap_nodes s)) with (network s).
    apply Prelude.bind_Ok in Hex as ([net' size] & -> & [= <- <-]). done.
Qed.

Lemma exec_all_swap cs : ∀ s s' es,
  length (nodes s) = 2%nat → exec_all s cs = Ok (s', es) →
  exec_all (swap_nodes s) (swap_call <$> cs) = Ok (swap_nodes s', swap_event <$> es).
Proof.
  induction cs as [|c cs IH]; intros s s' es Hlen Hex; cbn [exec_all] in Hex; [by injection Hex as <- <-|].
  apply Prelude.bind_Ok in Hex as ([s1 es1] & H1 & Hex). apply Prelude.bind_Ok in Hex as ([s2 es2] & H2 & [= <- <-]).
  destruct (exec_swap _ _ _ _ Hlen H1) as [E1 Hlen1]. cbn [fmap list_fmap exec_all]. rewrite E1. cbn [mbind result_bind].
  change (list_fmap call call swap_call cs) with (swap_call <$> cs).
  rewrite (IH _ _ _ Hlen1 H2). cbn [mbind result_bind]. by rewrite fmap_app.
Qed.

Lemma other_node_eq i j : bool_decide (other_node i = other_node j) = bool_decide (i = j).
Proof. apply bool_decide_ext. destruct i as [|[|i]], j as [|[|j]]; cbn; split; congruence. Qed.

Lemma events_swap i rel ip es :
  sent_to (other_node i) rel ip (swap_event <$> es) = sent_to i rel ip es ∧
  got_from (other_node i) rel ip (swap_event <$> es) = got_from i rel ip es.
Proof.
  split; induction es as [|[j r k m|j r k m] es IH]; try done; cbn; rewrite ?other_node_eq; try exact IH;
    (destruct (_ && _); [f_equal|]; exact IH).
Qed.

Lemma said_swap k y es l : said k y es l → said (other_node k) y (swap_event <$> es) l.
Proof.
  intros [Hs Hd Hus Hud].
  destruct (events_swap k true y es) as [E1 E2], (events_swap k false y es) as [E3 E4]. split; congruence.
Qed.

Lemma pair_swap limited a b cfgl cfgr sizel sizer basel baser net n m l r js js' es budget :
  pair_ok limited 0 1 cfgl cfgr a b sizel sizer basel baser net n m l r js js' es budget →
  pair_ok limited 0 1 cfgr cfgl b a sizer sizel baser basel net m n r l js' js (swap_event <$> es) budget.
Proof.
  intros Hp. apply pair_sym in Hp as [[? ? ? ? ? Hs] [? ? ? ? ? Hs'] Hm Hch].
  apply said_swap in Hs, Hs'. split; try done; by split.
Qed.

Lemma settled_swap limited a b cfgl cfgr t0 T net n m p q lastl lastr :
  settled limited a b cfgl cfgr t0 T (mkSystem net [n; m]) p q lastl lastr →
  settled limited b a cfgr cfgl t0 T (mkSystem net [m; n]) q p lastr lastl.
Proof.
  intros [Hl Hr [Hqa Hqb] Hk [Hp Hq] Hs]. split; try done. intros El. destruct (Hs El) as [? ? [? ?]]. by split.
Qed.

(** What the right endpoint has sent is delivered by the same turns, begun by it. *)
Lemma settled_rounds_right limited a b cfgl cfgr sizel sizer basel baser t0 T net n m l r js js' es p1 q1 lastl lastr first ws :
  same_key a b = false →
  pair_ok limited 0 1 cfgl cfgr a b sizel sizer basel baser net n m l r js js' es (6 * len ws + 4) →
  settled limited a b cfgl cfgr t0 T (mkSystem net [n; m]) p1 q1 lastl lastr → Forall (message_fits sizer) (sent_to 1 true a es) →
  schedule limited cfgr cfgl t0 T q1 p1 lastr lastl first ws →
  (length (outstanding (reliable_stream q1)) < length ws)%nat →
  ∃ s' es', exec_all (mkSystem net [n; m]) (swap_call <$> Tick 0 first :: rounds ws) = Ok (s', es') ∧
    got_from 0 true b (es ++ es') = sent_to 1 true a es.
Proof.
  intros Hab Hpair Hset Hfits Hws Hlen. rewrite same_key_sym in Hab.
  destruct (events_swap 1 true a es) as [Es _]. destruct (events_swap 0 true b es) as [_ Eg]. cbn [other_node] in Es, Eg.
  rewrite <-Es in Hfits. apply settled_swap in Hset.
  destruct (settled_rounds _ _ _ _ _ _ _ _ _ _ _ _ _ _ _ _ _ _ _ _ _ _ _ first ws Hab (pair_swap _ _ _ _ _ _ _ _ _ _ _ _ _ _ _ _ _ _ Hpair)
    Hset Hfits Hws Hlen) as (s' & es' & n' & p' & Hex & Hgot & _).
  exists (swap_nodes s'), (swap_event <$> es'). split; [by apply (exec_all_swap _ (mkSystem net [m; n]))|].
  destruct (events_swap 1 true b es') as [_ Eg']. cbn [other_node] in Eg'.
  rewrite got_from_app, Eg in Hgot. by rewrite got_from_app, Eg', Hgot.
Qed.

End Delivery.

(** ** A run *)

Section Witness.
#[local] Existing Instance little_endian.
#[local] Existing Instance FakeNetwork.fake_network.
#[local] Existing Instance tolerant.




End Witness.
