(* ===== verification/Startup.v ===== *)
(** * Startup: two endpoints from their constructors on

    Both endpoints are constructed on one fake network, one of them calls [connect], and
    they tick in turn. [Handshake] says what the two connection managers do with a request
    and a response that arrive; here the messages go through whole packets and the public
    calls of neptun/neptun.h, and what the handshake leaves is a state from which [Lossy]
    and [Rounds] go on. With rate limits, each end comes back one interval after its
    first tick. *)
From Stdlib Require Import ZArith Lia Sorted.
From stdpp Require Import prelude strings.
From S2P Require Import Prelude Span IoBuffer FlipBuffer Messages ReliableStream PacketDeliveryManager ConnectionManager UnreliableStream Ticker Metrics IpAddress OrderedMap Network Neptun Datagrams Scenarios Channel Progress System Handshake Ends Lossy Rounds.
Open Scope Z_scope.

(** ** Peers with empty streams *)

(** A peer that has been given no message and has received none. *)
Definition blank (t : Ticker) (m : PacketDeliveryManager) (c : ConnectionManager) : Peer :=
  mkPeer t m c (ReliableStream.create ReliableStream.kDefaultCapacity)
    (UnreliableStream.create UnreliableStream.kDefaultCapacity).

(** Its packet is a header and what the connection manager writes. *)
Lemma blank_write t m c buffer now m' i a mask c' handshake n :
  PacketDeliveryManager.write m buffer now = Ok (m', PacketHeader.encode i a mask ++ drop 12 buffer, 12) →
  in_u 32 i → ConnectionManager.write c i (drop 12 buffer) = Ok (c', handshake, n) →
  0 ≤ n ≤ len handshake → len handshake ≤ 1793 → len buffer ≤ 1793 →
  write_packet (blank t m c) buffer now = Ok (blank t m' c', PacketHeader.encode i a mask ++ handshake, (12, n, 0, 0)).
Proof.
  intros Hm Hi Hc Hn Hl Hb. pose proof (PacketHeader.packet_header_length_encode i a mask) as Hhdr.
  unfold write_packet. cbn [packet_delivery_manager blank]. rewrite Hm. cbn [mbind result_bind].
  rewrite span_first_Ok by list_lia. cbn [mbind result_bind].
  rewrite take_app_le by (rewrite Hhdr; lia). rewrite (take_ge (PacketHeader.encode i a mask)) by (rewrite Hhdr; lia).
  rewrite <-(app_nil_r (PacketHeader.encode i a mask)) at 1. rewrite PacketHeader.id_encode, wrap_small by done.
  cbn [mbind result_bind]. erewrite on_advance_Ok; [|done|list_lia|].
  2:{ cbn [connection_manager blank]. rewrite Hc. cbn [mbind result_bind].
    rewrite <-(take_drop (Z.to_nat n) handshake) at 1. erewrite on_advance_Ok; [|list_lia|list_lia|].
    2:{ cbn [reliable_stream blank]. replace (ReliableStream.write _ i (drop (Z.to_nat n) handshake))
        with (Ok (ReliableStream.create ReliableStream.kDefaultCapacity, drop (Z.to_nat n) handshake, 0)) by done.
      cbn [mbind result_bind]. rewrite <-(app_nil_l (drop (Z.to_nat n) handshake)) at 1.
      erewrite on_advance_Ok; [|done|list_lia|].
      2:{ replace (UnreliableStream.write _ (drop (Z.to_nat n) handshake))
          with (Ok (UnreliableStream.create UnreliableStream.kDefaultCapacity, drop (Z.to_nat n) handshake, 0)) by done.
        cbn [mbind result_bind]. by rewrite Span.advance_Ok by list_lia. }
      done. }
    cbn [mbind result_bind]. rewrite app_nil_l, take_drop. done. }
  done.
Qed.

(** The ticker when a rate has been agreed on. *)
Definition retick (rate : Z) (t : Ticker) : Ticker :=
  if rate =? 0 then clear_tick_interval t else set_tick_interval t (1000000000 / rate).

Lemma update_blank t m c rate : update_send_rate (blank t m c) rate = blank (retick rate t) m c.
Proof. unfold update_send_rate, retick. by destruct (rate =? 0). Qed.

(** It reads a packet of this kind. *)
Lemma blank_read `{Platform} cfg t m c metrics i a mask handshake rest m' sts c1 metrics' c2 l :
  overread = true → len handshake ≤ 1793 →
  process_read m ((PacketHeader.encode i a mask ++ handshake) ++ rest) = Ok (m', (12, sts, i)) →
  process_delivery_statuses (blank t m' c) metrics sts = Ok (blank t m' c1, metrics') →
  ConnectionManager.read c1 handshake rest = Ok (c2, Value (len handshake)) → peer_limit c2 = Some l →
  read_packet cfg (blank t m c) metrics (PacketHeader.encode i a mask ++ handshake) rest
  = Ok (blank (retick (negotiated_rate (max_read_packet_rate l) (max_send_packet_rate (limit cfg))) t) m' c2, metrics', [], []).
Proof.
  intros Hover Hlen Hpdm Hst Hc Hl. pose proof (PacketHeader.packet_header_length_encode i a mask) as Hhdr.
  unfold read_packet, beyond. rewrite Hover. cbn [packet_delivery_manager blank]. rewrite Hpdm. cbn [mbind result_bind].
  change (12 =? 0) with false. cbn iota. rewrite Span.advance_Ok by list_lia. cbn [mbind result_bind].
  change (Z.to_nat 12) with 12%nat. rewrite <-Hhdr at 1. rewrite drop_app_length.
  unfold read_segments. change (with_pdm (blank t m c) m') with (blank t m' c). rewrite Hst. cbn [mbind result_bind].
  cbn [connection_manager blank]. rewrite Hc. cbn [mbind result_bind].
  rewrite Span.advance_Ok by lia. cbn [mbind result_bind]. rewrite Hl.
  change (with_cm (blank t m' c1) c2) with (blank t m' c2). rewrite update_blank. rewrite drop_ge by lia. done.
Qed.

(** The status of the packet with the handshake message. *)
Lemma blank_ack `{Platform} t m c metrics i :
  pop_on_empty = Ok [] → m_in_flight_lets_connect c = [i] → wf NeptunMetricKey metrics →
  ∃ metrics', wf NeptunMetricKey metrics' ∧
    process_delivery_statuses (blank t m c) metrics [(i, ACK)]
    = Ok (blank t m (mkConnectionManager (m_config c) [] 0 (is_fail c) (m_is_initiator c) true (m_peer_bandwidth_limit c)), metrics').
Proof.
  intros Hpop Hq Hwf. cbn [process_delivery_statuses]. unfold process_delivery_status. cbn [connection_manager blank].
  rewrite (acknowledged Hpop) by done. cbn [mbind result_bind].
  destruct (inc_Ok metrics PACKET_ACKS Hwf) as (metrics' & Hinc & Hwf').
  exists metrics'. split; [done|].
  replace (ReliableStream.on_packet_delivery_status _ i ACK)
    with (Ok (ReliableStream.create ReliableStream.kDefaultCapacity)) by done.
  cbn [mbind result_bind]. by rewrite Hinc.
Qed.

(** ** The headers of the exchange

    The first packet of the initiator, the other's response that acknowledges it, and the
    packet that acknowledges the response. *)
Section Headers.
Context (T : Z).

(** The first packet, sent at [x], has no status yet. *)
Definition waiting (e x : Z) : PacketDeliveryManager := mkPacketDeliveryManager T 1 e [] [mkInFlightPacket 0 x].

Lemma first_header buffer now :
  12 ≤ len buffer →
  PacketDeliveryManager.write (PacketDeliveryManager.create 0 T) buffer now
  = Ok (waiting 0 now, PacketHeader.encode 0 0 0 ++ drop 12 buffer, 12).
Proof.
  intros Hb. unfold PacketDeliveryManager.write. cbn [m_pending_acks PacketDeliveryManager.create].
  by rewrite PacketHeader.packet_header_write_Ok by done.
Qed.

Lemma acking_header i e q buffer now :
  12 ≤ len buffer →
  PacketDeliveryManager.write (mkPacketDeliveryManager T i e [0] q) buffer now
  = Ok (mkPacketDeliveryManager T (u32 (i + 1)) e [] (q ++ [mkInFlightPacket i now]),
        PacketHeader.encode i 0 1 ++ drop 12 buffer, 12).
Proof.
  intros Hb. unfold PacketDeliveryManager.write. cbn [m_pending_acks].
  replace (pending_acks_loop [0] 0 0) with (Ok (@nil Z, 1)) by done. cbn [mbind result_bind].
  by rewrite PacketHeader.packet_header_write_Ok by done.
Qed.

Lemma read_first body :
  process_read (PacketDeliveryManager.create 0 T) (PacketHeader.encode 0 0 0 ++ body)
  = Ok (mkPacketDeliveryManager T 0 1 [0] [], (12, [], 0)).
Proof. reflexivity. Qed.

(** The response, and the packet behind it. *)
Lemma read_acking e now body :
  e = 0 ∨ e = 1 →
  process_read (waiting e now) (PacketHeader.encode e 0 1 ++ body)
  = Ok (mkPacketDeliveryManager T 1 (e + 1) [e] [], (12, [(0, ACK)], e)).
Proof. intros [-> | ->]; reflexivity. Qed.

(** Before its timeout a packet stays in flight. *)
Lemma none_expires `{Platform} t c e x metrics now :
  sane_time (T * 1000000) → sane_time x → now < x + T * 1000000 →
  drop_peer (blank t (waiting e x) c) metrics now
  = Ok (blank t (waiting e x) c, metrics).
Proof.
  unfold sane_time. intros HT Hx Hnow. unfold drop_peer, drop_old_packets.
  cbn [packet_delivery_manager blank waiting m_in_flight_packets PacketDeliveryManager.m_packet_timeout PacketDeliveryManager.drop_loop time_dispatched].
  rewrite i64_Ok by (unfold in_i64; lia). cbn [mbind result_bind]. rewrite i64_Ok by (unfold in_i64; lia). cbn [mbind result_bind].
  by rewrite (proj2 (Z.leb_gt _ _)) by lia.
Qed.
End Headers.

(** ** The ticks *)

Section Ticks.
Context `{Platform} `{ByteOrder} (Hpop : pop_on_empty = Ok []) (Hover : overread = true) (limited : bool).
#[local] Existing Instance FakeNetwork.fake_network.
Implicit Types (net : FakeNetwork.FakeNetwork).

(** The endpoint [n], bound to [x]. *)
Record standing net (n : Neptun) (x : IpAddress) cfg T (peers : map IpAddress Peer) (buffer : bytes) : Prop := {
  sg_socket : FakeNetwork.find_ip net (UdpSocket.m_fd (m_udp_socket n)) = Some x;
  sg_config : m_connection_manager_config n = cfg;
  sg_timeout : Neptun.m_packet_timeout n = T;
  sg_peers : m_peers n = peers;
  sg_buffer : m_network_buffer n = buffer;
  sg_length : len buffer = kJustAboveMtu;
  sg_metrics : wf NeptunMetricKey (m_metrics n);
}.

Lemma standing_network net net' n x cfg T peers buffer :
  same_network net net' → standing net n x cfg T peers buffer → standing net' n x cfg T peers buffer.
Proof using Type. intros Hs [? ? ? ? ? ? ?]. split; try done. by rewrite (find_ip_bind net) by apply Hs. Qed.

(** The packet [p] of [x] goes to [y]. *)
Definition delivers net net' (x y : IpAddress) (p : bytes) : Prop :=
  ∀ k, FakeNetwork.queue net' k
       = if same_key k y then FakeNetwork.queue net k ++ [FakeNetwork.mkPacket x p] else FakeNetwork.queue net k.

(** The writing half of a tick. *)
Lemma blank_goes_out net n x y cfg T t m c buffer step last now size m' i a mask c' handshake k :
  standing net n x cfg T [(y, blank t m c)] buffer → mtu_ok net → FakeNetwork.m_should_drop_packets net = false →
  sane_time now → ticker_ok limited t → paced step last t → last ≤ now →
  is_fully_connected c = false ∨ last + step ≤ now → Z.min kJustBelowMtu (send_size_limit cfg (blank t m c)) = size → 12 ≤ size →
  (∀ span, 12 ≤ len span → PacketDeliveryManager.write m span now = Ok (m', PacketHeader.encode i a mask ++ drop 12 span, 12)) →
  in_u 32 i → ConnectionManager.write c i (drop 12 (ztake size buffer)) = Ok (c', handshake, k) →
  0 ≤ k ≤ len handshake → len handshake = size - 12 →
  ∃ net' n' t', Neptun.write net n now = Ok (net', n') ∧
    standing net' n' x cfg T [(y, blank t' m' c')] (PacketHeader.encode i a mask ++ handshake ++ zdrop size buffer) ∧
    ticker_ok limited t' ∧ paced step now t' ∧ same_network net net' ∧
    delivers net net' x y (PacketHeader.encode i a mask ++ ztake k handshake).
Proof using Type.
  intros [Hs Hc HT Hp <- Hlen Hm] Hmtu Hkeep Hnow Ht Hpaced Hle Hgo Hsize Hmin Hpdm Hi Hcm Hk Hhs.
  pose proof (PacketHeader.packet_header_length_encode i a mask) as Hhdr.
  destruct (tick_sane limited t now Ht Hnow) as (t' & ticked & Htk & Ht' & _).
  destruct (tick_paced _ _ _ _ _ _ _ Ht Hpaced Hle Htk) as [Hpaced' Hdue].
  assert (ticked || negb (is_fully_connected c) = true) as Hout by (destruct Hgo as [-> |Hgo]; [apply orb_true_r|by rewrite Hdue]).
  assert (size ≤ 1400) as Hmax by (unfold kJustBelowMtu in Hsize; lia). unfold kJustAboveMtu in Hlen.
  destruct (write_to_peer_Ok net n now x y (blank t' m c) (send_size_limit cfg (blank t m c)) size (blank t' m' c')
    (PacketHeader.encode i a mask ++ handshake) 12 k 0 0) as (net' & Hw & Hsame & Hq); try done; [|list_lia|list_lia|].
  { apply blank_write; [apply Hpdm|done|done|lia|lia|]; list_lia. }
  exists net'. eexists. exists t'. split; [|split; [|split; [done|split; [done|split; [done|]]]]].
  - unfold Neptun.write. rewrite Hp. cbn [write_loop]. unfold write_peer. rewrite Hc. cbn [send_packet_ticker blank].
    rewrite Htk. cbn [mbind result_bind]. change (with_ticker _ t') with (blank t' m c).
    change (connection_manager (blank t' m c)) with c. rewrite Hout, Hw. done.
  - split; try done; [by rewrite (find_ip_bind net) by apply Hsame|unfold kJustAboveMtu; list_lia].
  - intros z. rewrite Hq, Hkeep, andb_true_r. destruct (same_key z y); [|done]. do 3 f_equal.
    rewrite !Z.add_0_r, take_app_ge by lia. rewrite Hhdr. do 2 f_equal. lia.
Qed.

(** The peer [y] of an endpoint, which may yet have to be made. *)
Definition has_peer cfg T (peers : map IpAddress Peer) (y : IpAddress) (now : Z) (p : Peer) : Prop :=
  peers = [(y, p)] ∨
  peers = [] ∧ p = blank (Ticker.create now None) (PacketDeliveryManager.create 0 T) (ConnectionManager.create cfg).

Lemma has_peer_found net n x y cfg T peers buffer now p buffer' :
  standing net n x cfg T peers buffer → has_peer cfg T peers y now p →
  ∃ n1, find_or_create_peer (with_network_buffer n buffer') 0 y now = (n1, p) ∧
    ∀ p', set_peer n1 y p' = with_peers (with_network_buffer n buffer') [(y, p')].
Proof using Type.
  intros [_ Hc HT Hp _ _ _] Hpeer. unfold find_or_create_peer, set_peer, new_peer. cbn [m_peers with_network_buffer].
  destruct Hpeer as [-> |[-> ->]]; rewrite Hp.
  - cbn [find]. rewrite same_key_refl. eexists. split; [done|]. intros p'. cbn. rewrite Hp. cbn [update]. by rewrite same_key_refl.
  - cbn. rewrite Hc, HT. eexists. split; [done|]. intros p'. cbn. by rewrite same_key_refl.
Qed.

(** The reading half of a tick. *)
Lemma blank_hears net n x y cfg T peers t m c buffer now i a mask handshake rest_q m' sts c1 c2 l :
  standing net n x cfg T peers buffer → has_peer cfg T peers y now (blank t m c) → len handshake ≤ 100 →
  FakeNetwork.queue net x = FakeNetwork.mkPacket y (PacketHeader.encode i a mask ++ handshake) :: rest_q →
  (∀ body, process_read m (PacketHeader.encode i a mask ++ body) = Ok (m', (12, sts, i))) →
  (∀ metrics, wf NeptunMetricKey metrics → ∃ metrics', wf NeptunMetricKey metrics' ∧
    process_delivery_statuses (blank t m' c) metrics sts = Ok (blank t m' c1, metrics')) →
  ConnectionManager.read c1 handshake (zdrop (12 + len handshake) buffer) = Ok (c2, Value (len handshake)) →
  peer_limit c2 = Some l →
  ∃ net' n', Neptun.read net n now = Ok (net', n', [], []) ∧
    standing net' n' x cfg T [(y, blank (retick (negotiated_rate (max_read_packet_rate l) (max_send_packet_rate (limit cfg))) t) m' c2)]
      (PacketHeader.encode i a mask ++ handshake ++ zdrop (12 + len handshake) buffer) ∧
    same_network net net' ∧ ∀ k, FakeNetwork.queue net' k = if same_key k x then rest_q else FakeNetwork.queue net k.
Proof using Hover.
  intros Hst Hpeer Hlen Hq Hpdm Hsts Hcm Hl. pose proof Hst as [Hs Hc HT Hp Hb Hbl Hm].
  set (payload := PacketHeader.encode i a mask ++ handshake) in *.
  assert (len payload = 12 + len handshake) as Hpl by (unfold payload; rewrite length_app, PacketHeader.packet_header_length_encode; lia).
  unfold kJustAboveMtu in Hbl. destruct (Hsts _ Hm) as (metrics' & Hm' & Hst').
  destruct (has_peer_found net n x y cfg T peers buffer now _ (payload ++ zdrop (len payload) (m_network_buffer n)) Hst Hpeer)
    as (n1 & Hfind & Hset).
  destruct (read_fake_packet net n now x y payload rest_q n1 (blank t m c) (blank (retick (negotiated_rate (max_read_packet_rate l) (max_send_packet_rate (limit cfg))) t) m' c2) metrics' [] [])
    as (net' & Hr & _ & Hsame & Hq'); try done; [by rewrite Hb|unfold kJustBelowMtu; lia| |].
  { rewrite Hc, Hb. eapply blank_read; [done|lia|unfold payload; rewrite <-app_assoc; apply Hpdm|done| |done]. by rewrite Hpl. }
  rewrite Hset in Hr. eexists net', _. split; [exact Hr|]. split; [|done].
  split; try done; [by rewrite (find_ip_bind net) by apply Hsame|by rewrite <-Hpl, <-Hb|].
  unfold kJustAboveMtu. rewrite app_assoc. fold payload. rewrite length_app, length_drop. lia.
Qed.

Lemma tick_parts net n now net1 n1 rel unrel net2 n2 :
  Neptun.drop_loop (m_peers n) (m_metrics n) now = Ok (m_peers n, m_metrics n) →
  Neptun.read net n now = Ok (net1, n1, rel, unrel) → Neptun.write net1 n1 now = Ok (net2, n2) →
  Neptun.tick net n now = Ok (net2, n2, rel, unrel).
Proof using Type.
  intros Hd Hr Hw. unfold Neptun.tick. rewrite Hd. cbn [mbind result_bind].
  assert (with_metrics (with_peers n (m_peers n)) (m_metrics n) = n) as -> by (by destruct n).
  rewrite Hr. cbn [mbind result_bind]. by rewrite Hw.
Qed.

(** ** The exchange

    The responder, bound to [a], has the configuration [cr] and the timeout [Tr], the
    initiator at [b] has [ci] and [Ti]. *)
Record configured (cfg : ConnectionManagerConfig) : Prop := {
  cd_ok : config_ok cfg;
  cd_redundant : 0 ≤ num_redundant_packets cfg < 2 ^ 64 - 1;
}.

(** The rate an end of [own] agrees on with one of [other], and the time between packets. *)
Definition rate_of (own other : ConnectionManagerConfig) : Z :=
  negotiated_rate (max_read_packet_rate (limit other)) (max_send_packet_rate (limit own)).
Definition step_of (own other : ConnectionManagerConfig) : Z :=
  if rate_of own other =? 0 then 0 else 1000000000 / rate_of own other.

Lemma rate_range own other : config_ok own → config_ok other → 0 ≤ rate_of own other < 256.
Proof using Type.
  intros [[_ _ [Hs1 Hs2] _] _ _] [[[Hr1 Hr2] _ _ _] _ _]. unfold rate_of, negotiated_rate.
  destruct (_ =? 0); [lia|]. destruct (_ =? 0); lia.
Qed.

Lemma step_nonneg own other : config_ok own → config_ok other → 0 ≤ step_of own other.
Proof using Type.
  intros Ho Hot. pose proof (rate_range own other Ho Hot). unfold step_of.
  destruct (Z.eqb_spec (rate_of own other) 0); [done|]. apply Z.div_pos; lia.
Qed.

Context (a b : IpAddress) (Hab : same_key a b = false) (cr ci : ConnectionManagerConfig).
Context (Hcr : configured cr) (Hci : configured ci) (Tr Ti : Z).
Context (Hrates : limited = false → rate_of cr ci = 0 ∧ rate_of ci cr = 0).

(** A packet with the message of [cfg]. *)
Definition handshake_packet (mask gap : Z) (cfg : ConnectionManagerConfig) : bytes :=
  PacketHeader.encode 0 0 mask ++ ztake encoded_size (encode_lets_connect gap (limit cfg)).

Lemma size_unknown cfg t m c :
  config_ok cfg → peer_limit c = None →
  22 ≤ Z.min kJustBelowMtu (send_size_limit cfg (blank t m c)) ≤ 1400.
Proof using Type.
  intros [_ Hs _] Hl. unfold send_size_limit, kJustBelowMtu. cbn [Neptun.connection_manager blank]. rewrite Hl. lia.
Qed.

(** The initiator asks. *)
Lemma tick_asks net n buffer t last now :
  standing net n b ci Ti [(a, blank t (PacketDeliveryManager.create 0 Ti) (ConnectionManager.connect (ConnectionManager.create ci)))] buffer →
  FakeNetwork.queue net b = [] → mtu_ok net → FakeNetwork.m_should_drop_packets net = false → sane_time now →
  ticker_ok limited t → paced (step_of ci cr) last t → last ≤ now →
  ∃ net' n' t' gap rest, Neptun.tick net n now = Ok (net', n', [], []) ∧
    standing net' n' b ci Ti [(a, blank t' (waiting Ti 0 now) (asked ci 0))]
      (PacketHeader.encode 0 0 0 ++ encode_lets_connect gap (limit ci) ++ rest) ∧
    ticker_ok limited t' ∧ paced (step_of ci cr) now t' ∧ same_network net net' ∧ delivers net net' b a (handshake_packet 0 gap ci).
Proof using Hci.
  intros Hst Hq Hmtu Hkeep Hnow Ht Hpc Hle. pose proof Hst as [Hs _ _ Hp <- Hbl _].
  destruct (read_fake_nothing net n now b Hs Hbl Hq) as (net1 & Hr & _ & Hsame1 & Hq1). unfold kJustAboveMtu in Hbl.
  set (c0 := ConnectionManager.connect _) in *. set (m0 := PacketDeliveryManager.create 0 Ti) in *.
  pose proof (size_unknown ci t m0 c0 (cd_ok _ Hci) eq_refl) as Hsz. set (size := Z.min _ _) in Hsz.
  destruct (ask ci (cd_redundant _ Hci) 0 (drop 12 (ztake size (m_network_buffer n)))) as (gap & Hask); [list_lia|].
  destruct (blank_goes_out net1 n b a ci Ti t m0 c0 _ (step_of ci cr) last now size _ 0 0 0 _ _ _ (standing_network _ _ _ _ _ _ _ _ Hsame1 Hst)
    (mtu_ok_same _ _ Hsame1 Hmtu) ltac:(by rewrite (sn_drops _ _ Hsame1)) Hnow Ht Hpc Hle
    (or_introl eq_refl) eq_refl ltac:(lia) (λ span Hspan, first_header Ti span now Hspan) ltac:(done) Hask)
    as (net2 & n2 & t2 & Hw & Hst2 & Ht2 & Hpc2 & Hsame2 & Hd);
    [unfold encoded_size; split; [lia|]; unfold encode_lets_connect; list_lia|unfold encode_lets_connect; list_lia|].
  rewrite <-app_assoc in Hst2.
  exists net2, n2, t2, gap. eexists. split; [eapply tick_parts; [|exact Hr|exact Hw]|].
  { rewrite Hp. reflexivity. }
  split; [exact Hst2|]. split; [done|]. split; [done|]. split; [by etrans|].
  intros k. rewrite Hd, Hq1. done.
Qed.

Lemma new_ticker now step : sane_time now → ticker_ok limited (Ticker.create now None) ∧ paced step now (Ticker.create now None).
Proof using Type. intros Hnow. split; split; try done. cbn. intros ? [= <-]. by rewrite Z.sub_0_r. Qed.

Lemma retick_ok own other t last :
  config_ok own → config_ok other → (limited = false → rate_of own other = 0) →
  ticker_ok limited t → paced (step_of own other) last t →
  ticker_ok limited (retick (rate_of own other) t) ∧ paced (step_of own other) last (retick (rate_of own other) t).
Proof using Type.
  intros Ho Hot Hz Ht Hp. pose proof (rate_range own other Ho Hot) as Hr. split.
  - set (p := blank t (PacketDeliveryManager.create 0 0) (ConnectionManager.create own)).
    pose proof (update_send_rate_ticker limited p (rate_of own other) Hr Hz Ht) as H'. unfold p in H'. by rewrite update_blank in H'.
  - destruct Hp as [Hl Hs Hi]. unfold retick, step_of in *. destruct (rate_of own other =? 0); split; try done.
    cbn. by intros ? [= <-].
Qed.

(** The size of the packets of an end of [own] once it has read the message of [other]
    and, for the low byte of a field, the byte [x] behind the packet. *)
Definition agreed_size (own other : ConnectionManagerConfig) (x : Z) : Z :=
  Z.min kJustBelowMtu
    (Z.min (max_read_packet_size (received_limit (limit other) x)) (max_send_packet_size (limit own))).

Lemma agreed_size_range own other x : config_ok own → config_ok other → in_u 8 x → 22 ≤ agreed_size own other x ≤ 1400.
Proof using Type.
  intros [_ Hs _] [_ _ Hr] [Hx _]. unfold agreed_size, kJustBelowMtu. cbn.
  assert (1 ≤ max_read_packet_size (limit other) / 256) by (apply Z.div_le_lower_bound; lia). lia.
Qed.

Lemma announced_packet gap cfg : announces cfg (ztake encoded_size (encode_lets_connect gap (limit cfg))).
Proof using Type. by exists gap. Qed.

(** The responder answers. *)
Lemma tick_responds net m buffer gap x tail now :
  standing net m a cr Tr [] buffer → zdrop 21 buffer = x :: tail → in_u 8 x →
  FakeNetwork.queue net a = [FakeNetwork.mkPacket b (handshake_packet 0 gap ci)] →
  mtu_ok net → FakeNetwork.m_should_drop_packets net = false → sane_time now →
  ∃ net' m' t' gap' buffer', Neptun.tick net m now = Ok (net', m', [], []) ∧
    standing net' m' a cr Tr [(b, blank t' (waiting Tr 1 now) (responded ci cr x 0))] buffer' ∧
    ticker_ok limited t' ∧ paced (step_of cr ci) now t' ∧ same_network net net' ∧
    ∀ k, FakeNetwork.queue net' k
         = if same_key k b then FakeNetwork.queue net k ++ [FakeNetwork.mkPacket a (handshake_packet 1 gap' cr)]
           else if same_key k a then [] else FakeNetwork.queue net k.
Proof using Hab Hci Hcr Hover Hrates.
  intros Hst Htail Hx Hq Hmtu Hkeep Hnow. pose proof Hst as [_ _ _ Hp _ _ _].
  set (t0 := Ticker.create now None).
  destruct (blank_hears net m a b cr Tr [] t0 (PacketDeliveryManager.create 0 Tr) (ConnectionManager.create cr) buffer now 0 0 0
    (ztake encoded_size (encode_lets_connect gap (limit ci))) [] (mkPacketDeliveryManager Tr 0 1 [0] []) []
    (ConnectionManager.create cr) (requested ci cr x) (received_limit (limit ci) x) Hst)
    as (net1 & m1 & Hr & Hst1 & Hsame1 & Hq1); [by right|done|done|apply read_first| | |done|].
  { intros metrics Hm. by exists metrics. }
  { change (12 + _) with 21. rewrite Htail. apply (hear_request ci cr (cd_ok _ Hci) (cd_redundant _ Hcr)); [apply announced_packet|done]. }
  destruct (new_ticker now (step_of cr ci) Hnow) as [Ht0 Hp0].
  destruct (retick_ok cr ci t0 now (cd_ok _ Hcr) (cd_ok _ Hci) (λ E, proj1 (Hrates E)) Ht0 Hp0) as [Ht1 Hp1].
  pose proof (agreed_size_range cr ci x (cd_ok _ Hcr) (cd_ok _ Hci) Hx) as Hsz.
  pose proof Hst1 as [_ _ _ _ _ Hbl1 _]. unfold kJustAboveMtu in Hbl1.
  match type of Hst1 with standing _ _ _ _ _ _ ?buf => set (buffer1 := buf) in * end.
  destruct (respond ci cr (cd_redundant _ Hcr) x 0 (drop 12 (ztake (agreed_size cr ci x) buffer1))) as (gap' & Hresp); [list_lia|].
  destruct (blank_goes_out net1 m1 a b cr Tr _ _ _ buffer1 (step_of cr ci) now now (agreed_size cr ci x) _ 0 0 1 _ _ _ Hst1
    (mtu_ok_same _ _ Hsame1 Hmtu) ltac:(by rewrite (sn_drops _ _ Hsame1)) Hnow Ht1 Hp1 (Z.le_refl _)
    (or_introl eq_refl) eq_refl ltac:(lia)
    (λ span Hspan, acking_header Tr 0 1 [] span now Hspan) ltac:(done) Hresp) as (net2 & m2 & t2 & Hw & Hst2 & Ht2 & Hpc2 & Hsame2 & Hd);
    [unfold encoded_size; split; [lia|]; unfold encode_lets_connect; list_lia|unfold encode_lets_connect; list_lia|].
  exists net2, m2, t2, gap'. eexists. split; [eapply tick_parts; [|exact Hr|exact Hw]; by rewrite Hp|].
  split; [exact Hst2|]. split; [done|]. split; [done|]. split; [by etrans|].
  intros k. rewrite Hd, Hq1. destruct (same_key k b) eqn:Hkb; [|done].
  destruct (same_key k a) eqn:Hka; [|done]. rewrite same_key_sym in Hka. by rewrite (same_key_trans a k b) in Hab.
Qed.

(** Behind the response in the initiator's buffer is the last byte of its own request. *)
Lemma own_low_byte gap l rest :
  zdrop 21 (PacketHeader.encode 0 0 0 ++ encode_lets_connect gap l ++ rest) = (max_read_packet_size l mod 256) :: rest.
Proof using Type.
  change (Z.land (Z.shiftr (max_read_packet_size l) 0) 255 :: rest = max_read_packet_size l mod 256 :: rest).
  f_equal. rewrite Z.shiftr_0_r. by apply (Z.land_ones _ 8).
Qed.

Lemma own_drop_loop t y c e x metrics T now :
  sane_time (T * 1000000) → sane_time x → now < x + T * 1000000 →
  let peers := [(y, blank t (waiting T e x) c)] in
  Neptun.drop_loop peers metrics now = Ok (peers, metrics).
Proof using Type. intros HT Hx Hnow. cbn [Neptun.drop_loop]. by rewrite none_expires. Qed.

(** The initiator reads the response and acknowledges it. *)
Lemma tick_acknowledges net n t gap gap' rest asked_at now :
  let y := max_read_packet_size (limit ci) mod 256 in
  standing net n b ci Ti [(a, blank t (waiting Ti 0 asked_at) (asked ci 0))]
    (PacketHeader.encode 0 0 0 ++ encode_lets_connect gap (limit ci) ++ rest) →
  FakeNetwork.queue net b = [FakeNetwork.mkPacket a (handshake_packet 1 gap' cr)] →
  mtu_ok net → FakeNetwork.m_should_drop_packets net = false → ticker_ok limited t → paced (step_of ci cr) asked_at t →
  asked_at + step_of ci cr ≤ now → sane_time (Ti * 1000000) → sane_time asked_at → sane_time now → now < asked_at + Ti * 1000000 →
  ∃ net' n' t' buffer', Neptun.tick net n now = Ok (net', n', [], []) ∧
    standing net' n' b ci Ti [(a, blank t' (mkPacketDeliveryManager Ti 2 1 [] [mkInFlightPacket 1 now])
      (initiator_done ci (Some (received_limit (limit cr) y))))] buffer' ∧
    ticker_ok limited t' ∧ paced (step_of ci cr) now t' ∧ same_network net net' ∧
    ∀ k, FakeNetwork.queue net' k
         = if same_key k a then FakeNetwork.queue net k ++ [FakeNetwork.mkPacket b (PacketHeader.encode 1 0 1)]
           else if same_key k b then [] else FakeNetwork.queue net k.
Proof using Hab Hci Hcr Hover Hpop Hrates.
  intros y Hst Hq Hmtu Hkeep Ht Hpc Hdue HT Hasked Hnow Hto. pose proof Hst as [_ _ _ Hp _ _ _].
  assert (in_u 8 y) as Hy by (unfold y, in_u; by apply Z.mod_pos_bound).
  destruct (blank_hears net n b a ci Ti _ t (waiting Ti 0 asked_at) (asked ci 0) _ now 0 0 1 (ztake encoded_size (encode_lets_connect gap' (limit cr))) []
    (mkPacketDeliveryManager Ti 1 1 [0] []) [(0, ACK)] (initiator_done ci None)
    (initiator_done ci (Some (received_limit (limit cr) y))) (received_limit (limit cr) y) Hst)
    as (net1 & n1 & Hr & Hst1 & Hsame1 & Hq1); [by left|done|done|intros body; apply (read_acking Ti 0); by left| | |done|].
  { intros metrics Hm. destruct (blank_ack t (mkPacketDeliveryManager Ti 1 1 [0] []) (asked ci 0) metrics 0 Hpop eq_refl Hm)
      as (metrics' & Hm' & Hs'). by exists metrics'. }
  { change (12 + _) with 21. rewrite own_low_byte. fold y. rewrite (read_announced cr) by (done || apply Hcr || apply announced_packet).
    unfold after_read. by rewrite received_valid by (done || apply Hcr). }
  destruct (retick_ok ci cr t asked_at (cd_ok _ Hci) (cd_ok _ Hcr) (λ E, proj2 (Hrates E)) Ht Hpc) as [Ht1 Hpc1].
  pose proof (step_nonneg ci cr (cd_ok _ Hci) (cd_ok _ Hcr)) as Hstep.
  pose proof (agreed_size_range ci cr y (cd_ok _ Hci) (cd_ok _ Hcr) Hy) as Hsz.
  pose proof Hst1 as [_ _ _ _ _ Hbl1 _]. unfold kJustAboveMtu in Hbl1.
  match type of Hst1 with standing _ _ _ _ _ _ ?buf => set (buffer1 := buf) in * end.
  destruct (blank_goes_out net1 n1 b a ci Ti _ _ _ buffer1 (step_of ci cr) asked_at now (agreed_size ci cr y) _ 1 0 1 _ _ _ Hst1
    (mtu_ok_same _ _ Hsame1 Hmtu) ltac:(by rewrite (sn_drops _ _ Hsame1)) Hnow Ht1 Hpc1 ltac:(lia) (or_intror Hdue) eq_refl ltac:(lia)
    (λ span Hspan, acking_header Ti 1 1 [] span now Hspan) ltac:(done)
    (write_idle (initiator_done ci (Some (received_limit (limit cr) y))) 1 _ (Z.le_refl 0)))
    as (net2 & n2 & t2 & Hw & Hst2 & Ht2 & Hpc2 & Hsame2 & Hd); [list_lia|list_lia|].
  exists net2, n2, t2. eexists. split; [eapply tick_parts; [|exact Hr|exact Hw]; rewrite Hp; by apply own_drop_loop|].
  split; [exact Hst2|]. split; [done|]. split; [done|]. split; [by etrans|].
  intros k. rewrite Hd, Hq1. destruct (same_key k a) eqn:Hka; [|done].
  destruct (same_key k b) eqn:Hkb; [|done]. rewrite same_key_sym in Hka. by rewrite (same_key_trans a k b) in Hab.
Qed.

(** The responder reads that packet. *)
Lemma reads_acknowledgement net m t x answered_at buffer now :
  standing net m a cr Tr [(b, blank t (waiting Tr 1 answered_at) (responded ci cr x 0))] buffer →
  FakeNetwork.queue net a = [FakeNetwork.mkPacket b (PacketHeader.encode 1 0 1)] →
  sane_time (Tr * 1000000) → sane_time answered_at → now < answered_at + Tr * 1000000 →
  ∃ net' m' buffer', Neptun.drop_loop (m_peers m) (m_metrics m) now = Ok (m_peers m, m_metrics m) ∧
    Neptun.read net m now = Ok (net', m', [], []) ∧
    standing net' m' a cr Tr [(b, blank (retick (rate_of cr ci) t) (mkPacketDeliveryManager Tr 1 2 [1] []) (responder_done ci cr x))] buffer' ∧
    same_network net net' ∧ ∀ k, FakeNetwork.queue net' k = if same_key k a then [] else FakeNetwork.queue net k.
Proof using Hci Hcr Hover Hpop Hrates.
  intros Hst Hq HT Hans Hto. pose proof Hst as [_ _ _ Hp _ _ _].
  destruct (blank_hears net m a b cr Tr _ t (waiting Tr 1 answered_at) (responded ci cr x 0) buffer now 1 0 1 [] []
    (mkPacketDeliveryManager Tr 1 2 [1] []) [(0, ACK)] (responder_done ci cr x) (responder_done ci cr x) (received_limit (limit ci) x) Hst)
    as (net1 & m1 & Hr & Hst1 & Hsame1 & Hq1);
    [by left|done|done|intros body; apply (read_acking Tr 1); by right| |done|done|].
  { intros metrics Hm. destruct (blank_ack t (mkPacketDeliveryManager Tr 1 2 [1] []) (responded ci cr x 0) metrics 0 Hpop eq_refl Hm)
      as (metrics' & Hm' & Hs'). by exists metrics'. }
  exists net1, m1. eexists. split; [rewrite Hp; by apply own_drop_loop|]. by split_and!.
Qed.

(** ** The connection *)

Definition responder_peer (t : Ticker) (x : Z) : Peer :=
  blank t (mkPacketDeliveryManager Tr 1 2 [1] []) (responder_done ci cr x).
Definition initiator_peer (t : Ticker) (y now : Z) : Peer :=
  blank t (mkPacketDeliveryManager Ti 2 1 [] [mkInFlightPacket 1 now]) (initiator_done ci (Some (received_limit (limit cr) y))).

Lemma peers_established t t' x y now :
  established (responder_peer t x) (initiator_peer t' y now) ∧ established (initiator_peer t' y now) (responder_peer t x).
Proof using Type.
  split; split; try done; exists 1; (split; [split; done|done|repeat constructor|repeat constructor]); done.
Qed.

Lemma known_limits own other c x :
  config_ok own → config_ok other → (limited = false → rate_of own other = 0) → in_u 8 x →
  peer_limit c = Some (received_limit (limit other) x) → limits_ok limited own c (agreed_size own other x).
Proof using Type.
  intros Ho Hot Hz Hx Hl. split; rewrite ?Hl.
  - intros lim [= <-]. exact (conj (rate_range own other Ho Hot) Hz).
  - done.
  - by apply agreed_size_range.
Qed.

Lemma standing_seat net n x y cfg other T t m c buffer z :
  standing net n x cfg T [(y, blank t m c)] buffer → ticker_ok limited t → config_ok cfg → config_ok other →
  (limited = false → rate_of cfg other = 0) → in_u 8 z → peer_limit c = Some (received_limit (limit other) z) →
  seat limited net n x y (agreed_size cfg other z) (Channel.start (blank t m c) no_metrics).
Proof using Type.
  intros [Hs Hc _ Hp Hb Hl Hm] Ht Ho Hot Hrate Hz Hlim. split; try done.
  - by exists (blank t m c).
  - by rewrite Hb.
  - rewrite Hc. by apply known_limits.
Qed.

(** The responder's second tick: from here on the two ends are a channel, in which the
    responder has written its second packet and the initiator has not yet read it. *)
Lemma tick_connects net m n t t' x y answered_at buffer buffer' acknowledged_at now budget :
  standing net m a cr Tr [(b, blank t (waiting Tr 1 answered_at) (responded ci cr x 0))] buffer → ticker_ok limited t →
  paced (step_of cr ci) answered_at t → answered_at + step_of cr ci ≤ now →
  standing net n b ci Ti [(a, initiator_peer t' y acknowledged_at)] buffer' → ticker_ok limited t' →
  FakeNetwork.queue net a = [FakeNetwork.mkPacket b (PacketHeader.encode 1 0 1)] → FakeNetwork.queue net b = [] →
  mtu_ok net → FakeNetwork.m_should_drop_packets net = false → in_u 8 x → in_u 8 y →
  sane_time (Tr * 1000000) → sane_time (Ti * 1000000) → sane_time answered_at → sane_time acknowledged_at → sane_time now →
  now < answered_at + Tr * 1000000 → 0 ≤ budget < 2 ^ 31 →
  ∃ net' m' l, Neptun.tick net m now = Ok (net', m', [], []) ∧ same_network net net' ∧
    pair_ok limited 0 1 cr ci a b (agreed_size cr ci x) (agreed_size ci cr y) 2 1 net' m' n l
      (Channel.start (initiator_peer t' y acknowledged_at) no_metrics) [] [0%nat] [] budget.
Proof using Hab Hci Hcr Hover Hpop Hrates.
  intros Hm Ht Hpc Hdue Hn Ht' Hqa Hqb Hmtu Hkeep Hx Hy HTr HTi Hans Hack Hnow Hto Hb.
  destruct (reads_acknowledgement net m t x answered_at buffer now Hm Hqa HTr Hans Hto)
    as (net1 & m1 & buffer1 & Hd & Hr & Hm1 & Hsame1 & Hq1).
  destruct (retick_ok cr ci t answered_at (cd_ok _ Hcr) (cd_ok _ Hci) (λ E, proj1 (Hrates E)) Ht Hpc) as [Ht1 Hpc1].
  pose proof (peers_established (retick (rate_of cr ci) t) t' x y acknowledged_at) as [Hpq Hqp].
  set (p := responder_peer _ x) in *. set (q := initiator_peer t' y acknowledged_at) in *.
  pose proof (channel_start p q no_metrics no_metrics (budget + 1) Hpq Hqp ltac:(lia) ltac:(cbn; lia) ltac:(cbn; lia)) as Hch.
  pose proof (standing_seat _ _ _ _ _ _ _ _ _ _ _ x Hm1 Ht1 (cd_ok _ Hcr) (cd_ok _ Hci) (λ E, proj1 (Hrates E)) Hx eq_refl) as Hsl. fold p in Hsl.
  pose proof (standing_seat _ _ _ _ _ _ _ _ _ _ _ y Hn Ht' (cd_ok _ Hci) (cd_ok _ Hcr) (λ E, proj2 (Hrates E)) Hy eq_refl) as Hsr. fold q in Hsr.
  assert (live (Channel.start p no_metrics)) as Hll by (by apply (live_start p q _ Hpq); [..|constructor|]).
  assert (live (Channel.start q no_metrics)) as Hlr by (by apply (live_start q p _ Hqp); [..|apply Forall_singleton|]).
  destruct (write_seat limited m1 a b (agreed_size cr ci x) _ _ _ _ budget Hch ltac:(lia) Hll net1 now Hsl (mtu_ok_same _ _ Hsame1 Hmtu) Hnow)
    as (net2 & m2 & l & wr & Hw & Hsl2 & Hcfg2 & Hwr & _ & Hrh).
  destruct (Hrh _ answered_at (step_nonneg cr ci (cd_ok _ Hcr) (cd_ok _ Hci))) as [(flushed & ->) _];
    [intros _; exists b, p; split; [apply Hm1|exact Hpc1]|done|].
  inversion Hwr as [|l' buf payload Hact Hbuf Hpay Hsm Hsame2 Hq2 El Ebuf]. subst l' buf.
  pose proof (size_range _ _ _ _ (se_limits _ _ _ _ _ _ _ Hsl)) as Hsz.
  destruct (act_keeps _ _ _ _ _ budget (Flush flushed now) 0 _ Hch ltac:(lia) Hll ltac:(cbn; lia) Hnow ltac:(done) I Hact)
    as (Hll2 & He2 & hl2 & Hbase2 & Hch2).
  destruct (flush_sides _ _ _ _ _ _ Hact) as (Ed & Es & Eud & Eus).
  exists net2, m2, l. split; [by eapply tick_parts|]. split; [by etrans|].
  rewrite (sg_config _ _ _ _ _ _ _ Hm1) in Hcfg2.
  assert (FakeNetwork.queue net2 a = [] ∧ FakeNetwork.queue net2 b = [FakeNetwork.mkPacket a payload]) as [Ea Eb].
  { rewrite !Hq2, same_key_refl, Hab, !Hq1, same_key_refl, (same_key_sym b a), Hab, Hqb, (sn_drops _ _ Hsame1), Hkeep. done. }
  split.
  - split; [done|done|done| | |done].
    + exists 0%nat. split; [cbn; lia|]. split; [done|]. split; rewrite ?Ea; constructor.
    + intros _. by apply (flush_acks _ _ _ _ _ budget flushed now l Hch ltac:(lia) ltac:(lia) Hact).
  - split; [|by apply Hn|done| |done|done].
    + eapply seat_network; [|exact Hsr]. by rewrite (sn_bind _ _ Hsame2), (sn_bind _ _ Hsame1).
    + exists 0%nat. rewrite Hpay. split; [cbn; lia|]. split; [done|]. split; rewrite ?Eb; repeat constructor; try done.
      * cbn. apply same_key_refl.
      * by rewrite Hpay.
  - eapply mtu_ok_same; [exact Hsame2|]. by eapply mtu_ok_same.
  - by exists hl2, (half_of q).
Qed.

(** ** From the constructors on *)

(** Both endpoints on a new network: the responder is node 0, the initiator node 1. *)
Definition fresh_ends (mtu : Z) : result (System FakeNetwork.FakeNetwork) :=
  '(net, m) ← Neptun.create (FakeNetwork.create mtu) a cr Tr;
  '(net, n) ← Neptun.create net b ci Ti;
  Ok (mkSystem net [m; n]).

Definition blank_buffer : bytes := replicate (Z.to_nat kJustAboveMtu) 0.

Lemma fresh_standing mtu :
  address_string a ≠ address_string b → kJustBelowMtu ≤ mtu < 2 ^ 31 →
  ∃ net m n, fresh_ends mtu = Ok (mkSystem net [m; n]) ∧ mtu_ok net ∧ FakeNetwork.m_should_drop_packets net = false ∧
    (∀ k, FakeNetwork.queue net k = []) ∧ standing net m a cr Tr [] blank_buffer ∧ standing net n b ci Ti [] blank_buffer.
Proof using Type.
  intros Hdiff Hmtu. set (net := FakeNetwork.mkFakeNetwork mtu 2 false [(a, 0); (b, 1)] [] []).
  assert (UdpSocket.bind b (FakeNetwork.mkFakeNetwork mtu 1 false [(a, 0)] [] []) = Ok (net, UdpSocket.mkUdpSocket 1 b)) as Hbind.
  { unfold UdpSocket.bind. cbn [Network.udp_socket_ipv4 Network.bind FakeNetwork.fake_network].
    replace (FakeNetwork.udp_socket_ipv4 _) with (Ok (FakeNetwork.mkFakeNetwork mtu 2 false [(a, 0)] [] [], 1)) by done.
    cbn [mbind result_bind]. unfold FakeNetwork.bind. cbn [FakeNetwork.m_bind List.find].
    unfold FakeNetwork.ip_or_socket. cbn [fst snd]. by rewrite bool_decide_eq_false_2 by congruence. }
  unfold fresh_ends, Neptun.create. replace (UdpSocket.bind a _)
    with (Ok (FakeNetwork.mkFakeNetwork mtu 1 false [(a, 0)] [] [], UdpSocket.mkUdpSocket 0 a)) by done.
  cbn [mbind result_bind]. rewrite Hbind. cbn [mbind result_bind]. do 3 eexists. split; [done|]. by split_and!.
Qed.

(** [connect] on an endpoint without peers. *)
Lemma connect_standing net n buffer now :
  standing net n b ci Ti [] buffer →
  standing net (Neptun.connect n a now) b ci Ti
    [(a, blank (Ticker.create now None) (PacketDeliveryManager.create 0 Ti) (ConnectionManager.connect (ConnectionManager.create ci)))] buffer.
Proof using Type.
  intros Hst. pose proof Hst as [Hs Hc HT Hp Hb Hl Hm]. unfold Neptun.connect, find_or_create_peer. rewrite Hp. cbn [find].
  unfold set_peer, new_peer. rewrite Hc, HT. split; try done. cbn. by rewrite same_key_refl.
Qed.

(** The initiator connects at [t0] and ticks at [t1] and [t3], the responder at [t2] and [t4].
    Each end comes back after its interval. *)
Definition startup (t0 t1 t2 t3 t4 : Z) : list move :=
  Call <$> [Connect 1 a t0; Tick 1 t1; Tick 0 t2; Tick 1 t3; Tick 0 t4].

Record startup_times (t0 t1 t2 t3 t4 : Z) : Prop := {
  su_timeouts : sane_time (Tr * 1000000) ∧ sane_time (Ti * 1000000);
  su_times : Forall sane_time [t0; t1; t2; t3; t4];
  su_request : t3 < t1 + Ti * 1000000;
  su_response : t4 < t2 + Tr * 1000000;
  su_connect : t0 ≤ t1;
  su_initiator : t1 + step_of ci cr ≤ t3;
  su_responder : t2 + step_of cr ci ≤ t4;
}.

(** The packet sizes the two ends settle on. The responder has read 0 behind the request,
    the initiator a byte of its own behind the response. *)
Definition responder_size : Z := agreed_size cr ci 0.
Definition initiator_size : Z := agreed_size ci cr (max_read_packet_size (limit ci) mod 256).

Lemma play_silent s mv s' ms : play s mv = Ok (s', []) → play_all s (mv :: ms) = play_all s' ms.
Proof using Type. intros Hp. cbn [play_all]. rewrite Hp. cbn [mbind result_bind]. by destruct (play_all s' ms) as [[]|]. Qed.

(** A tick that hands nothing over. *)
Lemma play_tick s k n now net' n' :
  nodes s !! k = Some n → Neptun.tick (network s) n now = Ok (net', n', [], []) →
  play s (Call (Tick k now)) = Ok (mkSystem net' (<[k := n']> (nodes s)), []).
Proof using Type. intros Hn Ht. cbn [play]. unfold exec. rewrite Hn, Ht. cbn. by destruct (incoming _ _). Qed.

Lemma startup_pair mtu t0 t1 t2 t3 t4 budget :
  address_string a ≠ address_string b → kJustBelowMtu ≤ mtu < 2 ^ 31 → startup_times t0 t1 t2 t3 t4 → 0 ≤ budget < 2 ^ 31 →
  ∃ s net m n l q, fresh_ends mtu = Ok s ∧ play_all s (startup t0 t1 t2 t3 t4) = Ok (mkSystem net [m; n], []) ∧
    pair_ok limited 0 1 cr ci a b responder_size initiator_size 2 1 net m n l (Channel.start q no_metrics) [] [0%nat] [] budget.
Proof using Hab Hci Hcr Hover Hpop Hrates.
  intros Hdiff Hmtu [[HTr HTi] Hts Hreq Hresp Hcon Hini Hres] Hb. rewrite !Forall_cons in Hts. destruct Hts as (H0' & H1' & H2' & H3' & H4' & _).
  destruct (fresh_standing mtu Hdiff Hmtu) as (net & m & n & Hfresh & Hm & Hk & Hq & Hsm & Hsn).
  apply (connect_standing _ _ _ t0) in Hsn.
  destruct (new_ticker t0 (step_of ci cr) H0') as [Hnew Hpnew].
  destruct (tick_asks _ _ _ _ t0 t1 Hsn (Hq b) Hm Hk H1' Hnew Hpnew Hcon)
    as (net1 & n1 & tk1 & gap & rest & Htick1 & Hsn1 & Htk1 & Hpc1 & Hsame1 & Hq1).
  apply (mtu_ok_same _ _ Hsame1) in Hm. rewrite <-(sn_drops _ _ Hsame1) in Hk.
  destruct (tick_responds net1 m blank_buffer gap 0 (replicate (Z.to_nat 1578) 0) t2 (standing_network _ _ _ _ _ _ _ _ Hsame1 Hsm))
    as (net2 & m2 & tk2 & gap' & buffer2 & Htick2 & Hsm2 & Htk2 & Hpc2 & Hsame2 & Hq2); try done.
  { by rewrite Hq1, same_key_refl, Hq. }
  apply (mtu_ok_same _ _ Hsame2) in Hm. rewrite <-(sn_drops _ _ Hsame2) in Hk.
  destruct (tick_acknowledges net2 n1 tk1 gap gap' rest t1 t3 (standing_network _ _ _ _ _ _ _ _ Hsame2 Hsn1))
    as (net3 & n3 & tk3 & buffer3 & Htick3 & Hsn3 & Htk3 & _ & Hsame3 & Hq3); try done.
  { by rewrite Hq2, same_key_refl, Hq1, (same_key_sym b a), Hab, Hq. }
  apply (mtu_ok_same _ _ Hsame3) in Hm. rewrite <-(sn_drops _ _ Hsame3) in Hk.
  destruct (tick_connects net3 m2 n3 tk2 tk3 0 (max_read_packet_size (limit ci) mod 256) t2 buffer2 buffer3 t3 t4 budget
    (standing_network _ _ _ _ _ _ _ _ Hsame3 Hsm2) Htk2 Hpc2 Hres Hsn3 Htk3) as (net4 & m4 & l & Htick4 & Hsame4 & Hpair); try done.
  { by rewrite Hq3, same_key_refl, Hq2, Hab, same_key_refl. }
  { by rewrite Hq3, (same_key_sym b a), Hab, same_key_refl. }
  { by apply Z.mod_pos_bound. }
  exists (mkSystem net [m; n]), net4, m4, n3, l, (initiator_peer tk3 (max_read_packet_size (limit ci) mod 256) t3).
  split; [done|]. split; [|exact Hpair].
  unfold startup. cbn [fmap list_fmap].
  rewrite (play_silent _ _ (mkSystem net [m; Neptun.connect n a t0])) by done.
  rewrite (play_silent _ _ (mkSystem net1 [m; n1])) by exact (play_tick (mkSystem net [m; Neptun.connect n a t0]) 1 _ t1 net1 n1 eq_refl Htick1).
  rewrite (play_silent _ _ (mkSystem net2 [m2; n1])) by exact (play_tick (mkSystem net1 [m; n1]) 0 _ t2 net2 m2 eq_refl Htick2).
  rewrite (play_silent _ _ (mkSystem net3 [m2; n3])) by exact (play_tick (mkSystem net2 [m2; n1]) 1 _ t3 net3 n3 eq_refl Htick3).
  by rewrite (play_silent _ _ (mkSystem net4 [m4; n3])) by exact (play_tick (mkSystem net3 [m2; n3]) 0 _ t4 net4 m4 eq_refl Htick4).
Qed.

Lemma play_all_app ms ms' : ∀ s,
  play_all s (ms ++ ms') = ('(s1, es) ← play_all s ms; '(s2, es') ← play_all s1 ms'; Ok (s2, es ++ es')).
Proof using Type.
  induction ms as [|mv ms IH]; intros s; cbn [app play_all mbind result_bind].
  { by destruct (play_all s ms') as [[]|]. }
  destruct (play s mv) as [[s1 es]|]; [|done]. cbn [mbind result_bind]. rewrite IH.
  destruct (play_all s1 ms) as [[s2 es2]|]; [|done]. cbn [mbind result_bind].
  destruct (play_all s2 ms') as [[s3 es3]|]; [|done]. cbn. by rewrite app_assoc.
Qed.

(** The constructors, the start, and what the applications and the network do then. *)
Definition from_start (mtu t0 t1 t2 t3 t4 : Z) (ms : list move) : result (System FakeNetwork.FakeNetwork * list event) :=
  s ← fresh_ends mtu; play_all s (startup t0 t1 t2 t3 t4 ++ ms).

Lemma from_start_pair mtu t0 t1 t2 t3 t4 ms budget :
  address_string a ≠ address_string b → kJustBelowMtu ≤ mtu < 2 ^ 31 → startup_times t0 t1 t2 t3 t4 →
  Forall (move_ok a b) ms → 0 ≤ budget → budget + 3 * len ms < 2 ^ 31 →
  ∃ net m n l r js js' es, from_start mtu t0 t1 t2 t3 t4 ms = Ok (mkSystem net [m; n], es) ∧
    pair_ok limited 0 1 cr ci a b responder_size initiator_size 2 1 net m n l r js js' es budget.
Proof using Hab Hci Hcr Hover Hpop Hrates.
  intros Hdiff Hmtu Hts Hms Hb Hbms.
  destruct (startup_pair mtu t0 t1 t2 t3 t4 (budget + 3 * len ms) Hdiff Hmtu Hts ltac:(lia))
    as (s & net & m & n & l & q & Hfresh & Hplay & Hpair).
  destruct (play_all_both limited a b Hab cr ci responder_size initiator_size 1 2 ms net m n l _ _ _ _ budget Hpair Hb Hms)
    as (net' & m' & n' & l' & r' & js & js' & es & Hplay' & Hpair').
  exists net', m', n', l', r', js, js', es. split; [|exact Hpair'].
  unfold from_start. rewrite Hfresh. cbn [mbind result_bind]. rewrite play_all_app, Hplay. cbn [mbind result_bind].
  by rewrite Hplay'.
Qed.

(** C9: the class from its constructors on. Two endpoints, whose limits are at least 100
    bytes to send and 256 to read, are constructed on a new [FakeNetwork], one calls
    [connect], and each ticks twice in turn, before its packets time out and, if the two
    agree on rates, an interval apart: they are connected. From then on they may send and
    tick in any order and at any times, while the network is switched at any moment between
    dropping packets and letting them through. No call ever fails. Each end has got a
    prefix of the reliable messages of the other, which still holds the rest, and some of
    its unreliable ones, at most once and in order. The platform is one on which an index just behind a span reads the
    byte that follows it in the buffer and the [pop] of an empty queue leaves it empty;
    the standard promises neither, and without the second no handshake ends
    ([ConnectionManager.never_fully_connected]). *)
Theorem startup_exactly_once mtu t0 t1 t2 t3 t4 ms :
  address_string a ≠ address_string b → kJustBelowMtu ≤ mtu < 2 ^ 31 → startup_times t0 t1 t2 t3 t4 →
  Forall (move_ok a b) ms → 3 * len ms < 2 ^ 31 →
  ∃ s es, from_start mtu t0 t1 t2 t3 t4 ms = Ok (s, es) ∧
    exactly_once_at s 0 1 a b es ∧ exactly_once_at s 1 0 b a es ∧
    got_from 1 false a es `sublist_of` sent_to 0 false b es ∧
    got_from 0 false b es `sublist_of` sent_to 1 false a es.
Proof using Hab Hci Hcr Hover Hpop Hrates.
  intros Hdiff Hmtu Hts Hms Hb.
  destruct (from_start_pair mtu t0 t1 t2 t3 t4 ms 0 Hdiff Hmtu Hts Hms ltac:(done) ltac:(done))
    as (net & m & n & l & r & js & js' & es & Hrun & Hpair).
  exists (mkSystem net [m; n]), es. split; [done|].
  destruct (pair_exactly_once _ _ _ _ _ _ _ _ _ _ _ _ _ _ _ _ _ _ _ _ [m; n] Hpair eq_refl).
  apply pair_sym in Hpair. destruct (pair_exactly_once _ _ _ _ _ _ _ _ _ _ _ _ _ _ _ _ _ _ _ _ [m; n] Hpair eq_refl).
  by split_and!.
Qed.

End Ticks.

(** ** A run *)

Section Witness.
#[local] Existing Instance little_endian.
#[local] Existing Instance FakeNetwork.fake_network.
#[local] Existing Instance tolerant.

Lemma server_configured : configured server_config.
Proof. repeat split; vm_compute; congruence. Qed.

Lemma client_configured : configured client_config.
Proof. repeat split; vm_compute; congruence. Qed.

(** The server sends 60 packets a second, the client 30. *)
Lemma test_steps : step_of server_config client_config = 16666666 ∧ step_of client_config server_config = 33333333.
Proof. split; reflexivity. Qed.

Lemma ips_other_strings : address_string server_ip ≠ address_string client_ip.
Proof. by vm_compute. Qed.

Lemma test_times : startup_times server_config client_config 5000 5000 0 0 (10 * ms) (40 * ms) (100 * ms).
Proof. split; try done. by repeat constructor. Qed.

(** A first message of the client is dropped, then [Lossy]'s moves, and two more packets
    are dropped. *)
Definition startup_moves : list move :=
  [Drops true; Call (SendReliable 1 server_ip (write_message [5]) (150 * ms)); Call (Tick 1 (200 * ms)); Drops false]
  ++ lossy_moves ++ [Drops true; Call (Tick 1 (370 * ms)); Call (Tick 0 (380 * ms)); Drops false].

Lemma startup_moves_ok : Forall (move_ok server_ip client_ip) startup_moves.
Proof.
  apply Forall_app. split; [|apply Forall_app; split; [exact lossy_moves_ok|]]; rewrite !Forall_cons; split_and!; try done;
    first [right; split; [done|split; [done|apply write_message_ok]]|right; done|left; done].
Qed.

Definition started : result (System FakeNetwork.FakeNetwork * list event) :=
  from_start server_ip client_ip server_config client_config 5000 5000 1400 0 0 (10 * ms) (40 * ms) (100 * ms) startup_moves.

(** It settles, the last ticks at 380 and at 370 ms. *)
Lemma started_settled s es :
  started = Ok (s, es) →
  sent_to 0 true client_ip es = [[1; 2; 3]; [4]; [7]] ∧ got_from 1 true server_ip es = [] ∧
  sent_to 1 true server_ip es = [[5]] ∧ got_from 0 true client_ip es = [] ∧
  ∃ p q, settled true server_ip client_ip server_config client_config (20 * ms) 5000 s p q (380 * ms) (370 * ms) ∧
    length (outstanding (reliable_stream p)) = 3%nat ∧ length (outstanding (reliable_stream q)) = 1%nat ∧
    pace server_config (Neptun.connection_manager p) = 16666666 ∧ pace client_config (Neptun.connection_manager q) = 33333333.
Proof.
  intros Hs. vm_compute in Hs. injection Hs as <- <-. do 4 (split; [done|]). do 2 eexists.
  split; [split; [eexists; split; reflexivity|eexists; split; reflexivity|done|done| |]|by split].
  - split; (split; [done|by repeat constructor]).
  - intros _. split; [| |by split]; (split; [done|done|]); cbn; intros ? [= <-]; done.
Qed.


Lemma startup_exactly_once_witness :
  ∃ s es, started = Ok (s, es) ∧ exactly_once_at s 0 1 server_ip client_ip es ∧ exactly_once_at s 1 0 client_ip server_ip es ∧
    sent_to 0 true client_ip es = [[1; 2; 3]; [4]; [7]].
Proof.
  destruct (@startup_exactly_once tolerant little_endian eq_refl eq_refl true server_ip client_ip ips_differ server_config client_config
    server_configured client_configured 5000 5000 ltac:(discriminate) 1400 0 0 (10 * ms) (40 * ms) (100 * ms) startup_moves
    ips_other_strings ltac:(split; [vm_compute; congruence|reflexivity]) test_times startup_moves_ok eq_refl) as (s & es & Hs & Hl & Hr & _).
  exists s, es. split; [exact Hs|]. split; [exact Hl|]. split; [exact Hr|]. exact (proj1 (started_settled s es Hs)).
Defined.

End Witness.
