(* ===== verification/Contract.v ===== *)
(** * Contract: what two endpoints promise their applications

    An abstract specification of the service in one direction, a [Pipe]: a queue of
    reliable messages that are got in the order they were given, and a list of unreliable
    ones that may be forgotten. It knows of no packets, ids, acknowledgements, timeouts
    or losses. The theorems say that what the applications of two connected endpoints
    see, whatever the network does, is a run of two pipes, one in each direction. *)
From Stdlib Require Import ZArith Lia Sorted.
From stdpp Require Import prelude strings.
From S2P Require Import Prelude Span IoBuffer FlipBuffer Messages ReliableStream PacketDeliveryManager ConnectionManager UnreliableStream Ticker Metrics IpAddress OrderedMap Network Neptun Datagrams Scenarios Channel Progress System Handshake Ends Lossy Rounds Startup.
Open Scope Z_scope.

(** ** What is left of a list

    After [got] has been taken out of it, in order and each as early as possible. *)
Fixpoint left_of (sent got : list bytes) : list bytes :=
  match sent, got with
  | _, [] => sent
  | [], _ => []
  | s :: sent, g :: got' => if decide (s = g) then left_of sent got' else left_of sent got
  end.

Lemma left_of_nil sent : left_of sent [] = sent.
Proof. by destruct sent. Qed.

Lemma left_of_app sent : ∀ got m, got `sublist_of` sent → left_of (sent ++ [m]) got = left_of sent got ++ [m].
Proof.
  induction sent as [|s sent IH]; intros got m Hsub; [by apply sublist_nil_r in Hsub as ->|].
  destruct got as [|g got]; [done|]. cbn. apply sublist_cons_r in Hsub. case_decide as Hd.
  - apply IH. destruct Hsub as [Hsub|(got' & [= -> <-] & Hsub)]; [|done]. etrans; [by apply sublist_cons|done].
  - apply IH. by destruct Hsub as [|(got' & [= -> <-] & _)].
Qed.

Lemma left_of_snoc sent : ∀ got m, got ++ [m] `sublist_of` sent → ∃ lost, left_of sent got = lost ++ m :: left_of sent (got ++ [m]).
Proof.
  induction sent as [|s sent IH]; intros got m Hsub; [by apply sublist_nil_r in Hsub; destruct got|].
  apply sublist_cons_r in Hsub. destruct got as [|g got]; cbn.
  - case_decide as Hd; [exists []; by rewrite Hd, left_of_nil|].
    destruct Hsub as [Hsub|(got' & [= -> <-] & _)]; [|done]. destruct (IH [] m Hsub) as [lost Hl]. rewrite left_of_nil in Hl.
    exists (s :: lost). cbn. by rewrite Hl at 1.
  - case_decide as Hd.
    + apply IH. destruct Hsub as [Hsub|(got' & [= -> <-] & Hsub)]; [|done]. etrans; [by apply sublist_cons|done].
    + apply (IH (g :: got)). by destruct Hsub as [|(got' & [= -> <-] & _)].
Qed.

(** A prefix of [l1 ++ l2] ends in [l1] or in [l2]. *)
Lemma prefix_app_inv_cases {A} (l l1 l2 : list A) :
  l `prefix_of` l1 ++ l2 → l `prefix_of` l1 ∨ ∃ m1 m2, l = l1 ++ m1 ∧ l2 = m1 ++ m2.
Proof.
  intros [k Hk]. symmetry in Hk. apply app_eq_inv in Hk as [(m & -> & E)|(m & -> & E)]; [right; by exists m, k|left; by exists m].
Qed.

(** ** Pipes *)

(** The reliable messages that have been given and not yet got, and the unreliable ones
    that may still be. *)
Record Pipe := mkPipe { queued : list bytes; loose : list bytes }.

Definition empty_pipe : Pipe := mkPipe [] [].

Section Pipes.
Context `{ByteOrder}.

(** From node [i], which is at [a], to node [j], which is at [b]. *)
Context (i j : nat) (a b : IpAddress).

(** The events at the two ends of the pipe. *)
Definition concerns (e : event) : bool :=
  match e with
  | Sent k _ ip _ => bool_decide (k = i) && same_key ip b
  | Delivered k _ ip _ => bool_decide (k = j) && same_key ip a
  end.

Inductive pipe_step : Pipe → event → Pipe → Prop :=
  | give_reliable ip m w u :
      same_key ip b = true → pipe_step (mkPipe w u) (Sent i true ip m) (mkPipe (w ++ [m]) u)
  | give_unreliable ip m w u :
      same_key ip b = true → pipe_step (mkPipe w u) (Sent i false ip m) (mkPipe w (u ++ [m]))
  | get_reliable ip m w u :
      same_key ip a = true → pipe_step (mkPipe (m :: w) u) (Delivered j true ip m) (mkPipe w u)
  | get_unreliable ip m w lost u :
      same_key ip a = true → pipe_step (mkPipe w (lost ++ m :: u)) (Delivered j false ip m) (mkPipe w u)
  | elsewhere p e : concerns e = false → pipe_step p e p.

Inductive pipe_run : Pipe → list event → Pipe → Prop :=
  | pipe_nil p : pipe_run p [] p
  | pipe_cons p e p1 es p' : pipe_step p e p1 → pipe_run p1 es p' → pipe_run p (e :: es) p'.

Lemma pipe_run_app p es1 es2 p' :
  pipe_run p (es1 ++ es2) p' ↔ ∃ p1, pipe_run p es1 p1 ∧ pipe_run p1 es2 p'.
Proof using Type.
  split.
  - revert p. induction es1 as [|e es1 IH]; intros p Hr; [exists p; by split; [constructor|]|].
    inversion_clear Hr as [|? ? p1 ? ? Hs Hr']. destruct (IH _ Hr') as (p2 & H1 & H2). exists p2. split; [by econstructor|done].
  - intros (p1 & H1 & H2). induction H1; [done|]. econstructor; eauto.
Qed.

(** The messages an event puts into the pipe, and those it takes out. *)
Definition given (reliable : bool) (e : event) : list bytes :=
  match e with Sent _ r _ m => if concerns e && bool_decide (r = reliable) then [m] else [] | Delivered _ _ _ _ => [] end.
Definition taken (reliable : bool) (e : event) : list bytes :=
  match e with Delivered _ r _ m => if concerns e && bool_decide (r = reliable) then [m] else [] | Sent _ _ _ _ => [] end.

Lemma sent_to_cons r e es : sent_to i r b (e :: es) = given r e ++ sent_to i r b es.
Proof using Type.
  destruct e as [k r' ip m|]; [|done]. cbn. by destruct (bool_decide (k = i)), (bool_decide (r' = r)), (same_key ip b).
Qed.

Lemma got_from_cons r e es : got_from j r a (e :: es) = taken r e ++ got_from j r a es.
Proof using Type.
  destruct e as [|k r' ip m]; [done|]. cbn. by destruct (bool_decide (k = j)), (bool_decide (r' = r)), (same_key ip a).
Qed.

Lemma sent_to_snoc r e es : sent_to i r b (es ++ [e]) = sent_to i r b es ++ given r e.
Proof using Type. by rewrite sent_to_app, sent_to_cons, app_nil_r. Qed.

Lemma got_from_snoc r e es : got_from j r a (es ++ [e]) = got_from j r a es ++ taken r e.
Proof using Type. by rewrite got_from_app, got_from_cons, app_nil_r. Qed.

(** A step by the messages of the event. *)
Lemma pipe_step_inv p e p' :
  pipe_step p e p' →
  queued p ++ given true e = taken true e ++ queued p' ∧
  ∃ lost, loose p ++ given false e = lost ++ taken false e ++ loose p'.
Proof using Type.
  intros Hs. destruct Hs as [ip m w u Hip|ip m w u Hip|ip m w u Hip|ip m w lost u Hip|p e He];
    [unfold given, taken; cbn; rewrite ?bool_decide_eq_true_2, Hip by done; cbn; rewrite ?app_nil_r..|].
  1,2,3: split; [done|by exists []].
  - split; [done|]. by exists lost.
  - assert (∀ r, given r e = [] ∧ taken r e = []) as Hnone by (intros r; unfold given, taken; rewrite He; by destruct e).
    destruct (Hnone true) as [-> ->], (Hnone false) as [-> ->]. rewrite !app_nil_r. split; [done|by exists []].
Qed.
(** *** What a pipe promises

    Reliable messages come out once, in order, and none is lost; unreliable ones come out
    at most once and in order. *)
Lemma pipe_run_in_order p es p' :
  pipe_run p es p' →
  queued p ++ sent_to i true b es = got_from j true a es ++ queued p' ∧
  got_from j false a es ++ loose p' `sublist_of` loose p ++ sent_to i false b es.
Proof using Type.
  induction 1 as [p|p e p1 es p' Hs _ [Hq Hl]]; [cbn; by rewrite !app_nil_r|].
  rewrite !sent_to_cons, !got_from_cons. destruct (pipe_step_inv _ _ _ Hs) as [Hqs [lost Hls]].
  split.
  - by rewrite !app_assoc, Hqs, <-!app_assoc, Hq.
  - rewrite (app_assoc (loose p)), Hls, <-!app_assoc. apply sublist_inserts_l, sublist_app; done.
Qed.
(** *** What makes a run of a pipe

    Every sequence of events that is in order at each moment is a run: the pipe holds the
    reliable messages that have not been got, and the unreliable ones behind those that
    have, taken as early as possible. *)
Definition pipe_of (es : list event) : Pipe :=
  mkPipe (drop (length (got_from j true a es)) (sent_to i true b es)) (left_of (sent_to i false b es) (got_from j false a es)).

Lemma pipe_of_step es e :
  in_order i j a b es → in_order i j a b (es ++ [e]) → pipe_step (pipe_of es) e (pipe_of (es ++ [e])).
Proof using Type.
  intros [[k Hk] Hu] [Hr' Hu']. unfold pipe_of. rewrite !sent_to_snoc, !got_from_snoc in *.
  destruct (concerns e) eqn:He.
  2:{ assert (∀ r, given r e = [] ∧ taken r e = []) as Hnone by (intros r; unfold given, taken; rewrite He; by destruct e).
    destruct (Hnone true) as [-> ->], (Hnone false) as [-> ->]. rewrite !app_nil_r. by constructor. }
  unfold given, taken in *. rewrite He in *. destruct e as [n r ip m|n r ip m]; cbn in He;
    apply andb_true_iff in He as [->%bool_decide_eq_true_1 Hip]; destruct r;
    cbv [bool_decide decide_rel decide] in *; cbn in *; rewrite ?app_nil_r in *.
  - rewrite drop_app_le by (rewrite Hk, length_app; lia). by constructor.
  - rewrite left_of_app by done. by constructor.
  - destruct Hr' as [w Hw]. rewrite Hw, <-app_assoc, drop_app_length. rewrite app_assoc, length_app, drop_app_length'; [by constructor|].
    by rewrite length_app.
  - destruct (left_of_snoc _ _ _ Hu') as [lost ->]. by constructor.
Qed.

Lemma in_order_run es :
  (∀ es1, es1 `prefix_of` es → in_order i j a b es1) → pipe_run empty_pipe es (pipe_of es).
Proof using Type.
  induction es as [|e es IH] using rev_ind; intros Hes; [constructor|].
  apply pipe_run_app. exists (pipe_of es). split.
  - apply IH. intros es1 Hes1. apply Hes. by apply prefix_app_r.
  - econstructor; [|constructor]. apply pipe_of_step; apply Hes; [by apply prefix_app_r|done].
Qed.
(** *** Events that come in groups

    A call either gives messages or gets some. It is enough to know that the events are
    in order between the calls. *)
Definition one_sided (es : list event) : Prop := (∀ r, sent_to i r b es = []) ∨ (∀ r, got_from j r a es = []).

Lemma group_in_order es g1 g2 :
  one_sided (g1 ++ g2) → in_order i j a b es → in_order i j a b (es ++ g1 ++ g2) → in_order i j a b (es ++ g1).
Proof using Type.
  intros Hg [Hr Hu] [Hr' Hu']. split; rewrite !sent_to_app, !got_from_app in *.
  - destruct Hg as [Hg|Hg]; specialize (Hg true); [rewrite sent_to_app in Hg|rewrite got_from_app in Hg];
      apply app_eq_nil in Hg as [E1 E2]; rewrite E1, ?E2, ?app_nil_r in *; [|by apply prefix_app_r].
    etrans; [|exact Hr']. apply prefix_app. by eexists.
  - destruct Hg as [Hg|Hg]; specialize (Hg false); [rewrite sent_to_app in Hg|rewrite got_from_app in Hg];
      apply app_eq_nil in Hg as [E1 E2]; rewrite E1, ?E2, ?app_nil_r in *; [|by apply sublist_inserts_r].
    etrans; [|exact Hu']. apply sublist_app; [done|]. by apply sublist_inserts_r.
Qed.

Lemma groups_run gs :
  Forall one_sided gs → (∀ k, in_order i j a b (concat (take k gs))) → pipe_run empty_pipe (concat gs) (pipe_of (concat gs)).
Proof using Type.
  intros Hgs Hk. apply in_order_run. induction gs as [|g gs IH] using rev_ind; intros es1 Hes1.
  { apply prefix_nil_inv in Hes1 as ->. by specialize (Hk 0%nat). }
  rewrite Forall_app, Forall_singleton in Hgs. destruct Hgs as [Hgs Hg].
  assert (∀ k, in_order i j a b (concat (take k gs))) as Hk'.
  { intros k. specialize (Hk (k `min` length gs)%nat). rewrite take_app_le in Hk by lia.
    destruct (decide (k ≤ length gs)%nat); [by rewrite Nat.min_l in Hk by lia|].
    rewrite Nat.min_r, take_ge in Hk by lia. by rewrite take_ge by lia. }
  rewrite concat_app in Hes1. cbn in Hes1. rewrite app_nil_r in Hes1.
  destruct (prefix_app_inv_cases _ _ _ Hes1) as [H1|(g1 & g2 & -> & ->)]; [by apply IH|].
  eapply group_in_order; [exact Hg| |].
  - specialize (Hk' (length gs)). by rewrite take_ge in Hk'.
  - specialize (Hk (length (gs ++ [g1 ++ g2]))). rewrite take_ge, concat_app in Hk by done. cbn in Hk. by rewrite app_nil_r in Hk.
Qed.
End Pipes.

(** ** Two nodes are two pipes *)

Section Calls.
Context `{Platform} {N : Type} `{HN : DatagramsOk N} (i j : nat) (a b : IpAddress).

(** After the events [es] node [i], at [a], and node [j], at [b], are a pipe from the one
    to the other: it is a run, and what is queued is what [i] still holds, behind messages
    that [j] has got already. *)
Definition carries (s : System N) (es : list event) : Prop :=
  ∃ n p held w u, pipe_run i j a b empty_pipe es (mkPipe w u) ∧
    nodes s !! i = Some n ∧ find (m_peers n) b = Some p ∧
    outstanding (reliable_stream p) = held ++ w ∧ held `suffix_of` got_from j true a es.

Lemma exactly_once_carries s gs :
  exactly_once_at s i j a b (concat gs) → Forall (one_sided i j a b) gs →
  (∀ k, in_order i j a b (concat (take k gs))) → carries s (concat gs).
Proof using Type.
  intros (n & p & held & kept & Hn & Hp & Hs & Ho & Hh) Hgs Hk.
  pose proof (groups_run i j a b gs Hgs Hk) as Hrun. unfold pipe_of in Hrun. rewrite Hs, drop_app_length in Hrun.
  by exists n, p, held, kept, (left_of (sent_to i false b (concat gs)) (got_from j false a (concat gs))).
Qed.

Lemma exec_one_sided (s : System N) c s' es : exec s c = Ok (s', es) → one_sided i j a b es.
Proof using Type.
  destruct c as [k ip now|k ip f now|k ip f now|k now|fd ip payload]; cbn [exec]; intros He; [| | | |right];
    try (destruct (nodes s !! k) as [n|]; [|injection He as <- <-; by left]).
  - injection He as <- <-. by left.
  - apply Prelude.bind_Ok in He as (n' & _ & [= <- <-]). right. intros r. apply got_from_sent.
  - apply Prelude.bind_Ok in He as (n' & _ & [= <- <-]). right. intros r. apply got_from_sent.
  - apply Prelude.bind_Ok in He as ([[[net' n'] rel] unrel] & _ & [= <- <-]). left. intros r.
    destruct (incoming _ _); [|done]. by rewrite sent_to_app, !sent_to_delivered.
  - by apply Prelude.bind_Ok in He as ([net' size] & _ & [= <- <-]).
Qed.

(** The events of the first [k] steps of a run. *)
Lemma steps_groups {S C} (step : S → C → result (S * list event)) (all : S → list C → result (S * list event)) cs :
  (∀ s, all s [] = Ok (s, [])) →
  (∀ s c cs, all s (c :: cs) = ('(s, es) ← step s c; '(s, es') ← all s cs; Ok (s, es ++ es'))) →
  (∀ s c s' es, step s c = Ok (s', es) → one_sided i j a b es) →
  ∀ s s' es, all s cs = Ok (s', es) →
  ∃ gs, es = concat gs ∧ Forall (one_sided i j a b) gs ∧ ∀ k, ∃ s1, all s (take k cs) = Ok (s1, concat (take k gs)).
Proof using Type.
  intros Hnil Hcons Hstep. induction cs as [|c cs IH]; intros s s' es He.
  { rewrite Hnil in He. injection He as <- <-. exists []. split_and!; try done. intros k. exists s. by rewrite !take_nil. }
  rewrite Hcons in He.
  apply Prelude.bind_Ok in He as ([s1 g] & Ec & He). apply Prelude.bind_Ok in He as ([s2 es2] & Ecs & [= <- <-]).
  destruct (IH _ _ _ Ecs) as (gs & -> & Hgs & Hk). exists (g :: gs). split; [done|]. split.
  { constructor; [by eapply Hstep|done]. }
  intros [|k]; [by exists s|]. destruct (Hk k) as [s3 Ek]. exists s3. cbn [take].
  rewrite Hcons, Ec. cbn [mbind result_bind]. by rewrite Ek.
Qed.

Lemma exec_all_groups cs (s s' : System N) es :
  exec_all s cs = Ok (s', es) →
  ∃ gs, es = concat gs ∧ Forall (one_sided i j a b) gs ∧ ∀ k, ∃ s1, exec_all s (take k cs) = Ok (s1, concat (take k gs)).
Proof using Type. apply (steps_groups exec exec_all); [done..|exact exec_one_sided]. Qed.
End Calls.

Section Refinement.
Context `{Platform} {N : Type} `{HN : DatagramsOk N}.

(** C4: two connected endpoints refine a pipe in each direction. Whatever the endpoints
    of a system, other programs and the network do from the end of their handshake on, as
    in [System] (the two do not connect to each other again): what the two applications
    give and get is, event by event, a run of the abstract service. A reliable message is
    got when it is the oldest one that has been given and not yet got, an unreliable one
    when it was given and neither it nor a later one has been got. What waits in the pipe
    is what the sender still holds. *)
Theorem system_refines_pipes cs (s s' : System N) es i j a b cfgl cfgr p q :
  linked_up s i j a b cfgl cfgr p q →
  m_next_outgoing_packet_id (packet_delivery_manager p) + 3 * len cs < 2 ^ 32 →
  m_next_outgoing_packet_id (packet_delivery_manager q) + 3 * len cs < 2 ^ 32 →
  Forall (call_ok s i j a b) cs → exec_all s cs = Ok (s', es) →
  carries i j a b s' es ∧ carries j i b a s' es.
Proof.
  intros Hlu Hbp Hbq Hcs He.
  assert (∀ k s1 es1, exec_all s (take k cs) = Ok (s1, es1) →
    (exactly_once_at s1 i j a b es1 ∧ in_order i j a b es1) ∧ (exactly_once_at s1 j i b a es1 ∧ in_order j i b a es1)) as Hall.
  { intros k s1 es1 Hk. assert (len (take k cs) ≤ len cs) by (rewrite length_take; lia).
    destruct (system_run (take k cs) s s1 es1 i j a b cfgl cfgr p q Hlu) as (xs & l & r & hl & hr & h & _ & _ & _ & Hch & Hp);
      [lia|lia|by apply Forall_take|done|]. by eapply paired_exactly_once. }
  assert (exec_all s (take (length cs) cs) = Ok (s', es)) as He' by (by rewrite take_ge).
  destruct (Hall _ _ _ He') as [[Hl _] [Hr _]]. split.
  - destruct (exec_all_groups i j a b cs s s' es He) as (gs & -> & Hgs & Hk). apply exactly_once_carries; [done..|].
    intros k. destruct (Hk k) as [s1 Hs1]. by apply (Hall k s1).
  - destruct (exec_all_groups j i b a cs s s' es He) as (gs & -> & Hgs & Hk). apply exactly_once_carries; [done..|].
    intros k. destruct (Hk k) as [s1 Hs1]. by apply (Hall k s1).
Qed.
End Refinement.

(** ** From the constructors on *)

Section Start.
Context `{Platform} `{ByteOrder} (Hpop : pop_on_empty = Ok []) (Hover : overread = true) (limited : bool).
#[local] Existing Instance FakeNetwork.fake_network.
Context (a b : IpAddress) (Hab : same_key a b = false) (cr ci : ConnectionManagerConfig).
Context (Hcr : configured cr) (Hci : configured ci) (Tr Ti : Z).
Context (Hrates : limited = false → rate_of cr ci = 0 ∧ rate_of ci cr = 0).

Lemma play_all_groups i j x y ms (s s' : System FakeNetwork.FakeNetwork) es :
  play_all s ms = Ok (s', es) →
  ∃ gs, es = concat gs ∧ Forall (one_sided i j x y) gs ∧ ∀ k, ∃ s1, play_all s (take k ms) = Ok (s1, concat (take k gs)).
Proof using Type.
  apply (steps_groups i j x y play play_all); [done..|]. intros s1 [c|d] s2 es2 Hp; [by eapply exec_one_sided|].
  injection Hp as _ <-. by left.
Qed.

Lemma pair_in_order (k k' : nat) cfg cfg' x y size size' base base' net n m l r js js' es budget ns :
  pair_ok limited k k' cfg cfg' x y size size' base base' net n m l r js js' es budget → ns !! k = Some n →
  exactly_once_at (mkSystem net ns) k k' x y es ∧ in_order k k' x y es.
Proof using Type.
  intros Hp Hn. destruct (pair_exactly_once _ _ _ _ _ _ _ _ _ _ _ _ _ _ _ _ _ _ _ _ _ Hp Hn) as [He Hu].
  split; [done|]. split; [by eapply exactly_once_prefix|done].
Qed.

(** The start has no events. *)
Lemma from_start_groups i j x y mtu t0 t1 t2 t3 t4 ms s es :
  address_string a ≠ address_string b → kJustBelowMtu ≤ mtu < 2 ^ 31 → startup_times cr ci Tr Ti t0 t1 t2 t3 t4 →
  from_start a b cr ci Tr Ti mtu t0 t1 t2 t3 t4 ms = Ok (s, es) →
  ∃ gs, es = concat gs ∧ Forall (one_sided i j x y) gs ∧
    ∀ k, ∃ s1, from_start a b cr ci Tr Ti mtu t0 t1 t2 t3 t4 (take k ms) = Ok (s1, concat (take k gs)).
Proof using Hab Hci Hcr Hover Hpop Hrates.
  intros Hdiff Hmtu Hts Hrun.
  destruct (startup_pair Hpop Hover limited a b Hab cr ci Hcr Hci Tr Ti Hrates mtu t0 t1 t2 t3 t4 0 Hdiff Hmtu Hts ltac:(lia))
    as (s0 & net & m & n & l & q & Hfresh & Hplay & _).
  unfold from_start in *. rewrite Hfresh in *. cbn [mbind result_bind] in *. rewrite play_all_app, Hplay in Hrun.
  cbn [mbind result_bind] in Hrun. apply Prelude.bind_Ok in Hrun as ([s1 es1] & Hms & [= -> <-]).
  destruct (play_all_groups i j x y ms _ _ _ Hms) as (gs & -> & Hgs & Hk). exists gs. split; [done|]. split; [done|].
  intros k. destruct (Hk k) as [s2 Hs2]. exists s2. rewrite play_all_app, Hplay. cbn [mbind result_bind]. by rewrite Hs2.
Qed.

(** C10: the class from its constructors on refines a pipe in each direction. Two
    endpoints, whose limits are at least 100 bytes to send and 256 to read, are constructed
    on a new [FakeNetwork], one calls [connect], and each ticks twice in turn, before its
    packets time out and, if the two agree on rates, an interval apart. From then on they
    may send and tick in any order and at any times, while the network drops packets
    whenever it likes. No call fails, and what the two applications give and get is, event
    by event, a run of the abstract service. The platform is one on which an index just behind a span reads the
    byte that follows it in the buffer and the [pop] of an empty queue leaves it empty;
    the standard promises neither, and without the second no handshake ends
    ([ConnectionManager.never_fully_connected]). *)
Theorem startup_refines_pipes mtu t0 t1 t2 t3 t4 ms :
  address_string a ≠ address_string b → kJustBelowMtu ≤ mtu < 2 ^ 31 → startup_times cr ci Tr Ti t0 t1 t2 t3 t4 →
  Forall (move_ok a b) ms → 3 * len ms < 2 ^ 31 →
  ∃ s es, from_start a b cr ci Tr Ti mtu t0 t1 t2 t3 t4 ms = Ok (s, es) ∧ carries 0 1 a b s es ∧ carries 1 0 b a s es.
Proof using Hab Hci Hcr Hover Hpop Hrates.
  intros Hdiff Hmtu Hts Hms Hb.
  assert (∀ k, ∃ s1 es1, from_start a b cr ci Tr Ti mtu t0 t1 t2 t3 t4 (take k ms) = Ok (s1, es1) ∧
    (exactly_once_at s1 0 1 a b es1 ∧ in_order 0 1 a b es1) ∧ (exactly_once_at s1 1 0 b a es1 ∧ in_order 1 0 b a es1)) as Hall.
  { intros k. assert (len (take k ms) ≤ len ms) by (rewrite length_take; lia).
    destruct (from_start_pair Hpop Hover limited a b Hab cr ci Hcr Hci Tr Ti Hrates mtu t0 t1 t2 t3 t4 (take k ms) 0 Hdiff Hmtu Hts)
      as (net & m & n & l & r & js & js' & es & Hrun & Hpair); [by apply Forall_take|done|lia|].
    exists (mkSystem net [m; n]), es. split; [done|]. split; [by eapply pair_in_order|]. apply pair_sym in Hpair. by eapply pair_in_order. }
  destruct (Hall (length ms)) as (s & es & Hrun & [Hl _] & [Hr _]). rewrite take_ge in Hrun by done.
  exists s, es. split; [done|]. split.
  - destruct (from_start_groups 0 1 a b mtu t0 t1 t2 t3 t4 ms s es Hdiff Hmtu Hts Hrun) as (gs & -> & Hgs & Hk).
    apply exactly_once_carries; [done..|]. intros k. destruct (Hk k) as [s1 Hs1].
    destruct (Hall k) as (s2 & es2 & Hs2 & [_ Hio] & _). rewrite Hs1 in Hs2. by injection Hs2 as <- <-.
  - destruct (from_start_groups 1 0 b a mtu t0 t1 t2 t3 t4 ms s es Hdiff Hmtu Hts Hrun) as (gs & -> & Hgs & Hk).
    apply exactly_once_carries; [done..|]. intros k. destruct (Hk k) as [s1 Hs1].
    destruct (Hall k) as (s2 & es2 & Hs2 & _ & [_ Hio]). rewrite Hs1 in Hs2. by injection Hs2 as <- <-.
Qed.
End Start.

(** ** A run *)

Section Witness.
#[local] Existing Instance little_endian.
#[local] Existing Instance FakeNetwork.fake_network.
#[local] Existing Instance tolerant.

Lemma system_refines_pipes_witness :
  ∃ s s' es, joined = Ok s ∧ exec_all s calls = Ok (s', es) ∧ (3 < length es)%nat ∧
    carries 0 1 server_ip client_ip s' es ∧ carries 1 0 client_ip server_ip s' es.
Proof.
  destruct joined as [s|] eqn:Hs; [|by vm_compute in Hs].
  destruct (exec_all s calls) as [[s' es]|] eqn:He;
    [|exfalso; vm_compute in Hs; injection Hs as <-; by vm_compute in He].
  exists s, s', es. split; [done|]. split; [done|].
  split; [vm_compute in Hs; injection Hs as <-; vm_compute in He; injection He as _ <-; by vm_compute; repeat constructor|].
  exact (system_refines_pipes calls s s' es 0 1 server_ip client_ip config config client_at_server quiet_client
    (joined_linked s Hs) eq_refl eq_refl (calls_ok s Hs) He).
Defined.

Lemma startup_refines_pipes_witness :
  ∃ s es, started = Ok (s, es) ∧ carries 0 1 server_ip client_ip s es ∧ carries 1 0 client_ip server_ip s es ∧
    sent_to 0 true client_ip es = [[1; 2; 3]; [4]; [7]].
Proof.
  destruct (@startup_refines_pipes tolerant little_endian eq_refl eq_refl true server_ip client_ip ips_differ server_config client_config
    server_configured client_configured 5000 5000 ltac:(discriminate) 1400 0 0 (10 * ms) (40 * ms) (100 * ms) startup_moves
    ips_other_strings ltac:(split; [vm_compute; congruence|reflexivity]) test_times startup_moves_ok eq_refl) as (s & es & Hs & Hl & Hr).
  exists s, es. split; [exact Hs|]. split; [exact Hl|]. split; [exact Hr|]. exact (proj1 (started_settled s es Hs)).
Defined.
End Witness.
