(* ===== verification/HalfOpen.v ===== *)
(** * HalfOpen: packets for an endpoint that is not connected yet

    [Neptun::read] accepts, and so acknowledges, the packets of a peer whose limits it
    does not know, but stops before their messages. A sender that is connected to an
    endpoint that is not therefore loses its messages. The runs below show how two ends
    get there, and what becomes of a lost response and of two ends that connect to each
    other at the same time ([Handshake.simultaneous_connect_deadlock]). *)
From Stdlib Require Import ZArith Lia.
From stdpp Require Import prelude strings.
From S2P Require Import Prelude Span IoBuffer FlipBuffer Messages ReliableStream PacketDeliveryManager ConnectionManager UnreliableStream Ticker Metrics IpAddress OrderedMap Network Neptun Datagrams Scenarios Channel System.
Open Scope Z_scope.

Lemma read_segments_unconnected `{Platform} cfg p metrics sts buffer tail next first :
  sts.*1 = seqZ next (len sts) → ReliableStream.inv (reliable_stream p) first →
  Forall (λ m, next ≤ packet_id m) (in_flight_messages (reliable_stream p)) →
  handshake_safe (connection_manager p) → wf NeptunMetricKey metrics →
  is_peer_connected (connection_manager p) = false → len buffer < 2 ^ 62 →
  len buffer < Segment.kSerializedSize ∨ (∃ t, Segment.manager_type buffer = Ok t ∧ t ≠ CONNECTION_MANAGER) →
  ∃ p' metrics', read_segments cfg p metrics sts buffer tail = Ok (p', metrics', [], []) ∧
    packet_delivery_manager p' = packet_delivery_manager p ∧
    is_peer_connected (connection_manager p') = false ∧
    m_next_expected_sequence_number (reliable_stream p') = m_next_expected_sequence_number (reliable_stream p).
Proof.
  intros Hids Hrel Hge Hsafe Hwf Hnc Hl Hother. unfold read_segments.
  destruct (statuses_Ok sts p metrics next first Hids Hrel Hge Hsafe Hwf)
    as (c & s & metrics' & k & -> & _ & _ & Hexp & _ & _ & _ & Hlim & _ & _).
  cbn [mbind result_bind connection_manager with_reliable with_cm]. rewrite cm_read_other by done.
  cbn [mbind result_bind]. rewrite Span.advance_Ok by lia. cbn [mbind result_bind].
  unfold is_peer_connected in Hnc. rewrite <-Hlim in Hnc. unfold peer_limit.
  destruct (m_peer_bandwidth_limit c) eqn:Hc; [done|]. do 2 eexists. split; [done|]. split_and!; try done.
  unfold is_peer_connected. cbn. by rewrite Hc.
Qed.

(** C15: an unconnected endpoint acknowledges messages it throws away. Any new packet that
    it accepts and that starts with no handshake segment is put on the list of
    acknowledgements, whatever messages it carries; none is handed over, and the stream
    still waits for the first of them. *)
Theorem unconnected_acknowledges `{Platform} cfg p resolved sent first leak metrics buffer rest hid :
  peer_inv p resolved sent first leak → sent ≤ 2 ^ 32 → 12 ≤ len buffer < 2 ^ 62 →
  PacketHeader.id buffer = Ok hid → hid ≠ 2 ^ 32 - 1 →
  m_next_expected_packet_id (packet_delivery_manager p) ≤ hid →
  handshake_safe (connection_manager p) → wf NeptunMetricKey metrics →
  is_peer_connected (connection_manager p) = false →
  len (drop 12 buffer) < Segment.kSerializedSize ∨
    (∃ t, Segment.manager_type (drop 12 buffer) = Ok t ∧ t ≠ CONNECTION_MANAGER) →
  ∃ p' metrics', read_packet cfg p metrics buffer rest = Ok (p', metrics', [], []) ∧
    m_pending_acks (packet_delivery_manager p') = m_pending_acks (packet_delivery_manager p) ++ [hid] ∧
    is_peer_connected (connection_manager p') = false ∧
    m_next_expected_sequence_number (reliable_stream p') = m_next_expected_sequence_number (reliable_stream p).
Proof.
  intros [[Hpdm Hrel _ _ _] Hcoupled] Hs Hl Hid Hne Hfresh Hsafe Hwf Hnc Hother.
  destruct (header_prefix buffer (beyond rest)) as (Hid' & _ & _); [unfold PacketHeader.kSerializedSize; lia|].
  destruct (process_read_Ok _ resolved sent (buffer ++ beyond rest) Hpdm Hs)
    as (hid' & a & mask & q1 & q2 & m' & Hi & _ & _ & Hq & Hread & _ & _ & Hids & _ & _ & Hack);
    [unfold PacketHeader.kSerializedSize; list_lia|congruence|].
  assert (hid' = hid) as -> by congruence. rewrite (proj2 (Z.leb_le _ _) Hfresh) in Hread, Hack.
  unfold read_packet. rewrite Hread. cbn [mbind result_bind].
  change (PacketHeader.kSerializedSize =? 0) with false. cbv iota.
  rewrite Span.advance_Ok by (unfold PacketHeader.kSerializedSize; lia). cbn [mbind result_bind].
  change (Z.to_nat PacketHeader.kSerializedSize) with 12%nat.
  assert ((statuses_of a mask q1).*1 = seqZ resolved (len (statuses_of a mask q1))) as Hst.
  { rewrite fst_statuses_of, Hids. unfold statuses_of. by rewrite length_fmap. }
  destruct (read_segments_unconnected cfg (with_pdm p m') metrics (statuses_of a mask q1) (drop 12 buffer) (beyond rest)
    resolved first Hst Hrel Hcoupled Hsafe Hwf Hnc) as (p' & metrics' & -> & Ep & Hnc' & Hx); [list_lia|done|].
  exists p', metrics'. split; [done|]. by rewrite Ep.
Qed.

(** ** Runs *)

Section Runs.
#[local] Existing Instance little_endian.
#[local] Existing Instance FakeNetwork.fake_network.
#[local] Existing Instance tolerant.

(** No redundant packets. *)
Definition frugal : ConnectionManagerConfig := mkConfig 0 (mkLimit 0 1400 0 800).

(** The client's request arrives, the server's response is lost. *)
Definition half_open : result (System FakeNetwork.FakeNetwork) :=
  w ← Scenarios.start frugal frugal;
  '(w, _, _) ← tick_client (mkWorld (Scenarios.network w) (server w) (Neptun.connect (client w) server_ip 0)) 0;
  '(w, _, _) ← tick_server (with_network w (FakeNetwork.drop_packets (Scenarios.network w) true)) 0;
  Ok (mkSystem (FakeNetwork.drop_packets (Scenarios.network w) false) [server w; client w]).

(** Both ends connect, and the client's request is lost. *)
Definition both_connect : result (System FakeNetwork.FakeNetwork) :=
  w ← Scenarios.start frugal frugal;
  let w := mkWorld (Scenarios.network w) (Neptun.connect (server w) client_ip 0) (Neptun.connect (client w) server_ip 0) in
  '(w, _, _) ← tick_client (with_network w (FakeNetwork.drop_packets (Scenarios.network w) true)) 0;
  Ok (mkSystem (FakeNetwork.drop_packets (Scenarios.network w) false) [server w; client w]).

(** [n] turns, a second apart, in which both tick. *)
Definition ticking (n : Z) : list call :=
  mjoin ((λ k, [Tick 0 (k * 1000 * ms); Tick 1 (k * 1000 * ms)]) <$> seqZ 1 n).

(** The peer that node [i] keeps for [ip]. *)
Definition peer_at (s : System FakeNetwork.FakeNetwork) (i : nat) (ip : IpAddress) : option Peer :=
  n ← nodes s !! i; find (m_peers n) ip.

(** Whether each end knows the limits of the other and takes itself for connected. *)
Definition connected_ends (s : System FakeNetwork.FakeNetwork) : list (option (bool * bool)) :=
  (λ end_ : nat * IpAddress, (λ p, (is_peer_connected (connection_manager p), m_self_is_connected (connection_manager p)))
     <$> peer_at s end_.1 end_.2) <$> [(0%nat, client_ip); (1%nat, server_ip)].

(** The acknowledgement of the request travels with the response, so losing that packet
    makes the request be repeated: ticking alone connects both ends. *)
Example lost_response_recovers :
  (s ← half_open; '(s, _) ← exec_all s (ticking 4); Ok (connected_ends s))
  = Ok [Some (true, true); Some (true, true)].
Proof. vm_compute. reflexivity. Qed.

(** When both connect and one request is lost no ticking helps: the server answers
    nothing, since it takes its own request for the start of the handshake, and the client
    does not repeat its request, since it has learned the limits of the server. *)
Example colliding_requests_stay_stuck :
  (s ← both_connect; '(s, _) ← exec_all s (ticking 30); Ok (connected_ends s))
  = Ok [Some (false, true); Some (true, false)].
Proof. vm_compute. reflexivity. Qed.

Definition half_open_calls : list call :=
  [SendReliable 0 client_ip (write_message [7]) 0; Tick 0 ms; Tick 1 ms; Tick 0 (2 * ms);
   Connect 1 server_ip (3 * ms); Tick 1 (3 * ms); Tick 0 (3 * ms); Tick 1 (4 * ms); Tick 0 (4 * ms); Tick 1 (5 * ms);
   SendReliable 0 client_ip (write_message [8]) (6 * ms); Tick 0 (6 * ms); Tick 1 (6 * ms); Tick 0 (7 * ms)].

(** What the run comes to: connected on both sides, what was sent, what was got, what is still held. *)
Definition summary (s : System FakeNetwork.FakeNetwork) (es : list event) :=
  (connected_ends s, sent_to 0 true client_ip es, got_from 1 true server_ip es,
   (λ p, outstanding (reliable_stream p)) <$> peer_at s 0 client_ip).

(** What [unconnected_acknowledges] leads to. The server's response is lost and the server
    sends [7], which [send_reliable_to] allows since it knows the client's limit. The client
    acknowledges the packet and throws the message away. The client connects again, and
    both ends are fully connected; but the client waits for message 0 for ever, so [8],
    sent after that, is acknowledged and thrown away too. *)
Example half_open_messages_lost :
  (s ← half_open; '(s, es) ← exec_all s half_open_calls; Ok (summary s es))
  = Ok ([Some (true, true); Some (true, true)], [[7]; [8]], [], Some []).
Proof. vm_compute. reflexivity. Qed.

(** A peer that waits for the response, with packets and messages under way. *)
Definition waiting_peer : Peer := with_cm sample_peer (ConnectionManager.connect (ConnectionManager.create frugal)).

Lemma waiting_peer_inv : peer_inv waiting_peer 0 1 1 2.
Proof. destruct sample_peer_inv as [[] ?]. split; [by split|done]. Qed.

Lemma unconnected_acknowledges_witness :
  let buffer := PacketHeader.encode 4 0 1 ++ segment_of 0 [[7]] in
  ∃ p' metrics', @read_packet standard frugal waiting_peer no_metrics buffer [] = Ok (p', metrics', [], []) ∧
    m_pending_acks (packet_delivery_manager p') = [1; 3] ++ [4] ∧
    is_peer_connected (connection_manager p') = false ∧
    m_next_expected_sequence_number (reliable_stream p') = 0.
Proof.
  cbv zeta. apply (@unconnected_acknowledges standard frugal waiting_peer 0 1 1 2 no_metrics
    (PacketHeader.encode 4 0 1 ++ segment_of 0 [[7]]) [] 4 waiting_peer_inv); try (done || (simpl; lia)).
  - by left.
  - right. by exists RELIABLE_STREAM.
Defined.
End Runs.
